(* ===== verification/_CoqProject ===== *)
-Q . S2P
Prelude.v
Float.v
GoStrings.v
Duration.v
Regex.v
Errors.v
Json.v
Decimal.v
Url.v
Api.v
Filters.v
Jsonc.v
Tree.v
Codec.v
Data.v
TypedSettings.v
ConnString.v
Tracing.v
Backoff.v
Clients.v
Failover.v
SettingsClients.v
Auth.v
KeyVault.v
SettingLoader.v
ManagerInvariant.v
LoadSpec.v
Processor.v
Validation.v
Reconciler.v
Completion.v
Events.v
Program.v
Main.v
System.v
Convergence.v
