(* ===== verification/Prelude.v ===== *)
(** * The Azure App Configuration provider for Kubernetes

    A custom resource, [AzureAppConfigurationProvider], names an App
    Configuration store, what to select from it, and the ConfigMap and Secrets
    to make of it.  The controller of this repository reads the resource, loads
    the settings, writes the objects, and comes back when a refresh is due.
    This library models the controller, from [cmd/main.go] down to the rules
    for keys and values, and proves what makes it correct.

    ** The program and its model

    - [cmd/main.go] sets the controller up: Main.v.
    - [internal/controller/]: a watched object that changes queues a request
      ([event_handler.go], [SetupWithManager]: Events.v); a request is
      reconciled ([appconfigurationprovider_controller.go]: Reconciler.v): the
      specification and the existing objects are checked ([utils.go]:
      Validation.v), a processor decides what is due and loads it
      ([processor.go]: Processor.v), the objects that differ are written, the
      Secrets no longer wanted are deleted, the status is patched.
    - [internal/loader/]: the loader ([configuration_setting_loader.go])
      normalises the selectors (Filters.v), asks the store through a failover
      policy (Failover.v) over the clients of a client manager
      ([configuration_client_manager.go]: ConnString.v, Backoff.v, Clients.v,
      Auth.v), by the three kinds of request of [settings_client.go]
      (SettingsClients.v), with the tracing header of [request_tracing.go]
      (Tracing.v); the settings are collected, snapshots and secret references
      expanded, feature flags deduplicated (SettingLoader.v, KeyVault.v with
      [keyvault_reference_resolver.go]), and put in the format of the target
      ([typed_setting.go], [tree.go], [internal/jsonc]: TypedSettings.v, Tree.v,
      Jsonc.v).  [errors.go] is Errors.v.
    - [api/v1/]: the types of the resource, Api.v; the data the loader and the
      controller exchange, Data.v.
    - Program.v puts the loader under the reconciler: the whole program, which
      System.v runs over a sequence of requests, each in an environment of its
      own.

    Below the program are the parts of Go and its library it rests on: outcomes,
    state, wrap-around and time in this file, Float.v ([float64]), GoStrings.v
    ([strings], [strconv]), Duration.v ([time.ParseDuration]), Url.v
    ([net/url]), Json.v ([encoding/json]), Regex.v ([regexp]).

    ** How code is written here

    A Go function that returns an error is a value of [outcome]: [Ok], [Err] or
    [Panic]; a nil dereference, an index out of range and a write to a nil map
    are [Panic].  A method is a [goM]: state passing, in which the state
    survives an error and a panic, as it does in Go.  Names are the source's.  A
    pointer that is shared and written through (the clients of the manager) is an
    index of a heap; any other is an [option].  A loop over a Go map takes its
    order from the interface [MapOrder], and theorems either hold in every
    order or say what depends on it.  Time is an integer number of nanoseconds,
    a parameter of each operation that reads the clock; the snapshots of one
    load share a reading.  A nil map or slice is an [option] where the code tells
    it from an empty one (the data of an object), except that the annotations
    and labels of an object, and the bytes of one entry of a Secret, are
    compared with nil and empty taken as one.

    What is not in the repository is an interface (a [Class]) with the calls
    made: the store ([Store], [SDK]), the cluster ([Kube], [Cluster]), Key Vault
    ([Vault]), credentials ([Identity]), DNS ([Resolver]), X.509 and PKCS#12
    ([Crypto]), YAML ([Yaml2], [Codec]), [uuid.Parse] ([UUIDParser]), the
    controller runtime ([Runtime]), Unicode tables ([Unicode]), the syntax of IP
    addresses ([IPLiterals]), environment variables ([WorkloadEnv],
    [TenantEnv]).  Where a theorem relies on more than their types, the law is a
    class of its own ([SDKOk], [KubeOk], [KubeQuiet], ...), and a witness
    instantiates it.  Two of the program's own boundaries are interfaces too:
    [Retriever] between the processor and the loader, and [LoaderOf] between
    the reconciler and the loader with its client manager.

    The loops of the source that are not structural take fuel, and a lemma says
    how much is enough: the length of the text for the parsers
    ([split_fuel_enough], [parse_components_fuel], the scanners of Jsonc.v); the
    number of records for the lookup of replicas
    ([Clients.QuerySrvTargetHost_terminates]).

    ** What the theorems show

    - Safety of the cluster: an object is written or deleted only if it does not
      exist or the provider owns it (Reconciler.v), in every run of the
      controller (System.v: [reachable], [program_reachable]); a provider in
      step with the cluster is left alone and a completed reconciliation puts it
      there (Convergence.v); a final phase is always recorded, complete only
      when all that was loaded is in the cluster, and a failure comes back
      (Completion.v).
    - What is loaded: the data of the ConfigMap and the Secrets are those of the
      settings listed, the last of a key winning, snapshots expanded (LoadSpec.v,
      SettingLoader.v, Tree.v, TypedSettings.v), whatever the order of maps and
      goroutines; documents and keys are read back as written.
    - Refreshes: nothing is loaded before it is due, a failed refresh stays due,
      changes of the store's pages are detected, only secrets without a version
      are resolved again (Processor.v, SettingsClients.v).
    - Availability: the failover policy returns the first answer, backs off
      exactly the clients that failed, balances in turn (Failover.v); replicas
      are trusted hosts, looked up at bounded rates (Clients.v, ManagerInvariant.v).
    - Input checking: a specification is accepted exactly when it satisfies a
      declarative predicate, and refused with an argument error (Validation.v).
    - Texts: filters, comments, connection strings, references and comparable
      selectors against reference definitions and round trips.

    ** Not modelled

    - [zz_generated.deepcopy.go] and the mocks are generated: values are
      immutable here, so a copy is the value; where the code updates a shared
      map or slice in place the store is explicit.
    - [groupversion_info.go] registers types with the scheme; its group and
      version are [Validation.GroupVersion].
    - Logs and metrics.  Contexts: a cancelled context is an error of the call
      that meets it.  HTTP below the SDK.
    - Reconciliations of one provider do not overlap (the work queue of the
      controller runtime sees to it), so a run is a sequence.  The goroutines
      of one reconciliation (secrets, lookup of replicas) are taken in an
      arbitrary order, each as one step. *)

From stdpp Require Export prelude gmap strings list sorting pretty.
From Stdlib Require Export ZArith Lia.
From Stdlib Require Import Ascii.

(** ** Record update

    [r <| f := v |>] is the Go assignment [r.f = v] on a value: a copy of
    [r] with the field [f] replaced.  A record takes part by declaring an
    [Eta] instance that rebuilds it from its fields. *)
Class Eta (R : Type) := eta : R → R.
Class Setter {R T : Type} (p : R → T) := set : (T → T) → R → R.

Ltac build_setter :=
  match goal with
  | |- @Setter ?R ?T ?p =>
    let e := constr:(_ : Eta R) in
    let e := eval hnf in e in
    match eval pattern p in e with
    | ?F _ =>
      let t := eval cbv beta in (fun f : T → T => F (fun r => f (p r))) in
      exact t
    end
  end.
#[export] Hint Extern 1 (Setter _) => build_setter : typeclass_instances.

Declare Scope go_scope.
Delimit Scope go_scope with go.
Notation "r <| p := v |>" := (set (p:=p) (λ _, v) r)
  (at level 1, p constr, v at level 200, left associativity,
   format "r <| p  :=  v |>") : go_scope.
Open Scope go_scope.

(** ** Outcomes of a Go call

    A call returns a value, returns a non-nil [error], or panics (a nil
    dereference, an index out of range, a write to a nil map). *)
Inductive outcome (E A : Type) : Type :=
  | Ok (a : A)
  | Err (e : E)
  | Panic.
Arguments Ok {E A} a.
Arguments Err {E A} e.
Arguments Panic {E A}.

Definition is_ok {E A} (o : outcome E A) : bool :=
  match o with Ok _ => true | _ => false end.

(** The call returns no error (it may panic). *)
Definition no_err {E A} (o : outcome E A) : Prop := ∀ e, o ≠ Err e.

#[export] Instance outcome_ret {E} : MRet (outcome E) := λ A a, Ok a.
#[export] Instance outcome_bind {E} : MBind (outcome E) := λ A B f o,
  match o with
  | Ok a => f a
  | Err e => Err e
  | Panic => Panic
  end.

#[export] Instance outcome_fmap {E} : FMap (outcome E) := λ A B f o,
  match o with Ok a => Ok (f a) | Err e => Err e | Panic => Panic end.

(** Dereference of a possibly nil pointer. *)
Definition deref {E A} (p : option A) : outcome E A :=
  match p with Some a => Ok a | None => Panic end.

Section outcome_lemmas.
Context {E : Type}.

Lemma outcome_bind_Ok {A B} (o : outcome E A) (f : A → outcome E B) b :
  (o ≫= f) = Ok b ↔ ∃ a, o = Ok a ∧ f a = Ok b.
Proof. destruct o; simpl; naive_solver. Qed.

Lemma outcome_bind_Err {A B} (o : outcome E A) (f : A → outcome E B) e :
  (o ≫= f) = Err e ↔ o = Err e ∨ ∃ a, o = Ok a ∧ f a = Err e.
Proof. destruct o; simpl; naive_solver. Qed.
End outcome_lemmas.

Create HintDb go discriminated.

(** ** State with errors

    A Go method that mutates its receiver and may fail: the state reached is
    returned on every path, since Go does not roll a mutation back when an
    error is returned. *)
Definition goM (S E A : Type) : Type := S → outcome E A * S.

#[export] Instance goM_ret {S E} : MRet (goM S E) := λ A a s, (Ok a, s).
#[export] Instance goM_fmap {S E} : FMap (goM S E) := λ A B f m s, (f <$> (m s).1, (m s).2).
#[export] Instance goM_bind {S E} : MBind (goM S E) := λ A B f m s,
  match m s with
  | (Ok a, s') => f a s'
  | (Err e, s') => (Err e, s')
  | (Panic, s') => (Panic, s')
  end.

Section goM.
Context {S E : Type}.

Definition get : goM S E S := λ s, (Ok s, s).
Definition modify (f : S → S) : goM S E () := λ s, (Ok (), f s).
Definition throw {A} (e : E) : goM S E A := λ s, (Err e, s).
Definition lift {A} (o : outcome E A) : goM S E A := λ s, (o, s).

Lemma goM_bind_Ok {A B} (m : goM S E A) (f : A → goM S E B) s b s' :
  (m ≫= f) s = (Ok b, s') ↔ ∃ a s1, m s = (Ok a, s1) ∧ f a s1 = (Ok b, s').
Proof.
  unfold mbind, goM_bind. destruct (m s) as [[a|e|] s1]; naive_solver.
Qed.

(** A run of a sequence stops in the first part, which fails, or goes on. *)
Lemma goM_bind_cases {A B} (m : goM S E A) (f : A → goM S E B) s o s' :
  (m ≫= f) s = (o, s') →
  (∃ a s1, m s = (Ok a, s1) ∧ f a s1 = (o, s'))
  ∨ is_ok o = false ∧ ∃ o1, m s = (o1, s') ∧ is_ok o1 = false.
Proof.
  unfold mbind, goM_bind. destruct (m s) as [[a|e|] s1]; [left; eauto| |];
    intros [= <- <-]; right; eauto.
Qed.

Lemma goM_bind_run {A B} (m : goM S E A) (f : A → goM S E B) s a s1 :
  m s = (Ok a, s1) → (m ≫= f) s = f a s1.
Proof. unfold mbind, goM_bind. by intros ->. Qed.
End goM.

(** *** What a method keeps, on every path

    [keeps R m]: the state a run of [m] ends in is related by [R] to the one it
    started in, whether it returns, fails or panics. *)
Section keeps.
Context {S E : Type} (R : relation S) `{!PreOrder R}.

Definition keeps {A} (m : goM S E A) : Prop := ∀ s, R s (m s).2.

Lemma keeps_ret {A} (a : A) : keeps (mret a).
Proof. by intros s. Qed.
Lemma keeps_get : keeps get.
Proof. by intros s. Qed.
Lemma keeps_lift {A} (o : outcome E A) : keeps (lift o).
Proof. by intros s. Qed.
Lemma keeps_throw {A} (e : E) : keeps (A:=A) (throw e).
Proof. by intros s. Qed.
Lemma keeps_modify f : (∀ s, R s (f s)) → keeps (modify f).
Proof. intros Hf s. apply Hf. Qed.
Lemma keeps_bind {A B} (m : goM S E A) (f : A → goM S E B) :
  keeps m → (∀ a, keeps (f a)) → keeps (m ≫= f).
Proof.
  intros Hm Hf s. specialize (Hm s). unfold mbind, goM_bind.
  destruct (m s) as [[a|e|] s']; simpl in *; [|done|done].
  transitivity s'; [done|apply Hf].
Qed.

Lemma keeps_run {A} (m : goM S E A) s o s' : keeps m → m s = (o, s') → R s s'.
Proof. intros Hm Hr. specialize (Hm s). by rewrite Hr in Hm. Qed.
End keeps.

(** The states agree on [f]. *)
Definition same {S T} (f : S → T) : relation S := λ s s', f s' = f s.
#[export] Instance same_preorder {S T} (f : S → T) : PreOrder (same f).
Proof. split; unfold same; [done|]. intros s1 s2 s3. congruence. Qed.

(** The property [P] of states is kept. *)
Definition preserves {S} (P : S → Prop) : relation S := λ s s', P s → P s'.
#[export] Instance preserves_preorder {S} (P : S → Prop) : PreOrder (preserves P).
Proof. split; [by intros s ?|]. intros s1 s2 s3 H1 H2 Hs. by apply H2, H1. Qed.

(** Proves [keeps R m] by the structure of [m]; leaves what [modify] does. *)
Ltac keeps_step :=
  match goal with
  | |- keeps _ (_ ≫= _) => apply keeps_bind; [apply _| |intros]
  | |- keeps _ (mret _) => apply keeps_ret; apply _
  | |- keeps _ get => apply keeps_get; apply _
  | |- keeps _ (lift _) => apply keeps_lift; apply _
  | |- keeps _ (throw _) => apply keeps_throw; apply _
  | |- keeps _ (modify _) => apply keeps_modify; intros
  | |- keeps _ (match _ with _ => _ end) => case_match
  end.

(** The state changes in no part that the property looks at. *)
Ltac keeps_state :=
  match goal with |- preserves _ _ _ => let H := fresh in intros H; exact H end.

(** *** Triples

    [triple P m Q X Y]: from a state in [P] the method [m] returns a value and a
    state in [Q], or an error and a state in [X], or panics in a state in [Y]. *)
Section triple.
Context {S E : Type}.
Implicit Types (X : E → S → Prop) (Y : S → Prop).

Definition triple {A} (P : S → Prop) (m : goM S E A) (Q : A → S → Prop) X Y : Prop :=
  ∀ s, P s → match m s with
             | (Ok a, s') => Q a s'
             | (Err e, s') => X e s'
             | (Panic, s') => Y s'
             end.

Lemma triple_bind {A B} P (m : goM S E A) (f : A → goM S E B) R Q X Y :
  triple P m R X Y → (∀ a, triple (R a) (f a) Q X Y) → triple P (m ≫= f) Q X Y.
Proof.
  intros Hm Hf s Hs. specialize (Hm s Hs). unfold mbind, goM_bind.
  destruct (m s) as [[a|e|] s']; [by apply Hf|done|done].
Qed.
Lemma triple_ret {A} (P : S → Prop) (a : A) (Q : A → S → Prop) X Y :
  (∀ s, P s → Q a s) → triple P (mret a) Q X Y.
Proof. intros HQ s Hs. by apply HQ. Qed.
(** A fact known before the step. *)
Lemma triple_pure {A} (P : Prop) (m : goM S E A) (Q : A → S → Prop) X Y :
  (P → triple (λ _, True) m Q X Y) → triple (λ _, P) m Q X Y.
Proof. intros Hm s HP. by apply (Hm HP). Qed.
Lemma triple_get (P : S → Prop) (Q : S → S → Prop) X Y :
  (∀ s, P s → Q s s) → triple P get Q X Y.
Proof. intros HQ s Hs. by apply HQ. Qed.
Lemma triple_modify (P : S → Prop) f (Q : () → S → Prop) X Y :
  (∀ s, P s → Q () (f s)) → triple P (modify f) Q X Y.
Proof. intros HQ s Hs. by apply HQ. Qed.
Lemma triple_throw {A} (P : S → Prop) e (Q : A → S → Prop) X Y :
  (∀ s, P s → X e s) → triple P (throw e) Q X Y.
Proof. intros HX s Hs. by apply HX. Qed.
Lemma triple_conseq {A} (P P' : S → Prop) (m : goM S E A) (Q Q' : A → S → Prop) X X' Y Y' :
  triple P' m Q' X' Y' → (∀ s, P s → P' s) → (∀ a s, Q' a s → Q a s) →
  (∀ e s, X' e s → X e s) → (∀ s, Y' s → Y s) → triple P m Q X Y.
Proof.
  intros Hm HP HQ HX HY s Hs. specialize (Hm s (HP s Hs)).
  destruct (m s) as [[a|e|] s']; auto.
Qed.
End triple.

(** ** Machine integers

    Go's [int] and [int64] on the supported platforms: 64 bits, two's
    complement, wrapping silently. *)
Definition min_int64 : Z := - 2 ^ 63.
Definition max_int64 : Z := 2 ^ 63 - 1.
Definition wrap64 (z : Z) : Z := (z + 2 ^ 63) `mod` 2 ^ 64 - 2 ^ 63.
Definition sat64 (z : Z) : Z := min_int64 `max` (z `min` max_int64).

Lemma wrap64_id z : (min_int64 ≤ z ≤ max_int64)%Z → wrap64 z = z.
Proof.
  unfold wrap64, min_int64, max_int64. intros. rewrite Z.mod_small; lia.
Qed.

Lemma wrap64_range z : (min_int64 ≤ wrap64 z ≤ max_int64)%Z.
Proof.
  unfold wrap64, min_int64, max_int64.
  pose proof (Z.mod_pos_bound (z + 2 ^ 63) (2 ^ 64)). lia.
Qed.

Lemma sat64_id z : (min_int64 ≤ z ≤ max_int64)%Z → sat64 z = z.
Proof. unfold sat64. lia. Qed.

(** ** Time

    [time.Time] and [metav1.Time] are instants in nanoseconds counted from
    Go's zero time (January 1, year 1), so the zero value is [0]; a
    [time.Duration] is an [int64] count of nanoseconds.  [Time.Sub] saturates
    at the bounds of [Duration], [Time.Add] does not overflow within the
    years an [int64] duration can reach. *)
Module Time.
Definition time : Type := Z.
Definition duration : Type := Z.

Definition zero : time := 0%Z.
Definition IsZero (t : time) : bool := (t =? 0)%Z.
Definition After (t u : time) : bool := (u <? t)%Z.
Definition Before (t u : time) : bool := (t <? u)%Z.
Definition Add (t : time) (d : duration) : time := (t + d)%Z.
Definition Sub (t u : time) : duration := sat64 (t - u).

Definition Millisecond : duration := 1000000%Z.
Definition Second : duration := (1000 * Millisecond)%Z.
Definition Minute : duration := (60 * Second)%Z.
Definition Hour : duration := (60 * Minute)%Z.
End Time.

(** ** Automation shared by the components *)

#[export] Hint Rewrite @outcome_bind_Ok @outcome_bind_Err @goM_bind_Ok : go.

(** Runs the first step of a sequence. *)
Ltac go_run := erewrite goM_bind_run by reflexivity; cbv beta.

(** Splits every [match] and [if] of the goal, closing contradictory cases. *)
Ltac go_split := repeat (case_match; simplify_eq/=; try done).

(** Reads a successful monadic run in a hypothesis step by step. *)
Ltac go_inv H :=
  repeat match type of H with
  | (_ ≫= _) = Ok _ => apply outcome_bind_Ok in H as (? & ? & H)
  | (_ ≫= _) _ = (Ok _, _) => apply goM_bind_Ok in H as (? & ? & ? & H)
  end.

(** ** Generic list lemmas *)

Section list_lemmas.
Context {A : Type}.
Implicit Types l : list A.

Lemma filter_all_true (P : A → Prop) `{∀ x, Decision (P x)} l :
  Forall P l → filter P l = l.
Proof. induction 1; [done|]. rewrite filter_cons_True by done. by f_equal. Qed.

Lemma last_snoc_inv l x : last l = Some x → ∃ l', l = l' ++ [x].
Proof.
  destruct l as [|y l] using rev_ind; [done|].
  rewrite last_snoc. intros [= ->]. by eexists.
Qed.

Lemma reverse_rev l : reverse l = rev l.
Proof. unfold reverse. by rewrite rev_alt. Qed.

Lemma List_filter_sublist (f : A → bool) l : List.filter f l `sublist_of` l.
Proof. induction l as [|x l IH]; simpl; [done|]. by case_match; constructor. Qed.

Lemma elem_of_filter_bool (f : A → bool) l x :
  x ∈ List.filter f l ↔ x ∈ l ∧ f x = true.
Proof. by rewrite !list_elem_of_In, List.filter_In. Qed.

Lemma existsb_app_true (f : A → bool) l1 l2 :
  existsb f (l1 ++ l2) = existsb f l1 || existsb f l2.
Proof. apply List.existsb_app. Qed.

Lemma existsb_true (f : A → bool) l :
  existsb f l = true ↔ ∃ x, x ∈ l ∧ f x = true.
Proof.
  rewrite List.existsb_exists. by setoid_rewrite list_elem_of_In.
Qed.

Lemma existsb_false (f : A → bool) l :
  existsb f l = false ↔ ∀ x, x ∈ l → f x = false.
Proof.
  rewrite <-not_true_iff_false, existsb_true. split.
  - intros Hn x Hx. destruct (f x) eqn:?; [|done]. exfalso; eauto.
  - intros Hf (x & Hx & Ht). by rewrite Hf in Ht.
Qed.

Lemma existsb_eq (f g : A → bool) l :
  (∀ x, f x = g x) → existsb f l = existsb g l.
Proof. intros Hfg. induction l as [|x l IH]; simpl; [done|]. by rewrite Hfg, IH. Qed.

(** [existsb] ignores the order in which a map or list is visited. *)
Lemma existsb_perm (f : A → bool) l1 l2 :
  l1 ≡ₚ l2 → existsb f l1 = existsb f l2.
Proof.
  induction 1; simpl; [done|by f_equal| |congruence].
  by rewrite !orb_assoc, (orb_comm (f y)).
Qed.
End list_lemmas.

#[export] Instance existsb_Proper {A} (f : A → bool) :
  Proper ((≡ₚ) ==> (=)) (existsb f).
Proof. intros l1 l2. apply existsb_perm. Qed.

(** A left fold does not depend on the order of steps that commute. *)
Lemma foldl_foldr_reverse {A B} (f : B → A → B) b l :
  foldl f b l = foldr (λ a b, f b a) b (reverse l).
Proof.
  revert b. induction l as [|a l IH]; intros b; [done|].
  rewrite reverse_cons, foldr_app. simpl. apply IH.
Qed.

Lemma foldl_permutation {A B} (f : B → A → B) b l1 l2 :
  (∀ j1 a1 j2 a2 b, j1 ≠ j2 → l1 !! j1 = Some a1 → l1 !! j2 = Some a2 →
     f (f b a1) a2 = f (f b a2) a1) →
  l1 ≡ₚ l2 → foldl f b l1 = foldl f b l2.
Proof.
  intros Hf Hl. rewrite !foldl_foldr_reverse.
  apply (foldr_permutation (=)); [solve_proper| |by rewrite !reverse_Permutation].
  intros j1 a1 j2 a2 b' Hj Hj1 Hj2.
  assert (j1 < length l1 ∧ j2 < length l1) as [??].
  { apply lookup_lt_Some in Hj1, Hj2. by rewrite !length_reverse in *. }
  rewrite reverse_lookup in Hj1, Hj2 by done.
  eapply Hf; [|exact Hj2|exact Hj1]. lia.
Qed.

(** ** Slices updated in place

    [swap] is the parallel assignment [s[i], s[j] = s[j], s[i]], which panics
    on an index out of range.  [swap_loop] is the loop
    [for i < j { swap; i++; j-- }] by which the program reverses slices; the
    gap [j - i] is fuel enough, since it shrinks in every round. *)
Module Slice.
Section slice.
Context {E A : Type}.

Definition swap (l : list A) (i j : nat) : outcome E (list A) :=
  match l !! i, l !! j with
  | Some x, Some y => Ok (<[j := x]> (<[i := y]> l))
  | _, _ => Panic
  end.

Fixpoint swap_loop (fuel : nat) (l : list A) (i j : nat) : outcome E (list A) :=
  match fuel with
  | O => Ok l
  | S fuel' =>
    if bool_decide (i < j)
    then swap l i j ≫= λ l', swap_loop fuel' l' (i + 1) (j - 1)
    else Ok l
  end.

Definition reverse_range (l : list A) (i j : nat) : outcome E (list A) :=
  swap_loop (j - i) l i j.

Lemma swap_ends a x m y b :
  swap (a ++ x :: m ++ y :: b) (length a) (length a + length m + 1)
  = Ok (a ++ y :: m ++ x :: b).
Proof.
  unfold swap. rewrite list_lookup_middle by done.
  replace (a ++ x :: m ++ y :: b) with ((a ++ x :: m) ++ y :: b)
    by (by rewrite <-app_assoc).
  rewrite list_lookup_middle by (rewrite length_app; simpl; lia).
  f_equal. rewrite <-app_assoc. simpl.
  rewrite insert_app_r_alt by lia. rewrite Nat.sub_diag. simpl.
  replace (a ++ y :: m ++ y :: b) with ((a ++ y :: m) ++ y :: b)
    by (by rewrite <-app_assoc).
  rewrite insert_app_r_alt by (rewrite length_app; simpl; lia).
  rewrite length_app. simpl.
  replace (length a + length m + 1 - (length a + S (length m))) with 0 by lia.
  simpl. by rewrite <-app_assoc.
Qed.

Lemma swap_loop_stop fuel l i j : j ≤ i → swap_loop fuel l i j = Ok l.
Proof. intros. destruct fuel; [done|]. simpl. by rewrite bool_decide_eq_false_2 by lia. Qed.

(** The loop reverses exactly the range between its two indices. *)
Lemma swap_loop_spec fuel a m b j :
  length m ≤ fuel + 1 → j + 1 = length a + length m →
  swap_loop fuel (a ++ m ++ b) (length a) j = Ok (a ++ reverse m ++ b).
Proof.
  remember (length m) as n eqn:Hn. revert fuel a m b j Hn.
  induction (lt_wf n) as [n _ IH]; intros fuel a m b j -> Hf Hj.
  destruct m as [|x m]; [apply swap_loop_stop; simpl in *; lia|].
  destruct m as [|y m _] using rev_ind; [apply swap_loop_stop; simpl in *; lia|].
  simpl in Hf, Hj, IH. rewrite length_app in Hf, Hj, IH. simpl in Hf, Hj, IH.
  destruct fuel as [|fuel]; [lia|]. cbn [swap_loop].
  rewrite bool_decide_eq_true_2 by lia.
  replace j with (length a + length m + 1) at 1 by lia.
  replace ((x :: m ++ [y]) ++ b) with (x :: m ++ y :: b)
    by (simpl; by rewrite <-app_assoc).
  rewrite swap_ends. cbn [mbind outcome_bind].
  specialize (IH (length m) ltac:(lia) fuel (a ++ [y]) m (x :: b) (j - 1) eq_refl
    ltac:(lia) ltac:(rewrite length_app; simpl; lia)).
  rewrite length_app, <-!app_assoc in IH. simpl in IH. rewrite IH.
  by rewrite reverse_cons, reverse_snoc, <-!app_assoc.
Qed.

Lemma reverse_range_spec a m b :
  m ≠ [] →
  reverse_range (a ++ m ++ b) (length a) (length a + length m - 1)
  = Ok (a ++ reverse m ++ b).
Proof.
  intros Hm. assert (length m ≠ 0) by (by destruct m).
  apply swap_loop_spec; lia.
Qed.

Lemma reverse_range_all l :
  reverse_range l 0 (length l - 1) = Ok (reverse l).
Proof.
  destruct l as [|x l]; [done|].
  pose proof (reverse_range_spec [] (x :: l) [] ltac:(done)) as H.
  by rewrite !app_nil_r in H.
Qed.
End slice.
End Slice.
