(* ===== verification/Float.v ===== *)
(** The floating-point arithmetic of the machine.

    A [float64] is a rational; the result of an operation is the exact result
    rounded to 53 bits, to nearest and ties to even, as IEEE 754 and the Go
    specification have it.  The exponent is not bounded: the numbers of this
    program (durations, their fractions and multiples) are far from the limits
    of the format.

    The theorems are the two laws the back-off is proved with: rounding is
    monotone, and exact on the quarters of integers of 53 bits. *)

From S2P Require Import Prelude.
From Stdlib Require Import QArith Qround Qpower Lqa.
#[local] Open Scope Q_scope.

(** The integer nearest to [x], the even one of two. *)
Definition nearest (x : Q) : Z :=
  let f := Qfloor x in
  let r := x - inject_Z f in
  match Qcompare r (1 # 2) with
  | Lt => f
  | Gt => (f + 1)%Z
  | Eq => if Z.even f then f else (f + 1)%Z
  end.

Definition pow2 (e : Z) : Q := (2 # 1) ^ e.

(** The power of two just below a positive rational. *)
Definition binade (q : Q) : Z :=
  let k := (Z.log2 (Qnum q) - Z.log2 (Zpos (Qden q)))%Z in
  if Qle_bool (pow2 k) q then k else (k - 1)%Z.

Definition round_positive (q : Q) : Q :=
  let e := (binade q - 52)%Z in
  inject_Z (nearest (q * pow2 (- e))) * pow2 e.

Definition round64 (q : Q) : Q :=
  match Qcompare q 0 with
  | Eq => 0
  | Gt => round_positive q
  | Lt => - round_positive (- q)
  end.

(** Conversion of a float to an integer type: towards zero. *)
Definition Qtruncate (q : Q) : Z := Z.quot (Qnum q) (Zpos (Qden q)).

(** ** The nearest integer *)

Lemma Qfloor_bounds x : inject_Z (Qfloor x) <= x /\ x < inject_Z (Qfloor x) + 1.
Proof.
  split; [apply Qfloor_le|]. pose proof (Qlt_floor x) as Hl.
  by rewrite inject_Z_plus in Hl.
Qed.

Lemma nearest_range x : (Qfloor x ≤ nearest x ≤ Qfloor x + 1)%Z.
Proof. unfold nearest. cbv zeta. destruct (Qcompare _ _); [destruct (Z.even _)|..]; lia. Qed.

Lemma nearest_mono x y : x <= y → (nearest x ≤ nearest y)%Z.
Proof.
  intros Hxy. pose proof (Qfloor_resp_le x y Hxy) as Hf.
  pose proof (nearest_range x). pose proof (nearest_range y).
  destruct (decide (Qfloor x = Qfloor y)) as [He|Hne]; [|lia].
  unfold nearest. cbv zeta. rewrite He.
  set (f := Qfloor y) in *.
  destruct (Qcompare_spec (x - inject_Z f) (1 # 2)) as [Hx|Hx|Hx],
    (Qcompare_spec (y - inject_Z f) (1 # 2)) as [Hy|Hy|Hy];
    try destruct (Z.even f); try lia; exfalso; lra.
Qed.

Lemma nearest_integer x z : x == inject_Z z → nearest x = z.
Proof.
  intros Hx. unfold nearest. cbv zeta.
  assert (Qfloor x = z) as -> by (rewrite (Qfloor_comp _ _ Hx); apply Qfloor_Z).
  destruct (Qcompare_spec (x - inject_Z z) (1 # 2)) as [H|H|H]; [exfalso; lra|done|exfalso; lra].
Qed.

Lemma nearest_proper x y : x == y → nearest x = nearest y.
Proof.
  intros Hxy. apply Z.le_antisymm; apply nearest_mono; lra.
Qed.

(** ** The binade *)

Lemma pow2_pos e : 0 < pow2 e.
Proof. apply Qpower_0_lt. done. Qed.
Lemma pow2_plus a b : pow2 (a + b) == pow2 a * pow2 b.
Proof. apply Qpower_plus. done. Qed.
Lemma pow2_mono a b : (a ≤ b)%Z → pow2 a <= pow2 b.
Proof. intros Hab. by apply Qpower_le_compat_l. Qed.
Lemma pow2_Z e : (0 ≤ e)%Z → pow2 e == inject_Z (2 ^ e).
Proof. intros He. symmetry. by apply (Zpower_Qpower 2 e). Qed.
Lemma pow2_opp e : pow2 e * pow2 (- e) == 1.
Proof. rewrite <-pow2_plus, Z.add_opp_diag_r. reflexivity. Qed.

Lemma Qmult_num_den q : q * inject_Z (Zpos (Qden q)) == inject_Z (Qnum q).
Proof. destruct q as [n d]. unfold Qeq, inject_Z. simpl. lia. Qed.

Lemma log2_bounds z : (0 < z)%Z → pow2 (Z.log2 z) <= inject_Z z /\ inject_Z z < pow2 (Z.log2 z + 1).
Proof.
  intros Hz. pose proof (Z.log2_spec z Hz) as [Hl Hu]. pose proof (Z.log2_nonneg z).
  rewrite !pow2_Z by lia. rewrite <-Zle_Qle, <-Zlt_Qlt.
  rewrite <-Z.add_1_r in Hu. lia.
Qed.

Lemma binade_spec q : 0 < q → pow2 (binade q) <= q /\ q < pow2 (binade q + 1).
Proof.
  intros Hq. set (n := Qnum q). set (d := Zpos (Qden q)).
  assert (0 < n)%Z as Hn by (unfold n; destruct q as [[|n'|n'] d']; unfold Qlt in Hq; simpl in *; lia).
  destruct (log2_bounds n Hn) as [Hn1 Hn2].
  destruct (log2_bounds d) as [Hd1 Hd2]; [done|].
  pose proof (Qmult_num_den q) as Hnd. fold n d in Hnd.
  assert (0 < inject_Z d) as Hd by (unfold d; reflexivity).
  unfold binade. fold n d. set (ln := Z.log2 n) in *. set (ld := Z.log2 d) in *.
  assert (q < pow2 (ln - ld + 1)) as Hup.
  { apply Qnot_le_lt. intros Hle.
    assert (pow2 (ln - ld + 1) * inject_Z d <= q * inject_Z d) as H1
      by (apply Qmult_le_compat_r; lra).
    assert (pow2 (ln - ld + 1) * pow2 ld <= pow2 (ln - ld + 1) * inject_Z d) as H2.
    { rewrite !(Qmult_comm (pow2 (ln - ld + 1))). apply Qmult_le_compat_r; [done|].
      apply Qlt_le_weak, pow2_pos. }
    rewrite <-pow2_plus in H2. replace (ln - ld + 1 + ld)%Z with (ln + 1)%Z in H2 by lia. lra. }
  assert (pow2 (ln - ld - 1) <= q) as Hlow.
  { apply Qnot_lt_le. intros Hlt.
    assert (q * inject_Z d <= q * pow2 (ld + 1)) as H1.
    { rewrite !(Qmult_comm q). apply Qmult_le_compat_r; lra. }
    assert (q * pow2 (ld + 1) < pow2 (ln - ld - 1) * pow2 (ld + 1)) as H2
      by (apply Qmult_lt_r; [apply pow2_pos|done]).
    rewrite <-pow2_plus in H2. replace (ln - ld - 1 + (ld + 1))%Z with ln in H2 by lia. lra. }
  destruct (Qle_bool (pow2 (ln - ld)) q) eqn:Hb.
  - apply Qle_bool_iff in Hb. by split.
  - split; [done|]. replace (ln - ld - 1 + 1)%Z with (ln - ld)%Z by lia.
    apply Qnot_le_lt. intros Hle. apply Qle_bool_iff in Hle. congruence.
Qed.

Lemma binade_unique q k : pow2 k <= q → q < pow2 (k + 1) → binade q = k.
Proof.
  intros Hk Hk'. pose proof (pow2_pos k). destruct (binade_spec q) as [Hb Hb']; [lra|].
  destruct (Z.lt_trichotomy (binade q) k) as [Hlt|[?|Hgt]]; [exfalso|done|exfalso].
  - pose proof (pow2_mono (binade q + 1) k ltac:(lia)). lra.
  - pose proof (pow2_mono (k + 1) (binade q) ltac:(lia)). lra.
Qed.

Lemma binade_mono p q : 0 < p → p <= q → (binade p ≤ binade q)%Z.
Proof.
  intros Hp Hpq. destruct (binade_spec p Hp) as [Hb _]. destruct (binade_spec q) as [_ Hb']; [lra|].
  destruct (Z.le_gt_cases (binade p) (binade q)) as [?|Hgt]; [done|exfalso].
  pose proof (pow2_mono (binade q + 1) (binade p) ltac:(lia)). lra.
Qed.

(** ** Rounding *)

Lemma round_positive_range q :
  0 < q → pow2 (binade q) <= round_positive q /\ round_positive q <= pow2 (binade q + 1).
Proof.
  intros Hq. destruct (binade_spec q Hq) as [Hb Hb']. unfold round_positive. cbv zeta.
  set (k := binade q) in *. set (e := (k - 52)%Z). pose proof (pow2_pos e) as He.
  pose proof (pow2_pos (- e)) as He'.
  assert (∀ j, pow2 j * pow2 (- e) == pow2 (j - e)) as Hshift
    by (intros j; by rewrite <-pow2_plus).
  assert (2 ^ 52 ≤ nearest (q * pow2 (- e)))%Z as Hlow.
  { rewrite <-(nearest_integer (inject_Z (2 ^ 52)) (2 ^ 52)) by reflexivity.
    apply nearest_mono. rewrite <-pow2_Z by done. replace 52%Z with (k - e)%Z by lia.
    rewrite <-Hshift. apply Qmult_le_compat_r; lra. }
  assert (nearest (q * pow2 (- e)) ≤ 2 ^ 53)%Z as Hup.
  { rewrite <-(nearest_integer (inject_Z (2 ^ 53)) (2 ^ 53)) by reflexivity.
    apply nearest_mono. rewrite <-pow2_Z by done. replace 53%Z with (k + 1 - e)%Z by lia.
    rewrite <-Hshift. apply Qmult_le_compat_r; lra. }
  rewrite Zle_Qle in Hlow, Hup. rewrite <-pow2_Z in Hlow, Hup by done.
  split.
  - replace k with (52 + e)%Z by lia. rewrite pow2_plus. apply Qmult_le_compat_r; lra.
  - replace (k + 1)%Z with (53 + e)%Z by lia. rewrite pow2_plus. apply Qmult_le_compat_r; lra.
Qed.

Lemma round_positive_mono p q : 0 < p → p <= q → round_positive p <= round_positive q.
Proof.
  intros Hp Hpq. pose proof (binade_mono p q Hp Hpq) as Hb.
  destruct (decide (binade p = binade q)) as [He|Hne].
  - unfold round_positive. cbv zeta. rewrite He. pose proof (pow2_pos (binade q - 52)).
    pose proof (pow2_pos (- (binade q - 52))).
    apply Qmult_le_compat_r; [|lra]. rewrite <-Zle_Qle. apply nearest_mono.
    apply Qmult_le_compat_r; lra.
  - destruct (round_positive_range p Hp) as [_ H1].
    destruct (round_positive_range q) as [H2 _]; [lra|].
    pose proof (pow2_mono (binade p + 1) (binade q) ltac:(lia)). lra.
Qed.

Lemma round_positive_pos q : 0 < q → 0 < round_positive q.
Proof.
  intros Hq. destruct (round_positive_range q Hq) as [H1 _].
  pose proof (pow2_pos (binade q)). lra.
Qed.

(** Rounding keeps the order. *)
Lemma round64_mono p q : p <= q → round64 p <= round64 q.
Proof.
  intros Hpq. unfold round64.
  destruct (Qcompare_spec p 0) as [Hp|Hp|Hp], (Qcompare_spec q 0) as [Hq|Hq|Hq];
    try (exfalso; lra); try lra;
    try (pose proof (round_positive_pos q ltac:(lra)); lra);
    try (pose proof (round_positive_pos (- p) ltac:(lra)); lra).
  - pose proof (round_positive_mono (- q) (- p) ltac:(lra) ltac:(lra)). lra.
  - pose proof (round_positive_pos (- p) ltac:(lra)).
    pose proof (round_positive_pos q ltac:(lra)). lra.
  - by apply round_positive_mono.
Qed.

(** A positive number of 53 bits, at any scale, is exact. *)
Lemma round_positive_exact m e :
  (0 < m ≤ 2 ^ 53)%Z → round_positive (inject_Z m * pow2 e) == inject_Z m * pow2 e.
Proof.
  intros Hm. destruct (log2_bounds m) as [Hlow Hup]; [lia|].
  pose proof (pow2_pos e) as He.
  assert (binade (inject_Z m * pow2 e) = Z.log2 m + e)%Z as Hb.
  { apply binade_unique; [rewrite pow2_plus; apply Qmult_le_compat_r; lra|].
    replace (Z.log2 m + e + 1)%Z with (Z.log2 m + 1 + e)%Z by lia. rewrite pow2_plus.
    by apply Qmult_lt_r. }
  unfold round_positive. cbv zeta. rewrite Hb.
  set (l := Z.log2 m) in *. set (k := (l + e - 52)%Z).
  assert (inject_Z m * pow2 e * pow2 (- k) == inject_Z m * pow2 (52 - l)) as Hx.
  { rewrite <-Qmult_assoc, <-pow2_plus. by replace (e + - k)%Z with (52 - l)%Z by lia. }
  assert (∃ z, inject_Z m * pow2 (52 - l) == inject_Z z) as [z Hz].
  { destruct (decide (l ≤ 52)%Z) as [Hl52|Hl53].
    - exists (m * 2 ^ (52 - l))%Z. by rewrite pow2_Z, inject_Z_mult by lia.
    - assert (l ≤ 53)%Z as Hl53'.
      { unfold l. transitivity (Z.log2 (2 ^ 53)); [apply Z.log2_le_mono; lia|].
        by rewrite Z.log2_pow2. }
      assert (l = 53)%Z as Hl by lia. assert (m = 2 ^ 53)%Z as ->.
      { pose proof (Z.log2_spec m ltac:(lia)) as [Hm' _]. fold l in Hm'. rewrite Hl in Hm'. lia. }
      exists (2 ^ 52)%Z. rewrite Hl. reflexivity. }
  rewrite (nearest_integer _ z) by (by rewrite Hx).
  rewrite <-Hz, <-Qmult_assoc, <-pow2_plus. by replace (52 - l + k)%Z with e by lia.
Qed.

Lemma round_positive_proper p q : 0 < p → p == q → round_positive p == round_positive q.
Proof. intros Hp Hpq. apply Qle_antisym; apply round_positive_mono; lra. Qed.

Lemma round64_exact m e :
  (Z.abs m ≤ 2 ^ 53)%Z → round64 (inject_Z m * pow2 e) == inject_Z m * pow2 e.
Proof.
  intros Hm. pose proof (pow2_pos e) as He. unfold round64.
  assert (- (inject_Z m * pow2 e) == inject_Z (- m) * pow2 e) as Hopp
    by (rewrite inject_Z_opp; lra).
  destruct (Qcompare_spec (inject_Z m * pow2 e) 0) as [H|H|H]; [by rewrite H| |].
  - assert (m < 0)%Z as Hneg by (rewrite Zlt_Qlt; apply Qnot_le_lt; change (inject_Z 0) with 0; intros ?; nra).
    rewrite (round_positive_proper _ (inject_Z (- m) * pow2 e)); [|lra|done].
    rewrite round_positive_exact by lia. rewrite <-Hopp. lra.
  - assert (0 < m)%Z as Hpos by (rewrite Zlt_Qlt; apply Qnot_le_lt; change (inject_Z 0) with 0; intros ?; nra).
    apply round_positive_exact. lia.
Qed.

#[export] Instance round64_proper : Proper (Qeq ==> Qeq) round64.
Proof. intros p q Hpq. apply Qle_antisym; apply round64_mono; lra. Qed.

(** Rounding is exact on the quarters of integers of 53 bits. *)
Lemma round64_quarter z : (Z.abs z ≤ 2 ^ 53)%Z → round64 (z # 4) == z # 4.
Proof.
  intros Hz. assert ((z # 4) == inject_Z z * pow2 (-2)) as -> by (unfold Qeq; simpl; lia).
  by apply round64_exact.
Qed.
