(* ===== verification/GoStrings.v ===== *)
(** The string functions of Go's standard library that the provider calls
    (packages [strings], [strconv] and [slices]), on byte strings: a Go
    [string] is a sequence of bytes, an element of [string].

    Functions that look at Unicode code points ([ToLower], [TrimSpace],
    [EqualFold], [Split] on an empty separator) are written with the ASCII
    fast path of the Go library; what they do outside ASCII is the interface
    [Unicode], since it depends on the Unicode tables. *)

From S2P Require Import Prelude.
From Stdlib Require Import Ascii.

(** ** Bytes *)

Definition byte_lt (c : ascii) (n : N) : bool := (N_of_ascii c <? n)%N.
Definition is_ascii_byte (c : ascii) : bool := byte_lt c 128.
Definition is_upper (c : ascii) : bool :=
  (65 <=? N_of_ascii c)%N && (N_of_ascii c <=? 90)%N.
Definition lower_byte (c : ascii) : ascii :=
  if is_upper c then ascii_of_N (N_of_ascii c + 32) else c.
(** [asciiSpace]: tab, newline, vertical tab, form feed, return, space. *)
Definition is_space_byte (c : ascii) : bool := Ascii.is_space c.
Definition is_digit (c : ascii) : bool :=
  (48 <=? N_of_ascii c)%N && (N_of_ascii c <=? 57)%N.
Definition digit_value (c : ascii) : Z := Z.of_N (N_of_ascii c) - 48.

Definition char_string (c : ascii) : string := String c EmptyString.
Definition dquote : string := String (ascii_of_N 34) EmptyString.
Definition nul_string : string := String (ascii_of_N 0) EmptyString.

Fixpoint str_forall (f : ascii → bool) (s : string) : bool :=
  match s with EmptyString => true | String c s' => f c && str_forall f s' end.
Fixpoint str_exists (f : ascii → bool) (s : string) : bool :=
  match s with EmptyString => false | String c s' => f c || str_exists f s' end.
Fixpoint str_map (f : ascii → ascii) (s : string) : string :=
  match s with EmptyString => EmptyString | String c s' => String (f c) (str_map f s') end.

(** What lies outside ASCII. *)
Class Unicode := {
  unicode_lower : string → string;
  unicode_trim_space : string → string;
  unicode_equal_fold : string → string → bool;
  unicode_explode : string → list string;
  unicode_quote : string → string;
}.

(** An instance that leaves other code points alone, for the witnesses. *)
Definition ascii_only : Unicode := {|
  unicode_lower s := s; unicode_trim_space s := s;
  unicode_equal_fold := String.eqb; unicode_explode s := [s];
  unicode_quote s := s;
|}.

(** ** Slices of strings: [s[n:]] and [s[:n]] *)
Fixpoint str_drop (n : nat) (s : string) {struct n} : string :=
  match n, s with
  | O, _ => s
  | S n', String _ s' => str_drop n' s'
  | S _, EmptyString => EmptyString
  end.

Fixpoint str_take (n : nat) (s : string) {struct n} : string :=
  match n, s with
  | O, _ => EmptyString
  | S n', String c s' => String c (str_take n' s')
  | S _, EmptyString => EmptyString
  end.

Notation str_length := String.length.

(** ** Package [strings] *)
Module Strings.
Fixpoint HasPrefix (s prefix : string) {struct prefix} : bool :=
  match prefix, s with
  | EmptyString, _ => true
  | String c p', String d s' => Ascii.eqb c d && HasPrefix s' p'
  | String _ _, EmptyString => false
  end.

Definition TrimPrefix (s prefix : string) : string :=
  if HasPrefix s prefix then str_drop (str_length prefix) s else s.

Definition HasSuffix (s suffix : string) : bool :=
  bool_decide (str_length suffix ≤ str_length s) &&
  String.eqb (str_drop (str_length s - str_length suffix) s) suffix.

Definition TrimSuffix (s suffix : string) : string :=
  if HasSuffix s suffix
  then str_take (str_length s - str_length suffix) s else s.

(** [Index] and [LastIndex]: [None] is Go's [-1]. *)
Fixpoint Index (s sub : string) : option nat :=
  if HasPrefix s sub then Some 0 else
  match s with
  | EmptyString => None
  | String _ s' => S <$> Index s' sub
  end.

Fixpoint LastIndex (s sub : string) : option nat :=
  match s with
  | EmptyString => if HasPrefix s sub then Some 0 else None
  | String _ s' =>
    match LastIndex s' sub with
    | Some n => Some (S n)
    | None => if HasPrefix s sub then Some 0 else None
    end
  end.

(** [genSplit] with a non-empty separator: each round cuts at the first
    occurrence.  A round consumes at least one byte, so the length of the
    string is enough fuel ([split_fuel_enough]). *)
Fixpoint split_fuel (fuel : nat) (s sep : string) : list string :=
  match fuel with
  | O => [s]
  | S fuel' =>
    match Index s sep with
    | None => [s]
    | Some i => str_take i s :: split_fuel fuel' (str_drop (i + str_length sep) s) sep
    end
  end.

Definition Split `{Unicode} (s sep : string) : list string :=
  match sep with
  | EmptyString => unicode_explode s
  | _ => split_fuel (str_length s) s sep
  end.

Fixpoint Join (elems : list string) (sep : string) : string :=
  match elems with
  | [] => EmptyString
  | [e] => e
  | e :: elems' => e +:+ sep +:+ Join elems' sep
  end.

(** [Trim] with an ASCII cutset. *)
Fixpoint trim_left (cut : ascii → bool) (s : string) : string :=
  match s with
  | EmptyString => EmptyString
  | String c s' => if cut c then trim_left cut s' else s
  end.

Fixpoint trim_right (cut : ascii → bool) (s : string) : string :=
  match s with
  | EmptyString => EmptyString
  | String c s' =>
    match trim_right cut s' with
    | EmptyString => if cut c then EmptyString else String c EmptyString
    | r => String c r
    end
  end.

Definition in_cutset (cutset : string) (c : ascii) : bool :=
  str_exists (Ascii.eqb c) cutset.

Definition Trim (s cutset : string) : string :=
  trim_right (in_cutset cutset) (trim_left (in_cutset cutset) s).

Definition is_ascii (s : string) : bool := str_forall is_ascii_byte s.

Definition ToLower `{Unicode} (s : string) : string :=
  if is_ascii s then str_map lower_byte s else unicode_lower s.

Definition TrimSpace `{Unicode} (s : string) : string :=
  if is_ascii s then trim_right is_space_byte (trim_left is_space_byte s)
  else unicode_trim_space s.

Definition EqualFold `{Unicode} (s t : string) : bool :=
  if is_ascii s && is_ascii t
  then String.eqb (str_map lower_byte s) (str_map lower_byte t)
  else unicode_equal_fold s t.
End Strings.

(** ** Package [strconv] *)
Module Strconv.
Definition Itoa (n : nat) : string := pretty n.

Fixpoint digits_value (acc : Z) (s : string) : option Z :=
  match s with
  | EmptyString => Some acc
  | String c s' =>
    if is_digit c then digits_value (10 * acc + digit_value c) s' else None
  end.

(** [Atoi]: an optional sign, then one or more decimal digits, in the range
    of [int]; [None] is a non-nil error. *)
Definition Atoi (s : string) : option Z :=
  let parse (neg : bool) (digits : string) :=
    match digits with
    | EmptyString => None
    | _ =>
      v ← digits_value 0 digits;
      let v := if neg then (- v)%Z else v in
      if bool_decide (min_int64 ≤ v ≤ max_int64)%Z then Some v else None
    end in
  match s with
  | String c s' =>
    if Ascii.eqb c (ascii_of_N 45) then parse true s'
    else if Ascii.eqb c (ascii_of_N 43) then parse false s'
    else parse false s
  | EmptyString => None
  end.

(** [ParseBool]; the error is dropped by its only caller, which then reads
    the zero value [false]. *)
Definition ParseBool (s : string) : option bool :=
  if decide (s ∈ ["1"; "t"; "T"; "TRUE"; "true"; "True"]) then Some true
  else if decide (s ∈ ["0"; "f"; "F"; "FALSE"; "false"; "False"]) then Some false
  else None.

(** [Quote], the verb [%q]: a double quote and a backslash are escaped, as are
    the control characters, those without a letter of their own in
    hexadecimal. *)
Definition hex_digit (n : N) : string :=
  char_string (ascii_of_N (if (n <? 10)%N then 48 + n else 87 + n)).
Definition quote_byte (c : ascii) : string :=
  let n := N_of_ascii c in
  let bs := char_string (ascii_of_N 92) in
  if bool_decide (n = 34 ∨ n = 92)%N then bs +:+ char_string c
  else if (32 <=? n)%N && (n <? 127)%N then char_string c
  else match n with
  | 7%N => bs +:+ "a" | 8%N => bs +:+ "b" | 12%N => bs +:+ "f" | 10%N => bs +:+ "n"
  | 13%N => bs +:+ "r" | 9%N => bs +:+ "t" | 11%N => bs +:+ "v"
  | _ => bs +:+ "x" +:+ hex_digit (n / 16) +:+ hex_digit (n mod 16)
  end.
Fixpoint quote_bytes (s : string) : string :=
  match s with EmptyString => EmptyString | String c s' => quote_byte c +:+ quote_bytes s' end.
Definition Quote `{Unicode} (s : string) : string :=
  if Strings.is_ascii s then dquote +:+ quote_bytes s +:+ dquote else unicode_quote s.
End Strconv.

(** ** Sorted copies: [sort.Strings]

    Strings are totally ordered and indistinguishable when equal, so every
    sorting algorithm returns the same list. *)
Definition sort_strings (l : list string) : list string :=
  merge_sort String.le l.

(** ** Lemmas *)

Lemma str_app_cons c (s t : string) : String c s +:+ t = String c (s +:+ t).
Proof. done. Qed.
Lemma str_app_nil (t : string) : EmptyString +:+ t = t.
Proof. done. Qed.
Lemma str_app_nil_r (s : string) : s +:+ EmptyString = s.
Proof. induction s as [|c s IH]; [done|]. by rewrite str_app_cons, IH. Qed.
Lemma str_app_eq_nil (s t : string) : s +:+ t = EmptyString → s = EmptyString ∧ t = EmptyString.
Proof. destruct s; [by rewrite str_app_nil|by rewrite str_app_cons]. Qed.
Lemma str_app_assoc (s t u : string) : (s +:+ t) +:+ u = s +:+ t +:+ u.
Proof. induction s as [|c s IH]; [done|]. by rewrite !str_app_cons, IH. Qed.
Lemma str_length_app (s t : string) :
  str_length (s +:+ t) = str_length s + str_length t.
Proof. induction s as [|c s IH]; [done|]. rewrite str_app_cons. simpl. by rewrite IH. Qed.

#[export] Hint Rewrite str_app_cons str_app_nil str_app_nil_r str_app_assoc
  str_length_app : gostr.

Lemma str_drop_app (s t : string) : str_drop (str_length s) (s +:+ t) = t.
Proof. induction s; [done|]. by rewrite str_app_cons. Qed.
Lemma str_drop_app_add (s t : string) n :
  str_drop (str_length s + n) (s +:+ t) = str_drop n t.
Proof. induction s; [done|]. by rewrite str_app_cons. Qed.
Lemma str_take_app (s t : string) : str_take (str_length s) (s +:+ t) = s.
Proof. induction s as [|c s IH]; [done|]. rewrite str_app_cons. simpl. by rewrite IH. Qed.
Lemma str_take_drop n (s : string) : str_take n s +:+ str_drop n s = s.
Proof.
  revert n. induction s as [|c s IH]; intros [|n]; try done.
  simpl. by rewrite str_app_cons, IH.
Qed.
Lemma str_length_drop n (s : string) : str_length (str_drop n s) = str_length s - n.
Proof. revert n. induction s as [|c s IH]; intros [|n]; simpl; auto. Qed.
Lemma str_drop_drop n m (s : string) : str_drop n (str_drop m s) = str_drop (m + n) s.
Proof. revert m. induction s as [|c s IH]; intros [|m]; simpl; auto; by destruct n. Qed.
Lemma str_drop_all n (s : string) : str_length s ≤ n → str_drop n s = EmptyString.
Proof. revert n. induction s as [|c s IH]; intros [|n] ?; simpl in *; try done; try lia. apply IH. lia. Qed.

#[export] Hint Rewrite str_drop_app str_drop_app_add str_take_app str_length_drop : gostr.

Lemma HasPrefix_app s p :
  Strings.HasPrefix s p = true ↔ ∃ r, s = p +:+ r.
Proof.
  revert s. induction p as [|c p IH]; intros s; simpl.
  - split; [|done]. intros _. by exists s.
  - destruct s as [|d s]; simpl.
    + split; [done|]. intros [r ?]. by rewrite str_app_cons in *.
    + rewrite andb_true_iff, IH. split.
      * intros [->%Ascii.eqb_eq [r ->]]. by exists r.
      * intros [r Hr]. rewrite str_app_cons in Hr. simplify_eq.
        split; [apply Ascii.eqb_refl|]. by exists r.
Qed.

Lemma HasPrefix_refl_app p r : Strings.HasPrefix (p +:+ r) p = true.
Proof. apply HasPrefix_app. by exists r. Qed.

Lemma HasPrefix_length s p :
  Strings.HasPrefix s p = true → str_length p ≤ str_length s.
Proof. intros [r ->]%HasPrefix_app. rewrite str_length_app. lia. Qed.

Lemma TrimPrefix_spec s p :
  Strings.HasPrefix s p = true → p +:+ Strings.TrimPrefix s p = s.
Proof.
  unfold Strings.TrimPrefix. intros H. rewrite H.
  apply HasPrefix_app in H as [r ->]. by rewrite str_drop_app.
Qed.

Lemma HasSuffix_app s p :
  Strings.HasSuffix s p = true ↔ ∃ r, s = r +:+ p.
Proof.
  unfold Strings.HasSuffix. rewrite andb_true_iff, bool_decide_eq_true, String.eqb_eq.
  split.
  - intros [Hle Hd]. exists (str_take (str_length s - str_length p) s).
    rewrite <-Hd at 2. by rewrite str_take_drop.
  - intros [r ->]. rewrite str_length_app. split; [lia|].
    replace (str_length r + str_length p - str_length p) with (str_length r) by lia.
    apply str_drop_app.
Qed.

Lemma Index_Some s sub i :
  Strings.Index s sub = Some i →
  ∃ r, s = str_take i s +:+ sub +:+ r ∧ str_drop i s = sub +:+ r.
Proof.
  revert i. induction s as [|c s IH]; intros i; simpl;
    destruct (Strings.HasPrefix _ sub) eqn:Hp; intros Hi; simplify_eq/=.
  - apply HasPrefix_app in Hp as [r Hr]. by exists r.
  - apply HasPrefix_app in Hp as [r Hr]. by exists r.
  - apply fmap_Some in Hi as (j & Hj & ->).
    destruct (IH j Hj) as (r & Hs & Hd). exists r. simpl. split; [|done].
    rewrite str_app_cons. by f_equal.
Qed.

Lemma Index_first s sub i j :
  Strings.Index s sub = Some i → j < i →
  Strings.HasPrefix (str_drop j s) sub = false.
Proof.
  revert i j. induction s as [|c s IH]; intros i j; cbn [Strings.Index];
    destruct (Strings.HasPrefix _ sub) eqn:Hp; intros Hi ?; simplify_eq/=; try lia.
  apply fmap_Some in Hi as (k & Hk & ->).
  destruct j as [|j]; [done|]. simpl. apply (IH k); [done|lia].
Qed.

Lemma Index_None s sub j :
  Strings.Index s sub = None → Strings.HasPrefix (str_drop j s) sub = false.
Proof.
  revert j. induction s as [|c s IH]; intros j; cbn [Strings.Index];
    destruct (Strings.HasPrefix _ sub) eqn:Hp; intros Hi; simplify_eq/=.
  - by destruct j.
  - apply fmap_None in Hi. destruct j as [|j]; [done|]. by apply IH.
Qed.

Lemma split_fuel_enough s sep n :
  sep ≠ EmptyString → str_length s ≤ n →
  Strings.split_fuel n s sep = Strings.split_fuel (str_length s) s sep.
Proof.
  intros Hsep. remember (str_length s) as k eqn:Hk. revert s n Hk.
  induction (lt_wf k) as [k _ IH]; intros s n -> Hn.
  destruct s as [|c s].
  - destruct n as [|n]; [done|]. simpl. destruct sep; [done|]. done.
  - destruct n as [|n]; [simpl in Hn; lia|]. cbn [str_length Strings.split_fuel].
    destruct (Strings.Index _ sep) as [i|]; [|done]. f_equal.
    set (d := str_drop _ _).
    assert (str_length d < str_length (String c s)).
    { subst d. rewrite str_length_drop. simpl. destruct sep; simpl; [done|]. lia. }
    simpl in *. rewrite (IH (str_length d) ltac:(lia) d n) by lia.
    by rewrite (IH (str_length d) ltac:(lia) d (str_length s)) by lia.
Qed.

(** [Split] cuts without losing a byte. *)
Lemma split_fuel_join n s sep : Strings.Join (Strings.split_fuel n s sep) sep = s.
Proof.
  revert s. induction n as [|n IH]; intros s; [done|]. simpl.
  destruct (Strings.Index s sep) as [i|] eqn:Hi; [|done].
  apply Index_Some in Hi as (r & Hs & Hd).
  specialize (IH (str_drop (i + str_length sep) s)).
  destruct (Strings.split_fuel n _ sep) as [|e es] eqn:He.
  { destruct n; simpl in He; [done|]. by destruct (Strings.Index _ sep). }
  change (Strings.Join (str_take i s :: e :: es) sep)
    with (str_take i s +:+ sep +:+ Strings.Join (e :: es) sep).
  rewrite IH, <-str_drop_drop, Hd, str_drop_app. by symmetry.
Qed.

Lemma Split_ne_nil `{Unicode} s sep :
  sep ≠ EmptyString → Strings.Split s sep ≠ [].
Proof.
  intros Hsep. destruct sep as [|c sep]; [done|]. unfold Strings.Split.
  destruct (str_length s); simpl; [done|]. by destruct (Strings.Index _ _).
Qed.

Lemma Split_join `{Unicode} s sep :
  sep ≠ EmptyString → Strings.Join (Strings.Split s sep) sep = s.
Proof. destruct sep; [done|]. intros _. apply split_fuel_join. Qed.

Lemma Split_inj `{Unicode} sep s t :
  sep ≠ EmptyString → Strings.Split s sep = Strings.Split t sep → s = t.
Proof.
  intros Hsep Heq. by rewrite <-(Split_join s sep), <-(Split_join t sep), Heq.
Qed.

(** Sorting *)
Lemma sort_strings_perm l : sort_strings l ≡ₚ l.
Proof. apply merge_sort_Permutation. Qed.

Lemma sort_strings_unique l k : l ≡ₚ k → sort_strings l = sort_strings k.
Proof.
  intros Hlk. apply (Sorted_unique String.le).
  - apply (Sorted_merge_sort String.le).
  - apply (Sorted_merge_sort String.le).
  - by rewrite !sort_strings_perm.
Qed.

Lemma sort_strings_eq l k : sort_strings l = sort_strings k ↔ l ≡ₚ k.
Proof.
  split; [|apply sort_strings_unique]. intros Heq.
  by rewrite <-(sort_strings_perm l), Heq, sort_strings_perm.
Qed.

Lemma sort_strings_idem l : sort_strings (sort_strings l) = sort_strings l.
Proof. apply sort_strings_unique, sort_strings_perm. Qed.

Lemma sort_strings_length l : length (sort_strings l) = length l.
Proof. by rewrite sort_strings_perm. Qed.

(** One-byte separators: [Split] undoes [Join]. *)
Definition has_char (c : ascii) (s : string) : bool := str_exists (Ascii.eqb c) s.

Lemma has_char_app c s t : has_char c (s +:+ t) = has_char c s || has_char c t.
Proof.
  induction s as [|d s IH]; [done|]. rewrite str_app_cons. unfold has_char in *. simpl.
  by rewrite IH, orb_assoc.
Qed.

Lemma HasPrefix_char c d s : Strings.HasPrefix (String d s) (char_string c) = Ascii.eqb c d.
Proof. simpl. apply andb_true_r. Qed.

Lemma Index_char c s r :
  has_char c s = false →
  Strings.Index (s +:+ String c r) (char_string c) = Some (str_length s).
Proof.
  induction s as [|d s IH]; intros Hs; unfold has_char in *; cbn [Strings.Index].
  - rewrite str_app_nil. cbn [Strings.Index]. by rewrite HasPrefix_char, Ascii.eqb_refl.
  - simpl in Hs. apply orb_false_iff in Hs as [Hd Hs].
    rewrite str_app_cons. cbn [Strings.Index]. rewrite HasPrefix_char, Hd.
    change (str_exists _ ?x) with (has_char c x) in *. by rewrite IH.
Qed.

Lemma Index_char_None c s :
  has_char c s = false → Strings.Index s (char_string c) = None.
Proof.
  induction s as [|d s IH]; intros Hs; [done|]. unfold has_char in *. simpl in Hs.
  apply orb_false_iff in Hs as [Hd Hs]. cbn [Strings.Index].
  rewrite HasPrefix_char, Hd. by rewrite (IH Hs).
Qed.

Lemma Split_char_fuel `{Unicode} s c :
  Strings.Split s (char_string c) = Strings.split_fuel (str_length s) s (char_string c).
Proof. done. Qed.

Lemma Split_Join_char `{Unicode} c l :
  l ≠ [] → Forall (λ s, has_char c s = false) l →
  Strings.Split (Strings.Join l (char_string c)) (char_string c) = l.
Proof.
  intros Hne Hl. rewrite Split_char_fuel.
  induction Hl as [|s l Hs Hl IH]; [done|]. destruct l as [|s' l].
  - simpl. destruct (str_length s) eqn:?; [done|]. simpl. by rewrite Index_char_None.
  - change (Strings.Join (s :: s' :: l) (char_string c))
      with (s +:+ String c (Strings.Join (s' :: l) (char_string c))).
    set (j := Strings.Join (s' :: l) (char_string c)) in *.
    rewrite str_length_app. cbn [str_length]. rewrite Nat.add_succ_r.
    cbn [Strings.split_fuel]. rewrite Index_char by done. rewrite str_take_app. f_equal.
    change (str_length (char_string c)) with 1.
    rewrite str_drop_app_add. simpl.
    rewrite split_fuel_enough by (done || lia). by apply IH.
Qed.
