(* ===== verification/Duration.v ===== *)
(** Durations as text: [time.ParseDuration] of Go's standard library, which
    reads the refresh intervals of a provider.

    The parser is written with the loop of the library: [leadingInt],
    [leadingFraction], the table of units, the limits of 64 bits and the
    floating-point product for the fraction.  An error carries its message.
    The loop consumes a byte at least, so the length of the text is fuel
    enough; [ParseDuration_range] says that a duration fits in 64 bits. *)

From S2P Require Import Prelude Float GoStrings.
From Stdlib Require Import Ascii QArith.
#[local] Close Scope Q_scope.

Definition wrapu64 (z : Z) : Z := (z `mod` 2 ^ 64)%Z.

(** [quote] of package [time]: bytes outside printable ASCII in hexadecimal. *)
Definition quote_time_byte (c : ascii) : string :=
  let n := N_of_ascii c in
  let bs := char_string (ascii_of_N 92) in
  if (n <? 32)%N || (128 <=? n)%N
  then bs +:+ "x" +:+ Strconv.hex_digit (n / 16) +:+ Strconv.hex_digit (n mod 16)
  else if bool_decide (n = 34 ∨ n = 92)%N then bs +:+ char_string c
  else char_string c.
Fixpoint quote_time_bytes (s : string) : string :=
  match s with
  | EmptyString => EmptyString
  | String c s' => quote_time_byte c +:+ quote_time_bytes s'
  end.
Definition quote (s : string) : string := dquote +:+ quote_time_bytes s +:+ dquote.

(** The integer at the head and what follows it; [None] when it overflows. *)
Fixpoint leadingInt (x : Z) (s : string) : option (Z * string) :=
  match s with
  | String c s' =>
    if is_digit c then
      if (2 ^ 63 / 10 <? x)%Z then None else
      let x := (x * 10 + digit_value c)%Z in
      if (2 ^ 63 <? x)%Z then None else leadingInt x s'
    else Some (x, s)
  | EmptyString => Some (x, s)
  end.

(** The digits of a fraction, their power of ten, and what follows them;
    digits that do not fit are dropped. *)
Fixpoint leadingFraction (x : Z) (scale : Q) (overflow : bool) (s : string) : Z * Q * string :=
  match s with
  | String c s' =>
    if is_digit c then
      if overflow || ((2 ^ 63 - 1) / 10 <? x)%Z then leadingFraction x scale true s' else
      let y := (x * 10 + digit_value c)%Z in
      if (2 ^ 63 <? y)%Z then leadingFraction x scale true s'
      else leadingFraction y (round64 (scale * 10)) false s'
    else (x, scale, s)
  | EmptyString => (x, scale, s)
  end.

(** The name of the unit: up to the next digit or point. *)
Fixpoint unit_name (s : string) : string * string :=
  match s with
  | String c s' =>
    if is_digit c || Ascii.eqb c "."%char then (EmptyString, s)
    else let '(u, rest) := unit_name s' in (String c u, rest)
  | EmptyString => (EmptyString, EmptyString)
  end.

(** The micro sign (U+00B5) and the Greek mu (U+03BC), in UTF-8. *)
Definition micro (a b : N) : string :=
  String (ascii_of_N a) (String (ascii_of_N b) "s").
Definition unitMap (u : string) : option Z :=
  if String.eqb u "ns" then Some 1%Z
  else if String.eqb u "us" then Some 1000%Z
  else if String.eqb u (micro 194 181) then Some 1000%Z
  else if String.eqb u (micro 206 188) then Some 1000%Z
  else if String.eqb u "ms" then Some Time.Millisecond
  else if String.eqb u "s" then Some Time.Second
  else if String.eqb u "m" then Some Time.Minute
  else if String.eqb u "h" then Some Time.Hour
  else None.

Section parse.
Context (orig : string).

Definition invalid_duration : string := "time: invalid duration " +:+ quote orig.

(** One number with its unit: its nanoseconds, and what follows it. *)
Definition parse_component (s : string) : string + (Z * string) :=
  match s with
  | EmptyString => inl invalid_duration
  | String c _ =>
    if negb (is_digit c || Ascii.eqb c "."%char) then inl invalid_duration else
    match leadingInt 0 s with
    | None => inl invalid_duration
    | Some (v, s1) =>
      let pre := negb (Nat.eqb (str_length s) (str_length s1)) in
      let '(f, scale, s2, post) :=
        match s1 with
        | String "."%char s' =>
          let '(f, scale, s2) := leadingFraction 0 1 false s' in
          (f, scale, s2, negb (Nat.eqb (str_length s') (str_length s2)))
        | _ => (0%Z, 1%Q, s1, false)
        end in
      if negb pre && negb post then inl invalid_duration else
      let '(u, s3) := unit_name s2 in
      if String.eqb u EmptyString
      then inl ("time: missing unit in duration " +:+ quote orig) else
      match unitMap u with
      | None => inl ("time: unknown unit " +:+ quote u +:+ " in duration " +:+ quote orig)
      | Some unit =>
        if (2 ^ 63 / unit <? v)%Z then inl invalid_duration else
        let v := (v * unit)%Z in
        let v :=
          if (0 <? f)%Z
          then wrapu64 (v + Qtruncate (round64 (round64 (inject_Z f)
                                                * round64 (inject_Z unit / scale)%Q)%Q))
          else v in
        if (2 ^ 63 <? v)%Z then inl invalid_duration else inr (v, s3)
      end
    end
  end.

Fixpoint parse_components (fuel : nat) (d : Z) (s : string) : string + Z :=
  match fuel, s with
  | _, EmptyString => inr d
  | S fuel, _ =>
    match parse_component s with
    | inl e => inl e
    | inr (v, s') =>
      let d := wrapu64 (d + v) in
      if (2 ^ 63 <? d)%Z then inl invalid_duration else parse_components fuel d s'
    end
  | O, _ => inl invalid_duration
  end.
End parse.

Definition ParseDuration (s : string) : string + Time.duration :=
  let '(neg, rest) :=
    match s with
    | String "-"%char s' => (true, s')
    | String "+"%char s' => (false, s')
    | _ => (false, s)
    end in
  if String.eqb rest "0" then inr 0%Z else
  if String.eqb rest EmptyString then inl (invalid_duration s) else
  match parse_components s (str_length rest) 0 rest with
  | inl e => inl e
  | inr d =>
    if neg then inr (- d)%Z
    else if (2 ^ 63 - 1 <? d)%Z then inl (invalid_duration s) else inr d
  end.

Example parsed_seconds : ParseDuration "30s" = inr (30 * Time.Second)%Z.
Proof. vm_compute. reflexivity. Qed.
Example parsed_mixed : ParseDuration "-1h2m0.5s" = inr (- (3720 * Time.Second + 500 * Time.Millisecond))%Z.
Proof. vm_compute. reflexivity. Qed.
Example parsed_no_unit :
  ParseDuration "1" = inl ("time: missing unit in duration " +:+ dquote +:+ "1" +:+ dquote).
Proof. vm_compute. reflexivity. Qed.
(** ** The loop consumes its input *)

Lemma leadingInt_length x s y r : leadingInt x s = Some (y, r) → str_length r ≤ str_length s.
Proof.
  revert x. induction s as [|c s IH]; intros x; simpl; [by intros [= <- <-]|].
  destruct (is_digit c); [|by intros [= <- <-]].
  destruct (_ <? _)%Z; [done|]. destruct (_ <? _)%Z; [done|]. intros H%IH. lia.
Qed.

Lemma leadingFraction_length x q o s : str_length (leadingFraction x q o s).2 ≤ str_length s.
Proof.
  revert x q o. induction s as [|c s IH]; intros x q o; simpl; [done|].
  destruct (is_digit c); [|done].
  destruct (_ || _); [|destruct (_ <? _)%Z]; etrans; first [apply IH|lia].
Qed.

Lemma unit_name_length s u r :
  unit_name s = (u, r) → str_length u + str_length r = str_length s.
Proof.
  revert u r. induction s as [|c s IH]; intros u r; simpl; [by intros [= <- <-]|].
  destruct (is_digit c || _); [by intros [= <- <-]|].
  destruct (unit_name s) as [u' r'] eqn:Hu. intros [= <- <-]. simpl. by rewrite (IH u' r').
Qed.

Lemma parse_component_spec orig s v r :
  parse_component orig s = inr (v, r) → (v ≤ 2 ^ 63)%Z ∧ str_length r < str_length s.
Proof.
  unfold parse_component. destruct s as [|c s]; [done|].
  destruct (negb (_ || _)); [done|]. destruct (leadingInt 0 _) as [[x s1]|] eqn:Hi; [|done].
  apply leadingInt_length in Hi. cbv zeta.
  match goal with |- context[match ?X with pair p b => _ end] => destruct X as [[[f q] s2] post] eqn:Hf end.
  assert (str_length s2 ≤ str_length s1) as H2.
  { revert Hf. repeat case_match; intros; simplify_eq; simpl; try lia.
    match goal with H : leadingFraction ?x ?q ?o ?s = _ |- _ =>
      pose proof (leadingFraction_length x q o s) as Hl; rewrite H in Hl; simpl in Hl end. lia. }
  destruct (negb _ && _); [done|]. destruct (unit_name s2) as [u s3] eqn:Hu.
  apply unit_name_length in Hu. destruct (String.eqb_spec u EmptyString) as [|Hne]; [done|].
  destruct (unitMap u) as [unit|]; [|done]. destruct (_ <? x)%Z; [done|].
  match goal with |- context[if (_ <? ?X)%Z then _ else inr (?X, _)] => destruct (Z.ltb_spec (2 ^ 63) X) end;
    [done|].
  intros [= <- <-]. split; [done|]. destruct u; [done|]. simpl in *. lia.
Qed.

(** The result of the loop does not depend on spare fuel. *)
Lemma parse_components_fuel orig n m d s :
  str_length s ≤ n → str_length s ≤ m → parse_components orig n d s = parse_components orig m d s.
Proof.
  revert m d s. induction n as [|n IH]; intros [|m] d [|c s] Hn Hm; simpl in Hn, Hm;
    cbn [parse_components]; try done; try lia.
  destruct (parse_component orig (String c s)) as [|[v r]] eqn:Hp; [done|].
  apply parse_component_spec in Hp as [_ Hr]. simpl in Hr. destruct (_ <? _)%Z; [done|].
  apply IH; lia.
Qed.

Lemma parse_components_range orig n d s d' :
  (0 ≤ d ≤ 2 ^ 63)%Z → parse_components orig n d s = inr d' → (0 ≤ d' ≤ 2 ^ 63)%Z.
Proof.
  revert d s. induction n as [|n IH]; intros d [|c s] Hd; cbn [parse_components];
    try done; try (by intros [= <-]).
  destruct (parse_component orig _) as [|[v r]]; [done|].
  destruct (Z.ltb_spec (2 ^ 63) (wrapu64 (d + v))); [done|]. apply IH.
  split; [|done]. by apply Z.mod_pos_bound.
Qed.

Lemma ParseDuration_range s d : ParseDuration s = inr d → (min_int64 ≤ d ≤ max_int64)%Z.
Proof.
  unfold ParseDuration, min_int64, max_int64.
  match goal with |- context[match ?X with pair _ _ => _ end] => destruct X as [neg rest] end.
  destruct (String.eqb rest "0"); [intros [= <-]; lia|]. destruct (String.eqb _ _); [done|].
  destruct (parse_components s _ 0 rest) as [|x] eqn:Hp; [done|].
  apply parse_components_range in Hp; [|lia].
  destruct neg; [intros [= <-]; lia|].
  destruct (Z.ltb_spec (2 ^ 63 - 1) x); [done|]. intros [= <-]. lia.
Qed.
