(* ===== verification/Regex.v ===== *)
(** The part of Go's [regexp] package the loader uses: [regexp.MatchString] of
    an anchored expression, by Brzozowski derivatives, and its language. *)

From S2P Require Import Prelude GoStrings.
From Stdlib Require Import Ascii.

Inductive regex : Type :=
  | Void
  | Empty
  | Class_ (f : ascii → bool)
  | Seq (r1 r2 : regex)
  | Alt (r1 r2 : regex)
  | Star (r : regex).

Definition Plus (r : regex) : regex := Seq r (Star r).
Definition Opt (r : regex) : regex := Alt r Empty.
Definition Byte (c : ascii) : regex := Class_ (Ascii.eqb c).
Fixpoint Literal (s : string) : regex :=
  match s with EmptyString => Empty | String c s' => Seq (Byte c) (Literal s') end.

Fixpoint nullable (r : regex) : bool :=
  match r with
  | Void | Class_ _ => false
  | Empty | Star _ => true
  | Seq r1 r2 => nullable r1 && nullable r2
  | Alt r1 r2 => nullable r1 || nullable r2
  end.

Fixpoint deriv (c : ascii) (r : regex) : regex :=
  match r with
  | Void | Empty => Void
  | Class_ f => if f c then Empty else Void
  | Seq r1 r2 =>
    if nullable r1 then Alt (Seq (deriv c r1) r2) (deriv c r2) else Seq (deriv c r1) r2
  | Alt r1 r2 => Alt (deriv c r1) (deriv c r2)
  | Star r1 => Seq (deriv c r1) (Star r1)
  end.

(** [^r$] on the whole string. *)
Fixpoint full_match (r : regex) (s : string) : bool :=
  match s with
  | EmptyString => nullable r
  | String c s' => full_match (deriv c r) s'
  end.

(** ** The language *)
Inductive lang : regex → string → Prop :=
  | lang_empty : lang Empty EmptyString
  | lang_class f c : f c = true → lang (Class_ f) (String c EmptyString)
  | lang_seq r1 r2 s t : lang r1 s → lang r2 t → lang (Seq r1 r2) (s +:+ t)
  | lang_alt_l r1 r2 s : lang r1 s → lang (Alt r1 r2) s
  | lang_alt_r r1 r2 s : lang r2 s → lang (Alt r1 r2) s
  | lang_star_nil r : lang (Star r) EmptyString
  | lang_star_cons r s t : lang r s → lang (Star r) t → lang (Star r) (s +:+ t).

Lemma nullable_lang r : nullable r = true ↔ lang r EmptyString.
Proof.
  split.
  - induction r; simpl; intros Hn; try done.
    + constructor.
    + apply andb_true_iff in Hn as [??].
      change EmptyString with (EmptyString +:+ EmptyString). constructor; auto.
    + apply orb_true_iff in Hn as [?|?]; [apply lang_alt_l|apply lang_alt_r]; auto.
    + constructor.
  - remember EmptyString as e eqn:He. induction 1; simpl; try done.
    + apply str_app_eq_nil in He as [-> ->]. rewrite IHlang1, IHlang2; done.
    + rewrite IHlang; done.
    + rewrite IHlang; [apply orb_true_r|done].
Qed.

Lemma lang_star_String r c s :
  lang (Star r) (String c s) →
  ∃ t u, s = t +:+ u ∧ lang r (String c t) ∧ lang (Star r) u.
Proof.
  remember (Star r) as q eqn:Hq. remember (String c s) as x eqn:Hx.
  intros H. revert s Hx. induction H as [| | | | | |r' t u Ht _ Hu IH]; intros s' Hx;
    simplify_eq.
  destruct t as [|d t].
  - rewrite str_app_nil in Hx. by apply IH.
  - rewrite str_app_cons in Hx. simplify_eq. by exists t, u.
Qed.

Lemma deriv_lang r c s : lang (deriv c r) s ↔ lang r (String c s).
Proof.
  revert s. induction r as [| |f|r1 IH1 r2 IH2|r1 IH1 r2 IH2|r IH]; intros s; simpl.
  - split; inversion 1.
  - split; inversion 1.
  - split.
    + destruct (f c) eqn:Hf; inversion 1; subst. by constructor.
    + inversion 1; subst. replace (f c) with true by done. constructor.
  - assert (lang (Seq (deriv c r1) r2) s ↔
            ∃ t u, s = t +:+ u ∧ lang r1 (String c t) ∧ lang r2 u) as Hs.
    { split; [inversion 1; subst; exists s0, t; by rewrite <-IH1|].
      intros (t & u & -> & Ht & Hu). constructor; [by apply IH1|done]. }
    assert (lang (Seq r1 r2) (String c s) ↔
            (∃ t u, s = t +:+ u ∧ lang r1 (String c t) ∧ lang r2 u) ∨
            (nullable r1 = true ∧ lang r2 (String c s))) as Hr.
    { split.
      - inversion 1 as [| |? ? t u Ht Hu Heq1 Heq| | | |]; subst.
        destruct t as [|d t]; [right|left].
        + rewrite str_app_nil in *. subst. by rewrite nullable_lang.
        + rewrite str_app_cons in *. simplify_eq. by exists t, u.
      - intros [(t & u & -> & Ht & Hu)|[Hn Hu]].
        + rewrite <-str_app_cons. by constructor.
        + rewrite <-(str_app_nil (String c s)). constructor; [by apply nullable_lang|done]. }
    rewrite Hr. destruct (nullable r1).
    + rewrite <-IH2, <-Hs. split; [inversion 1; auto|].
      intros [?|[_ ?]]; [by apply lang_alt_l|by apply lang_alt_r].
    + rewrite Hs. naive_solver.
  - split.
    + inversion 1; subst; [apply lang_alt_l, IH1|apply lang_alt_r, IH2]; done.
    + inversion 1; subst; [apply lang_alt_l, IH1|apply lang_alt_r, IH2]; done.
  - split.
    + inversion 1 as [| |? ? t u Ht Hu| | | |]; subst. rewrite <-str_app_cons.
      constructor; [by apply IH|done].
    + intros (t & u & -> & Ht & Hu)%lang_star_String.
      constructor; [by apply IH|done].
Qed.

Lemma full_match_lang r s : full_match r s = true ↔ lang r s.
Proof.
  revert r. induction s as [|c s IH]; intros r; simpl;
    [apply nullable_lang|by rewrite IH, deriv_lang].
Qed.

(** ** Shapes of the languages used *)

Lemma lang_literal l s : lang (Literal l) s ↔ s = l.
Proof.
  revert s. induction l as [|c l IH]; intros s; simpl.
  - split; [by inversion 1|intros ->; constructor].
  - split.
    + inversion 1 as [| |? ? t u Ht Hu| | | |]; subst. apply IH in Hu as ->.
      inversion Ht as [|f d Hd| | | | |]; subst. apply Ascii.eqb_eq in Hd as ->. done.
    + intros ->. change (String c l) with (String c EmptyString +:+ l).
      constructor; [constructor; apply Ascii.eqb_refl|by apply IH].
Qed.

Lemma lang_seq_inv r1 r2 s :
  lang (Seq r1 r2) s ↔ ∃ t u, s = t +:+ u ∧ lang r1 t ∧ lang r2 u.
Proof.
  split; [inversion 1; subst; eauto|]. intros (t & u & -> & ? & ?). by constructor.
Qed.

Lemma lang_opt r s : lang (Opt r) s ↔ lang r s ∨ s = EmptyString.
Proof.
  split; [inversion 1 as [| | |? ? ? Hl|? ? ? Hl| |]; subst; [by left|];
          inversion Hl; by right|].
  intros [? | ->]; [by apply lang_alt_l|apply lang_alt_r; constructor].
Qed.

Lemma lang_star_class f s : lang (Star (Class_ f)) s ↔ str_forall f s = true.
Proof.
  split.
  - remember (Star (Class_ f)) as q eqn:Hq.
    induction 1 as [| | | | | |r t u Ht _ Hu IH]; simplify_eq; [done|].
    inversion Ht; subst. rewrite str_app_cons. simpl.
    rewrite str_app_nil, IH by done. by rewrite andb_true_r.
  - induction s as [|c s IH]; simpl; [constructor|]. rewrite andb_true_iff.
    intros [Hc Hs]. change (String c s) with (String c EmptyString +:+ s).
    constructor; [by constructor|auto].
Qed.

Lemma lang_plus_class f s :
  lang (Plus (Class_ f)) s ↔ s ≠ EmptyString ∧ str_forall f s = true.
Proof.
  unfold Plus. rewrite lang_seq_inv. split.
  - intros (t & u & -> & Ht & Hu). inversion Ht; subst.
    apply lang_star_class in Hu. rewrite str_app_cons, str_app_nil. simpl.
    by rewrite andb_true_iff.
  - intros [Hne Hs]. destruct s as [|c s]; [done|]. simpl in Hs.
    apply andb_true_iff in Hs as [Hc Hs]. exists (String c EmptyString), s.
    split; [done|]. split; [by constructor|by apply lang_star_class].
Qed.
