(* ===== verification/Errors.v ===== *)
(** The [error] values that travel through the provider, and
    [internal/loader/errors.go].

    An error is classified by what the program can observe of it: a type
    assertion ([err.( *ArgumentError)], [err.(net.Error)]), [errors.As] on
    [*azcore.ResponseError], [apierrors.IsNotFound], and its text. *)

From S2P Require Import Prelude GoStrings.

Inductive error : Type :=
  | ArgumentError (Field : string) (Cause : error)
      (** [*loader.ArgumentError]; it has no [Unwrap] method *)
  | ResponseError (StatusCode : Z) (RetryAfter : string) (msg : string)
      (** [*azcore.ResponseError], with the [Retry-After] header of its
          [RawResponse] *)
  | StatusError (notFound : bool) (msg : string)
      (** an error of the Kubernetes API server *)
  | Errorf (msg : string)
      (** [fmt.Errorf] without [%w]: text only *)
  | ForeignError (isNet : bool) (msg : string) (inner : option error).
      (** an error of another package: [isNet] when it implements
          [net.Error], [inner] what its [Unwrap] returns *)

Notation result := (outcome error).

(** [ArgumentError.Error] and the text of the other errors. *)
Fixpoint Error (e : error) : string :=
  match e with
  | ArgumentError f c => f +:+ ": " +:+ Error c
  | ResponseError _ _ m | StatusError _ m | Errorf m | ForeignError _ m _ => m
  end.

Definition NewArgumentError (field : string) (err : error) : error :=
  ArgumentError field err.

(** [err.(net.Error)] *)
Definition is_net_error (e : error) : bool :=
  match e with ForeignError true _ _ => true | _ => false end.

(** [errors.As(err, &respErr)] for [*azcore.ResponseError]: the status code
    and the [Retry-After] header of the first one on the [Unwrap] chain. *)
Fixpoint as_ResponseError (e : error) : option (Z * string) :=
  match e with
  | ResponseError s r _ => Some (s, r)
  | ForeignError _ _ (Some inner) => as_ResponseError inner
  | _ => None
  end.

(** [err.( *loader.ArgumentError)] *)
Definition is_ArgumentError (e : error) : bool :=
  match e with ArgumentError _ _ => true | _ => false end.

(** [apierrors.IsNotFound] *)
Definition IsNotFound (e : error) : bool :=
  match e with StatusError b _ => b | _ => false end.

Definition StatusTooManyRequests : Z := 429.
Definition StatusRequestTimeout : Z := 408.
Definition StatusInternalServerError : Z := 500.

Definition IsFailoverable (err : option error) : bool :=
  match err with
  | None => false
  | Some e =>
    if is_net_error e then true
    else match as_ResponseError e with
         | Some (code, _) =>
           (code =? StatusTooManyRequests)%Z || (code =? StatusRequestTimeout)%Z
           || (StatusInternalServerError <=? code)%Z
         | None => false
         end
  end.

(** A 429 response never survives the failover filter. *)
Lemma not_failoverable_status e code r :
  IsFailoverable (Some e) = false → as_ResponseError e = Some (code, r) →
  code ≠ 429%Z ∧ code ≠ 408%Z ∧ (code < 500)%Z.
Proof.
  unfold IsFailoverable. destruct (is_net_error e); [done|]. intros Hf Ha.
  rewrite Ha in Hf.
  unfold StatusTooManyRequests, StatusRequestTimeout, StatusInternalServerError in Hf.
  lia.
Qed.
