(* ===== verification/Json.v ===== *)
(** JSON: package [encoding/json] of Go's standard library, on which the
    settings, the flags, the references and the comparable selectors of the
    provider travel.

    A text is parsed to a syntax tree [json] by the scanner of the library
    (same texts accepted, same message for the first byte refused, nesting
    limited to 10000), and a tree is printed in the compact form of
    [json.Marshal], with the characters HTML gives a meaning escaped.  Codec.v
    and KeyVault.v read the trees into the Go types of the provider.

    [parse_print] is the round trip: what is printed is parsed back.  The parser
    takes twice the length of its text as fuel, and [parse_json_total] says
    that it is enough. *)

From S2P Require Import Prelude GoStrings Errors Float.
From Stdlib Require Import Ascii QArith.
#[local] Close Scope Q_scope.

(** ** UTF-8 *)

Definition in_range (c : ascii) (lo hi : N) : bool :=
  (lo <=? N_of_ascii c)%N && (N_of_ascii c <=? hi)%N.
Definition utf8_cont (c : ascii) : bool := in_range c 128 191.

(** The width of the code point at the head of a string, as
    [utf8.DecodeRuneInString]; zero for an invalid encoding. *)
Definition rune_len (s : string) : nat :=
  match s with
  | String c s0 =>
    if is_ascii_byte c then 1 else
    match s0 with
    | String c1 s1 =>
      if in_range c 194 223 && utf8_cont c1 then 2 else
      match s1 with
      | String c2 s2 =>
        if (in_range c 224 224 && in_range c1 160 191
            || in_range c 237 237 && in_range c1 128 159
            || (in_range c 225 236 || in_range c 238 239) && utf8_cont c1)
           && utf8_cont c2
        then 3 else
        match s2 with
        | String c3 _ =>
          if (in_range c 240 240 && in_range c1 144 191
              || in_range c 241 243 && utf8_cont c1
              || in_range c 244 244 && in_range c1 128 143)
             && utf8_cont c2 && utf8_cont c3
          then 4 else 0
        | EmptyString => 0
        end
      | EmptyString => 0
      end
    | EmptyString => 0
    end
  | EmptyString => 0
  end.

(** [utf8.ValidString]; [skip] bytes of a code point are still to be passed. *)
Fixpoint utf8_from (skip : nat) (s : string) : bool :=
  match s with
  | EmptyString => true
  | String _ s' =>
    match skip with
    | S k => utf8_from k s'
    | O => match rune_len s with O => false | S k => utf8_from k s' end
    end
  end.
Definition valid_utf8 (s : string) : bool := utf8_from 0 s.

Definition byte (n : N) : string := char_string (ascii_of_N n).
(** [utf8.EncodeRune] *)
Definition encode_rune (r : N) : string :=
  if (r <? 128)%N then byte r
  else if (r <? 2048)%N then byte (192 + r / 64) +:+ byte (128 + r mod 64)
  else if (r <? 65536)%N
  then byte (224 + r / 4096) +:+ byte (128 + r / 64 mod 64) +:+ byte (128 + r mod 64)
  else byte (240 + r / 262144) +:+ byte (128 + r / 4096 mod 64)
       +:+ byte (128 + r / 64 mod 64) +:+ byte (128 + r mod 64).
Definition replacement : string := encode_rune 65533.

(** ** Errors *)

Definition backslash : ascii := ascii_of_N 92.
Definition dq : ascii := ascii_of_N 34.

(** [quoteChar]: the code points up to U+00FF, of which those of [strconv] that
    are not printable are escaped. *)
Definition quoteChar (c : ascii) : string :=
  let n := N_of_ascii c in
  "'" +:+
  (if (n =? 39)%N then char_string backslash +:+ "'"
   else if (n =? 34)%N then char_string dq
   else if (n <? 127)%N then Strconv.quote_byte c
   else if (n =? 127)%N then char_string backslash +:+ "x7f"
   else if (n <? 161)%N || (n =? 173)%N
   then char_string backslash +:+ "u00" +:+ Strconv.hex_digit (n / 16)
        +:+ Strconv.hex_digit (n mod 16)
   else encode_rune n) +:+ "'".

Definition SyntaxError (msg : string) : error := ForeignError false msg None.
Definition unexpected_end : error := SyntaxError "unexpected end of JSON input".
Definition invalid_character (c : ascii) (context : string) : error :=
  SyntaxError ("invalid character " +:+ quoteChar c +:+ " " +:+ context).
(** At the end of the text the scanner is given a space. *)
Definition invalid_head (s : string) (context : string) : error :=
  invalid_character (match s with String c _ => c | EmptyString => " "%char end) context.

(** ** Syntax trees *)

Module Number.
Record t := mk {
  negative : bool;
  whole : string;
  fraction : string;
  exponent_mark : string;
  exponent : string;
}.
End Number.

Inductive json : Type :=
  | JNull
  | JBool (b : bool)
  | JNumber (n : Number.t)
  | JString (s : string)
  | JArray (l : list json)
  | JObject (members : list (string * json)).

(** The error of a value that does not fit its type. *)
Definition json_kind (j : json) : string :=
  match j with
  | JNull => "null" | JBool _ => "bool" | JNumber _ => "number" | JString _ => "string"
  | JArray _ => "array" | JObject _ => "object"
  end.

Definition UnmarshalTypeError (v ty : string) : error :=
  ForeignError false ("json: cannot unmarshal " +:+ v +:+ " into Go value of type " +:+ ty) None.

(** ** Strings *)

Definition push (x : string) (o : result (string * string)) : result (string * string) :=
  '(t, rest) ← o; Ok (x +:+ t, rest).

Definition simple_escape (c : ascii) : option ascii :=
  match N_of_ascii c with
  | 34%N | 92%N | 47%N => Some c
  | 98%N => Some (ascii_of_N 8)
  | 102%N => Some (ascii_of_N 12)
  | 110%N => Some (ascii_of_N 10)
  | 114%N => Some (ascii_of_N 13)
  | 116%N => Some (ascii_of_N 9)
  | _ => None
  end.

Definition hex_value (c : ascii) : option N :=
  let n := N_of_ascii c in
  if is_digit c then Some (n - 48)%N
  else if ((97 <=? n) && (n <=? 102))%N then Some (n - 87)%N
  else if ((65 <=? n) && (n <=? 70))%N then Some (n - 55)%N
  else None.
Definition hex4 (a b c d : ascii) : option N :=
  a ← hex_value a; b ← hex_value b; c ← hex_value c; d ← hex_value d;
  Some (4096 * a + 256 * b + 16 * c + d)%N.
(** The first byte after [\u] that is not hexadecimal. *)
Fixpoint hex_error (n : nat) (s : string) : error :=
  match n, s with
  | S n', String c s' =>
    match hex_value c with
    | Some _ => hex_error n' s'
    | None => invalid_head s ("in " +:+ char_string backslash +:+ "u hexadecimal character escape")
    end
  | _, _ => invalid_head s ("in " +:+ char_string backslash +:+ "u hexadecimal character escape")
  end.

(** [utf16.IsSurrogate] and [utf16.DecodeRune]. *)
Definition is_surrogate (r : N) : bool := ((55296 <=? r) && (r <? 57344))%N.
Definition surrogate_pair (r1 r2 : N) : option N :=
  if ((55296 <=? r1) && (r1 <? 56320) && (56320 <=? r2) && (r2 <? 57344))%N
  then Some ((r1 - 55296) * 1024 + (r2 - 56320) + 65536)%N else None.

(** The rest of a string literal, and what follows it: [stateInString] and
    [unquote].  Bytes that are not UTF-8 become U+FFFD. *)
Fixpoint string_from (skip : nat) (s : string) : result (string * string) :=
  match s with
  | EmptyString => Err unexpected_end
  | String c s1 =>
    match skip with
    | S k => push (char_string c) (string_from k s1)
    | O =>
      if Ascii.eqb c dq then Ok (EmptyString, s1)
      else if Ascii.eqb c backslash then
        match s1 with
        | EmptyString => Err (invalid_head s1 "in string escape code")
        | String e s2 =>
          match simple_escape e with
          | Some b => push (char_string b) (string_from 0 s2)
          | None =>
            if negb (Ascii.eqb e "u") then Err (invalid_head s1 "in string escape code") else
            match s2 with
            | String h1 (String h2 (String h3 (String h4 s3))) =>
              match hex4 h1 h2 h3 h4 with
              | None => Err (hex_error 4 s2)
              | Some r =>
                if negb (is_surrogate r) then push (encode_rune r) (string_from 0 s3) else
                match s3 with
                | String b (String u (String g1 (String g2 (String g3 (String g4 s4))))) =>
                  match (if Ascii.eqb b backslash && Ascii.eqb u "u"
                         then r2 ← hex4 g1 g2 g3 g4; surrogate_pair r r2 else None) with
                  | Some r => push (encode_rune r) (string_from 0 s4)
                  | None => push replacement (string_from 0 s3)
                  end
                | _ => push replacement (string_from 0 s3)
                end
              end
            | _ => Err (hex_error 4 s2)
            end
          end
        end
      else if (N_of_ascii c <? 32)%N then Err (invalid_character c "in string literal")
      else match rune_len s with
           | O => push replacement (string_from 0 s1)
           | S k => push (char_string c) (string_from k s1)
           end
    end
  end.

(** [appendString] with HTML characters escaped. *)
Definition escape_byte (c : ascii) : string :=
  let n := N_of_ascii c in
  let bs := char_string backslash in
  match n with
  | 34%N | 92%N => bs +:+ char_string c
  | 8%N => bs +:+ "b"
  | 12%N => bs +:+ "f"
  | 10%N => bs +:+ "n"
  | 13%N => bs +:+ "r"
  | 9%N => bs +:+ "t"
  | _ =>
    if (n <? 32)%N || bool_decide (n = 60 ∨ n = 62 ∨ n = 38)%N
    then bs +:+ "u00" +:+ Strconv.hex_digit (n / 16) +:+ Strconv.hex_digit (n mod 16)
    else char_string c
  end.

Fixpoint escape_from (skip : nat) (s : string) : string :=
  match s with
  | EmptyString => EmptyString
  | String c s1 =>
    match skip with
    | S k => String c (escape_from k s1)
    | O =>
      match rune_len s with
      | O => char_string backslash +:+ "ufffd" +:+ escape_from 0 s1
      | S O => escape_byte c +:+ escape_from 0 s1
      | S k =>
        match s1 with
        | String c1 (String c2 s3) =>
          (* U+2028 and U+2029 *)
          if (N_of_ascii c =? 226)%N && (N_of_ascii c1 =? 128)%N
             && ((N_of_ascii c2 =? 168)%N || (N_of_ascii c2 =? 169)%N)
          then char_string backslash +:+ "u202" +:+ Strconv.hex_digit (N_of_ascii c2 mod 16)
               +:+ escape_from 0 s3
          else String c (escape_from k s1)
        | _ => String c (escape_from k s1)
        end
      end
    end
  end.
Definition print_string (s : string) : string :=
  String dq (escape_from 0 s +:+ char_string dq).

(** ** Numbers *)

Fixpoint span_digits (s : string) : string * string :=
  match s with
  | String c s' =>
    if is_digit c then let '(d, r) := span_digits s' in (String c d, r) else (EmptyString, s)
  | EmptyString => (EmptyString, EmptyString)
  end.

Definition is_char (n : N) (c : ascii) : bool := (N_of_ascii c =? n)%N.

(** [stateNeg], [state0] and [state1]; then [stateDot], [stateE]. *)
Definition lex_whole (s : string) : result (string * string) :=
  match s with
  | String c s1 =>
    if is_char 48 c then Ok (char_string c, s1)
    else if is_digit c then let '(d, r) := span_digits s1 in Ok (String c d, r)
    else Err (invalid_head s "in numeric literal")
  | EmptyString => Err (invalid_head s "in numeric literal")
  end.
Definition lex_fraction (s : string) : result (string * string) :=
  match s with
  | String c s1 =>
    if is_char 46 c then
      match span_digits s1 with
      | (EmptyString, r) => Err (invalid_head r "after decimal point in numeric literal")
      | dr => Ok dr
      end
    else Ok (EmptyString, s)
  | EmptyString => Ok (EmptyString, s)
  end.
Definition lex_exponent (s : string) : result (string * string * string) :=
  match s with
  | String c s1 =>
    if is_char 101 c || is_char 69 c then
      let '(mark, s2) :=
        match s1 with
        | String g s2 =>
          if is_char 43 g || is_char 45 g then (String c (char_string g), s2)
          else (char_string c, s1)
        | EmptyString => (char_string c, s1)
        end in
      match span_digits s2 with
      | (EmptyString, r) => Err (invalid_head r "in exponent of numeric literal")
      | (d, r) => Ok (mark, d, r)
      end
    else Ok (EmptyString, EmptyString, s)
  | EmptyString => Ok (EmptyString, EmptyString, s)
  end.
Definition lex_number (s : string) : result (Number.t * string) :=
  let '(neg, s) :=
    match s with
    | String c s' => if is_char 45 c then (true, s') else (false, s)
    | EmptyString => (false, s)
    end in
  '(whole, s) ← lex_whole s;
  '(fraction, s) ← lex_fraction s;
  '(mark, exponent, s) ← lex_exponent s;
  Ok (Number.mk neg whole fraction mark exponent, s).

Definition print_fraction (f : string) : string :=
  if String.eqb f EmptyString then EmptyString else "." +:+ f.
Definition print_number (n : Number.t) : string :=
  (if n.(Number.negative) then "-" else EmptyString)
  +:+ n.(Number.whole)
  +:+ print_fraction n.(Number.fraction)
  +:+ n.(Number.exponent_mark) +:+ n.(Number.exponent).

(** ** Values *)

Definition is_json_space (c : ascii) : bool :=
  is_char 32 c || is_char 9 c || is_char 13 c || is_char 10 c.
Fixpoint skip_space (s : string) : string :=
  match s with
  | String c s' => if is_json_space c then skip_space s' else s
  | EmptyString => EmptyString
  end.

Definition maxNestingDepth : N := 10000.

(** The rest of a literal, of which [word] is still to come. *)
Fixpoint lex_word (literal word s : string) : result string :=
  match word with
  | EmptyString => Ok s
  | String w word' =>
    match s with
    | String c s' =>
      if Ascii.eqb c w then lex_word literal word' s'
      else Err (invalid_character c ("in literal " +:+ literal +:+ " (expecting "
                                     +:+ quoteChar w +:+ ")"))
    | EmptyString => Err (invalid_character " " ("in literal " +:+ literal +:+ " (expecting "
                                                 +:+ quoteChar w +:+ ")"))
    end
  end.

(** A value, the elements of an array up to its bracket, the members of an
    object up to its brace, at a nesting of [depth]; [Panic] is no fuel. *)
Fixpoint parse_value (fuel : nat) (depth : N) (s : string) : result (json * string) :=
  match fuel with
  | O => Panic
  | S fuel =>
    match skip_space s with
    | EmptyString => Err unexpected_end
    | String c s1 =>
      if is_char 123 c then
        if (maxNestingDepth <=? depth)%N then Err (invalid_character c "exceeded max depth") else
        match skip_space s1 with
        | String c' s2 =>
          if is_char 125 c' then Ok (JObject [], s2)
          else '(l, r) ← parse_members fuel (depth + 1) s1; Ok (JObject l, r)
        | EmptyString => Err unexpected_end
        end
      else if is_char 91 c then
        if (maxNestingDepth <=? depth)%N then Err (invalid_character c "exceeded max depth") else
        match skip_space s1 with
        | String c' s2 =>
          if is_char 93 c' then Ok (JArray [], s2)
          else '(l, r) ← parse_elements fuel (depth + 1) s1; Ok (JArray l, r)
        | EmptyString => Err unexpected_end
        end
      else if Ascii.eqb c dq then '(t, r) ← string_from 0 s1; Ok (JString t, r)
      else if is_char 45 c || is_digit c then
        '(n, r) ← lex_number (String c s1); Ok (JNumber n, r)
      else if is_char 116 c then r ← lex_word "true" "rue" s1; Ok (JBool true, r)
      else if is_char 102 c then r ← lex_word "false" "alse" s1; Ok (JBool false, r)
      else if is_char 110 c then r ← lex_word "null" "ull" s1; Ok (JNull, r)
      else Err (invalid_character c "looking for beginning of value")
    end
  end
with parse_elements (fuel : nat) (depth : N) (s : string) : result (list json * string) :=
  match fuel with
  | O => Panic
  | S fuel =>
    '(v, r) ← parse_value fuel depth s;
    match skip_space r with
    | EmptyString => Err unexpected_end
    | String c s1 =>
      if is_char 44 c then '(l, r) ← parse_elements fuel depth s1; Ok (v :: l, r)
      else if is_char 93 c then Ok ([v], s1)
      else Err (invalid_character c "after array element")
    end
  end
with parse_members (fuel : nat) (depth : N) (s : string)
    : result (list (string * json) * string) :=
  match fuel with
  | O => Panic
  | S fuel =>
    match skip_space s with
    | EmptyString => Err unexpected_end
    | String c s1 =>
      if negb (Ascii.eqb c dq)
      then Err (invalid_character c "looking for beginning of object key string") else
      '(k, r) ← string_from 0 s1;
      match skip_space r with
      | EmptyString => Err unexpected_end
      | String c s2 =>
        if negb (is_char 58 c) then Err (invalid_character c "after object key") else
        '(v, r) ← parse_value fuel depth s2;
        match skip_space r with
        | EmptyString => Err unexpected_end
        | String c s3 =>
          if is_char 44 c then '(l, r) ← parse_members fuel depth s3; Ok ((k, v) :: l, r)
          else if is_char 125 c then Ok ([(k, v)], s3)
          else Err (invalid_character c "after object key:value pair")
        end
      end
    end
  end.

Definition parse_json (s : string) : result json :=
  '(v, r) ← parse_value (S (2 * str_length s)) 0 s;
  match skip_space r with
  | EmptyString => Ok v
  | String c _ => Err (invalid_character c "after top-level value")
  end.

(** ** Printing *)

Fixpoint print (j : json) : string :=
  match j with
  | JNull => "null"
  | JBool true => "true"
  | JBool false => "false"
  | JNumber n => print_number n
  | JString s => print_string s
  | JArray l => "[" +:+ Strings.Join (print <$> l) "," +:+ "]"
  | JObject l =>
    "{" +:+ Strings.Join ((λ '(k, v), print_string k +:+ ":" +:+ print v) <$> l) "," +:+ "}"
  end.

Definition dquoted (l : list string) : string := Strings.Join l (char_string dq).
Example parsed_object :
  parse_json (dquoted [" {"; "a"; ": [1, -2.5e3, null],"; "b"; ":"; "x"; "}"])
  = Ok (JObject [("a", JArray [JNumber (Number.mk false "1" "" "" "");
                               JNumber (Number.mk true "2" "5" "e" "3"); JNull]);
                 ("b", JString "x")]).
Proof. vm_compute. reflexivity. Qed.
Example printed_object :
  print (JObject [("a<", JArray [JNumber (Number.mk true "2" "5" "e" "3"); JNull])])
  = dquoted ["{"; "a" +:+ char_string backslash +:+ "u003c"; ":[-2.5e3,null]}"].
Proof. vm_compute. reflexivity. Qed.
Example refused :
  (parse_json "[1,]", parse_json "{1}", parse_json "nul", parse_json "1 2")
  = (Err (SyntaxError "invalid character ']' looking for beginning of value"),
     Err (SyntaxError "invalid character '1' looking for beginning of object key string"),
     Err (SyntaxError "invalid character ' ' in literal null (expecting 'l')"),
     Err (SyntaxError "invalid character '2' after top-level value")).
Proof. vm_compute. reflexivity. Qed.

(** ** The fuel is enough *)

(** An answer, and on success a rest of fewer than [n] bytes. *)
Definition shrinks {A} (n : nat) (o : result (A * string)) : Prop :=
  match o with Ok (_, r) => str_length r < n | Err _ => True | Panic => False end.

Lemma shrinks_bind {A B} n m (o : result (A * string)) (f : A * string → result (B * string)) :
  shrinks n o → (∀ a r, str_length r < n → shrinks m (f (a, r))) → shrinks m (o ≫= f).
Proof. destruct o as [[a r]| |]; cbn; auto. Qed.
Lemma shrinks_le {A} n m (o : result (A * string)) : n ≤ m → shrinks n o → shrinks m o.
Proof. destruct o as [[a r]| |]; cbn; auto with lia. Qed.
Lemma shrinks_Err {A} n e : shrinks n (Err e : result (A * string)).
Proof. exact I. Qed.
Lemma shrinks_Ok {A} n (a : A) r : str_length r < n → shrinks n (Ok (a, r)).
Proof. done. Qed.
Lemma shrinks_push n x o : shrinks n o → shrinks n (push x o).
Proof. destruct o as [[a r]| |]; cbn; auto. Qed.

#[local] Hint Resolve shrinks_Err : core.

Lemma string_from_shrinks k s : shrinks (str_length s) (string_from k s).
Proof.
  remember (str_length s) as n eqn:Hn. revert k s Hn.
  induction (Nat.lt_wf_0 n) as [n _ IH]. intros k s ->.
  assert (∀ k' x t, str_length t < str_length s →
    shrinks (str_length s) (push x (string_from k' t))) as IH'.
  { intros k' x t Ht. apply shrinks_push, (shrinks_le (str_length t)); [lia|].
    by apply (IH _ Ht). }
  clear IH. destruct s as [|c s1]; [done|]. cbn [string_from].
  destruct k; [|apply IH'; cbn; lia].
  destruct (Ascii.eqb c dq); [apply shrinks_Ok; cbn; lia|].
  destruct (Ascii.eqb c backslash).
  - repeat (case_match; subst; auto; try (apply IH'; cbn in *; lia)).
  - destruct (_ <? 32)%N; [done|]. destruct (rune_len _); apply IH'; cbn; lia.
Qed.

Lemma span_digits_length s : str_length (span_digits s).2 ≤ str_length s.
Proof.
  induction s as [|c s IH]; [done|]. cbn. destruct (is_digit c); [|done].
  destruct (span_digits s). cbn in *. lia.
Qed.

Lemma lex_whole_shrinks s : shrinks (str_length s) (lex_whole s).
Proof.
  destruct s as [|c s1]; [done|]. cbn [lex_whole]. destruct (is_char 48 c); [cbn; lia|].
  destruct (is_digit c); [|done]. pose proof (span_digits_length s1).
  destruct (span_digits s1). cbn in *. lia.
Qed.
Lemma lex_fraction_shrinks s : shrinks (S (str_length s)) (lex_fraction s).
Proof.
  destruct s as [|c s1]; [cbn; lia|]. cbn [lex_fraction]. destruct (is_char 46 c); [|cbn; lia].
  pose proof (span_digits_length s1). destruct (span_digits s1) as [[|d ds] r]; [done|].
  cbn in *. lia.
Qed.
Lemma lex_exponent_shrinks s : shrinks (S (str_length s)) (lex_exponent s).
Proof.
  destruct s as [|c s1]; [cbn; lia|]. cbn [lex_exponent].
  destruct (_ || _); [|cbn; lia].
  match goal with |- context[match ?X with pair m s2 => _ end] => destruct X as [mark s2] eqn:Hm end.
  assert (str_length s2 ≤ str_length s1).
  { destruct s1 as [|g s1]; [by simplify_eq|]. case_match; simplify_eq; cbn; lia. }
  pose proof (span_digits_length s2). destruct (span_digits s2) as [[|d ds] r]; [done|].
  cbn in *. lia.
Qed.
Lemma lex_number_shrinks s : shrinks (str_length s) (lex_number s).
Proof.
  unfold lex_number.
  match goal with |- context[match ?X with pair neg s => _ end] => destruct X as [neg s'] eqn:Hs end.
  assert (str_length s' ≤ str_length s).
  { destruct s as [|c s]; [by simplify_eq|]. case_match; simplify_eq; cbn; lia. }
  eapply shrinks_bind; [apply lex_whole_shrinks|]. intros w r1 H1.
  eapply shrinks_bind; [apply lex_fraction_shrinks|]. intros f r2 H2.
  eapply shrinks_bind; [apply lex_exponent_shrinks|]. intros [m e] r3 H3. cbn. lia.
Qed.

Lemma skip_space_length s : str_length (skip_space s) ≤ str_length s.
Proof. induction s; cbn; [done|]. case_match; cbn; lia. Qed.

Lemma lex_word_shrinks {A} (a : A) l w s :
  shrinks (S (str_length s)) (r ← lex_word l w s; Ok (a, r)).
Proof.
  revert s. induction w as [|c w IH]; intros s; [cbn; lia|]. destruct s as [|d s]; [done|].
  cbn [lex_word]. destruct (Ascii.eqb d c); [|done].
  eapply shrinks_le, IH. cbn. lia.
Qed.

#[local] Hint Resolve string_from_shrinks lex_number_shrinks : core.

Lemma parse_shrinks fuel :
  (∀ d s, 2 * str_length s < fuel → shrinks (str_length s) (parse_value fuel d s))
  ∧ (∀ d s, 2 * str_length s + 1 < fuel → shrinks (str_length s) (parse_elements fuel d s))
  ∧ (∀ d s, 2 * str_length s + 1 < fuel → shrinks (str_length s) (parse_members fuel d s)).
Proof.
  induction fuel as [|fuel (IHv & IHe & IHm)]; [split_and!; intros; lia|].
  split_and!; intros d s Hf; cbn [parse_value parse_elements parse_members].
  - pose proof (skip_space_length s) as Hs.
    destruct (skip_space s) as [|c s1]; [done|]. cbn in Hs.
    pose proof (skip_space_length s1) as Hs1.
    destruct (is_char 123 c); [|destruct (is_char 91 c)].
    1,2: destruct (_ <=? d)%N; [done|]; destruct (skip_space s1) as [|c' s2]; [done|];
      cbn in Hs1; case_match; [cbn; lia|];
      (eapply shrinks_bind; [first [apply IHm|apply IHe]; lia|]); cbn; lia.
    destruct (Ascii.eqb c dq); [eapply shrinks_bind; [done|]; cbn; lia|].
    destruct (_ || _); [eapply shrinks_bind; [done|]; cbn; lia|].
    repeat (case_match; [eapply shrinks_le, lex_word_shrinks; lia|]). done.
  - eapply shrinks_bind; [apply IHv; lia|]. intros v r Hr.
    pose proof (skip_space_length r). destruct (skip_space r) as [|c s1]; [done|]. cbn in *.
    case_match; [|case_match; [cbn; lia|done]].
    eapply shrinks_bind; [apply IHe; lia|]. cbn. lia.
  - pose proof (skip_space_length s). destruct (skip_space s) as [|c s1]; [done|]. cbn in *.
    case_match; [done|]. eapply shrinks_bind; [done|]. intros k r Hr.
    pose proof (skip_space_length r). destruct (skip_space r) as [|c2 s2]; [done|]. cbn in *.
    case_match; [done|]. eapply shrinks_bind; [apply IHv; lia|]. intros v r2 Hr2.
    pose proof (skip_space_length r2). destruct (skip_space r2) as [|c3 s3]; [done|]. cbn in *.
    case_match; [|case_match; [cbn; lia|done]].
    eapply shrinks_bind; [apply IHm; lia|]. cbn. lia.
Qed.

(** Parsing gives a tree or an error. *)
Lemma parse_json_total s : parse_json s ≠ Panic.
Proof.
  unfold parse_json. pose proof (proj1 (parse_shrinks (S (2 * str_length s))) 0%N s ltac:(lia)) as Hp.
  destruct (parse_value _ 0 s) as [[v r]| |]; [|done|done]. cbn. by destruct (skip_space r).
Qed.

(** ** What is printed is parsed back *)

(** *** Strings *)

Lemma push_Ok x t r : push x (Ok (t, r)) = Ok (x +:+ t, r).
Proof. done. Qed.

Lemma string_from_skip k c s :
  string_from (S k) (String c s) = push (char_string c) (string_from k s).
Proof. done. Qed.

(** A raw byte that begins a code point. *)
Lemma string_from_raw c s n :
  Ascii.eqb c dq = false → Ascii.eqb c backslash = false → (N_of_ascii c <? 32)%N = false →
  rune_len (String c s) = S n →
  string_from 0 (String c s) = push (char_string c) (string_from n s).
Proof. intros H1 H2 H3 Hr. cbn [string_from]. by rewrite H1, H2, H3, Hr. Qed.

Lemma escape_byte_back c t :
  is_ascii_byte c = true → string_from 0 (escape_byte c +:+ t) = push (char_string c) (string_from 0 t).
Proof. destruct c as [[] [] [] [] [] [] [] []]; vm_compute is_ascii_byte; intros [=]; reflexivity. Qed.

(** A code point of several bytes: the bytes after the first, which decide its
    width whatever follows. *)
Lemma rune_bytes c s k :
  rune_len (String c s) = S (S k) →
  is_ascii_byte c = false
  ∧ ∃ u t, s = u +:+ t ∧ str_length u = S k ∧ ∀ t', rune_len (String c (u +:+ t')) = S (S k).
Proof.
  cbn [rune_len]. destruct (is_ascii_byte c) eqn:Ha; [done|]. intros Hr. split; [done|].
  destruct s as [|c1 s]; [done|].
  destruct (in_range c 194 223 && utf8_cont c1) eqn:H2.
  { exists (char_string c1), s. simplify_eq. split_and!; [done..|]. intros t'.
    change (char_string c1 +:+ t') with (String c1 t'). cbn [rune_len].
    by rewrite ?Ha, ?H2. }
  destruct s as [|c2 s]; [done|].
  match type of Hr with (if ?b then _ else _) = _ => destruct b eqn:H3 end.
  { exists (String c1 (char_string c2)), s. simplify_eq. split_and!; [done..|]. intros t'.
    change (String c1 (char_string c2) +:+ t') with (String c1 (String c2 t')). cbn [rune_len].
    by rewrite ?Ha, ?H2, ?H3. }
  destruct s as [|c3 s]; [done|].
  match type of Hr with (if ?b then _ else _) = _ => destruct b eqn:H4 end; [|done].
  exists (String c1 (String c2 (char_string c3))), s. simplify_eq. split_and!; [done..|]. intros t'.
  change (String c1 (String c2 (char_string c3)) +:+ t') with (String c1 (String c2 (String c3 t'))). cbn [rune_len].
  by rewrite ?Ha, ?H2, ?H3, ?H4.
Qed.

Lemma escape_from_app u t : escape_from (str_length u) (u +:+ t) = u +:+ escape_from 0 t.
Proof. induction u as [|c u IH]; [done|]. rewrite !str_app_cons. cbn [str_length escape_from]. by rewrite IH. Qed.
Lemma utf8_from_app u t : utf8_from (str_length u) (u +:+ t) = utf8_from 0 t.
Proof. induction u as [|c u IH]; [done|]. rewrite str_app_cons. exact IH. Qed.
Lemma string_from_app u t : string_from (str_length u) (u +:+ t) = push u (string_from 0 t).
Proof.
  induction u as [|c u IH].
  { change (string_from 0 t = push EmptyString (string_from 0 t)).
    by destruct (string_from 0 t) as [[]| |]. }
  rewrite str_app_cons. cbn [str_length string_from]. rewrite IH.
  by destruct (string_from 0 t) as [[]| |].
Qed.

Lemma ascii_of_code c n : N_of_ascii c = n → c = ascii_of_N n.
Proof. intros <-. by rewrite ascii_N_embedding. Qed.

(** The first byte of a code point of several bytes is written raw. *)
Lemma high_byte c :
  is_ascii_byte c = false →
  Ascii.eqb c dq = false ∧ Ascii.eqb c backslash = false ∧ (N_of_ascii c <? 32)%N = false.
Proof. destruct c as [[] [] [] [] [] [] [] []]; vm_compute; intros [=]; auto. Qed.

(** A code point is escaped as itself, but for the two line separators. *)
Definition line_separator (c : ascii) (s : string) : bool :=
  match s with
  | String c1 (String c2 _) =>
    (N_of_ascii c =? 226)%N && (N_of_ascii c1 =? 128)%N
    && ((N_of_ascii c2 =? 168)%N || (N_of_ascii c2 =? 169)%N)
  | _ => false
  end.

Lemma escape_rune_raw c u t k :
  str_length u = S k → rune_len (String c (u +:+ t)) = S (S k) →
  line_separator c (u +:+ t) = false →
  escape_from 0 (String c (u +:+ t)) = String c (u +:+ escape_from 0 t).
Proof.
  intros Hu Hr Hsep. rewrite <-escape_from_app, Hu. revert Hr Hsep. generalize (u +:+ t).
  intros s Hr Hsep. unfold line_separator in Hsep. cbn [escape_from]. rewrite Hr.
  destruct s as [|c1 [|c2 s]]; [done..|]. by rewrite Hsep.
Qed.

Lemma escape_rune_separator c u t k :
  str_length u = S k → (∀ t', rune_len (String c (u +:+ t')) = S (S k)) →
  line_separator c (u +:+ t) = true → ∀ rest,
  string_from 0 (escape_from 0 (String c (u +:+ t)) +:+ rest)
  = push (String c u) (string_from 0 (escape_from 0 t +:+ rest)).
Proof.
  intros Hu Hr Hsep rest. destruct u as [|c1 u]; [done|].
  rewrite str_app_cons in *. unfold line_separator in Hsep.
  destruct (u +:+ t) as [|c2 s] eqn:Hs; [done|].
  apply andb_true_iff in Hsep as [[Hc Hc1]%andb_true_iff Hc2].
  apply N.eqb_eq, ascii_of_code in Hc. apply N.eqb_eq, ascii_of_code in Hc1. subst c c1.
  destruct u as [|c2' u].
  { specialize (Hr EmptyString). by vm_compute in Hr. }
  rewrite str_app_cons in Hs. injection Hs as -> <-.
  assert (u = EmptyString) as ->.
  { specialize (Hr EmptyString). apply orb_true_iff in Hc2 as [Hc2|Hc2];
      apply N.eqb_eq, ascii_of_code in Hc2; subst c2; rewrite !str_app_cons in Hr;
      vm_compute in Hr; injection Hr as <-; by destruct u. }
  rewrite str_app_nil.
  apply orb_true_iff in Hc2 as [Hc2|Hc2]; apply N.eqb_eq, ascii_of_code in Hc2; subst c2;
    reflexivity.
Qed.

Lemma string_from_escape k s rest :
  utf8_from k s = true → k ≤ str_length s →
  string_from k (escape_from k s +:+ String dq rest) = Ok (s, rest).
Proof.
  remember (str_length s) as n eqn:Hn. revert k s Hn.
  induction (Nat.lt_wf_0 n) as [n _ IH]. intros k s -> Hv Hk.
  destruct s as [|c s1].
  { destruct k; [|simpl in Hk; lia]. reflexivity. }
  assert (∀ k' t, str_length t < S (str_length s1) → utf8_from k' t = true → k' ≤ str_length t →
    string_from k' (escape_from k' t +:+ String dq rest) = Ok (t, rest)) as IH'
    by (intros k' t Ht; by apply (IH (str_length t))). clear IH.
  destruct k as [|k].
  2:{ cbn [escape_from utf8_from] in *. rewrite str_app_cons, string_from_skip.
      rewrite IH' by (done || (cbn in Hk; lia)). reflexivity. }
  destruct (is_ascii_byte c) eqn:Ha.
  - assert (rune_len (String c s1) = 1) as Hr by (cbn [rune_len]; by rewrite Ha).
    cbn [utf8_from escape_from] in *. rewrite Hr in Hv |- *.
    rewrite str_app_assoc, escape_byte_back, IH' by (done || lia). reflexivity.
  - destruct (rune_len (String c s1)) as [|[|k]] eqn:Hr;
      [cbn [utf8_from] in Hv; by rewrite Hr in Hv
      |cbn [rune_len] in Hr; rewrite Ha in Hr; repeat case_match; simplify_eq|].
    pose proof (rune_bytes _ _ _ Hr) as (_ & u & t & -> & Hu & Hr').
    assert (utf8_from 0 t = true) as Ht.
    { cbn [utf8_from] in Hv. rewrite Hr in Hv. by rewrite <-Hu, utf8_from_app in Hv. }
    assert (string_from 0 (escape_from 0 t +:+ String dq rest) = Ok (t, rest)) as IHt
      by (apply IH'; [rewrite str_length_app|done|]; lia).
    destruct (line_separator c (u +:+ t)) eqn:Hsep.
    + rewrite (escape_rune_separator _ _ _ k), IHt by done. by rewrite push_Ok, str_app_cons.
    + rewrite (escape_rune_raw _ _ _ k) by done. rewrite str_app_cons, str_app_assoc.
      destruct (high_byte c Ha) as (H1 & H2 & H3).
      rewrite (string_from_raw c _ (S k)) by done. rewrite <-Hu, string_from_app, IHt.
      by rewrite push_Ok.
Qed.

Lemma print_string_back s rest :
  valid_utf8 s = true →
  string_from 0 (escape_from 0 s +:+ String dq rest) = Ok (s, rest).
Proof. intros Hs. apply string_from_escape; [done|lia]. Qed.

(** *** Numbers *)

(** The grammar of numbers, on the parts of one. *)
Definition whole_ok (w : string) : bool :=
  match w with
  | String c d => if is_char 48 c then String.eqb d EmptyString else is_digit c && str_forall is_digit d
  | EmptyString => false
  end.
Definition exponent_ok (mark d : string) : bool :=
  match mark with
  | EmptyString => String.eqb d EmptyString
  | String c g =>
    (is_char 101 c || is_char 69 c)
    && (match g with
        | EmptyString => true
        | String g EmptyString => is_char 43 g || is_char 45 g
        | _ => false
        end)
    && negb (String.eqb d EmptyString) && str_forall is_digit d
  end.
Definition number_ok (n : Number.t) : bool :=
  whole_ok n.(Number.whole) && str_forall is_digit n.(Number.fraction)
  && exponent_ok n.(Number.exponent_mark) n.(Number.exponent).

(** What may follow a number without prolonging it. *)
Definition number_byte (c : ascii) : bool :=
  is_digit c || is_char 46 c || is_char 101 c || is_char 69 c.
Definition starts (f : ascii → bool) (s : string) : bool :=
  match s with String c _ => f c | EmptyString => false end.
Definition delimited (s : string) : bool := negb (starts number_byte s).

Lemma span_digits_app d r :
  str_forall is_digit d = true → starts is_digit r = false → span_digits (d +:+ r) = (d, r).
Proof.
  intros Hd Hr. induction d as [|c d IH].
  - rewrite str_app_nil. destruct r as [|c r]; [done|]. cbn in *. by rewrite Hr.
  - cbn [str_forall] in Hd. apply andb_true_iff in Hd as [Hc Hd].
    rewrite str_app_cons. cbn [span_digits]. by rewrite Hc, IH.
Qed.

Lemma delimited_digit r : delimited r = true → starts is_digit r = false.
Proof. destruct r as [|c r]; [done|]. unfold delimited, number_byte. cbn. by destruct (is_digit c). Qed.

Lemma lex_whole_app w r :
  whole_ok w = true → starts is_digit r = false → lex_whole (w +:+ r) = Ok (w, r).
Proof.
  destruct w as [|c d]; [done|]. cbn [whole_ok]. intros Hw Hr. rewrite str_app_cons.
  cbn [lex_whole]. destruct (is_char 48 c).
  - apply String.eqb_eq in Hw as ->. by rewrite str_app_nil.
  - apply andb_true_iff in Hw as [-> Hd]. by rewrite span_digits_app.
Qed.

Lemma lex_fraction_app f r :
  str_forall is_digit f = true → starts is_digit r = false → starts (is_char 46) r = false →
  lex_fraction (print_fraction f +:+ r) = Ok (f, r).
Proof.
  intros Hf Hr Hdot. destruct f as [|c f].
  - unfold print_fraction. cbn [String.eqb]. rewrite str_app_nil.
    destruct r as [|d r]; [done|]. cbn in *. by rewrite Hdot.
  - unfold print_fraction. cbn [String.eqb]. change ("." +:+ String c f) with (String "."%char (String c f)). rewrite str_app_cons.
    cbn [lex_fraction]. change (is_char 46 "."%char) with true. cbv iota.
    by rewrite span_digits_app.
Qed.

Lemma lex_exponent_app m d r :
  exponent_ok m d = true → delimited r = true →
  lex_exponent (m +:+ d +:+ r) = Ok (m, d, r).
Proof.
  intros Hm Hr. pose proof (delimited_digit r Hr) as Hdig. destruct m as [|c g].
  - apply String.eqb_eq in Hm as ->. rewrite !str_app_nil.
    destruct r as [|e r]; [done|]. unfold delimited, number_byte in Hr. cbn in Hr |- *.
    apply negb_true_iff, orb_false_iff in Hr as [[_ He]%orb_false_iff HE]. by rewrite He, HE.
  - cbn [exponent_ok] in Hm. rewrite !andb_true_iff in Hm. destruct Hm as [[[Hc Hg] Hne] Hd].
    rewrite str_app_cons. cbn [lex_exponent]. rewrite Hc.
    destruct d as [|d0 d]; [done|]. destruct g as [|g [|]]; [| |done].
    + rewrite str_app_nil. rewrite str_app_cons. cbn [str_forall] in Hd.
      assert (is_char 43 d0 || is_char 45 d0 = false) as ->.
      { apply andb_true_iff in Hd as [Hd0 _]. revert Hd0. clear.
        destruct d0 as [[] [] [] [] [] [] [] []]; vm_compute; congruence. }
      rewrite <-str_app_cons, span_digits_app by done. done.
    + rewrite str_app_cons, str_app_nil, Hg. by rewrite span_digits_app.
Qed.

Lemma starts_app_number mark d r f :
  exponent_ok mark d = true → f = is_digit ∨ f = is_char 46 → delimited r = true →
  starts f (mark +:+ d +:+ r) = false.
Proof.
  intros Hm Hf Hr. destruct mark as [|c g].
  - apply String.eqb_eq in Hm as ->. rewrite !str_app_nil. destruct r as [|c r]; [done|].
    unfold delimited, number_byte in Hr. cbn in *. apply negb_true_iff in Hr.
    rewrite !orb_false_iff in Hr. destruct Hr as [[[Hd H46] _] _].
    by destruct Hf as [-> | ->].
  - cbn [exponent_ok] in Hm. rewrite !andb_true_iff in Hm. destruct Hm as [[[Hc _] _] _].
    rewrite str_app_cons. cbn. revert Hc.
    destruct Hf as [-> | ->]; destruct c as [[] [] [] [] [] [] [] []]; vm_compute; congruence.
Qed.

Lemma print_number_back n rest :
  number_ok n = true → delimited rest = true → lex_number (print_number n +:+ rest) = Ok (n, rest).
Proof.
  destruct n as [neg w f m e]. unfold number_ok, print_number, lex_number. cbn.
  rewrite !andb_true_iff. intros [[Hw Hf] He] Hr.
  set (tail := print_fraction f +:+ m +:+ e +:+ rest).
  assert (starts is_digit tail = false) as Ht.
  { unfold tail. destruct f as [|c f]; [|reflexivity].
    unfold print_fraction. cbn [String.eqb]. rewrite str_app_nil.
    apply starts_app_number; [done|by left|done]. }
  assert (lex_whole (w +:+ tail) = Ok (w, tail)) as Hlw by (by apply lex_whole_app).
  assert (lex_fraction tail = Ok (f, m +:+ e +:+ rest)) as Hlf.
  { apply lex_fraction_app; [done|apply starts_app_number; [done|by left|done]|].
    apply starts_app_number; [done|by right|done]. }
  assert (∀ neg', ('(whole, s) ← lex_whole (w +:+ tail);
    '(fraction, s) ← lex_fraction s;
    '(mark, exponent, s) ← lex_exponent s;
    Ok (Number.mk neg' whole fraction mark exponent, s)) = Ok (Number.mk neg' w f m e, rest)) as Hall.
  { intros neg'. rewrite Hlw. cbn [mbind outcome_bind]. rewrite Hlf. cbn [mbind outcome_bind].
    rewrite lex_exponent_app by done. reflexivity. }
  rewrite !str_app_assoc. fold tail. destruct neg.
  - exact (Hall true).
  - rewrite str_app_nil. specialize (Hall false).
    destruct w as [|c w]; [done|]. rewrite str_app_cons in *.
    assert (is_char 45 c = false) as ->; [|exact Hall].
    cbn [whole_ok] in Hw. revert Hw. clear.
    destruct c as [[] [] [] [] [] [] [] []]; vm_compute; congruence.
Qed.

(** *** Trees *)

Section json_induction.
Context (P : json → Prop).
Context (Hscalar : ∀ j, (match j with JArray _ | JObject _ => False | _ => True end) → P j).
Context (Harray : ∀ l, Forall P l → P (JArray l)).
Context (Hobject : ∀ l, Forall (λ kv, P kv.2) l → P (JObject l)).

Fixpoint json_ind_nested (j : json) : P j :=
  match j with
  | JArray l =>
    Harray l ((fix go l : Forall P l :=
      match l with
      | [] => List.Forall_nil _
      | j :: l' => List.Forall_cons _ j l' (json_ind_nested j) (go l')
      end) l)
  | JObject l =>
    Hobject l ((fix go l : Forall (λ kv, P kv.2) l :=
      match l with
      | [] => List.Forall_nil _
      | kv :: l' => List.Forall_cons _ kv l' (json_ind_nested kv.2) (go l')
      end) l)
  | j => Hscalar j I
  end.
End json_induction.

(** What can be read back: UTF-8 strings and grammatical numbers. *)
Fixpoint json_ok (j : json) : bool :=
  match j with
  | JNumber n => number_ok n
  | JString s => valid_utf8 s
  | JArray l => forallb json_ok l
  | JObject l => forallb (λ '(k, v), valid_utf8 k && json_ok v) l
  | _ => true
  end.

Fixpoint nesting (j : json) : N :=
  match j with
  | JArray l => 1 + foldr (λ j n, nesting j `max` n) 0 l
  | JObject l => 1 + foldr (λ '(_, j) n, nesting j `max` n) 0 l
  | _ => 0
  end%N.

(** A printed value starts with a byte that is no space and closes nothing. *)
Definition opens (c : ascii) : bool :=
  negb (is_json_space c || is_char 93 c || is_char 125 c).
Lemma print_opens j : json_ok j = true → starts opens (print j) = true.
Proof.
  destruct j as [|[]|[neg w f m e]|s|l|l]; try done. cbn. unfold number_ok. cbn.
  intros [[Hw _]%andb_true_iff _]%andb_true_iff. unfold print_number. cbn.
  destruct neg; [done|]. destruct w as [|c w]; [done|]. cbn in Hw |- *. revert Hw.
  destruct c as [[] [] [] [] [] [] [] []]; vm_compute; congruence.
Qed.

Lemma skip_space_opens s : starts opens s = true → skip_space s = s.
Proof.
  destruct s as [|c s]; [done|]. cbn. unfold opens. by destruct (is_json_space c).
Qed.

Lemma starts_app f s r : starts f s = true → starts f (s +:+ r) = true.
Proof. by destruct s. Qed.

Lemma Join_cons2 a b l sep :
  Strings.Join (a :: b :: l) sep = a +:+ sep +:+ Strings.Join (b :: l) sep.
Proof. done. Qed.

Definition reads_back (j : json) : Prop :=
  json_ok j = true → ∀ fuel d rest,
  2 * str_length (print j) < fuel → (d + nesting j ≤ maxNestingDepth)%N → delimited rest = true →
  parse_value fuel d (print j +:+ rest) = Ok (j, rest).

Lemma parse_elements_back l : Forall reads_back l → forallb json_ok l = true → l ≠ [] →
  ∀ fuel d rest,
  2 * str_length (Strings.Join (print <$> l) ",") + 1 < fuel →
  (d + foldr (λ j n, nesting j `max` n) 0 l ≤ maxNestingDepth)%N →
  parse_elements fuel d (Strings.Join (print <$> l) "," +:+ "]" +:+ rest) = Ok (l, rest).
Proof.
  intros Hl. induction Hl as [|j l Hj Hl IH]; [done|].
  cbn [forallb]. intros [Hok Hoks]%andb_true_iff _ fuel d rest Hf Hd. cbn [foldr] in Hd.
  destruct fuel as [|fuel]; [lia|]. cbn [parse_elements]. destruct l as [|j' l].
  - cbn [fmap list_fmap Strings.Join] in *. rewrite Hj by (done || lia).
    cbn [mbind outcome_bind]. reflexivity.
  - rewrite !fmap_cons, Join_cons2 in *. rewrite !str_length_app in Hf. rewrite !str_app_assoc.
    rewrite Hj; [|done|lia|lia|done]. cbn [mbind outcome_bind].
    change ("," +:+ ?x) with (String ","%char x).
    rewrite (skip_space_opens (String _ _)) by done.
    change (is_char 44 ","%char) with true. cbv iota.
    cbn [str_length] in Hf. rewrite <-fmap_cons in *.
    rewrite IH; [done|done|done|lia|]. cbn [foldr] in *. lia.
Qed.

Definition print_member '((k, v) : string * json) : string :=
  print_string k +:+ ":" +:+ print v.

Lemma print_string_app k rest :
  print_string k +:+ rest = String dq (escape_from 0 k +:+ String dq rest).
Proof. unfold print_string. by rewrite str_app_cons, str_app_assoc. Qed.

Lemma parse_member_back k v fuel d rest r :
  valid_utf8 k = true →
  (parse_value fuel d (print v +:+ rest) = Ok (v, rest)) →
  skip_space rest = r →
  parse_members (S fuel) d (print_member (k, v) +:+ rest)
  = match r with
    | EmptyString => Err unexpected_end
    | String c s3 =>
      if is_char 44 c then '(l, r) ← parse_members fuel d s3; Ok ((k, v) :: l, r)
      else if is_char 125 c then Ok ([(k, v)], s3)
      else Err (invalid_character c "after object key:value pair")
    end.
Proof.
  intros Hk Hv <-. unfold print_member. rewrite !str_app_assoc, print_string_app.
  cbn [parse_members]. change (skip_space (String dq ?x)) with (String dq x). cbv iota.
  change (Ascii.eqb dq dq) with true. cbn [negb].
  rewrite print_string_back by done. cbn [mbind outcome_bind].
  change (":" +:+ ?x) with (String ":"%char x).
  change (skip_space (String ":"%char ?x)) with (String ":"%char x). cbv iota.
  change (is_char 58 ":"%char) with true. cbn [negb]. by rewrite Hv.
Qed.

Lemma parse_members_back l :
  Forall (λ kv, reads_back kv.2) l → forallb (λ '(k, v), valid_utf8 k && json_ok v) l = true →
  l ≠ [] → ∀ fuel d rest,
  2 * str_length (Strings.Join (print_member <$> l) ",") + 1 < fuel →
  (d + foldr (λ '(_, j) n, nesting j `max` n) 0 l ≤ maxNestingDepth)%N →
  parse_members fuel d (Strings.Join (print_member <$> l) "," +:+ "}" +:+ rest) = Ok (l, rest).
Proof.
  intros Hl. induction Hl as [|[k j] l Hj Hl IH]; [done|].
  cbn [forallb]. intros [[Hk Hok]%andb_true_iff Hoks]%andb_true_iff _ fuel d rest Hf Hd.
  cbn [foldr snd] in *. destruct fuel as [|fuel]; [lia|].
  assert (str_length (print j) < str_length (print_member (k, j))) as Hlen.
  { unfold print_member, print_string. rewrite !str_length_app. cbn [str_length]. lia. }
  destruct l as [|kj l].
  - cbn [fmap list_fmap Strings.Join] in *.
    rewrite (parse_member_back k j fuel d _ (String "}"%char rest)); [done|done| |done].
    apply Hj; [done|lia|lia|done].
  - rewrite !fmap_cons, Join_cons2 in *. rewrite !str_length_app in Hf. rewrite !str_app_assoc.
    change ("," +:+ ?x) with (String ","%char x) in *. rewrite <-fmap_cons in *.
    erewrite parse_member_back; [|done|apply Hj; [done|lia|lia|done]|reflexivity].
    change (skip_space (String ","%char ?x)) with (String ","%char x). cbv iota.
    change (is_char 44 ","%char) with true. cbv iota. cbn [str_length] in Hf.
    rewrite IH; [done|done|done|lia|]. cbn [foldr] in *. lia.
Qed.

Lemma starts_Join f a l sep : starts f a = true → starts f (Strings.Join (a :: l) sep) = true.
Proof. intros Ha. destruct l; [done|]. rewrite Join_cons2. by apply starts_app. Qed.

Lemma closes_not s : starts opens s = true →
  ∃ c t, skip_space s = String c t ∧ is_char 93 c = false ∧ is_char 125 c = false.
Proof.
  intros Hs. rewrite skip_space_opens by done. destruct s as [|c t]; [done|]. exists c, t.
  cbn in Hs. unfold opens in Hs. apply negb_true_iff in Hs.
  rewrite !orb_false_iff in Hs. naive_solver.
Qed.

Lemma print_value_back j : reads_back j.
Proof.
  induction j as [j Hj|l IH|l IH] using json_ind_nested; intros Hok fuel d rest Hf Hd Hr.
  - destruct fuel as [|fuel]; [lia|]. cbn [parse_value].
    destruct j as [|[]|n|s|l|l]; try done.
    + pose proof (print_opens (JNumber n) Hok) as Ho. cbn [print] in *.
      rewrite (skip_space_opens _ (starts_app _ _ _ Ho)).
      pose proof (print_number_back n rest Hok Hr) as Hn.
      assert (starts (λ c, is_char 45 c || is_digit c) (print_number n) = true) as Hs.
      { destruct n as [neg w f m e]. cbn in Hok. unfold number_ok in Hok. cbn in Hok.
        apply andb_true_iff in Hok as [[Hw _]%andb_true_iff _]. unfold print_number. cbn.
        destruct neg; [done|]. destruct w as [|c w]; [done|]. cbn in Hw |- *. revert Hw.
        destruct c as [[] [] [] [] [] [] [] []]; vm_compute; congruence. }
      destruct (print_number n) as [|c t]; [done|]. rewrite str_app_cons in *. cbn in Hs.
      assert (is_char 123 c = false ∧ is_char 91 c = false ∧ Ascii.eqb c dq = false) as (-> & -> & ->).
      { revert Hs. destruct c as [[] [] [] [] [] [] [] []]; vm_compute; auto; congruence. }
      rewrite Hs, Hn. reflexivity.
    + cbn [print]. rewrite print_string_app.
      change (skip_space (String dq ?x)) with (String dq x). cbv iota.
      change (is_char 123 dq) with false. change (is_char 91 dq) with false. cbv iota.
      change (Ascii.eqb dq dq) with true. cbv iota. by rewrite print_string_back.
  - cbn [print json_ok nesting] in *. destruct fuel as [|fuel]; [lia|].
    rewrite !str_length_app in Hf. rewrite !str_app_assoc.
    change ("[" +:+ ?x) with (String "["%char x). cbn [parse_value].
    change (skip_space (String "["%char ?x)) with (String "["%char x). cbv iota.
    change (is_char 123 "["%char) with false. change (is_char 91 "["%char) with true. cbv iota.
    assert ((maxNestingDepth <=? d)%N = false) as -> by (apply N.leb_gt; lia).
    destruct l as [|j l]; [reflexivity|].
    destruct (closes_not (Strings.Join (print <$> j :: l) "," +:+ "]" +:+ rest)) as (c & t & -> & H1 & _).
    { rewrite fmap_cons. apply starts_app, starts_Join, print_opens. cbn in Hok.
      by apply andb_true_iff in Hok as [? _]. }
    rewrite H1. rewrite parse_elements_back; [reflexivity|done|done|done|cbn in *; lia|lia].
  - cbn [print json_ok nesting] in *. destruct fuel as [|fuel]; [lia|]. fold print_member in *.
    rewrite !str_length_app in Hf. rewrite !str_app_assoc.
    change ("{" +:+ ?x) with (String "{"%char x). cbn [parse_value].
    change (skip_space (String "{"%char ?x)) with (String "{"%char x). cbv iota.
    change (is_char 123 "{"%char) with true. cbv iota.
    assert ((maxNestingDepth <=? d)%N = false) as -> by (apply N.leb_gt; lia).
    destruct l as [|[k j] l]; [reflexivity|].
    destruct (closes_not (Strings.Join (print_member <$> (k, j) :: l) "," +:+ "}" +:+ rest))
      as (c & t & -> & _ & H1).
    { rewrite fmap_cons. by apply starts_app, starts_Join. }
    rewrite H1. rewrite parse_members_back; [reflexivity|done|done|done|cbn in *; lia|lia].
Qed.

(** What is printed is parsed back, when its strings are UTF-8, its numbers
    are numbers, and it is not nested too deeply. *)
Lemma parse_print j :
  json_ok j = true → (nesting j ≤ maxNestingDepth)%N → parse_json (print j) = Ok j.
Proof.
  intros Hok Hn. unfold parse_json.
  rewrite <-(str_app_nil_r (print j)) at 2.
  rewrite print_value_back by (done || lia). reflexivity.
Qed.
