(* ===== verification/Decimal.v ===== *)
(** The numbers of a JSON document as [float64]: [strconv.ParseFloat] and the
    float encoder of [encoding/json].

    A [float64] is its 64 bits, [math.Float64bits], an integer.  Reading rounds
    the decimal to the nearest float, ties to even, subnormal numbers included,
    and refuses one that overflows.  Writing takes the shortest decimal that
    reads back as the same float ([FormatFloat] with precision -1) in the
    notation the encoder chooses: with an exponent below 1e-6 and from 1e21 on.

    The round trip [format_float_back] is by construction: a text is an answer
    only if it reads back.  Seventeen digits suffice for every float. *)

From S2P Require Import Prelude Float GoStrings Errors Json.
From Stdlib Require Import Ascii QArith Qround Qpower.
#[local] Close Scope Q_scope.

Definition pow10 (e : Z) : Q := Qpower (10 # 1) e.

(** ** Bits *)

Definition infinity_bits : Z := (2047 * 2 ^ 52)%Z.

(** The bits of the float nearest to a number that is not negative. *)
Definition bits_abs (q : Q) : Z :=
  if Qeq_bool q 0 then 0%Z else
  let e := ((binade q - 52) `max` (-1074))%Z in
  (nearest (q * pow2 (- e))%Q + (e + 1074) * 2 ^ 52)%Z.

Definition float_value (b : Z) : Q :=
  let e := (b / 2 ^ 52)%Z in
  let f := (b mod 2 ^ 52)%Z in
  if (e =? 0)%Z then (inject_Z f * pow2 (-1074))%Q
  else (inject_Z (2 ^ 52 + f) * pow2 (e - 1075))%Q.

(** ** Reading *)

Fixpoint decimal_value (acc : Z) (s : string) : Z :=
  match s with
  | EmptyString => acc
  | String c s' => decimal_value (acc * 10 + digit_value c) s'
  end.
(** The digits of an exponent, which stops growing at 10000. *)
Fixpoint exponent_value (acc : Z) (s : string) : Z :=
  match s with
  | EmptyString => acc
  | String c s' =>
    exponent_value (if (acc <? 10000)%Z then acc * 10 + digit_value c else acc)%Z s'
  end.

Definition number_value (n : Number.t) : Q :=
  let e := exponent_value 0 n.(Number.exponent) in
  let e := if str_exists (is_char 45) n.(Number.exponent_mark) then (- e)%Z else e in
  (inject_Z (decimal_value 0 (n.(Number.whole) +:+ n.(Number.fraction)))
   * pow10 (e - Z.of_nat (str_length n.(Number.fraction))))%Q.

(** [ParseFloat(s, 64)]; [None] when it overflows. *)
Definition number_bits (n : Number.t) : option Z :=
  let b := bits_abs (number_value n) in
  if (infinity_bits <=? b)%Z then None
  else Some (if n.(Number.negative) then b + 2 ^ 63 else b)%Z.

(** ** Writing *)

(** The power of ten just below a positive number. *)
Definition decade (x : Q) : Z :=
  let k := (binade x * 30103 / 100000)%Z in
  if negb (Qle_bool (pow10 k) x) then (k - 1)%Z
  else if Qle_bool (pow10 (k + 1)) x then (k + 1)%Z else k.

(** With [n] digits, or more: a decimal next to [x] that has the bits of [x],
    the nearer one of two. *)
Fixpoint shortest (fuel : nat) (n : Z) (x : Q) (bits : Z) : option (Z * Z) :=
  match fuel with
  | O => None
  | S fuel =>
    let p := (decade x + 1 - n)%Z in
    let y := (x * pow10 (- p))%Q in
    let down := Qfloor y in
    let has_bits (d : Z) := (bits_abs (inject_Z d * pow10 p)%Q =? bits)%Z in
    match has_bits down, has_bits (down + 1)%Z with
    | true, true => Some (nearest y, p)
    | true, false => Some (down, p)
    | false, true => Some (down + 1, p)%Z
    | false, false => shortest fuel (n + 1) x bits
    end
  end.

Fixpoint strip_zeros (fuel : nat) (d p : Z) : Z * Z :=
  match fuel with
  | O => (d, p)
  | S fuel => if (d mod 10 =? 0)%Z then strip_zeros fuel (d / 10) (p + 1) else (d, p)
  end.

Fixpoint zeros (n : nat) : string :=
  match n with O => EmptyString | S n => String "0" (zeros n) end.

Definition decimal_text (d : Z) : string := pretty (Z.to_N d).

(** The digits [d] times ten to the [p]: plain, or with an exponent. *)
Definition format_plain (neg : bool) (d p : Z) : Number.t :=
  let ds := decimal_text d in
  let point := (Z.of_nat (str_length ds) + p)%Z in
  if (0 <=? p)%Z then Number.mk neg (ds +:+ zeros (Z.to_nat p)) EmptyString EmptyString EmptyString
  else if (0 <? point)%Z
  then Number.mk neg (str_take (Z.to_nat point) ds) (str_drop (Z.to_nat point) ds)
         EmptyString EmptyString
  else Number.mk neg "0" (zeros (Z.to_nat (- point)) +:+ ds) EmptyString EmptyString.
Definition format_exponent (neg : bool) (d p : Z) : Number.t :=
  let ds := decimal_text d in
  let e := (Z.of_nat (str_length ds) + p - 1)%Z in
  Number.mk neg (str_take 1 ds) (str_drop 1 ds) (if (e <? 0)%Z then "e-" else "e+")
    (decimal_text (Z.abs e)).

(** The text of a float; [None] for what is not a finite float. *)
Definition format_float (b : Z) : option Number.t :=
  let neg := (2 ^ 63 <=? b)%Z in
  let a := (if neg then b - 2 ^ 63 else b)%Z in
  let n :=
    if (a =? 0)%Z then Some (Number.mk neg "0" EmptyString EmptyString EmptyString) else
    let x := float_value a in
    '(d, p) ← shortest 17 1 x a;
    let '(d, p) := strip_zeros 20 d p in
    Some (if (bits_abs (pow10 (-6)) <=? a)%Z && (a <? bits_abs (pow10 21))%Z
          then format_plain neg d p else format_exponent neg d p) in
  n ← n;
  if number_ok n && bool_decide (number_bits n = Some b) then Some n else None.

Lemma format_float_back b n :
  format_float b = Some n → number_ok n = true ∧ number_bits n = Some b.
Proof.
  unfold format_float. cbv zeta.
  match goal with |- (?o ≫= _) = _ → _ => destruct o as [n'|]; [|done] end. cbn.
  destruct (number_ok n') eqn:Hok; [|done]. cbn. case_bool_decide as Hb; [|done].
  by intros [= <-].
Qed.

(** The text read and written again. *)
Definition rewritten (s : string) : option string :=
  match lex_number s with
  | Ok (n, EmptyString) => b ← number_bits n; print_number <$> format_float b
  | _ => None
  end.
Example written_again :
  rewritten <$> ["0.10"; "1e21"; "100000000000000000000"; "123456789.125"; "5e-324"; "-0";
                 "1.7976931348623157e308"; "0.000001"; "1e-7"; "9007199254740993"; "0.3"; "1e400"]
  = [Some "0.1"; Some "1e+21"; Some "100000000000000000000"; Some "123456789.125"; Some "5e-324";
     Some "-0"; Some "1.7976931348623157e+308"; Some "0.000001"; Some "1e-7";
     Some "9007199254740992"; Some "0.3"; None].
Proof. vm_compute. reflexivity. Qed.
