(* ===== verification/Url.v ===== *)
(** URLs: [Parse] of Go's package [net/url], by which the endpoints, the key
    vaults and the secret references of a provider are read.

    The parser is the library's: the fragment, the scheme, the query, the
    authority with its user information and port, the path, and the decoding of
    percent escapes with the rules of each part.  A host between brackets is an
    IP address, whose syntax (package [net/netip]) is the interface
    [IPLiterals].  Only the parts the provider reads are kept.

    [Parse_https] gives the result on the URLs the provider builds and
    expects: [https://], a host, and a path. *)

From S2P Require Import Prelude GoStrings Errors.
From Stdlib Require Import Ascii.

Module URL.
Record t := mk { Scheme : string; Host : string; Path : string }.
End URL.

(** A host with a bracket: the host kept, if it is an IP literal. *)
Class IPLiterals := ip_literal : string → option string.
Definition no_ip_literals : IPLiterals := λ _, None.

Definition slash : string := "/".
Definition slash_byte : ascii := "/"%char.
Definition colon : ascii := ":"%char.

(** [strings.Cut]: before and after the first occurrence. *)
Definition Cut (s sep : string) : string * string :=
  match Strings.Index s sep with
  | Some i => (str_take i s, str_drop (i + str_length sep) s)
  | None => (s, EmptyString)
  end.

Definition is_letter (c : ascii) : bool :=
  let n := N_of_ascii c in
  ((97 <=? n) && (n <=? 122))%N || ((65 <=? n) && (n <=? 90))%N.
Definition in_set (set : string) (c : ascii) : bool := str_exists (Ascii.eqb c) set.

(** ** Escapes *)

Inductive encoding := encodePath | encodeHost | encodeUserPassword | encodeFragment.

Section escapes.
Context `{Unicode}.


Definition unhex (c : ascii) : option N :=
  let n := N_of_ascii c in
  if is_digit c then Some (n - 48)%N
  else if ((97 <=? n) && (n <=? 102))%N then Some (n - 87)%N
  else if ((65 <=? n) && (n <=? 70))%N then Some (n - 55)%N
  else None.

(** [shouldEscape(c, encodeHost)] *)
Definition host_escaped (c : ascii) : bool :=
  negb (is_letter c || is_digit c || in_set "!$&'()*+,;=:[]<>-_.~" c
        || Ascii.eqb c (ascii_of_N 34)).

Definition percent : ascii := "%"%char.
Definition EscapeError (s : string) : error :=
  ForeignError false ("invalid URL escape " +:+ Strconv.Quote s) None.
Definition InvalidHostError (s : string) : error :=
  ForeignError false ("invalid character " +:+ Strconv.Quote s
                      +:+ " in host name") None.

Fixpoint unescape (mode : encoding) (s : string) : result string :=
  match s with
  | EmptyString => Ok EmptyString
  | String c s' =>
    if Ascii.eqb c percent then
      match s' with
      | String a (String b rest) =>
        match unhex a, unhex b with
        | Some h, Some l =>
          if match mode with encodeHost => true | _ => false end && (h <? 8)%N
             && negb ((h =? 2)%N && (l =? 5)%N)
          then Err (EscapeError (str_take 3 s))
          else
            tail ← unescape mode rest;
            Ok (String (ascii_of_N (16 * h + l)) tail)
        | _, _ => Err (EscapeError (str_take 3 s))
        end
      | _ => Err (EscapeError (str_take 3 s))
      end
    else if match mode with encodeHost => true | _ => false end && is_ascii_byte c && host_escaped c
    then Err (InvalidHostError (char_string c))
    else
      tail ← unescape mode s';
      Ok (String c tail)
  end.

End escapes.

(** ** The parts *)

(** [getScheme]; [i] tells the first byte. *)
Fixpoint scheme_loop (first : bool) (s : string) : result (option (string * string)) :=
  match s with
  | EmptyString => Ok None
  | String c s' =>
    if is_letter c || (negb first && (is_digit c || in_set "+-." c)) then
      found ← scheme_loop false s';
      Ok (match found with Some (scheme, rest) => Some (String c scheme, rest) | None => None end)
    else if Ascii.eqb c colon then
      if first then Err (Errorf "missing protocol scheme") else Ok (Some (EmptyString, s'))
    else Ok None
  end.
Definition getScheme (rawURL : string) : result (string * string) :=
  found ← scheme_loop true rawURL;
  Ok (default (EmptyString, rawURL) found).

Definition validOptionalPort (port : string) : bool :=
  match port with
  | EmptyString => true
  | String c digits => Ascii.eqb c colon && str_forall is_digit digits
  end.

Definition valid_userinfo_byte (c : ascii) : bool :=
  is_letter c || is_digit c || in_set "-._:~!$&'()*+,;=%@" c.

Section url.
Context `{Unicode} `{IPLiterals}.

Definition parseHost (host : string) : result string :=
  if has_char "["%char host then
    match ip_literal host with
    | Some h => Ok h
    | None => Err (Errorf "invalid host")
    end
  else
    match Strings.Index host (char_string colon) with
    | Some i =>
      if validOptionalPort (str_drop i host) then unescape encodeHost host
      else Err (Errorf ("invalid port " +:+ Strconv.Quote (str_drop i host) +:+ " after host"))
    | None => unescape encodeHost host
    end.

Definition parseAuthority (authority : string) : result string :=
  match Strings.LastIndex authority "@" with
  | None => parseHost authority
  | Some i =>
    host ← parseHost (str_drop (S i) authority);
    let userinfo := str_take i authority in
    if negb (str_forall valid_userinfo_byte userinfo)
    then Err (Errorf "net/url: invalid userinfo") else
    let '(username, password) := Cut userinfo (char_string colon) in
    _ ← unescape encodeUserPassword username;
    _ ← unescape encodeUserPassword password;
    Ok host
  end.

Definition is_ctl (c : ascii) : bool :=
  (N_of_ascii c <? 32)%N || (N_of_ascii c =? 127)%N.

(** [parse(rawURL, false)] *)
Definition parse_url (rawURL : string) : result URL.t :=
  if str_exists is_ctl rawURL then Err (Errorf "net/url: invalid control character in URL") else
  if String.eqb rawURL "*" then Ok (URL.mk EmptyString EmptyString "*") else
  '(scheme, rest) ← getScheme rawURL;
  let scheme := Strings.ToLower scheme in
  let rest := (Cut rest "?").1 in
  let rooted := Strings.HasPrefix rest slash in
  if negb rooted && negb (String.eqb scheme EmptyString)
  then Ok (URL.mk scheme EmptyString EmptyString) else
  if negb rooted && has_char colon (Cut rest slash).1
  then Err (Errorf "first path segment in URL cannot contain colon") else
  if (negb (String.eqb scheme EmptyString) || negb (Strings.HasPrefix rest "///"))
     && Strings.HasPrefix rest "//" then
    let authority := str_drop 2 rest in
    let '(authority, rest) :=
      match Strings.Index authority slash with
      | Some i => (str_take i authority, str_drop i authority)
      | None => (authority, EmptyString)
      end in
    host ← parseAuthority authority;
    path ← unescape encodePath rest;
    Ok (URL.mk scheme host path)
  else
    path ← unescape encodePath rest;
    Ok (URL.mk scheme EmptyString path).

(** [*url.Error], which is also a [net.Error]. *)
Definition url_error (rawURL : string) (e : error) : error :=
  ForeignError true ("parse " +:+ Strconv.Quote rawURL +:+ ": " +:+ Error e) (Some e).

Definition Parse (rawURL : string) : result URL.t :=
  let '(u, frag) := Cut rawURL "#" in
  match parse_url u with
  | Err e => Err (url_error u e)
  | Panic => Panic
  | Ok url =>
    match unescape encodeFragment frag with
    | Err e => Err (url_error rawURL e)
    | Panic => Panic
    | Ok _ => Ok url
    end
  end.

(** [url, _ := url.Parse(s)]: a nil pointer with an error. *)
Definition url_parse (s : string) : option URL.t :=
  match Parse s with Ok url => Some url | _ => None end.
End url.

(** ** The parser returns a URL or an error *)

Definition answers {A} (o : result A) : Prop := o ≠ Panic.

Lemma answers_bind {A B} (o : result A) (f : A → result B) :
  answers o → (∀ a, answers (f a)) → answers (o ≫= f).
Proof. destruct o; unfold answers; cbn; naive_solver. Qed.
Lemma answers_Ok {A} (a : A) : answers (Ok a).
Proof. done. Qed.
Lemma answers_Err {A} e : answers (Err e : result A).
Proof. done. Qed.

#[local] Hint Resolve answers_Ok answers_Err : core.
Ltac answers_tac :=
  cbv zeta;
  repeat match goal with
  | |- answers (_ ≫= _) => apply answers_bind; intros
  | |- answers (match _ with _ => _ end) => case_match
  | |- _ => progress (cbv beta; auto)
  end.

Section total.
Context `{Unicode} `{IPLiterals}.

Lemma unescape_answers mode s : answers (unescape mode s).
Proof.
  remember (str_length s) as n eqn:Hn. revert s Hn.
  induction (Nat.lt_wf_0 n) as [n _ IH]. intros s ->.
  assert (∀ t, str_length t < str_length s → answers (unescape mode t)) as IH'
    by (intros t Ht; by eapply (IH _ Ht)). clear IH.
  destruct s as [|c s]; [done|]. cbn [unescape]. cbn [str_length] in IH'.
  assert (answers (unescape mode s)) by (apply IH'; lia).
  destruct s as [|a [|b s]]; [answers_tac..|].
  assert (answers (unescape mode s)) by (apply IH'; cbn; lia). answers_tac.
Qed.

Lemma scheme_loop_answers first s : answers (scheme_loop first s).
Proof. revert first. induction s; intros; cbn [scheme_loop]; answers_tac. Qed.

#[local] Hint Resolve unescape_answers scheme_loop_answers : core.

Lemma Parse_answers s : Parse s ≠ Panic.
Proof.
  assert (∀ h, answers (parseHost h)) by (intros; unfold parseHost; answers_tac).
  assert (∀ h, answers (parseAuthority h)) by (intros; unfold parseAuthority; answers_tac).
  assert (∀ u, answers (parse_url u)) as Hu
    by (intros; unfold parse_url, getScheme; answers_tac).
  change (answers (Parse s)). unfold Parse. destruct (Cut s "#") as [u frag].
  specialize (Hu u). destruct (parse_url u); [|done|done].
  pose proof (unescape_answers encodeFragment frag). by destruct (unescape _ frag).
Qed.
End total.

(** ** URLs of the provider *)

(** The bytes of a host name, and of a path without escapes. *)
Definition name_byte (c : ascii) : bool := is_letter c || is_digit c || in_set "-." c.
Definition path_byte (c : ascii) : bool := negb (is_ctl c || in_set "%?#" c).

(** A fact on bytes, by looking at each of them. *)
Ltac all_bytes c := destruct c as [[] [] [] [] [] [] [] []]; vm_compute; done.

Section https.
Context `{Unicode} `{IPLiterals}.

Lemma str_forall_absent f c s : str_forall f s = true → f c = false → has_char c s = false.
Proof.
  induction s as [|d s IH]; [done|]. cbn [str_forall]. intros [Hd Hs]%andb_true_iff Hc.
  unfold has_char in *. simpl. rewrite IH by done. rewrite orb_false_r.
  apply Ascii.eqb_neq. congruence.
Qed.

Lemma str_forall_exists f g s :
  str_forall f s = true → (∀ c, f c = true → g c = false) → str_exists g s = false.
Proof.
  intros Hs Hfg. induction s as [|d s IH]; [done|]. cbn in *.
  apply andb_true_iff in Hs as [Hd Hs]. by rewrite Hfg, IH.
Qed.

Lemma str_forall_impl (f g : ascii → bool) s :
  (∀ c, f c = true → g c = true) → str_forall f s = true → str_forall g s = true.
Proof.
  intros Hfg. induction s as [|d s IH]; [done|]. cbn. rewrite !andb_true_iff. naive_solver.
Qed.

Lemma str_exists_app f s t : str_exists f (s +:+ t) = str_exists f s || str_exists f t.
Proof. induction s as [|d s IH]; [done|]. rewrite str_app_cons. cbn. by rewrite IH, orb_assoc. Qed.

Lemma Cut_absent c s : has_char c s = false → Cut s (char_string c) = (s, EmptyString).
Proof. intros Hs. unfold Cut. by rewrite Index_char_None. Qed.

Lemma LastIndex_absent c s : has_char c s = false → Strings.LastIndex s (char_string c) = None.
Proof.
  induction s as [|d s IH]; intros Hs; [done|]. unfold has_char in *. simpl in Hs.
  apply orb_false_iff in Hs as [Hd Hs]. cbn [Strings.LastIndex].
  rewrite IH by done. by rewrite HasPrefix_char, Hd.
Qed.

(** Without escapes and forbidden bytes the text is its own reading. *)
Lemma unescape_plain mode s :
  has_char percent s = false → (mode = encodeHost → str_exists host_escaped s = false) →
  unescape mode s = Ok s.
Proof.
  induction s as [|c s IH]; intros Hp Hh; [done|]. unfold has_char in *. cbn [str_exists] in Hp.
  apply orb_false_iff in Hp as [Hc Hp]. cbn [unescape].
  rewrite Ascii.eqb_sym, Hc.
  assert (match mode with encodeHost => true | _ => false end && is_ascii_byte c
          && host_escaped c = false) as ->.
  { destruct mode; try done. specialize (Hh eq_refl). cbn [str_exists] in Hh.
    apply orb_false_iff in Hh as [-> _]. by rewrite !andb_false_r. }
  rewrite IH; [done|done|]. intros Hm. specialize (Hh Hm). cbn [str_exists] in Hh.
  by apply orb_false_iff in Hh as [_ ?].
Qed.

Lemma name_byte_not_escaped c : name_byte c = true → host_escaped c = false.
Proof. all_bytes c. Qed.

Lemma name_byte_path c : name_byte c = true → path_byte c = true.
Proof. all_bytes c. Qed.

Lemma path_byte_ctl c : path_byte c = true → is_ctl c = false.
Proof. all_bytes c. Qed.

Lemma parseHost_name h : str_forall name_byte h = true → parseHost h = Ok h.
Proof.
  intros Hh. unfold parseHost.
  rewrite (str_forall_absent name_byte "["%char h) by done.
  rewrite Index_char_None by (by apply (str_forall_absent name_byte)).
  apply unescape_plain; [by apply (str_forall_absent name_byte)|].
  intros _. by eapply str_forall_exists; [|apply name_byte_not_escaped].
Qed.

(** A URL with a plain host and path is read as written. *)
Lemma Parse_https h p :
  str_forall name_byte h = true → str_forall path_byte p = true →
  p = EmptyString ∨ Strings.HasPrefix p slash = true →
  Parse ("https://" +:+ h +:+ p) = Ok (URL.mk "https" h p).
Proof.
  intros Hh Hp Hroot.
  assert (str_forall path_byte h = true) as Hh' by (by eapply str_forall_impl, Hh; apply name_byte_path).
  assert (∀ c, path_byte c = false → has_char c (h +:+ p) = false) as Habs.
  { intros c Hc. rewrite has_char_app. by rewrite !(str_forall_absent path_byte). }
  assert (has_char slash_byte h = false) as Hslash by (by apply (str_forall_absent name_byte)).
  assert (unescape encodePath p = Ok p) as Hpath
    by (by apply unescape_plain; [apply (str_forall_absent path_byte)|]).
  assert (match Strings.Index (h +:+ p) slash with
          | Some i => (str_take i (h +:+ p), str_drop i (h +:+ p))
          | None => (h +:+ p, EmptyString)
          end = (h, p)) as Hcut.
  { change slash with (char_string slash_byte) in *. destruct Hroot as [->|Hroot].
    - rewrite str_app_nil_r. by rewrite Index_char_None.
    - apply HasPrefix_app in Hroot as [r ->]. change (char_string slash_byte +:+ r) with (String slash_byte r).
      rewrite Index_char by done. by rewrite str_take_app, str_drop_app. }
  unfold Parse. change "#" with (char_string "#"%char).
  rewrite Cut_absent by (by apply Habs).
  unfold parse_url. change "?" with (char_string "?"%char).
  assert (str_exists is_ctl ("https://" +:+ h +:+ p) = false) as ->.
  { rewrite !str_exists_app, !(str_forall_exists path_byte) by (done || apply path_byte_ctl). done. }
  change (getScheme ("https://" +:+ h +:+ p)) with (Ok (E:=error) ("https", "//" +:+ h +:+ p)).
  cbn [mbind outcome_bind]. change (Strings.ToLower "https") with "https".
  rewrite Cut_absent by (by apply (Habs _)). cbn [fst].
  change (Strings.HasPrefix ("//" +:+ h +:+ p) slash) with true.
  change (Strings.HasPrefix ("//" +:+ h +:+ p) "//") with true.
  change (str_drop 2 ("//" +:+ h +:+ p)) with (h +:+ p).
  cbn [negb andb orb String.eqb]. rewrite Hcut. unfold parseAuthority.
  change "@" with (char_string "@"%char).
  rewrite LastIndex_absent by (by apply (str_forall_absent name_byte)).
  rewrite parseHost_name by done. cbn [mbind outcome_bind]. rewrite Hpath. reflexivity.
Qed.
End https.
