(* ===== verification/Api.v ===== *)
(** The API types of [api/v1/azureappconfigurationprovider_types.go]: the
    specification of an [AzureAppConfigurationProvider] and its status.

    A Go pointer to an immutable value is an [option]; [nil] is [None]; [strptr]
    keeps the address where the code compares pointers.  A
    [nil] slice and an empty one are told apart only where the code does
    ([Selector.TagFilters], an [option] of a list). *)

From S2P Require Import Prelude GoStrings.

(** ** Selection of settings *)

Module Selector.
Record t := mk {
  KeyFilter : option string;
  LabelFilter : option string;
  TagFilters : option (list string);   (** [None]: a nil slice *)
  SnapshotName : option string;
}.
#[global] Instance eta_selector : Eta t := λ s,
  mk (KeyFilter s) (LabelFilter s) (TagFilters s) (SnapshotName s).
#[global] Instance selector_eq_dec : EqDecision t.
Proof. solve_decision. Defined.
(** [len] and [range] do not tell a nil slice from an empty one. *)
Definition tags (s : t) : list string := default [] (TagFilters s).
End Selector.

(** A [*string] whose identity matters: Go compares two pointers by address,
    so a struct that holds one and is used as a map key is compared by the
    address too.  Two pointers of a heap with the same address have the same
    pointee. *)
Record strptr := Ptr { addr : N; pointee : string }.
#[global] Instance strptr_eq_dec : EqDecision strptr.
Proof. solve_decision. Defined.
#[global] Instance strptr_countable : Countable strptr.
Proof.
  refine (inj_countable' (λ p, (addr p, pointee p)) (λ p, Ptr p.1 p.2) _).
  by intros [].
Defined.

(** [Sentinel] is a map key ([map[Sentinel]*azcore.ETag], and the map of
    [verifyObject] that looks for duplicates), so its label keeps its address. *)
Module Sentinel.
Record t := mk { Key : string; Label : option strptr }.
Definition label (s : t) : option string := pointee <$> Label s.
#[global] Instance sentinel_eq_dec : EqDecision t.
Proof. solve_decision. Defined.
#[global] Instance sentinel_countable : Countable t.
Proof.
  refine (inj_countable' (λ s, (Key s, Label s)) (λ p, mk p.1 p.2) _).
  by intros [].
Defined.
End Sentinel.

(** [ComparableSelector]: the tag filters are one string.  It is a map key
    too, but every key of one map is made from a list of selectors without
    duplicates, whose keys differ by content ([Filters.MakeComparable_keep_last_NoDup]),
    so equality by content and by address agree on it. *)
Module ComparableSelector.
Record t := mk {
  KeyFilter : option string;
  LabelFilter : option string;
  TagFilters : option string;
  SnapshotName : option string;
}.
#[global] Instance comparable_eq_dec : EqDecision t.
Proof. solve_decision. Defined.
#[global] Instance comparable_countable : Countable t.
Proof.
  refine (inj_countable'
    (λ s, (KeyFilter s, LabelFilter s, TagFilters s, SnapshotName s))
    (λ '(k, l, t, n), mk k l t n) _).
  by intros [].
Defined.
End ComparableSelector.

(** ** Output of the settings *)

Inductive DataType : Type := Default | Properties | Yaml | Json.
#[global] Instance DataType_eq_dec : EqDecision DataType.
Proof. solve_decision. Defined.

Definition DataType_string (d : DataType) : string :=
  match d with
  | Default => "default" | Properties => "properties"
  | Yaml => "yaml" | Json => "json"
  end.

Module DataOptions.
Record t := mk { Type_ : DataType; Key : string; Separator : option string }.
End DataOptions.

Module Target.  (** [ConfigurationGenerationParameters] *)
Record t := mk { ConfigMapName : string; ConfigMapData : option DataOptions.t }.
End Target.

Module SecretTarget.  (** [SecretGenerationParameters] *)
Record t := mk { SecretName : string; SecretData : option DataOptions.t }.
End SecretTarget.

(** ** Refresh settings *)

(** [RefreshSettings] and [FeatureFlagRefreshSettings] have the same fields. *)
Module RefreshSettings.
Record t := mk { Interval : string; Enabled : bool }.
End RefreshSettings.

Module KeyValueRefresh.  (** [DynamicConfigurationRefreshParameters] *)
Record t := mk {
  Monitoring : option (list Sentinel.t);  (** [RefreshMonitoring.Sentinels] *)
  Interval : string;
  Enabled : bool;
}.
End KeyValueRefresh.

Module KeyValueOptions.  (** [AzureAppConfigurationKeyValueOptions] *)
Record t := mk {
  Selectors : list Selector.t;
  TrimKeyPrefixes : list string;
  Refresh : option KeyValueRefresh.t;
}.
End KeyValueOptions.

Module FeatureFlagOptions.  (** [AzureAppConfigurationFeatureFlagOptions] *)
Record t := mk {
  Selectors : list Selector.t;
  Refresh : option RefreshSettings.t;
}.
End FeatureFlagOptions.

(** ** Authentication *)

Module WorkloadIdentity.  (** [WorkloadIdentityParameters] *)
Record t := mk {
  ManagedIdentityClientId : option string;
  ManagedIdentityClientIdReference : option (string * string);
    (** the [ConfigMap] and [Key] of [ManagedIdentityReferenceParameters] *)
  ServiceAccountName : option string;
}.
End WorkloadIdentity.

Module Auth.  (** [AzureAppConfigurationProviderAuth] *)
Record t := mk {
  ManagedIdentityClientId : option string;
  ServicePrincipalReference : option string;
  WorkloadIdentity : option WorkloadIdentity.t;
}.
End Auth.

Module VaultAuth.  (** [AzureKeyVaultPerVaultAuth] *)
Record t := mk { Uri : string; auth : option Auth.t }.
End VaultAuth.

Module KeyVaultAuth.  (** [AzureKeyVaultAuth] *)
Record t := mk { auth : option Auth.t; KeyVaults : list VaultAuth.t }.
End KeyVaultAuth.

Module SecretReference.
Record t := mk {
  Target : SecretTarget.t;
  Auth : option KeyVaultAuth.t;
  Refresh : option RefreshSettings.t;
}.
End SecretReference.

(** ** The custom resource *)

Module Spec.  (** [AzureAppConfigurationProviderSpec] *)
Record t := mk {
  Endpoint : option string;
  ReplicaDiscoveryEnabled : bool;
  LoadBalancingEnabled : bool;
  ConnectionStringReference : option string;
  Target : Target.t;
  Auth : option Auth.t;
  Configuration : KeyValueOptions.t;
  Secret : option SecretReference.t;
  FeatureFlag : option FeatureFlagOptions.t;
}.
#[global] Instance eta_spec : Eta t := λ s,
  mk (Endpoint s) (ReplicaDiscoveryEnabled s) (LoadBalancingEnabled s)
     (ConnectionStringReference s) (Target s) (Auth s) (Configuration s)
     (Secret s) (FeatureFlag s).
End Spec.

(** [AppConfigurationSyncPhase]; [NoPhase] is the empty string of an object
    never reconciled. *)
Inductive SyncPhase : Type :=
  | NoPhase | PhasePending | PhaseRunning | PhaseComplete | PhaseFailed
  | PhaseUpdateFailed.
#[global] Instance SyncPhase_eq_dec : EqDecision SyncPhase.
Proof. solve_decision. Defined.

Module RefreshStatus.
Record t := mk {
  LastKeyVaultReferenceRefreshTime : Time.time;
  LastKeyValueRefreshTime : Time.time;
  LastFeatureFlagRefreshTime : Time.time;
}.
#[global] Instance eta_refresh_status : Eta t := λ s,
  mk (LastKeyVaultReferenceRefreshTime s) (LastKeyValueRefreshTime s)
     (LastFeatureFlagRefreshTime s).
End RefreshStatus.

Module Status.  (** [AzureAppConfigurationProviderStatus] *)
Record t := mk {
  LastReconcileTime : Time.time;
  LastSyncTime : Time.time;
  Phase : SyncPhase;
  Message : string;
  RefreshStatus : RefreshStatus.t;
}.
#[global] Instance eta_status : Eta t := λ s,
  mk (LastReconcileTime s) (LastSyncTime s) (Phase s) (Message s)
     (RefreshStatus s).
End Status.

Definition SyncCompleteMessage : string :=
  "Complete sync key-values from App Configuration to target ConfigMap or Secret.".
Definition CreateFailMessage : string :=
  "Fail to create key-values from App Configuration to target ConfigMap or Secret.".
Definition UpdateFailMessage : string :=
  "Fail to update present key-values from App Configuration to target ConfigMap or Secret.".
Definition SyncRunningMessage : string :=
  "Azure App Configuration provider is syncing the key-values to cluster.".

Module Provider.  (** [AzureAppConfigurationProvider] with its metadata *)
Record t := mk {
  Name : string;
  Namespace : string;
  UID : string;
  Generation : Z;
  Annotations : gmap string string;
  Labels : gmap string string;
  Spec : Spec.t;
  Status : Status.t;
}.
#[global] Instance eta_provider : Eta t := λ p,
  mk (Name p) (Namespace p) (UID p) (Generation p) (Annotations p) (Labels p)
     (Spec p) (Status p).
End Provider.
