(* ===== verification/Filters.v ===== *)
(** Selection of settings: normalisation and deduplication of selectors
    ([internal/loader/configuration_setting_loader.go]) and their comparable
    form ([api/v1/azureappconfigurationprovider_types.go]).

    [deduplicateFilters] is shown equal to a reference definition
    ([keep_last]), and the comparable form to be injective on what it returns,
    so that the maps of page ETags never lose an entry. *)

From S2P Require Import Prelude GoStrings Errors Json Api.
From Stdlib Require Import Ascii.

Definition FeatureFlagKeyPrefix : string := ".appconfig.featureflag/".

(** ** Comparison of selectors *)

(** [compare]: [nil] equals [nil] only, other pointers by content. *)
Definition compare (a b : option string) : bool :=
  match a, b with
  | None, None => true
  | Some x, Some y => String.eqb x y
  | _, _ => false
  end.

Fixpoint strings_eqb (a b : list string) : bool :=
  match a, b with
  | [], [] => true
  | x :: a', y :: b' => String.eqb x y && strings_eqb a' b'
  | _, _ => false
  end.

Definition compareTagFilters (a b : list string) : bool :=
  if bool_decide (a = []) && bool_decide (b = []) then true
  else if negb (bool_decide (length a = length b)) then false
  else strings_eqb (sort_strings a) (sort_strings b).

(** The condition of the inner loop of [deduplicateFilters]. *)
Definition same_filter (a b : Selector.t) : bool :=
  compare a.(Selector.KeyFilter) b.(Selector.KeyFilter)
  && compare a.(Selector.LabelFilter) b.(Selector.LabelFilter)
  && compare a.(Selector.SnapshotName) b.(Selector.SnapshotName)
  && compareTagFilters (Selector.tags a) (Selector.tags b).

(** ** Normalisation *)

Definition normalize_label (l : option string) : option string :=
  match l with
  | None => Some nul_string
  | Some s => if bool_decide (str_length s = 0) then Some nul_string else Some s
  end.

Definition dedup_tags (tags : list string) : list string :=
  fold_left (λ acc tag, if bool_decide (tag ∈ acc) then acc else acc ++ [tag]) tags [].

Definition normalizeFilter (filters : list Selector.t) : list Selector.t :=
  (λ f, {| Selector.KeyFilter := f.(Selector.KeyFilter);
           Selector.LabelFilter := normalize_label f.(Selector.LabelFilter);
           Selector.TagFilters := Some (dedup_tags (Selector.tags f));
           Selector.SnapshotName := f.(Selector.SnapshotName) |}) <$> filters.

(** [null] is the address of the local variable [nullString], shared by all
    the labels the call replaces. *)
Definition normalizeSentinels (null : N) (sentinels : list Sentinel.t) : list Sentinel.t :=
  (λ s, {| Sentinel.Key := s.(Sentinel.Key);
           Sentinel.Label :=
             match s.(Sentinel.Label) with
             | Some p =>
               if bool_decide (str_length (pointee p) = 0)
               then Some (Ptr null nul_string) else Some p
             | None => Some (Ptr null nul_string)
             end |}) <$> sentinels.

(** ** Deduplication *)

Definition reverse (arr : list Selector.t) : outcome () (list Selector.t) :=
  Slice.reverse_range arr 0 (length arr - 1).

(** The outer loop walks the filters from the last to the first. *)
Fixpoint dedup_scan (rest result : list Selector.t) : list Selector.t :=
  match rest with
  | [] => result
  | f :: rest' =>
    dedup_scan rest'
      (if existsb (λ r, same_filter r f) result then result else result ++ [f])
  end.

Definition wildcard_filter : Selector.t :=
  Selector.mk (Some "*") None None None.

Definition deduplicateFilters (filters : list Selector.t) : outcome () (list Selector.t) :=
  if bool_decide (0 < length filters)
  then reverse (dedup_scan (rev filters) [])
  else Ok [wildcard_filter].

Definition GetKeyValueFilters (spec : Spec.t) : outcome () (list Selector.t) :=
  deduplicateFilters
    (normalizeFilter spec.(Spec.Configuration).(KeyValueOptions.Selectors)).

Definition prefix_feature_flag (f : Selector.t) : Selector.t :=
  match f.(Selector.KeyFilter) with
  | Some k => f <| Selector.KeyFilter := Some (FeatureFlagKeyPrefix +:+ k) |>
  | None => f
  end.

Definition GetFeatureFlagFilters (spec : Spec.t) : outcome () (list Selector.t) :=
  match spec.(Spec.FeatureFlag) with
  | Some ff =>
    fmap (M:=list) prefix_feature_flag <$>
      deduplicateFilters (normalizeFilter ff.(FeatureFlagOptions.Selectors))
  | None => Ok []
  end.

(** ** Comparable selectors *)

(** [json.Marshal] of a [[]string], which does not fail, and [json.Unmarshal]
    into a nil slice ([None]); a null element leaves the empty string. *)
Definition marshal_strings (l : list string) : option string :=
  Some (print (JArray (JString <$> l))).

Definition string_element (j : json) : result string :=
  match j with
  | JString s => Ok s
  | JNull => Ok EmptyString
  | _ => Err (UnmarshalTypeError (json_kind j) "string")
  end.
Fixpoint string_elements (l : list json) : result (list string) :=
  match l with
  | [] => Ok []
  | j :: l' => s ← string_element j; ss ← string_elements l'; Ok (s :: ss)
  end.
Definition unmarshal_strings (text : string) : result (option (list string)) :=
  j ← parse_json text;
  match j with
  | JNull => Ok None
  | JArray l => Some <$> string_elements l
  | _ => Err (UnmarshalTypeError (json_kind j) "[]string")
  end.

(** A list of valid UTF-8 strings is encoded as a text, from which decoding
    gets it back. *)
Lemma json_strings_roundtrip l :
  Forall (λ s, valid_utf8 s = true) l →
  ∃ s, marshal_strings l = Some s ∧ s ≠ EmptyString ∧ unmarshal_strings s = Ok (Some l).
Proof.
  intros Hl. eexists. split; [done|]. split; [done|].
  assert (forallb json_ok (JString <$> l) = true) as Hok
    by (induction Hl as [|s l Hs _ IH]; [done|]; rewrite fmap_cons; cbn; by rewrite Hs).
  assert (string_elements (JString <$> l) = Ok l) as Hs
    by (clear; induction l as [|s l IH]; [done|]; rewrite fmap_cons; cbn; by rewrite IH).
  unfold unmarshal_strings. rewrite parse_print; [|done|].
  - cbn [mbind outcome_bind]. by rewrite Hs.
  - cbn [nesting]. assert (foldr (λ j n, nesting j `max` n)%N 0%N (JString <$> l) = 0%N) as ->
      by (clear; induction l as [|s l IH]; [done|]; rewrite fmap_cons; cbn; by rewrite IH).
    done.
Qed.

Section comparable.
Context `{Unicode}.

Definition comparable_tags (tags : list string) : option string :=
  if bool_decide (0 < length tags) then
    let sortedTags := sort_strings tags in
    match marshal_strings sortedTags with
    | None => Some (Strings.Join sortedTags ",")
    | Some s => Some s
    end
  else None.

Definition MakeComparable (selector : Selector.t) : ComparableSelector.t :=
  {| ComparableSelector.KeyFilter := selector.(Selector.KeyFilter);
     ComparableSelector.LabelFilter := selector.(Selector.LabelFilter);
     ComparableSelector.TagFilters := comparable_tags (Selector.tags selector);
     ComparableSelector.SnapshotName := selector.(Selector.SnapshotName) |}.

Definition FromComparable (comparable : ComparableSelector.t) : Selector.t :=
  {| Selector.KeyFilter := comparable.(ComparableSelector.KeyFilter);
     Selector.LabelFilter := comparable.(ComparableSelector.LabelFilter);
     Selector.TagFilters :=
       match comparable.(ComparableSelector.TagFilters) with
       | Some text =>
         if String.eqb text EmptyString then None
         else match unmarshal_strings text with
              | Ok tags => tags
              | _ => Some (Strings.Split text ",")
              end
       | None => None
       end;
     Selector.SnapshotName := comparable.(ComparableSelector.SnapshotName) |}.
End comparable.

(** ** Equivalence of selectors *)

Definition selector_equiv (a b : Selector.t) : Prop :=
  a.(Selector.KeyFilter) = b.(Selector.KeyFilter)
  ∧ a.(Selector.LabelFilter) = b.(Selector.LabelFilter)
  ∧ a.(Selector.SnapshotName) = b.(Selector.SnapshotName)
  ∧ Selector.tags a ≡ₚ Selector.tags b.

#[export] Instance selector_equivalence : Equivalence selector_equiv.
Proof.
  split; unfold selector_equiv; [by intros []| |].
  - intros a b (?&?&?&?). by repeat split.
  - intros a b c (->&->&->&->) (->&->&->&->). by repeat split.
Qed.

Lemma compare_spec a b : compare a b = true ↔ a = b.
Proof.
  destruct a as [x|], b as [y|]; simpl; rewrite ?String.eqb_eq; naive_solver.
Qed.

Lemma strings_eqb_spec a b : strings_eqb a b = true ↔ a = b.
Proof.
  revert b. induction a as [|x a IH]; intros [|y b]; simpl; try done.
  rewrite andb_true_iff, String.eqb_eq, IH. naive_solver.
Qed.

Lemma compareTagFilters_perm a b : compareTagFilters a b = true ↔ a ≡ₚ b.
Proof.
  unfold compareTagFilters. case_match eqn:Hn.
  { apply andb_true_iff in Hn as [->%bool_decide_eq_true ->%bool_decide_eq_true]. done. }
  case_match eqn:Hl.
  - apply negb_true_iff, bool_decide_eq_false in Hl. split; [done|].
    intros Hp. by rewrite Hp in Hl.
  - by rewrite strings_eqb_spec, sort_strings_eq.
Qed.

Lemma same_filter_spec a b : same_filter a b = true ↔ selector_equiv a b.
Proof.
  unfold same_filter, selector_equiv.
  rewrite !andb_true_iff, !compare_spec, compareTagFilters_perm. naive_solver.
Qed.

#[export] Instance selector_equiv_dec : RelDecision selector_equiv.
Proof.
  intros a b. destruct (same_filter a b) eqn:Hs.
  - left. by apply same_filter_spec.
  - right. rewrite <-same_filter_spec. by rewrite Hs.
Defined.

#[export] Instance same_filter_Proper :
  Proper (selector_equiv ==> selector_equiv ==> (=)) same_filter.
Proof.
  intros a a' Ha b b' Hb. apply eq_bool_prop_intro.
  rewrite !Is_true_true, !same_filter_spec. by rewrite Ha, Hb.
Qed.

(** ** The reference: keep the last of each class of equal selectors *)

Fixpoint keep_last (l : list Selector.t) : list Selector.t :=
  match l with
  | [] => []
  | f :: l' => if existsb (same_filter f) l' then keep_last l' else f :: keep_last l'
  end.

Lemma existsb_same_keep_last f l :
  existsb (same_filter f) (keep_last l) = existsb (same_filter f) l.
Proof.
  induction l as [|g l IH]; [done|]. simpl. destruct (existsb (same_filter g) l) eqn:He.
  - rewrite IH. destruct (same_filter f g) eqn:Hfg; [|done].
    apply existsb_true in He as (h & Hh & Hgh). apply existsb_true.
    exists h. split; [done|]. by apply same_filter_spec in Hfg as ->.
  - simpl. by rewrite IH.
Qed.

Lemma same_filter_comm a b : same_filter a b = same_filter b a.
Proof.
  apply eq_bool_prop_intro. rewrite !Is_true_true, !same_filter_spec. by split; symmetry.
Qed.

Lemma dedup_scan_app a b r : dedup_scan (a ++ b) r = dedup_scan b (dedup_scan a r).
Proof. revert r. induction a as [|f a IH]; intros r; simpl; auto. Qed.

Lemma dedup_scan_keep_last l : dedup_scan (rev l) [] = rev (keep_last l).
Proof.
  induction l as [|f l IH]; [done|]. simpl. rewrite dedup_scan_app, IH. simpl.
  rewrite <-(existsb_same_keep_last f l).
  rewrite (existsb_perm _ _ _ (Permutation_rev (keep_last l))).
  rewrite (existsb_eq (λ r, same_filter r f) (same_filter f))
    by (intros; apply same_filter_comm).
  by case_match.
Qed.

Lemma keep_last_in f l : f ∈ keep_last l → f ∈ l.
Proof.
  induction l as [|g l IH]; [done|]. simpl. case_match.
  - set_solver.
  - rewrite !elem_of_cons. naive_solver.
Qed.

Lemma keep_last_distinct l i j f g :
  keep_last l !! i = Some f → keep_last l !! j = Some g →
  selector_equiv f g → i = j.
Proof.
  revert i j. induction l as [|h l IH]; intros i j; [done|]. simpl.
  destruct (existsb (same_filter h) l) eqn:He; [apply IH|].
  assert (∀ k e, keep_last l !! k = Some e → ¬ selector_equiv h e) as Hne.
  { intros k e Hk%list_elem_of_lookup_2%keep_last_in Heq%same_filter_spec.
    rewrite existsb_false in He. by rewrite He in Heq. }
  destruct i as [|i], j as [|j]; simpl; intros Hi Hj Hfg; simplify_eq; [done| | |].
  - exfalso. by eapply Hne.
  - exfalso. eapply Hne; [done|]. by symmetry.
  - f_equal. by eapply IH.
Qed.

Lemma keep_last_covers l f : f ∈ l → ∃ g, g ∈ keep_last l ∧ selector_equiv f g.
Proof.
  intros Hf. assert (existsb (same_filter f) (keep_last l) = true) as Hex.
  { rewrite existsb_same_keep_last. apply existsb_true. exists f.
    split; [done|]. by apply same_filter_spec. }
  apply existsb_true in Hex as (g & ? & ?%same_filter_spec). eauto.
Qed.

Lemma keep_last_nil l : keep_last l = [] ↔ l = [].
Proof.
  split; [|by intros ->]. destruct l as [|f l]; [done|]. intros Hk.
  destruct (keep_last_covers (f :: l) f) as (g & Hg & _); [by left|].
  rewrite Hk in Hg. set_solver.
Qed.

Lemma deduplicateFilters_eq l :
  deduplicateFilters l = Ok (match l with [] => [wildcard_filter] | _ => keep_last l end).
Proof.
  unfold deduplicateFilters. destruct l as [|f l]; [done|].
  rewrite bool_decide_eq_true_2 by (simpl; lia).
  rewrite dedup_scan_keep_last. unfold reverse. rewrite Slice.reverse_range_all.
  by rewrite reverse_rev, rev_involutive.
Qed.

(** Equal selectors and equal comparable forms. *)
Definition tags_valid (f : Selector.t) : Prop :=
  Forall (λ s, valid_utf8 s = true) (Selector.tags f).

Section comparable_lemmas.
Context `{Unicode}.

Lemma comparable_tags_inj a b :
  Forall (λ s, valid_utf8 s = true) a → Forall (λ s, valid_utf8 s = true) b →
  comparable_tags a = comparable_tags b → a ≡ₚ b.
Proof.
  unfold comparable_tags. intros Ha Hb.
  rewrite <-(sort_strings_perm a) in Ha. rewrite <-(sort_strings_perm b) in Hb.
  destruct (json_strings_roundtrip _ Ha) as (sa & Hma & _ & Hua).
  destruct (json_strings_roundtrip _ Hb) as (sb & Hmb & _ & Hub).
  rewrite Hma, Hmb. repeat case_bool_decide; intros Heq; simplify_eq.
  - apply sort_strings_eq. congruence.
  - by destruct a, b; simpl in *; try lia.
Qed.

Lemma MakeComparable_equiv a b :
  tags_valid a → tags_valid b →
  MakeComparable a = MakeComparable b ↔ selector_equiv a b.
Proof.
  intros Ha Hb. unfold MakeComparable, selector_equiv. split.
  - intros Heq. injection Heq as -> -> Htags ->.
    repeat split. by apply comparable_tags_inj.
  - intros (-> & -> & -> & Hp). f_equal. unfold comparable_tags.
    by rewrite (sort_strings_unique _ _ Hp), (Permutation_length Hp).
Qed.

Lemma comparable_tags_decode tags :
  Forall (λ s, valid_utf8 s = true) tags →
  default [] (match comparable_tags tags with
              | Some text =>
                if String.eqb text EmptyString then None
                else match unmarshal_strings text with
                     | Ok l => l
                     | _ => Some (Strings.Split text ",")
                     end
              | None => None
              end) ≡ₚ tags.
Proof.
  intros Hv. rewrite <-(sort_strings_perm tags) in Hv.
  destruct (json_strings_roundtrip _ Hv) as (s & Hm & Hne & Hu).
  unfold comparable_tags. case_bool_decide as Hlen.
  - rewrite Hm. rewrite (proj2 (String.eqb_neq s EmptyString) Hne), Hu.
    apply sort_strings_perm.
  - destruct tags; [done|]. simpl in Hlen. lia.
Qed.
End comparable_lemmas.

Lemma dedup_tags_in (tags : list string) (t : string) acc :
  t ∈ fold_left (λ acc tag, if bool_decide (tag ∈ acc) then acc else acc ++ [tag]) tags acc
  ↔ t ∈ acc ∨ t ∈ tags.
Proof.
  revert acc. induction tags as [|x tags IH]; intros acc; simpl; [set_solver|].
  rewrite IH. case_bool_decide; set_solver.
Qed.

Lemma dedup_tags_NoDup_acc (tags acc : list string) :
  NoDup acc →
  NoDup (fold_left (λ acc tag, if bool_decide (tag ∈ acc) then acc else acc ++ [tag]) tags acc).
Proof.
  revert acc. induction tags as [|x tags IH]; intros acc Hacc; simpl; [done|].
  apply IH. case_bool_decide; [done|].
  apply NoDup_app. split; [done|]. split; [set_solver|]. apply NoDup_singleton.
Qed.

Lemma dedup_tags_spec tags :
  NoDup (dedup_tags tags) ∧ ∀ t, t ∈ dedup_tags tags ↔ t ∈ tags.
Proof.
  split; [apply dedup_tags_NoDup_acc, NoDup_nil_2|].
  intros t. unfold dedup_tags. rewrite dedup_tags_in. set_solver.
Qed.

Lemma dedup_tags_id_acc (tags acc : list string) :
  NoDup (acc ++ tags) →
  fold_left (λ acc tag, if bool_decide (tag ∈ acc) then acc else acc ++ [tag]) tags acc
  = acc ++ tags.
Proof.
  revert acc. induction tags as [|x tags IH]; intros acc Hnd; simpl;
    [by rewrite app_nil_r|].
  rewrite bool_decide_eq_false_2.
  - rewrite IH; rewrite <-app_assoc; done.
  - apply NoDup_app in Hnd as (_ & Hd & _). intros Hx. eapply Hd; [done|]. by left.
Qed.

Lemma dedup_tags_id tags : NoDup tags → dedup_tags tags = tags.
Proof. apply (dedup_tags_id_acc tags []). Qed.

Lemma normalize_label_idem l : normalize_label (normalize_label l) = normalize_label l.
Proof. destruct l as [[|c s]|]; done. Qed.

Lemma normalizeFilter_tags_valid fs :
  Forall tags_valid fs → Forall tags_valid (normalizeFilter fs).
Proof.
  intros Hv. apply Forall_fmap. eapply Forall_impl; [done|]. intros f Hf.
  unfold tags_valid in *. simpl. rewrite Forall_forall in *. intros t Ht.
  apply Hf. by apply dedup_tags_spec.
Qed.

Lemma keep_last_tags_valid fs :
  Forall tags_valid fs → Forall tags_valid (keep_last fs).
Proof. rewrite !Forall_forall. intros Hv f Hf%keep_last_in. auto. Qed.

Lemma MakeComparable_keep_last_NoDup `{Unicode} fs :
  Forall tags_valid fs → NoDup (MakeComparable <$> keep_last fs).
Proof.
  intros Hv%keep_last_tags_valid. apply NoDup_alt. intros i j c Hi Hj.
  apply list_lookup_fmap_Some in Hi as (f & -> & Hi), Hj as (g & Heq & Hj).
  rewrite Forall_lookup in Hv. apply MakeComparable_equiv in Heq; [|by eauto..].
  by eapply keep_last_distinct.
Qed.

(** ** Properties *)

(** C22: The selectors used to load key-values are those of the specification,
    normalised, with every repetition removed and the last one kept in its
    place; an empty specification selects every key.  The in-place reversal
    that ends the function never indexes out of range. *)
Theorem GetKeyValueFilters_reference spec :
  GetKeyValueFilters spec =
  Ok (match spec.(Spec.Configuration).(KeyValueOptions.Selectors) with
      | [] => [wildcard_filter]
      | sel => keep_last (normalizeFilter sel)
      end).
Proof.
  unfold GetKeyValueFilters. rewrite deduplicateFilters_eq.
  by destruct (KeyValueOptions.Selectors _).
Qed.

(** The comparable forms of the selectors returned are pairwise different,
    so the map of page ETags they index never overwrites an entry, and no
    configured selector is lost. *)
Theorem GetKeyValueFilters_distinct `{Unicode} spec fs :
  Forall tags_valid spec.(Spec.Configuration).(KeyValueOptions.Selectors) →
  GetKeyValueFilters spec = Ok fs →
  NoDup (MakeComparable <$> fs) ∧
  ∀ s, s ∈ normalizeFilter spec.(Spec.Configuration).(KeyValueOptions.Selectors) →
       ∃ g, g ∈ fs ∧ MakeComparable g = MakeComparable s.
Proof.
  intros Hv Hfs. unfold GetKeyValueFilters in Hfs. rewrite deduplicateFilters_eq in Hfs.
  set (sel := KeyValueOptions.Selectors _) in *.
  pose proof (normalizeFilter_tags_valid _ Hv) as Hn.
  destruct (normalizeFilter sel) as [|f l] eqn:Hsel; simplify_eq.
  - split; [apply NoDup_singleton|]. intros s Hs. by apply elem_of_nil in Hs.
  - split; [by apply (MakeComparable_keep_last_NoDup (f :: l))|].
    intros s Hs. destruct (keep_last_covers (f :: l) s Hs) as (g & Hg & Hsg).
    exists g. split; [done|].
    apply MakeComparable_equiv; [| |by symmetry];
      apply (proj1 (Forall_forall _ _) Hn); eauto using keep_last_in.
Qed.

Lemma comparable_roundtrip `{Unicode} s :
  tags_valid s → selector_equiv (FromComparable (MakeComparable s)) s.
Proof.
  intros Hv. repeat split. by apply (comparable_tags_decode (Selector.tags s)).
Qed.

(** C40: A selector turned into its comparable form and back selects the same
    settings: same filters, same tags up to their order, if the tags are UTF-8:
    the tags travel as the JSON text of a list. *)
Theorem FromComparable_MakeComparable `{Unicode} s :
  tags_valid s → selector_equiv (FromComparable (MakeComparable s)) s.
Proof. apply comparable_roundtrip. Qed.

(** ** Witnesses *)

Module FiltersWitness.
Definition sel (k l : string) (tags : list string) : Selector.t :=
  Selector.mk (Some k) (Some l) (Some tags) None.
Definition spec_of (sels : list Selector.t) : Spec.t :=
  Spec.mk (Some "https://store.azconfig.io") true false None
    (Target.mk "cm" None) None (KeyValueOptions.mk sels [] None) None None.
Definition example : list Selector.t :=
  [sel "one*" "prod" ["a=1"; "b=2"; "a=1"]; sel "two*" "dev" [];
   sel "one*" "prod" ["b=2"; "a=1"]].
End FiltersWitness.

(** The example of the comment in [deduplicateFilters]. *)
Example dedup_example :
  GetKeyValueFilters (FiltersWitness.spec_of FiltersWitness.example)
  = Ok [FiltersWitness.sel "two*" "dev" []; FiltersWitness.sel "one*" "prod" ["b=2"; "a=1"]].
Proof. vm_compute. reflexivity. Qed.

Lemma GetKeyValueFilters_distinct_witness :
  NoDup (MakeComparable <$>
    [FiltersWitness.sel "two*" "dev" []; FiltersWitness.sel "one*" "prod" ["b=2"; "a=1"]]).
Proof.
  apply (@GetKeyValueFilters_distinct ascii_only (FiltersWitness.spec_of FiltersWitness.example)).
  - repeat constructor.
  - vm_compute. reflexivity.
Defined.

Lemma FromComparable_MakeComparable_witness :
  selector_equiv
    (@FromComparable ascii_only
      (MakeComparable (FiltersWitness.sel "one*" "prod" ["b=2"; "a=1"])))
    (FiltersWitness.sel "one*" "prod" ["b=2"; "a=1"]).
Proof.
  apply (@FromComparable_MakeComparable ascii_only). repeat constructor.
Defined.
