(* ===== verification/Jsonc.v ===== *)
(** Stripping of comments from JSON with comments: [internal/jsonc/jsonc.go].

    [StripComments] is translated loop by loop, the index [i] of the source
    being the suffix [data[i:]].  Its specification is a grammar: every input
    is the text of exactly the tokens [lex_total] finds, and the function
    keeps characters and strings, blanks block comments and drops line
    comments ([StripComments_tokens]). *)

From S2P Require Import Prelude GoStrings.
From Stdlib Require Import Ascii.

Notation bytes := (list ascii).

Definition quote : ascii := ascii_of_N 34.
Definition backslash : ascii := ascii_of_N 92.
Definition slash : ascii := ascii_of_N 47.
Definition star : ascii := ascii_of_N 42.
Definition space : ascii := ascii_of_N 32.
Definition newline : ascii := ascii_of_N 10.
Definition return_ : ascii := ascii_of_N 13.

Definition is_newline (c : ascii) : bool := Ascii.eqb c newline || Ascii.eqb c return_.

(** [i+1 < len(data) && data[i+1] == c] *)
Definition next_is (c : ascii) (r : bytes) : bool :=
  match r with d :: _ => Ascii.eqb d c | [] => false end.

(** [for i < len(data) && data[i] != '\n' && data[i] != '\r' { i++ }] *)
Fixpoint skip_line (r : bytes) : bytes :=
  match r with
  | [] => []
  | c :: r' => if is_newline c then r else skip_line r'
  end.

(** What replaces a character inside a block comment. *)
Definition blank (c : ascii) : ascii := if is_newline c then c else space.

(** The loop that looks for the closing of a block comment: what it appends
    to the result, and where it leaves the index. *)
Fixpoint block_comment (r : bytes) : bytes * bytes :=
  match r with
  | [] => ([], [])
  | c :: r' =>
    if Ascii.eqb c star && next_is slash r'
    then ([space; space], tail r')
    else let '(out, rest) := block_comment r' in (blank c :: out, rest)
  end.

(** The main loop, in the state [inString], [escaped].  Every round moves the
    index forward, so the number of bytes is fuel enough. *)
Fixpoint strip_loop (fuel : nat) (data : bytes) (inString escaped : bool) : bytes :=
  match fuel, data with
  | O, _ | _, [] => []
  | S fuel', char :: r =>
    if escaped then char :: strip_loop fuel' r inString false
    else if inString then
      if Ascii.eqb char backslash then char :: strip_loop fuel' r true true
      else if Ascii.eqb char quote then char :: strip_loop fuel' r false false
      else char :: strip_loop fuel' r true false
    else if Ascii.eqb char quote then char :: strip_loop fuel' r true false
    else if Ascii.eqb char slash && next_is slash r then
      match skip_line r with
      | [] => []
      | nl :: r' => nl :: strip_loop fuel' r' false false
      end
    else if Ascii.eqb char slash && next_is star r then
      let '(out, rest) := block_comment (tail r) in
      [space; space] ++ out ++ strip_loop fuel' rest false false
    else char :: strip_loop fuel' r false false
  end.

Definition StripComments (data : bytes) : bytes :=
  strip_loop (length data) data false false.

(** ** The grammar *)

Inductive token : Type :=
  | TChar (c : ascii)
  | TString (body : bytes) (closed : bool)
  | TLine (text : bytes)
  | TBlock (text : bytes) (closed : bool).

Definition print_token (t : token) : bytes :=
  match t with
  | TChar c => [c]
  | TString b closed => quote :: b ++ (if closed then [quote] else [])
  | TLine text => slash :: slash :: text
  | TBlock text closed =>
    slash :: star :: text ++ (if closed then [star; slash] else [])
  end.
Definition print (ts : list token) : bytes := ts ≫= print_token.

Definition strip_token (t : token) : bytes :=
  match t with
  | TChar _ | TString _ _ => print_token t
  | TLine _ => []
  | TBlock text closed =>
    [space; space] ++ (blank <$> text) ++ (if closed then [space; space] else [])
  end.
Definition strip (ts : list token) : bytes := ts ≫= strip_token.

(** The text between the quotes of a string: a backslash takes the next
    character with it. *)
Inductive string_body : bytes → Prop :=
  | body_nil : string_body []
  | body_char c l : c ≠ quote → c ≠ backslash → string_body l → string_body (c :: l)
  | body_escape c l : string_body l → string_body (backslash :: c :: l).

(** No ["*/"] in the text. *)
Inductive no_close : bytes → Prop :=
  | no_close_nil : no_close []
  | no_close_cons c l :
    Ascii.eqb c star && next_is slash l = false → no_close l → no_close (c :: l).

Inductive wf : list token → Prop :=
  | wf_nil : wf []
  | wf_char c ts :
    c ≠ quote → (c = slash → next_is slash (print ts) = false ∧ next_is star (print ts) = false) →
    wf ts → wf (TChar c :: ts)
  | wf_string b ts : string_body b → wf ts → wf (TString b true :: ts)
  | wf_string_open b : string_body b → wf [TString b false]
  | wf_string_escape_open b : string_body b → wf [TString (b ++ [backslash]) false]
  | wf_line text : Forall (λ c, is_newline c = false) text → wf [TLine text]
  | wf_line_newline text c ts :
    Forall (λ c, is_newline c = false) text → is_newline c = true →
    wf (TChar c :: ts) → wf (TLine text :: TChar c :: ts)
  | wf_block text ts : no_close text → wf ts → wf (TBlock text true :: ts)
  | wf_block_open text : no_close text → wf [TBlock text false].

(** ** The loop without its fuel *)

Lemma skip_line_length r : length (skip_line r) ≤ length r.
Proof. induction r as [|c r IH]; simpl; [done|]. case_match; simpl; lia. Qed.

Lemma block_comment_length r : length (block_comment r).2 ≤ length r.
Proof.
  induction r as [|c r IH]; simpl; [done|]. case_match; simpl.
  - destruct r; simpl; lia.
  - destruct (block_comment r); simpl in *. lia.
Qed.

Lemma strip_loop_fuel n data s e :
  length data ≤ n → strip_loop n data s e = strip_loop (length data) data s e.
Proof.
  remember (length data) as k eqn:Hk. revert n data s e Hk.
  induction (lt_wf k) as [k _ IH]; intros n data s e -> Hn.
  destruct data as [|c r]; [by destruct n|]. destruct n as [|n]; [simpl in Hn; lia|].
  assert (∀ r' s' e', length r' ≤ length r →
    strip_loop n r' s' e' = strip_loop (length r) r' s' e') as Hstep.
  { intros r' s' e' Hr'. simpl in Hn, IH.
    rewrite (IH (length r') ltac:(lia) n r' s' e' eq_refl ltac:(lia)).
    by rewrite (IH (length r') ltac:(lia) (length r) r' s' e' eq_refl ltac:(lia)). }
  cbn [length strip_loop].
  pose proof (skip_line_length r) as Hsl.
  pose proof (block_comment_length (tail r)) as Hbl.
  assert (length (tail r) ≤ length r) by (destruct r; simpl; lia).
  destruct (skip_line r) as [|nl r']; simpl in Hsl;
  destruct (block_comment (tail r)) as [out rest]; simpl in Hbl;
  repeat case_match; rewrite ?Hstep by lia; done.
Qed.

(** The loop from an index, with enough fuel. *)
Definition go (data : bytes) (s e : bool) : bytes := strip_loop (length data) data s e.

Lemma go_cons c r s e :
  go (c :: r) s e =
  if e then c :: go r s false
  else if s then
    if Ascii.eqb c backslash then c :: go r true true
    else if Ascii.eqb c quote then c :: go r false false
    else c :: go r true false
  else if Ascii.eqb c quote then c :: go r true false
  else if Ascii.eqb c slash && next_is slash r then
    match skip_line r with [] => [] | nl :: r' => nl :: go r' false false end
  else if Ascii.eqb c slash && next_is star r then
    let '(out, rest) := block_comment (tail r) in
    [space; space] ++ out ++ go rest false false
  else c :: go r false false.
Proof.
  unfold go. cbn [length strip_loop].
  pose proof (skip_line_length r) as Hsl.
  pose proof (block_comment_length (tail r)) as Hbl.
  assert (length (tail r) ≤ length r) by (destruct r; simpl; lia).
  destruct (skip_line r) as [|nl r']; simpl in Hsl;
  destruct (block_comment (tail r)) as [out rest]; simpl in Hbl;
  repeat case_match; rewrite ?(strip_loop_fuel (length r)) by lia; done.
Qed.

(** ** The loops on the text of a token *)

Lemma string_body_go b r : string_body b → go (b ++ r) true false = b ++ go r true false.
Proof.
  induction 1 as [|c l Hq Hb _ IH|c l _ IH]; simpl; [done| |].
  - rewrite go_cons. apply Ascii.eqb_neq in Hq, Hb. by rewrite Hb, Hq, IH.
  - by rewrite go_cons, Ascii.eqb_refl, go_cons, IH.
Qed.

Lemma skip_line_text text r :
  Forall (λ c, is_newline c = false) text → skip_line (text ++ r) = skip_line r.
Proof. induction 1 as [|c l Hc _ IH]; simpl; [done|]. by rewrite Hc, IH. Qed.

Lemma skip_line_split r :
  ∃ text, Forall (λ c, is_newline c = false) text ∧ r = text ++ skip_line r.
Proof.
  induction r as [|c r (text & Ht & Hr)]; [by exists []|]. simpl.
  destruct (is_newline c) eqn:Hc; [by exists []|].
  exists (c :: text). split; [by constructor|]. simpl. by rewrite <-Hr.
Qed.

Lemma skip_line_head r c r' : skip_line r = c :: r' → is_newline c = true.
Proof.
  induction r as [|d r IH]; simpl; [done|].
  destruct (is_newline d) eqn:Hd; [|done]. by intros [= <- _].
Qed.

Lemma block_comment_closed text r :
  no_close text →
  block_comment (text ++ star :: slash :: r) = ((blank <$> text) ++ [space; space], r).
Proof.
  induction 1 as [|c l Hc _ IH]; [done|]. simpl. rewrite IH.
  assert (Ascii.eqb c star && next_is slash (l ++ star :: slash :: r) = false) as ->; [|done].
  by destruct l; [apply andb_false_r|].
Qed.

Lemma block_comment_open text :
  no_close text → block_comment text = (blank <$> text, []).
Proof. induction 1 as [|c l Hc _ IH]; [done|]. simpl. by rewrite Hc, IH. Qed.

Lemma next_is_neq c d r : c ≠ d → next_is d (c :: r) = false.
Proof. apply Ascii.eqb_neq. Qed.

Lemma print_cons t ts : print (t :: ts) = print_token t ++ print ts.
Proof. done. Qed.
Lemma strip_cons t ts : strip (t :: ts) = strip_token t ++ strip ts.
Proof. done. Qed.

(** The function computes what the grammar says. *)
Lemma go_print ts : wf ts → go (print ts) false false = strip ts.
Proof.
  induction 1 as [|c ts Hq Hs _ IH|b ts Hb _ IH|b Hb|b Hb|text Ht
                 |text c ts Ht Hc Hwf IH|text ts Ht _ IH|text Ht];
    rewrite ?print_cons, ?strip_cons; [done|..];
    cbn [print_token strip_token app print strip mbind list_bind];
    rewrite ?app_nil_r, ?go_cons; cbn [Ascii.eqb Bool.eqb quote slash star newline].
  - apply Ascii.eqb_neq in Hq as ->.
    destruct (Ascii.eqb c slash) eqn:Hsl; simpl; [|by rewrite IH].
    apply Ascii.eqb_eq in Hsl. destruct (Hs Hsl) as [-> ->]. by rewrite IH.
  - rewrite <-!app_assoc, string_body_go by done. simpl. by rewrite go_cons, IH.
  - pose proof (string_body_go b [] Hb) as Hg. rewrite !app_nil_r in Hg. by rewrite Hg.
  - by rewrite string_body_go.
  - simpl. rewrite <-(app_nil_r text). by rewrite skip_line_text.
  - simpl. rewrite skip_line_text by done. simpl. rewrite Hc.
    rewrite print_cons, strip_cons in IH. simpl in IH. rewrite <-IH, go_cons.
    inversion Hwf; subst. destruct (Ascii.eqb c quote) eqn:Hq.
    { by apply Ascii.eqb_eq in Hq. }
    destruct (Ascii.eqb c slash) eqn:Hsl; [|done].
    apply Ascii.eqb_eq in Hsl as ->. done.
  - simpl. rewrite <-app_assoc. simpl.
    rewrite block_comment_closed by done. by rewrite IH, <-!app_assoc.
  - simpl. rewrite block_comment_open by done. by rewrite !app_nil_r.
Qed.

(** ** Every input is the text of a list of tokens *)

Lemma string_body_split r :
  (∃ b r', string_body b ∧ r = b ++ quote :: r') ∨
  string_body r ∨ ∃ b, string_body b ∧ r = b ++ [backslash].
Proof.
  induction (Nat.lt_wf_0_projected (@length ascii) r) as [r _ IH].
  destruct r as [|c r]; [by right; left; constructor|].
  destruct (decide (c = quote)) as [->|Hq].
  { left. exists [], r. split; [constructor|done]. }
  destruct (decide (c = backslash)) as [->|Hb].
  - destruct r as [|d r].
    { right; right. exists []. split; [constructor|done]. }
    destruct (IH r) as [(b & r' & Hb & ->)|[Hb|(b & Hb & ->)]]; [simpl; lia| | |].
    + left. exists (backslash :: d :: b), r'. split; [by constructor|done].
    + right; left. by constructor.
    + right; right. exists (backslash :: d :: b). split; [by constructor|done].
  - destruct (IH r) as [(b & r' & Hb' & ->)|[Hb'|(b & Hb' & ->)]]; [simpl; lia| | |].
    + left. exists (c :: b), r'. split; [by constructor|done].
    + right; left. by constructor.
    + right; right. exists (c :: b). split; [by constructor|done].
Qed.

Lemma no_close_split r :
  (∃ text r', no_close text ∧ r = text ++ star :: slash :: r') ∨ no_close r.
Proof.
  induction r as [|c r IH]; [right; constructor|].
  destruct (Ascii.eqb c star && next_is slash r) eqn:Hc.
  - apply andb_true_iff in Hc as [->%Ascii.eqb_eq Hn].
    destruct r as [|d r]; [done|]. simpl in Hn. apply Ascii.eqb_eq in Hn as ->.
    left. exists [], r. split; [constructor|done].
  - destruct IH as [(text & r' & Ht & ->)|Ht]; [left|right; by constructor].
    exists (c :: text), r'. split; [|done]. constructor; [|done].
    destruct text; [apply andb_false_r|done].
Qed.

Lemma next_is_true c r : next_is c r = true → ∃ r', r = c :: r'.
Proof. destruct r as [|d r]; [done|]. intros ->%Ascii.eqb_eq. eauto. Qed.

Lemma lex_total data : ∃ ts, wf ts ∧ print ts = data.
Proof.
  induction (Nat.lt_wf_0_projected (@length ascii) data) as [data _ IH].
  destruct data as [|c r]; [by exists []; split; [constructor|]|].
  destruct (decide (c = quote)) as [->|Hq].
  { destruct (string_body_split r) as [(b & r' & Hb & ->)|[Hb|(b & Hb & ->)]].
    - destruct (IH r') as (ts & Hts & <-); [simpl; rewrite length_app; simpl; lia|].
      exists (TString b true :: ts). split; [by constructor|].
      simpl. by rewrite <-app_assoc.
    - exists [TString r false]. split; [by constructor|]. simpl. by rewrite !app_nil_r.
    - exists [TString (b ++ [backslash]) false]. split; [by constructor|].
      simpl. by rewrite !app_nil_r. }
  destruct (Ascii.eqb c slash && next_is slash r) eqn:Hl.
  { apply andb_true_iff in Hl as [->%Ascii.eqb_eq (r' & ->)%next_is_true].
    destruct (skip_line_split r') as (text & Ht & Hr).
    destruct (skip_line r') as [|nl r''] eqn:Hs.
    - exists [TLine text]. split; [by constructor|]. simpl. by rewrite Hr, !app_nil_r.
    - pose proof (skip_line_head _ _ _ Hs) as Hnl.
      destruct (IH r'') as (ts & Hts & <-).
      { rewrite Hr. simpl. rewrite length_app. simpl. lia. }
      exists (TLine text :: TChar nl :: ts). split; [|simpl; by rewrite Hr].
      do 2 (constructor; try done); intros ->; done. }
  destruct (Ascii.eqb c slash && next_is star r) eqn:Hbl.
  { apply andb_true_iff in Hbl as [->%Ascii.eqb_eq (r' & ->)%next_is_true].
    destruct (no_close_split r') as [(text & r'' & Ht & ->)|Ht].
    - destruct (IH r'') as (ts & Hts & <-); [simpl; rewrite length_app; simpl; lia|].
      exists (TBlock text true :: ts). split; [by constructor|].
      simpl. by rewrite <-app_assoc.
    - exists [TBlock r' false]. split; [by constructor|]. simpl. by rewrite !app_nil_r. }
  destruct (IH r) as (ts & Hts & Hp); [simpl; lia|].
  exists (TChar c :: ts). split; [|simpl; by rewrite Hp].
  constructor; [done| |done]. rewrite Hp. intros ->.
  by rewrite Ascii.eqb_refl in Hl, Hbl.
Qed.

(** ** Comment-free text *)

(** The tokens of the result: no comment is left. *)
Definition retoken (t : token) : list token :=
  match t with TLine _ | TBlock _ _ => TChar <$> strip_token t | _ => [t] end.

Lemma print_chars l : print (TChar <$> l) = l.
Proof. induction l as [|c l IH]; [done|]. by rewrite fmap_cons, print_cons, IH. Qed.
Lemma strip_chars l : strip (TChar <$> l) = l.
Proof. induction l as [|c l IH]; [done|]. by rewrite fmap_cons, strip_cons, IH. Qed.

Lemma print_app a b : print (a ++ b) = print a ++ print b.
Proof. apply bind_app. Qed.
Lemma strip_app a b : strip (a ++ b) = strip a ++ strip b.
Proof. apply bind_app. Qed.

Lemma retoken_print t : print (retoken t) = strip_token t.
Proof. destruct t; simpl; rewrite ?print_chars, ?app_nil_r; done. Qed.
Lemma retoken_strip t : strip (retoken t) = strip_token t.
Proof.
  destruct t; [by simpl; rewrite ?app_nil_r..|done|].
  unfold retoken. by rewrite strip_chars.
Qed.

Lemma print_retoken ts : print (ts ≫= retoken) = strip ts.
Proof.
  induction ts as [|t ts IH]; [done|]. rewrite bind_cons, print_app, IH.
  by rewrite retoken_print.
Qed.
Lemma strip_retoken ts : strip (ts ≫= retoken) = strip ts.
Proof.
  induction ts as [|t ts IH]; [done|]. rewrite bind_cons, strip_app, IH.
  by rewrite retoken_strip.
Qed.

Lemma next_is_strip c ts :
  c ≠ space → c ≠ quote → next_is slash (print ts) = false →
  next_is c (print ts) = false → next_is c (strip ts) = false.
Proof.
  intros Hc Hq. destruct ts as [|[d|b cl|text|text cl] ts]; done.
Qed.

Lemma wf_chars l ts :
  Forall (λ c, c ≠ quote ∧ c ≠ slash) l → wf ts → wf ((TChar <$> l) ++ ts).
Proof.
  induction 1 as [|c l [Hq Hs] _ IH]; [done|]. intros Hts. simpl. constructor; auto.
  by intros ->.
Qed.

Lemma blank_plain text : Forall (λ c, c ≠ quote ∧ c ≠ slash) (blank <$> text).
Proof.
  apply Forall_fmap, Forall_true. intros c. unfold blank, is_newline. simpl.
  destruct (Ascii.eqb c newline) eqn:Hn; simpl; [by apply Ascii.eqb_eq in Hn as ->|].
  destruct (Ascii.eqb c return_) eqn:Hr; simpl; [by apply Ascii.eqb_eq in Hr as ->|].
  done.
Qed.

Lemma strip_block_plain text cl :
  Forall (λ c, c ≠ quote ∧ c ≠ slash) (strip_token (TBlock text cl)).
Proof.
  simpl. repeat constructor; try done. apply Forall_app. split; [apply blank_plain|].
  destruct cl; repeat constructor; done.
Qed.

Lemma wf_retoken ts : wf ts → wf (ts ≫= retoken).
Proof.
  induction 1 as [|c ts Hq Hs _ IH|b ts Hb _ IH|b Hb|b Hb|text Ht
                 |text c ts Ht Hc _ IH|text ts Ht _ IH|text Ht];
    try (simpl; by constructor).
  - simpl. constructor; [done| |done]. intros Hc. destruct (Hs Hc) as [Hsl Hst].
    rewrite print_retoken. split; by apply next_is_strip.
  - done.
  - rewrite bind_cons. apply wf_chars; [apply strip_block_plain|done].
  - rewrite bind_cons. apply wf_chars; [apply strip_block_plain|constructor].
Qed.

Lemma newlines_blank text :
  List.filter is_newline (blank <$> text) = List.filter is_newline text.
Proof.
  induction text as [|c text IH]; [done|]. rewrite fmap_cons. simpl.
  rewrite IH. unfold blank. destruct (is_newline c) eqn:Hc; [by rewrite Hc|done].
Qed.

Lemma newlines_none text :
  Forall (λ c, is_newline c = false) text → List.filter is_newline text = [].
Proof. induction 1 as [|c l Hc _ IH]; [done|]. simpl. by rewrite Hc. Qed.

Definition line_ok (t : token) : Prop :=
  match t with TLine text => Forall (λ c, is_newline c = false) text | _ => True end.

Lemma wf_line_ok ts : wf ts → Forall line_ok ts.
Proof. induction 1; repeat constructor; try done; by inversion IHwf. Qed.

Lemma newlines_token t :
  line_ok t →
  List.filter is_newline (strip_token t) = List.filter is_newline (print_token t).
Proof.
  destruct t as [c|b cl|text|text cl]; intros Ht; simpl in *; [done..| |].
  - by rewrite newlines_none.
  - rewrite !List.filter_app, newlines_blank. by destruct cl.
Qed.

Lemma newlines_strip ts :
  wf ts → List.filter is_newline (strip ts) = List.filter is_newline (print ts).
Proof.
  intros Hwf%wf_line_ok. induction Hwf as [|t ts Ht _ IH]; [done|].
  by rewrite print_cons, strip_cons, !List.filter_app, IH, newlines_token.
Qed.

(** ** Properties *)

(** C23: Every input is the text of a list of tokens of the grammar, and the
    result is the concatenation of the strings and characters of that list,
    with block comments blanked and line comments removed. *)
Theorem StripComments_tokens data :
  ∃ ts, wf ts ∧ print ts = data ∧ StripComments data = strip ts.
Proof.
  destruct (lex_total data) as (ts & Hts & <-).
  exists ts. split; [done|]. split; [done|]. by apply go_print.
Qed.

(** The newlines of the result are those of the input, in order, so the
    line numbers of a later JSON error are right; and stripping twice is
    stripping once. *)
Theorem StripComments_lines_idempotent data :
  List.filter is_newline (StripComments data) = List.filter is_newline data ∧
  StripComments (StripComments data) = StripComments data.
Proof.
  destruct (lex_total data) as (ts & Hts & <-).
  unfold StripComments. fold (go (print ts) false false). rewrite go_print by done.
  split; [by apply newlines_strip|].
  fold (go (strip ts) false false). rewrite <-print_retoken.
  rewrite go_print by (by apply wf_retoken). by rewrite strip_retoken, print_retoken.
Qed.

(** A witness of the grammar: an unterminated comment after a string that
    holds comment marks. *)
Example StripComments_example :
  StripComments (String.list_ascii_of_string
    (dquote +:+ "a//b" +:+ dquote +:+ ":1,//x" +:+ String newline "/*y"))
  = String.list_ascii_of_string
    (dquote +:+ "a//b" +:+ dquote +:+ ":1," +:+ String newline "   ").
Proof. vm_compute. reflexivity. Qed.
