(* ===== verification/Tree.v ===== *)
(** The tree that turns flat keys into hierarchical data:
    [internal/loader/tree.go], and the values it holds.

    [insert] splits a value that is itself an object or an array over the
    nodes below its path, [unflatten] reads a tree back as nested data, a node
    whose keys are exactly the indices of an array becoming one.  The theorems
    say when the result does not depend on the order in which Go visits its
    maps, that a value is found again under its path, and exactly when
    [unflatten] dereferences a nil child. *)

From S2P Require Import Prelude GoStrings Errors.

(** ** Values: what an [interface{}] of the loader holds

    A number of JSON is the bits of its [float64] (Decimal.v), a number of YAML
    a code of the YAML codec: the loader never looks into it. *)
Inductive value : Type :=
  | VNull
  | VBool (b : bool)
  | VNumber (n : Z)
  | VString (s : string)
  | VArray (l : list value)
  | VMap (m : gmap string value).

Definition is_container (v : value) : bool :=
  match v with VArray _ | VMap _ => true | _ => false end.

(** [v[k]] for an object, [v[i]] for an array and a decimal index. *)
Definition value_child (v : value) (k : string) : option value :=
  match v with
  | VMap m => m !! k
  | VArray l => i ← Strconv.Atoi k; if bool_decide (0 ≤ i)%Z then l !! Z.to_nat i else None
  | _ => None
  end.

Fixpoint value_get (v : value) (path : list string) : option value :=
  match path with
  | [] => Some v
  | k :: path' => c ← value_child v k; value_get c path'
  end.

(** ** The tree *)

Inductive Tree : Type := Node (children : gmap string Tree) (val : value).

Definition children (t : Tree) : gmap string Tree := let 'Node c _ := t in c.
Definition node_value (t : Tree) : value := let 'Node _ v := t in v.

(** [&Tree{}]; a nil [children] map and an empty one are not told apart. *)
Definition new_tree : Tree := Node ∅ VNull.

(** [tree.children[part]], created when missing. *)
Definition child (t : Tree) (part : string) : Tree :=
  default new_tree (children t !! part).
Definition with_child (t : Tree) (part : string) (c : Tree) : Tree :=
  Node (<[part := c]> (children t)) (node_value t).

(** The [switch] on the value at the last part of a path.  The entries of an
    object go to distinct children, so the order of the [range] over the map
    does not matter ([Tree.insert_expand]). *)
Fixpoint store (v : value) (t : Tree) : Tree :=
  match v with
  | VMap obj =>
    map_fold (λ k v' t, with_child t k (store v' (child t k))) t obj
  | VArray obj =>
    (fix elements (k : nat) (l : list value) (t : Tree) : Tree :=
       match l with
       | [] => t
       | v' :: l' =>
         elements (S k) l'
           (with_child t (Strconv.Itoa k) (store v' (child t (Strconv.Itoa k))))
       end) 0 obj t
  | _ => Node (children t) v
  end.

Fixpoint insert (t : Tree) (parts : list string) (v : value) : Tree :=
  match parts with
  | [] => t
  | part :: parts' =>
    match parts' with
    | [] => with_child t part (store v (child t part))
    | _ => with_child t part (insert (child t part) parts' v)
    end
  end.

(** The loop that fills [childrenArray]: [None] when a key is no index. *)
Fixpoint array_slots {A} (n : nat) (entries : list (string * A))
    (slots : list (option A)) : option (list (option A)) :=
  match entries with
  | [] => Some slots
  | (k, v) :: entries' =>
    match Strconv.Atoi k with
    | Some idx =>
      if bool_decide (Z.of_nat n ≤ idx ∨ idx < 0)%Z then None
      else array_slots n entries' (<[Z.to_nat idx := Some v]> slots)
    | None => None
    end
  end.

(** [result[i] = child.unflatten()] over the slots: an empty slot is a nil
    pointer, whose method call panics. *)
Fixpoint all_slots {A} (slots : list (option (outcome error A))) : result (list A) :=
  match slots with
  | [] => Ok []
  | s :: slots' =>
    v ← (match s with Some o => o | None => Panic end);
    vs ← all_slots slots';
    Ok (v :: vs)
  end.

Definition all_entries {A} (m : gmap string (outcome error A)) : result (gmap string A) :=
  map_fold (λ k o acc, r ← acc; v ← o; Ok (<[k := v]> r)) (Ok ∅) m.

Fixpoint unflatten (t : Tree) : result value :=
  match t with
  | Node c v =>
    if bool_decide (size c = 0) then Ok v else
    let rs := unflatten <$> c in
    match array_slots (size c) (map_to_list rs) (replicate (size c) None) with
    | Some slots => VArray <$> all_slots slots
    | None => VMap <$> all_entries rs
    end
  end.

Definition build (t : Tree) : result (gmap string value) :=
  all_entries (unflatten <$> children t).

(** All the settings of a map, in the order [range] visits them. *)
Definition insert_all (entries : list (list string * value)) (t : Tree) : Tree :=
  foldl (λ t '(p, v), insert t p v) t entries.

Example build_object :
  build (insert_all [(["a"; "0"], VString "x"); (["a"; "1"], VString "y");
                     (["b"; "c"], VString "z")] new_tree)
  = Ok {["a" := VArray [VString "x"; VString "y"]; "b" := VMap {["c" := VString "z"]}]}.
Proof. vm_compute. reflexivity. Qed.

Example build_panic :
  build (insert_all [(["a"; "0"], VString "x"); (["a"; "00"], VString "y")] new_tree)
  = Panic.
Proof. vm_compute. reflexivity. Qed.

(** ** Induction *)

Fixpoint tree_size (t : Tree) : nat :=
  let 'Node c _ := t in S (map_fold (λ _ t' n, tree_size t' + n) 0 c).

Fixpoint value_size (v : value) : nat :=
  match v with
  | VArray l => S (foldr (λ v' n, value_size v' + n) 0 l)
  | VMap m => S (map_fold (λ _ v' n, value_size v' + n) 0 m)
  | _ => 1
  end.

Lemma map_fold_sum_le {A} (f : A → nat) (m : gmap string A) k x :
  m !! k = Some x → f x ≤ map_fold (λ _ y n, f y + n) 0 m.
Proof.
  intros Hk. rewrite <-(insert_delete_id m k x Hk), map_fold_insert_L;
    [lia|intros; lia|apply lookup_delete_eq].
Qed.

Lemma tree_ind (P : Tree → Prop) :
  (∀ c v, (∀ k t, c !! k = Some t → P t) → P (Node c v)) → ∀ t, P t.
Proof.
  intros H t. induction (Nat.lt_wf_0_projected tree_size t) as [[c v] _ IH].
  apply H. intros k t Hk. apply IH. simpl.
  pose proof (map_fold_sum_le tree_size c k t Hk). lia.
Qed.

Lemma value_ind_nested (P : value → Prop) :
  (∀ v, is_container v = false → P v) →
  (∀ l, (∀ v, v ∈ l → P v) → P (VArray l)) →
  (∀ m, (∀ k v, m !! k = Some v → P v) → P (VMap m)) →
  ∀ v, P v.
Proof.
  intros Hs Hl Hm v. induction (Nat.lt_wf_0_projected value_size v) as [v _ IH].
  destruct v as [| | | |l|m]; try (by apply Hs).
  - apply Hl. intros v Hv. apply IH. simpl. clear -Hv.
    induction Hv; simpl; lia.
  - apply Hm. intros k v Hk. apply IH. simpl.
    pose proof (map_fold_sum_le value_size m k v Hk). lia.
Qed.

(** ** Insertion as a list of elementary steps

    [put t p o] creates the path [p] and, with [Some v], stores the scalar [v]
    there.  Inserting a value is a list of such steps ([insert_put]). *)
Definition set_value (o : option value) (t : Tree) : Tree :=
  match o with Some v => Node (children t) v | None => t end.

Fixpoint put (t : Tree) (p : list string) (o : option value) : Tree :=
  match p with
  | [] => set_value o t
  | k :: p' => with_child t k (put (child t k) p' o)
  end.

Notation step := (list string * option value)%type.
Definition under (k : string) (s : step) : step := (k :: s.1, s.2).
Definition put_all (steps : list step) (t : Tree) : Tree :=
  foldl (λ t s, put t s.1 s.2) t steps.

Fixpoint steps (v : value) : list step :=
  match v with
  | VMap obj => ([], None) :: map_fold (λ k v' acc, acc ++ (under k <$> steps v')) [] obj
  | VArray obj =>
    ([], None) ::
    (fix elements (k : nat) (l : list value) : list step :=
       match l with
       | [] => []
       | v' :: l' => (under (Strconv.Itoa k) <$> steps v') ++ elements (S k) l'
       end) 0 obj
  | _ => [([], Some v)]
  end.

Definition steps_at (e : list string * value) : list step :=
  (λ s, (e.1 ++ s.1, s.2)) <$> steps e.2.

Lemma with_child_child t k c : child (with_child t k c) k = c.
Proof. unfold child, with_child. simpl. by rewrite lookup_insert_eq. Qed.
Lemma with_child_child_ne t k k' c : k ≠ k' → child (with_child t k c) k' = child t k'.
Proof. intros. unfold child, with_child. simpl. by rewrite lookup_insert_ne. Qed.
Lemma with_child_twice t k c c' : with_child (with_child t k c) k c' = with_child t k c'.
Proof. unfold with_child. simpl. by rewrite insert_insert_eq. Qed.
Lemma with_child_comm t k k' c c' :
  k ≠ k' → with_child (with_child t k c) k' c' = with_child (with_child t k' c') k c.
Proof. intros. unfold with_child. simpl. by rewrite insert_insert_ne. Qed.

Lemma put_all_app a b t : put_all (a ++ b) t = put_all b (put_all a t).
Proof. apply foldl_app. Qed.

Lemma put_all_under k l t :
  l ≠ [] → put_all (under k <$> l) t = with_child t k (put_all l (child t k)).
Proof.
  intros Hl. destruct l as [|s l _] using rev_ind; [done|]. clear Hl. revert t.
  rewrite fmap_app. induction l as [|s' l IH]; intros t; [done|].
  simpl. etrans; [apply IH|]. by rewrite with_child_child, with_child_twice.
Qed.

Lemma steps_ne_nil v : steps v ≠ [].
Proof. by destruct v. Qed.

Lemma store_put v : ∀ t, store v t = put_all (steps v) t.
Proof.
  induction v as [v Hv|l IH|m IH] using value_ind_nested; intros t.
  - by destruct v.
  - simpl. generalize 0. revert t. induction l as [|v l IHl]; intros t n; [done|].
    simpl. rewrite put_all_app, put_all_under by apply steps_ne_nil.
    rewrite IHl by (intros; apply IH; by right).
    by rewrite IH by left.
  - simpl. rewrite !map_fold_foldr.
    assert (∀ k v, (k, v) ∈ map_to_list m → ∀ t, store v t = put_all (steps v) t) as Hin.
    { intros k v Hk%elem_of_map_to_list. by eapply IH. }
    clear IH. induction (map_to_list m) as [|[k v] l IHl]; [done|]. simpl.
    rewrite put_all_app, <-IHl by (intros; eapply Hin; by right).
    rewrite put_all_under by apply steps_ne_nil.
    by rewrite (Hin k v) by left.
Qed.

Lemma steps_at_cons k p v : steps_at (k :: p, v) = under k <$> steps_at (p, v).
Proof. unfold steps_at. by rewrite <-list_fmap_compose. Qed.

Lemma steps_at_nil v : steps_at ([], v) = steps v.
Proof.
  unfold steps_at. simpl. induction (steps v) as [|[p o] l IH]; [done|].
  rewrite fmap_cons, IH. done.
Qed.

Lemma insert_put t p v : p ≠ [] → insert t p v = put_all (steps_at (p, v)) t.
Proof.
  revert t. induction p as [|k p IH]; [done|]. intros t _. cbn [insert].
  rewrite steps_at_cons, put_all_under.
  - destruct p as [|k' p]; [by rewrite steps_at_nil, store_put|]. by rewrite IH.
  - unfold steps_at. simpl. destruct (steps v) eqn:?; [by destruct (steps_ne_nil v)|done].
Qed.

(** ** Order of the insertions *)

(** Two steps write different scalars at the same path. *)
Definition step_conflict (s1 s2 : step) : Prop :=
  s1.1 = s2.1 ∧ s1.2 ≠ None ∧ s2.2 ≠ None.

Lemma put_comm t s1 s2 :
  ¬ step_conflict s1 s2 →
  put (put t s1.1 s1.2) s2.1 s2.2 = put (put t s2.1 s2.2) s1.1 s1.2.
Proof.
  destruct s1 as [p1 o1], s2 as [p2 o2]. unfold step_conflict. simpl.
  revert p2 t. induction p1 as [|k1 p1 IH]; intros [|k2 p2] t Hc; simpl.
  - destruct o1, o2; try done. exfalso. apply Hc. done.
  - destruct o1; [|done]. unfold with_child, child. by destruct t.
  - destruct o2; [|done]. unfold with_child, child. by destruct t.
  - destruct (decide (k1 = k2)) as [->|Hk].
    + rewrite !with_child_child, !with_child_twice, IH; [done|].
      intros (-> & ? & ?). by apply Hc.
    + rewrite !with_child_child_ne by done. by rewrite with_child_comm.
Qed.

Definition steps_disjoint (l1 l2 : list step) : Prop :=
  ∀ s1 s2, s1 ∈ l1 → s2 ∈ l2 → ¬ step_conflict s1 s2.

Lemma put_all_put_comm l s t :
  (∀ s', s' ∈ l → ¬ step_conflict s' s) →
  put (put_all l t) s.1 s.2 = put_all l (put t s.1 s.2).
Proof.
  revert t. induction l as [|s' l IH]; intros t Hl; [done|]. simpl.
  rewrite IH by (intros; apply Hl; by right). by rewrite put_comm by (apply Hl; by left).
Qed.

Lemma put_all_comm l1 l2 t :
  steps_disjoint l1 l2 → put_all l2 (put_all l1 t) = put_all l1 (put_all l2 t).
Proof.
  revert t. induction l2 as [|s l2 IH]; intros t Hd; [done|]. simpl.
  rewrite put_all_put_comm by (intros; apply Hd; [done|by left]).
  apply IH. intros s1 s2 ??. apply Hd; [done|by right].
Qed.

(** The entries of a settings map write at different places. *)
Definition entries_disjoint (entries : list (list string * value)) : Prop :=
  ∀ i j e1 e2, i ≠ j → entries !! i = Some e1 → entries !! j = Some e2 →
  steps_disjoint (steps_at e1) (steps_at e2).

Definition paths_ok (entries : list (list string * value)) : Prop :=
  Forall (λ e, e.1 ≠ []) entries.

Lemma insert_all_put entries t :
  paths_ok entries → insert_all entries t = put_all (entries ≫= steps_at) t.
Proof.
  intros Hp. revert t. induction Hp as [|[p v] es Hp _ IH]; intros t; [done|].
  rewrite bind_cons, put_all_app, <-IH. simpl. by rewrite insert_put.
Qed.

Lemma insert_all_perm entries entries' t :
  paths_ok entries → entries_disjoint entries → entries ≡ₚ entries' →
  insert_all entries t = insert_all entries' t.
Proof.
  intros Hp Hd Hperm. apply foldl_permutation; [|done].
  intros i [p1 v1] j [p2 v2] u Hij Hi Hj.
  unfold paths_ok in Hp. rewrite Forall_lookup in Hp.
  rewrite !insert_put by (by apply (Hp _ _ Hi) || by apply (Hp _ _ Hj)).
  apply put_all_comm. by eapply Hd.
Qed.

(** ** What a tree holds after the insertions *)

Fixpoint subtree (t : Tree) (p : list string) : option Tree :=
  match p with
  | [] => Some t
  | k :: p' => c ← children t !! k; subtree c p'
  end.

Lemma get_with_child t k c p : subtree (with_child t k c) (k :: p) = subtree c p.
Proof. simpl. by rewrite lookup_insert_eq. Qed.
Lemma get_with_child_ne t k k' c p :
  k ≠ k' → subtree (with_child t k c) (k' :: p) = subtree t (k' :: p).
Proof. intros. simpl. by rewrite lookup_insert_ne. Qed.

Lemma get_new_tree p : subtree new_tree p = if decide (p = []) then Some new_tree else None.
Proof. by destruct p. Qed.

Lemma put_subtree_same t p o :
  subtree (put t p o) p = Some (set_value o (default new_tree (subtree t p))).
Proof.
  revert t. induction p as [|k p IH]; intros t; [done|].
  cbn [put]. rewrite get_with_child, IH. unfold child. simpl.
  destruct (children t !! k) as [c|]; [done|].
  simpl. rewrite get_new_tree. by case_decide.
Qed.

Lemma put_subtree_other t p q o :
  ¬ p `prefix_of` q → subtree (put t q o) p = subtree t p.
Proof.
  revert q t. induction p as [|k p IH]; intros q t Hpq.
  { destruct Hpq. apply prefix_nil. }
  destruct q as [|k' q].
  { destruct o; [by destruct t|done]. }
  cbn [put]. destruct (decide (k' = k)) as [->|Hk].
  - rewrite get_with_child, IH by (intros Hp; by apply Hpq, prefix_cons).
    unfold child. simpl. destruct (children t !! k) as [c|]; [done|].
    simpl. rewrite get_new_tree. case_decide as Hp; [|done]. subst.
    exfalso. apply Hpq, prefix_cons, prefix_nil.
  - by rewrite get_with_child_ne.
Qed.

(** [p] is a leaf of the steps: nothing is put below it, and one value at
    most is put there. *)
Definition leaf_path (l : list step) (p : list string) : Prop :=
  (∀ q o, (q, o) ∈ l → p `prefix_of` q → q = p) ∧
  (∀ v v', (p, Some v) ∈ l → (p, Some v') ∈ l → v = v').

Local Ltac in_app := first [done | rewrite elem_of_app, ?list_elem_of_singleton; by auto].

Lemma put_all_leaf l p :
  leaf_path l p →
  (subtree (put_all l new_tree) p = None ∨
   ∃ v, subtree (put_all l new_tree) p = Some (Node ∅ v)) ∧
  ∀ v, (p, Some v) ∈ l → subtree (put_all l new_tree) p = Some (Node ∅ v).
Proof.
  induction l as [|[q o] l IH] using rev_ind; intros [Hpre Hone].
  { split; [|intros ? ?%elem_of_nil; done]. simpl. rewrite get_new_tree.
    case_decide; eauto. }
  destruct IH as [IH1 IH2].
  { split; [intros q0 o0 Hq0; apply (Hpre q0 o0); in_app|].
    intros v v' Hv Hv'. apply Hone; in_app. }
  rewrite put_all_app. simpl. destruct (decide (p `prefix_of` q)) as [Hp|Hp].
  - assert (q = p) as -> by (apply (Hpre q o); [in_app|done]).
    rewrite put_subtree_same.
    destruct o as [w|]; simpl.
    + split; [right; exists w|intros v Hv].
      * by destruct IH1 as [->|[v ->]].
      * rewrite (Hone v w) by in_app. by destruct IH1 as [->|[v' ->]].
    + split.
      * right. destruct IH1 as [->|[v ->]]; simpl; eauto.
      * intros v Hv. rewrite (IH2 v); [done|].
        apply elem_of_app in Hv as [Hv|Hv%list_elem_of_singleton]; [done|].
        by simplify_eq.
  - rewrite put_subtree_other by done. split; [done|]. intros v Hv. apply IH2.
    apply elem_of_app in Hv as [Hv|Hv%list_elem_of_singleton]; [done|].
    destruct Hp. by simplify_eq.
Qed.

(** ** The array of a node *)

Definition index_of (k : string) : nat := Z.to_nat (default 0%Z (Strconv.Atoi k)).
Definition is_index (n : nat) (k : string) : Prop :=
  ∃ i, Strconv.Atoi k = Some i ∧ (0 ≤ i < Z.of_nat n)%Z.

Section slots.
Context {A : Type}.
Implicit Types entries : list (string * A).

Definition fill entries (slots : list (option A)) : list (option A) :=
  foldl (λ s e, <[index_of e.1 := Some e.2]> s) slots entries.

Lemma array_slots_Some n entries slots out :
  array_slots n entries slots = Some out ↔
  out = fill entries slots ∧ Forall (λ e, is_index n e.1) entries.
Proof.
  revert slots. induction entries as [|[k v] es IH]; intros slots; simpl.
  { split; [intros [= ->]; by split; [|constructor]|by intros [-> _]]. }
  destruct (Strconv.Atoi k) as [i|] eqn:Hk; simpl.
  - assert (index_of k = Z.to_nat i) as Hidx by (unfold index_of; by rewrite Hk).
    case_bool_decide as Hi.
    + split; [done|]. intros [_ Hf]. apply Forall_cons in Hf as [(j & Hj & ?) _].
      simpl in Hj. simplify_eq. lia.
    + rewrite IH, Forall_cons, <-Hidx. split; [|naive_solver].
      intros [-> ?]. repeat split; [|done]. exists i. split; [done|lia].
  - split; [done|]. intros [_ Hf]. apply Forall_cons in Hf as [(j & Hj & ?) _].
    simpl in Hj. congruence.
Qed.

Lemma fill_length entries slots : length (fill entries slots) = length slots.
Proof.
  revert slots. induction entries as [|e es IH]; intros slots; [done|].
  simpl. rewrite IH. apply length_insert.
Qed.

Lemma fill_other entries slots i :
  i ∉ (index_of ∘ fst <$> entries) → fill entries slots !! i = slots !! i.
Proof.
  revert slots. induction entries as [|e es IH]; intros slots; [done|].
  rewrite fmap_cons, not_elem_of_cons. intros [Hi Hes]. simpl.
  rewrite IH by done. apply list_lookup_insert_ne. naive_solver.
Qed.

Lemma fill_nodup entries slots k v :
  NoDup (index_of ∘ fst <$> entries) → (k, v) ∈ entries →
  index_of k < length slots → fill entries slots !! index_of k = Some (Some v).
Proof.
  revert slots. induction entries as [|e es IH]; intros slots;
    [by intros _ ?%elem_of_nil|].
  rewrite fmap_cons, NoDup_cons. intros [He Hes] Hk Hlen. simpl.
  apply elem_of_cons in Hk as [<-|Hk].
  - rewrite fill_other by done. by apply list_lookup_insert_eq.
  - apply IH; [done|done|]. by rewrite length_insert.
Qed.

(** A full array has one entry for each of its indices. *)
Lemma fill_full_nodup entries n :
  length entries = n →
  Forall is_Some (fill entries (replicate n None)) →
  NoDup (index_of ∘ fst <$> entries).
Proof.
  intros Hn Hfull. apply NoDup_ListNoDup.
  apply (@List.NoDup_incl_NoDup _ (seq 0 n)).
  - apply NoDup_ListNoDup, NoDup_seq.
  - by rewrite length_fmap, length_seq, Hn.
  - intros i Hi%list_elem_of_In%elem_of_seq. apply list_elem_of_In.
    destruct (decide (i ∈ (index_of ∘ fst <$> entries))) as [|Hni]; [done|].
    rewrite Forall_lookup in Hfull.
    destruct (Hfull i None) as [? ?]; [|done].
    rewrite fill_other by done. apply lookup_replicate. split; [done|lia].
Qed.
End slots.

(** ** What [unflatten] returns *)

Lemma all_slots_Ok {A} (slots : list (option (outcome error A))) vs :
  all_slots slots = Ok vs ↔ Forall2 (λ s v, s = Some (Ok v)) slots vs.
Proof.
  revert vs. induction slots as [|s slots IH]; intros vs; simpl.
  - split; [intros [= <-]; constructor|]. by inversion 1.
  - rewrite outcome_bind_Ok. setoid_rewrite outcome_bind_Ok. split.
    + intros (v & Hs & ws & Hws & [= <-]). constructor; [|by apply IH].
      destruct s; [by f_equal|done].
    + inversion 1 as [|? v ? ws -> Hws]; subst. exists v. split; [done|].
      exists ws. split; [by apply IH|done].
Qed.

Lemma all_entries_Ok {A} (m : gmap string (outcome error A)) r :
  all_entries m = Ok r ↔ m = Ok <$> r.
Proof.
  unfold all_entries. revert r.
  apply (map_fold_weak_ind (λ acc m, ∀ r, acc = Ok r ↔ m = Ok <$> r)).
  - intros r. rewrite (eq_comm ∅), fmap_empty_iff. naive_solver.
  - intros k o m' acc Hk IH r. rewrite outcome_bind_Ok. split.
    + intros (r' & Hr' & Ho). apply outcome_bind_Ok in Ho as (v & -> & [= <-]).
      rewrite fmap_insert. f_equal. by apply IH.
    + intros Hm. assert ((Ok <$> r) !! k = Some o) as Hkr
        by (rewrite <-Hm; apply lookup_insert_eq).
      rewrite lookup_fmap in Hkr. apply fmap_Some in Hkr as (v & Hv & ->).
      exists (delete k r). split.
      * apply IH. rewrite fmap_delete, <-Hm, delete_insert_id; done.
      * simpl. by rewrite insert_delete_id.
Qed.

Lemma all_slots_no_err {A} (slots : list (option (outcome error A))) :
  (∀ o, Some o ∈ slots → no_err o) → no_err (all_slots slots).
Proof.
  induction slots as [|s slots IH]; intros Hs e; simpl; [done|].
  rewrite outcome_bind_Err. intros [He|(v & _ & He)].
  - destruct s as [o|]; [|done]. by apply (Hs o ltac:(left) e).
  - apply outcome_bind_Err in He as [He|(? & _ & [=])].
    eapply IH, He. intros o Ho. apply Hs. by right.
Qed.

Lemma all_entries_no_err {A} (m : gmap string (outcome error A)) :
  (∀ k o, m !! k = Some o → no_err o) → no_err (all_entries m).
Proof.
  unfold all_entries.
  apply (map_fold_weak_ind (λ acc m, (∀ k o, m !! k = Some o → no_err o) → no_err acc)).
  - done.
  - intros k o m' acc Hk IH Hm e. rewrite outcome_bind_Err. intros [He|(r & _ & He)].
    + eapply IH, He. intros k' o' Hk'. apply (Hm k').
      by rewrite lookup_insert_ne by congruence.
    + apply outcome_bind_Err in He as [He|(? & _ & [=])].
      eapply (Hm k), He. apply lookup_insert_eq.
Qed.

(** All the keys of a node are indices of an array of its size. *)
Definition node_array (c : gmap string Tree) : Prop :=
  ∀ k t, c !! k = Some t → is_index (size c) k.

(** Two keys of a node denote the same index. *)
Definition index_clash (c : gmap string Tree) : Prop :=
  ∃ k1 k2 t1 t2, k1 ≠ k2 ∧ c !! k1 = Some t1 ∧ c !! k2 = Some t2 ∧
    index_of k1 = index_of k2.

Inductive sound_tree : Tree → Prop :=
  | sound_node c v :
    ¬ (node_array c ∧ index_clash c) →
    (∀ k t, c !! k = Some t → sound_tree t) →
    sound_tree (Node c v).

Section unflatten_node.
Context (c : gmap string Tree).
Let rs := unflatten <$> c.
Let entries := map_to_list rs.

Lemma entries_lookup k o : (k, o) ∈ entries ↔ ∃ t, c !! k = Some t ∧ o = unflatten t.
Proof.
  unfold entries, rs. rewrite elem_of_map_to_list, lookup_fmap, fmap_Some. done.
Qed.

Lemma entries_length : length entries = size c.
Proof. unfold entries, rs. by rewrite length_map_to_list, map_size_fmap. Qed.

Lemma entries_array : Forall (λ e, is_index (size c) e.1) entries ↔ node_array c.
Proof.
  rewrite Forall_forall. split.
  - intros Hf k t Hk. apply (Hf (k, unflatten t)). apply entries_lookup. eauto.
  - intros Hn [k o] (t & Hk & ->)%entries_lookup. simpl. by eapply Hn.
Qed.

Lemma entries_clash :
  NoDup (index_of ∘ fst <$> entries) ↔ ¬ index_clash c.
Proof.
  rewrite NoDup_alt. split.
  - intros Hnd (k1 & k2 & t1 & t2 & Hne & H1 & H2 & Heq).
    assert ((k1, unflatten t1) ∈ entries) as [i Hi]%list_elem_of_lookup
      by (apply entries_lookup; eauto).
    assert ((k2, unflatten t2) ∈ entries) as [j Hj]%list_elem_of_lookup
      by (apply entries_lookup; eauto).
    assert (i = j) as ->; [|congruence].
    apply (Hnd i j (index_of k1)); rewrite list_lookup_fmap;
      [by rewrite Hi|rewrite Hj; simpl; by f_equal].
  - intros Hc i j n Hi Hj.
    apply list_lookup_fmap_Some in Hi as ([k1 o1] & -> & Hi).
    apply list_lookup_fmap_Some in Hj as ([k2 o2] & Heq & Hj).
    destruct (decide (k1 = k2)) as [->|Hne].
    + assert (NoDup (entries.*1)) as Hnd by apply NoDup_fst_map_to_list.
      rewrite NoDup_alt in Hnd. apply (Hnd i j k2); rewrite list_lookup_fmap;
        [by rewrite Hi|by rewrite Hj].
    + destruct Hc.
      apply list_elem_of_lookup_2, entries_lookup in Hi as (t1 & ? & _).
      apply list_elem_of_lookup_2, entries_lookup in Hj as (t2 & ? & _).
      by exists k1, k2, t1, t2.
Qed.

Lemma unflatten_leaf v : size c = 0 → unflatten (Node c v) = Ok v.
Proof. intros Hs. simpl. by rewrite bool_decide_eq_true_2. Qed.

Lemma unflatten_map v :
  size c ≠ 0 → ¬ node_array c → unflatten (Node c v) = VMap <$> all_entries rs.
Proof.
  intros Hs Hn. simpl. rewrite bool_decide_eq_false_2 by done.
  fold rs. fold entries. destruct (array_slots _ _ _) eqn:Ha; [|done].
  by apply array_slots_Some in Ha as [_ Ha%entries_array].
Qed.

Lemma unflatten_array v :
  size c ≠ 0 → node_array c →
  unflatten (Node c v)
  = VArray <$> all_slots (fill entries (replicate (size c) None)).
Proof.
  intros Hs Hn. simpl. rewrite bool_decide_eq_false_2 by done.
  fold rs. fold entries. destruct (array_slots _ _ _) as [out|] eqn:Ha.
  - by apply array_slots_Some in Ha as [-> _].
  - assert (array_slots (size c) entries (replicate (size c) None)
            = Some (fill entries (replicate (size c) None))) as Ha'.
    { apply array_slots_Some. split; [done|]. by apply entries_array. }
    congruence.
Qed.

(** A full array holds each child at its index. *)
Lemma unflatten_array_Ok vs :
  all_slots (fill entries (replicate (size c) None)) = Ok vs →
  ¬ index_clash c ∧
  (node_array c → ∀ k t, c !! k = Some t →
     ∃ w, unflatten t = Ok w ∧ vs !! index_of k = Some w).
Proof.
  intros Hvs%all_slots_Ok.
  assert (NoDup (index_of ∘ fst <$> entries)) as Hnd.
  { apply (fill_full_nodup _ (size c)); [apply entries_length|].
    eapply Forall2_Forall_l; [done|]. apply Forall_true. intros w s ->. eauto. }
  split; [by apply entries_clash|]. intros Hn k t Hk.
  destruct (Hn k t Hk) as (i & Hi & ?).
  assert (fill entries (replicate (size c) None) !! index_of k
          = Some (Some (unflatten t))) as Hslot.
  { apply fill_nodup; [done|apply entries_lookup; eauto|].
    rewrite length_replicate. unfold index_of. rewrite Hi. simpl. lia. }
  destruct (Forall2_lookup_l _ _ _ _ _ Hvs Hslot) as (w & Hw & Heq).
  exists w. split; [by simplify_eq|done].
Qed.
End unflatten_node.

Lemma fill_full {A} (entries : list (string * A)) n s :
  length entries = n → Forall (λ e, is_index n e.1) entries →
  NoDup (index_of ∘ fst <$> entries) →
  s ∈ fill entries (replicate n None) → ∃ k v, (k, v) ∈ entries ∧ s = Some v.
Proof.
  intros Hn Hidx Hnd [i Hi]%list_elem_of_lookup.
  assert (∀ k v, (k, v) ∈ entries → index_of k < n) as Hlt.
  { intros k v Hk. rewrite Forall_forall in Hidx. destruct (Hidx _ Hk) as (j & Hj & ?).
    simpl in Hj. unfold index_of. rewrite Hj. simpl. lia. }
  assert (i < n) as Hin.
  { apply lookup_lt_Some in Hi. by rewrite fill_length, length_replicate in Hi. }
  assert (i ∈ (index_of ∘ fst <$> entries)) as Hmem.
  { apply list_elem_of_In. apply (@List.NoDup_length_incl _ _ (seq 0 n)).
    - by apply NoDup_ListNoDup.
    - by rewrite length_fmap, length_seq, Hn.
    - intros j Hj%list_elem_of_In%list_elem_of_fmap. destruct Hj as ([k v] & -> & Hk).
      apply list_elem_of_In, elem_of_seq. simpl. specialize (Hlt k v Hk). lia.
    - apply list_elem_of_In, elem_of_seq. lia. }
  apply list_elem_of_fmap in Hmem as ([k v] & -> & Hk). exists k, v. split; [done|].
  simpl in Hi. rewrite (fill_nodup _ _ k v) in Hi; [by simplify_eq|done|done|].
  rewrite length_replicate. by eapply Hlt.
Qed.

Lemma all_slots_total {A} (slots : list (option (outcome error A))) :
  (∀ s, s ∈ slots → ∃ v, s = Some (Ok v)) → ∃ vs, all_slots slots = Ok vs.
Proof.
  induction slots as [|s slots IH]; intros Hs; [by eexists|].
  destruct (Hs s) as [v ->]; [by left|]. destruct IH as [vs Hvs].
  { intros s' Hs'. apply Hs. by right. }
  exists (v :: vs). simpl. by rewrite Hvs.
Qed.

Lemma all_entries_total {A} (m : gmap string (outcome error A)) :
  (∀ k o, m !! k = Some o → ∃ v, o = Ok v) → ∃ r, all_entries m = Ok r.
Proof.
  intros Hm.
  exists (omap (λ o, match o with Ok v => Some v | _ => None end) m).
  apply all_entries_Ok, map_eq. intros k. rewrite lookup_fmap, lookup_omap.
  destruct (m !! k) as [o|] eqn:Hk; [|done]. by destruct (Hm k o Hk) as [v ->].
Qed.

Lemma outcome_fmap_Ok {E A B} (f : A → B) (o : outcome E A) b :
  f <$> o = Ok b ↔ ∃ a, o = Ok a ∧ b = f a.
Proof. destruct o; simpl; naive_solver. Qed.

#[export] Instance is_index_dec n k : Decision (is_index n k).
Proof.
  unfold is_index. destruct (Strconv.Atoi k) as [i|].
  - destruct (decide (0 ≤ i < Z.of_nat n)%Z); [left; eauto|right].
    intros (? & ? & ?). by simplify_eq.
  - right. by intros (? & ? & ?).
Defined.

#[export] Instance node_array_dec c : Decision (node_array c).
Proof.
  refine (cast_if (decide (map_Forall (λ k _, is_index (size c) k) c)));
    unfold map_Forall in *; done.
Defined.

Lemma fill_elem {A} (entries : list (string * A)) slots x :
  Some x ∈ fill entries slots → Some x ∈ slots ∨ ∃ k, (k, x) ∈ entries.
Proof.
  revert slots. induction entries as [|[k v] es IH]; intros slots Hx; [by left|].
  apply IH in Hx as [[i Hi]%list_elem_of_lookup|(k' & Hk')].
  - simpl in Hi. rewrite list_lookup_insert in Hi. case_decide; simplify_eq.
    + right. exists k. by left.
    + left. by eapply list_elem_of_lookup_2.
  - right. exists k'. by right.
Qed.

Lemma unflatten_no_err t : no_err (unflatten t).
Proof.
  induction t as [c v IH] using tree_ind.
  destruct (decide (size c = 0)) as [Hs|Hs]; [by rewrite unflatten_leaf|].
  destruct (decide (node_array c)) as [Hn|Hn].
  - rewrite unflatten_array by done. intros e.
    assert (no_err (all_slots (fill (map_to_list (unflatten <$> c))
                                 (replicate (size c) None)))) as He.
    { apply all_slots_no_err. intros o [Ho|(k & Hk)]%fill_elem.
      - apply elem_of_replicate in Ho. naive_solver.
      - apply entries_lookup in Hk as (t & Hk & ->). by eapply IH. }
    destruct (all_slots _) as [|e'|]; [done| |done]. by destruct (He e').
  - rewrite unflatten_map by done. intros e.
    assert (no_err (all_entries (unflatten <$> c))) as He.
    { apply all_entries_no_err. intros k o Hk. rewrite lookup_fmap in Hk.
      apply fmap_Some in Hk as (t & Hk & ->). by eapply IH. }
    destruct (all_entries _) as [|e'|]; [done| |done]. by destruct (He e').
Qed.

Lemma unflatten_Ok_sound t : (∃ v, unflatten t = Ok v) ↔ sound_tree t.
Proof.
  induction t as [c v IH] using tree_ind. split.
  - intros [r Hr]. destruct (decide (size c = 0)) as [Hs|Hs].
    { apply map_size_empty_iff in Hs as ->. constructor.
      - intros [_ (k1 & _ & t1 & _ & _ & Hk & _)]. by rewrite lookup_empty in Hk.
      - intros k t Hk. by rewrite lookup_empty in Hk. }
    destruct (decide (node_array c)) as [Hn|Hn].
    + rewrite unflatten_array in Hr by done.
      apply outcome_fmap_Ok in Hr as (vs & Hvs & _).
      apply unflatten_array_Ok in Hvs as [Hc Hk]. constructor; [naive_solver|].
      intros k t Ht. apply (IH k t Ht). destruct (Hk Hn k t Ht) as (w & ? & _). eauto.
    + rewrite unflatten_map in Hr by done.
      apply outcome_fmap_Ok in Hr as (m & Hm%all_entries_Ok & _).
      constructor; [naive_solver|]. intros k t Ht. apply (IH k t Ht).
      assert ((unflatten <$> c) !! k = Some (unflatten t)) as Hk
        by (by rewrite lookup_fmap, Ht).
      rewrite Hm, lookup_fmap in Hk. apply fmap_Some in Hk as (w & _ & ?). eauto.
  - inversion 1 as [? ? Hnc Hch]; subst.
    destruct (decide (size c = 0)) as [Hs|Hs]; [rewrite unflatten_leaf; eauto|].
    assert (∀ k o, (k, o) ∈ map_to_list (unflatten <$> c) → ∃ v, o = Ok v) as Hok.
    { intros k o (t & Hk & ->)%entries_lookup. apply (IH k t Hk). by eapply Hch. }
    destruct (decide (node_array c)) as [Hn|Hn].
    + rewrite unflatten_array by done.
      destruct (all_slots_total (fill (map_to_list (unflatten <$> c))
                 (replicate (size c) None))) as [vs ->]; [|by eexists].
      intros s (k & o & Hk & ->)%fill_full.
      * destruct (Hok k o Hk) as [w ->]. eauto.
      * apply entries_length.
      * by apply entries_array.
      * apply entries_clash. naive_solver.
    + rewrite unflatten_map by done.
      destruct (all_entries_total (unflatten <$> c)) as [m ->]; [|by eexists].
      intros k o Hk. apply (Hok k). by apply elem_of_map_to_list.
Qed.

(** A leaf of the tree is found again in the result, under the same path. *)
Lemma unflatten_get p : ∀ t v r,
  subtree t p = Some (Node ∅ v) → unflatten t = Ok r → value_get r p = Some v.
Proof.
  induction p as [|k p IH]; intros [c w] v r Hg Hr.
  { simpl in Hg. simplify_eq. rewrite unflatten_leaf in Hr by apply map_size_empty.
    by simplify_eq. }
  simpl in Hg. apply bind_Some in Hg as (t & Hk & Hg).
  assert (size c ≠ 0) as Hs.
  { intros Hs%map_size_empty_iff. subst. by rewrite lookup_empty in Hk. }
  destruct (decide (node_array c)) as [Hn|Hn].
  - rewrite unflatten_array in Hr by done.
    apply outcome_fmap_Ok in Hr as (vs & Hvs & ->).
    apply unflatten_array_Ok in Hvs as [_ Hch].
    destruct (Hch Hn k t Hk) as (x & Hx & Hvs). destruct (Hn k t Hk) as (i & Hi & ?).
    unfold index_of in Hvs. simpl. rewrite Hi in Hvs |- *. simpl in *.
    rewrite bool_decide_eq_true_2 by lia. rewrite Hvs. simpl. by eapply IH.
  - rewrite unflatten_map in Hr by done.
    apply outcome_fmap_Ok in Hr as (m & Hm%all_entries_Ok & ->). simpl.
    assert ((unflatten <$> c) !! k = Some (unflatten t)) as Hkt
      by (by rewrite lookup_fmap, Hk).
    rewrite Hm, lookup_fmap in Hkt. apply fmap_Some in Hkt as (x & Hx & Hxt).
    rewrite Hx. simpl. by eapply IH.
Qed.

Lemma build_get t k p v r :
  subtree t (k :: p) = Some (Node ∅ v) → build t = Ok r →
  value_get (VMap r) (k :: p) = Some v.
Proof.
  intros Hg Hr%all_entries_Ok. simpl in Hg. apply bind_Some in Hg as (c & Hk & Hg).
  assert ((unflatten <$> children t) !! k = Some (unflatten c)) as Hkt
    by (by rewrite lookup_fmap, Hk).
  rewrite Hr, lookup_fmap in Hkt. apply fmap_Some in Hkt as (x & Hx & Hxc).
  simpl. rewrite Hx. simpl. by eapply unflatten_get.
Qed.

Lemma build_no_err t : no_err (build t).
Proof.
  apply all_entries_no_err. intros k o Hk. rewrite lookup_fmap in Hk.
  apply fmap_Some in Hk as (c & _ & ->). apply unflatten_no_err.
Qed.

Lemma build_Ok_sound t :
  (∃ r, build t = Ok r) ↔ ∀ k c, children t !! k = Some c → sound_tree c.
Proof.
  split.
  - intros [r Hr%all_entries_Ok] k c Hk. apply unflatten_Ok_sound.
    assert ((unflatten <$> children t) !! k = Some (unflatten c)) as Hkt
      by (by rewrite lookup_fmap, Hk).
    rewrite Hr, lookup_fmap in Hkt. apply fmap_Some in Hkt as (x & _ & ?). eauto.
  - intros Hs. apply all_entries_total. intros k o Hk. rewrite lookup_fmap in Hk.
    apply fmap_Some in Hk as (c & Hc & ->). apply unflatten_Ok_sound. by eapply Hs.
Qed.

(** ** Where a tree can fail *)

(** The loop of [unflatten] accepts every key of the node as an index, and two
    of them are the same one: a slot of [childrenArray] stays nil. *)
Definition clash_at (t : Tree) (p : list string) : Prop :=
  ∃ c v, subtree t p = Some (Node c v) ∧ node_array c ∧ index_clash c.

Lemma sound_tree_clash t : sound_tree t ↔ ∀ p, ¬ clash_at t p.
Proof.
  split.
  - intros Ht p. revert t Ht. induction p as [|k p IH]; intros t Ht (c & v & Hg & Hc);
      inversion Ht as [c' v' Hn Hch]; subst; simpl in Hg.
    + by simplify_eq.
    + apply bind_Some in Hg as (t & Hk & Hg). apply (IH t (Hch k t Hk)). by exists c, v.
  - induction t as [c v IH] using tree_ind. intros Hc. constructor.
    + intros [??]. apply (Hc []). by exists c, v.
    + intros k t Hk. apply (IH k t Hk). intros p (c' & v' & Hg & ?).
      apply (Hc (k :: p)). exists c', v'. split; [|done]. simpl. by rewrite Hk.
Qed.

(** Scalars under distinct paths never meet. *)
Lemma scalar_entries_disjoint entries :
  Forall (λ e, is_container e.2 = false) entries → NoDup entries.*1 →
  entries_disjoint entries.
Proof.
  intros Hs Hnd i j [p1 v1] [p2 v2] Hij Hi Hj s1 s2.
  rewrite Forall_lookup in Hs.
  assert (∀ k p v, entries !! k = Some (p, v) → steps_at (p, v) = [(p, Some v)]) as Hst.
  { intros k p v Hk. specialize (Hs _ _ Hk). simpl in Hs.
    unfold steps_at. destruct v; try done; simpl; by rewrite app_nil_r. }
  rewrite (Hst i), (Hst j), !list_elem_of_singleton by done.
  intros -> -> (Heq & _). simpl in Heq. subst p2. apply Hij.
  rewrite NoDup_alt in Hnd. apply (Hnd i j p1); rewrite list_lookup_fmap;
    [by rewrite Hi|by rewrite Hj].
Qed.

(** ** Properties *)

(** C15: The order in which Go visits the map of settings does not change the
    data built from them, as long as no two settings write a scalar at the
    same place of the hierarchy. *)
Theorem build_order_independent entries entries' :
  paths_ok entries → entries_disjoint entries → entries ≡ₚ entries' →
  build (insert_all entries new_tree) = build (insert_all entries' new_tree).
Proof. intros. f_equal. by apply insert_all_perm. Qed.

Lemma insert_all_get entries p v :
  paths_ok entries → leaf_path (entries ≫= steps_at) p →
  (p, Some v) ∈ entries ≫= steps_at →
  subtree (insert_all entries new_tree) p = Some (Node ∅ v).
Proof.
  intros Hp Hl Hin. rewrite insert_all_put by done. by apply put_all_leaf.
Qed.

(** A value set by an entry, or inside the object or array it holds, is
    found in the built data at the path it was set at, unless another entry
    writes there or below; an array index is looked up by its decimal key. *)
Theorem build_finds_inserted entries p v r :
  paths_ok entries → p ≠ [] → leaf_path (entries ≫= steps_at) p →
  (p, Some v) ∈ entries ≫= steps_at →
  build (insert_all entries new_tree) = Ok r →
  value_get (VMap r) p = Some v.
Proof.
  intros Hp Hne Hl Hin Hb. destruct p as [|k p]; [done|].
  eapply build_get; [|done]. by apply insert_all_get.
Qed.

(** [build] never returns an error, and it panics (a nil child is
    dereferenced) exactly when the keys of some node are all array indices
    and two of them denote the same index. *)
Theorem build_panics_on_clash t :
  (build t = Panic ∨ ∃ r, build t = Ok r)
  ∧ ((∃ r, build t = Ok r) ↔ ∀ k p, ¬ clash_at t (k :: p)).
Proof.
  split.
  - destruct (build t) as [r|e|] eqn:Hb; [eauto| |by left].
    by destruct (build_no_err t e).
  - rewrite build_Ok_sound. split.
    + intros Hs k p (c & v & Hg & Hc). simpl in Hg.
      apply bind_Some in Hg as (t' & Hk & Hg).
      apply (proj1 (sound_tree_clash t') (Hs k t' Hk) p). by exists c, v.
    + intros Hc k t' Hk. apply sound_tree_clash. intros p (c & v & Hg & ?).
      apply (Hc k p). exists c, v. split; [|done]. simpl. by rewrite Hk.
Qed.

(** ** Witnesses *)

Module TreeWitness.
Definition entries : list (list string * value) :=
  [(["db"; "host"], VString "h"); (["db"; "ports"], VArray [VNumber 80; VNumber 443]);
   (["name"], VMap {["x" := VBool true]})].

Lemma entries_ok : paths_ok entries.
Proof. repeat constructor; done. Qed.

Definition step_conflict_b (s1 s2 : step) : bool :=
  bool_decide (s1.1 = s2.1) && bool_decide (is_Some s1.2) && bool_decide (is_Some s2.2).

Definition disjoint_b (es : list (list string * value)) : bool :=
  forallb (λ i, forallb (λ j, bool_decide (i = j) ||
    match es !! i, es !! j with
    | Some e1, Some e2 =>
      forallb (λ s1, forallb (λ s2, negb (step_conflict_b s1 s2)) (steps_at e2)) (steps_at e1)
    | _, _ => true
    end) (seq 0 (length es))) (seq 0 (length es)).

Lemma disjoint_b_sound es : disjoint_b es = true → entries_disjoint es.
Proof.
  unfold disjoint_b. rewrite forallb_forall. intros H i j e1 e2 Hij Hi Hj s1 s2 H1 H2.
  assert (∀ k e, es !! k = Some e → In k (seq 0 (length es))) as Hin.
  { intros k e Hk. apply in_seq. apply lookup_lt_Some in Hk. lia. }
  specialize (H i (Hin _ _ Hi)). rewrite forallb_forall in H.
  specialize (H j (Hin _ _ Hj)). rewrite Hi, Hj, bool_decide_eq_false_2 in H by done.
  simpl in H. rewrite forallb_forall in H. specialize (H s1). rewrite forallb_forall in H.
  specialize (H ltac:(by apply list_elem_of_In) s2 ltac:(by apply list_elem_of_In)).
  unfold step_conflict_b in H. intros (Heq & Ho1 & Ho2).
  rewrite bool_decide_eq_true_2 in H by done.
  rewrite !bool_decide_eq_true_2 in H by (by apply not_eq_None_Some). done.
Qed.
End TreeWitness.

Lemma build_order_independent_witness :
  build (insert_all TreeWitness.entries new_tree)
  = build (insert_all (rev TreeWitness.entries) new_tree).
Proof.
  apply build_order_independent.
  - apply TreeWitness.entries_ok.
  - apply TreeWitness.disjoint_b_sound. vm_compute. reflexivity.
  - apply Permutation_rev.
Defined.

(** The second port is read back at the index it has in its array. *)
Lemma build_finds_inserted_witness :
  value_get (VMap {["db" := VMap {["host" := VString "h";
                                   "ports" := VArray [VNumber 80; VNumber 443]]};
                    "name" := VMap {["x" := VBool true]}]}) ["db"; "ports"; "1"]
  = Some (VNumber 443).
Proof.
  apply (build_finds_inserted TreeWitness.entries).
  - apply TreeWitness.entries_ok.
  - done.
  - split.
    + intros q o Hq Hp. vm_compute in Hq.
      repeat (apply elem_of_cons in Hq as [[= -> ->]|Hq];
        [first [reflexivity | destruct Hp as [r Hr]; simplify_eq]|]).
      by apply elem_of_nil in Hq.
    + intros v v' Hv Hv'. vm_compute in Hv, Hv'.
      repeat (apply elem_of_cons in Hv as [[= ->]|Hv]);
        repeat (apply elem_of_cons in Hv' as [[= ->]|Hv']); try done;
        by apply elem_of_nil in Hv || apply elem_of_nil in Hv'.
  - vm_compute. repeat first [left | right].
  - vm_compute. reflexivity.
Defined.
