(* ===== verification/Codec.v ===== *)
(** Documents as the values of an [interface{}]: [encoding/json] on them,
    [gopkg.in/yaml.v3] as an interface, and the order in which Go visits a map.

    A JSON text is read by way of the syntax trees of Json.v: a number that
    overflows leaves a null and an error, of which the first is returned; the
    last of two members with one name wins.  A value is written with the keys
    of its objects sorted.  [json_object_roundtrip]: a document that was written
    is read back, if its strings are UTF-8 and it is not nested too deeply for
    the parser. *)

From S2P Require Import Prelude GoStrings Errors Json Decimal Filters Tree.
From Stdlib Require Import Ascii.

(** ** The order of [range] over a map

    Go visits a map in an arbitrary order, chosen anew for each loop.  An
    instance is one choice; a theorem about two instances says that the
    order does not matter. *)
Class MapOrder := {
  range_map : ∀ {K} `{Countable K} {A}, gmap K A → list (K * A);
  range_map_perm {K} `{Countable K} {A} (m : gmap K A) : range_map m ≡ₚ map_to_list m;
}.

Definition map_to_list_order : MapOrder := {|
  range_map _ _ _ A m := map_to_list m;
  range_map_perm _ _ _ A m := Permutation_refl _;
|}.

Definition reverse_order : MapOrder := {|
  range_map _ _ _ A m := rev (map_to_list m);
  range_map_perm _ _ _ A m := Permutation_sym (Permutation_rev _);
|}.

Section range.
Context `{MapOrder} `{Countable K}.

Lemma elem_of_range {A} (m : gmap K A) k v : (k, v) ∈ range_map m ↔ m !! k = Some v.
Proof. by rewrite range_map_perm, elem_of_map_to_list. Qed.

Lemma range_length {A} (m : gmap K A) : length (range_map m) = size m.
Proof. by rewrite range_map_perm, length_map_to_list. Qed.

Lemma range_fst_NoDup {A} (m : gmap K A) : NoDup (range_map m).*1.
Proof. rewrite range_map_perm. apply NoDup_fst_map_to_list. Qed.

Lemma range_list_to_map {A} (m : gmap K A) : list_to_map (range_map m) = m.
Proof.
  rewrite <-(list_to_map_to_list m) at 2. apply list_to_map_proper;
    [apply range_fst_NoDup|apply range_map_perm].
Qed.

Lemma range_map_nil {A} (m : gmap K A) : range_map m = [] ↔ m = ∅.
Proof.
  rewrite <-map_size_empty_iff, <-range_length.
  split; [by intros ->|apply nil_length_inv].
Qed.
End range.

Lemma range_two `{Countable K} {A} (o1 o2 : MapOrder) (m : gmap K A) :
  @range_map o1 K _ _ A m ≡ₚ @range_map o2 K _ _ A m.
Proof. by rewrite !range_map_perm. Qed.

(** ** Loops that may fail

    [for k, v := range m { w, err := f(k, v); if err != nil { return err };
    r[k] = w }]: the error is the one of the first entry that fails in the
    order of the loop.  A group of goroutines ([errgroup.Group]) that store
    their results under distinct keys is such a loop too, in the order in
    which they finish. *)
Section collect.
Context {K : Type} `{Countable K} {A B : Type} (f : K → A → result B).

Fixpoint collect_loop (entries : list (K * A)) (r : gmap K B) : result (gmap K B) :=
  match entries with
  | [] => Ok r
  | (k, a) :: entries' => w ← f k a; collect_loop entries' (<[k := w]> r)
  end.

Definition range_collect `{MapOrder} (m : gmap K A) : result (gmap K B) :=
  collect_loop (range_map m) ∅.

Lemma collect_loop_Ok l r r' :
  NoDup l.*1 →
  collect_loop l r = Ok r' ↔
  (∀ k a, (k, a) ∈ l → ∃ w, f k a = Ok w ∧ r' !! k = Some w)
  ∧ (∀ k, k ∉ l.*1 → r' !! k = r !! k).
Proof.
  revert r. induction l as [|[k a] l IH]; intros r; simpl.
  { intros _. split; [intros [= ->]; set_solver|].
    intros [_ Hr]. f_equal. apply map_eq. intros k. symmetry. apply Hr. set_solver. }
  rewrite NoDup_cons. intros [Hk Hnd]. rewrite outcome_bind_Ok.
  setoid_rewrite (IH _ Hnd). split.
  - intros (w & Hw & Hin & Hout). split.
    + intros k' a' [[= -> ->]|Hk']%elem_of_cons; [|by apply Hin].
      exists w. split; [done|]. by rewrite Hout, lookup_insert_eq.
    + intros k' [Hne Hk']%not_elem_of_cons. by rewrite Hout, lookup_insert_ne.
  - intros [Hin Hout]. destruct (Hin k a) as (w & Hw & Hr); [by left|].
    exists w. split; [done|]. split; [intros; apply Hin; by right|].
    intros k' Hk'. destruct (decide (k' = k)) as [->|Hne].
    + by rewrite lookup_insert_eq.
    + rewrite lookup_insert_ne by done. apply Hout. by apply not_elem_of_cons.
Qed.

(** A loop that succeeds does so in every order, with the same result. *)
Lemma range_collect_Ok `{MapOrder} m r :
  range_collect m = Ok r ↔
  ∀ k, match m !! k with
       | Some a => ∃ w, f k a = Ok w ∧ r !! k = Some w
       | None => r !! k = None
       end.
Proof.
  unfold range_collect. rewrite collect_loop_Ok by apply range_fst_NoDup. split.
  - intros [Hin Hout] k. destruct (m !! k) as [a|] eqn:Hk.
    + apply Hin. by apply elem_of_range.
    + rewrite Hout; [apply lookup_empty|].
      intros ([k' a] & -> & Hin')%list_elem_of_fmap. apply elem_of_range in Hin'.
      simpl in Hk. congruence.
  - intros Hr. split.
    + intros k a Hk%elem_of_range. specialize (Hr k). by rewrite Hk in Hr.
    + intros k Hk. specialize (Hr k). rewrite lookup_empty.
      destruct (m !! k) as [a|] eqn:Hm; [|done]. exfalso. apply Hk.
      apply list_elem_of_fmap. exists (k, a). split; [done|]. by apply elem_of_range.
Qed.

Lemma range_collect_order (o1 o2 : MapOrder) m r :
  @range_collect o1 m = Ok r → @range_collect o2 m = Ok r.
Proof.
  intros Hr. apply (@range_collect_Ok o2), (@range_collect_Ok o1), Hr.
Qed.
End collect.

(** ** YAML

    [gopkg.in/yaml.v3] on a [map[string]interface{}]. *)
Class Codec := {
  yaml_unmarshal_object : string → result (gmap string value);
  yaml_marshal : gmap string value → result string;
}.

(** ** JSON *)

(** What a text leaves in an [interface{}], errors apart. *)
Fixpoint of_json (j : json) : value :=
  match j with
  | JNull => VNull
  | JBool b => VBool b
  | JNumber n => from_option VNumber VNull (number_bits n)
  | JString s => VString s
  | JArray l => VArray (of_json <$> l)
  | JObject l => VMap (list_to_map (rev ((λ kv, (kv.1, of_json kv.2)) <$> l)))
  end.

(** The first error met on the way. *)
Fixpoint first_error (j : json) : option error :=
  match j with
  | JNumber n =>
    match number_bits n with
    | Some _ => None
    | None => Some (UnmarshalTypeError ("number " +:+ print_number n) "float64")
    end
  | JArray l => head (omap id (first_error <$> l))
  | JObject l => head (omap id ((λ kv, first_error kv.2) <$> l))
  | _ => None
  end.

(** [json.Unmarshal] into an [interface{}]. *)
Definition json_unmarshal (s : string) : result value :=
  j ← parse_json s;
  match first_error j with
  | Some e => Err e
  | None => Ok (of_json j)
  end.

(** [json.Unmarshal] into a nil [map[string]interface{}]: what it leaves in the
    map ([None] is nil), and the error. *)
Definition json_decode_object (s : string) : option (gmap string value) * option error :=
  match parse_json s with
  | Ok (JObject l as j) =>
    (match of_json j with VMap m => Some m | _ => None end, first_error j)
  | Ok JNull => (None, None)
  | Ok j => (None, Some (UnmarshalTypeError (json_kind j) "map[string]interface {}"))
  | Err e => (None, Some e)
  | Panic => (None, None)
  end.
Definition json_unmarshal_object (s : string) : result (option (gmap string value)) :=
  match json_decode_object s with
  | (_, Some e) => Err e
  | (m, None) => Ok m
  end.

(** The members of an object, in the order of their names. *)
Definition member_le : relation (string * json) := λ a b, String.le a.1 b.1.
Definition sort_members (l : list (string * json)) : list (string * json) := merge_sort member_le l.

Definition UnsupportedValueError : error := ForeignError false "json: unsupported value" None.

Fixpoint to_json (v : value) : result json :=
  match v with
  | VNull => Ok JNull
  | VBool b => Ok (JBool b)
  | VNumber n =>
    match format_float n with Some t => Ok (JNumber t) | None => Err UnsupportedValueError end
  | VString s => Ok (JString s)
  | VArray l =>
    js ← foldr (λ v acc, j ← to_json v; l ← acc; Ok (j :: l)) (Ok []) l;
    Ok (JArray js)
  | VMap m =>
    l ← map_fold (λ k v acc, j ← to_json v; l ← acc; Ok ((k, j) :: l)) (Ok []) m;
    Ok (JObject (sort_members l))
  end.

(** [json.Marshal] *)
Definition json_marshal (m : gmap string value) : result string :=
  j ← to_json (VMap m); Ok (print j).

Example read_and_written :
  (m ← json_unmarshal_object (dquoted ["{"; "b"; ": 1.50, "; "a"; " : [null, "; "x<"; "], "; "b"; ":2}"]);
   json_marshal (default ∅ m))
  = Ok (dquoted ["{"; "a"; ":[null,"; "x" +:+ char_string backslash +:+ "u003c"; "],"; "b"; ":2}"]).
Proof. vm_compute. reflexivity. Qed.

(** *** What is written is read back *)

(** Valid UTF-8 in every string and key: what JSON encodes without loss. *)
Fixpoint utf8_value (v : value) : bool :=
  match v with
  | VString s => valid_utf8 s
  | VArray l => forallb utf8_value l
  | VMap m => map_fold (λ k v' b, valid_utf8 k && utf8_value v' && b) true m
  | _ => true
  end.

Fixpoint value_nesting (v : value) : N :=
  match v with
  | VArray l => 1 + foldr (λ v n, value_nesting v `max` n) 0 l
  | VMap m => 1 + map_fold (λ _ v n, value_nesting v `max` n) 0 m
  | _ => 0
  end%N.

(** A document the parser reads. *)
Definition readable (m : gmap string value) : bool :=
  utf8_value (VMap m) && (value_nesting (VMap m) <=? maxNestingDepth)%N.

Definition reads_as (v : value) (j : json) : Prop :=
  of_json j = v ∧ first_error j = None ∧ nesting j = value_nesting v
  ∧ (utf8_value v = true → json_ok j = true).

Lemma to_json_array l js :
  (∀ v, v ∈ l → ∀ j, to_json v = Ok j → reads_as v j) →
  foldr (λ v acc, j ← to_json v; l ← acc; Ok (j :: l)) (Ok []) l = Ok js →
  Forall2 reads_as l js.
Proof.
  revert js. induction l as [|v l IH]; intros js Hl; cbn [foldr]; [by intros [= <-]|].
  intros (j & Hj & Hr)%outcome_bind_Ok. apply outcome_bind_Ok in Hr as (js' & Hjs & [= <-]).
  constructor; [apply Hl; [by left|done]|]. apply IH; [|done]. intros w Hw. apply Hl. by right.
Qed.

Lemma reads_as_array l js : Forall2 reads_as l js → reads_as (VArray l) (JArray js).
Proof.
  intros Hl. unfold reads_as. cbn [of_json first_error nesting value_nesting utf8_value json_ok].
  induction Hl as [|v j l js (Ho & He & Hn & Hu) _ (IHo & IHe & IHn & IHu)]; [done|].
  rewrite !fmap_cons. cbn [foldr forallb omap list_omap]. rewrite He. cbn [id].
  injection IHo as ->. split_and!.
  - by rewrite Ho.
  - done.
  - lia.
  - rewrite !andb_true_iff. naive_solver.
Qed.

Definition reads_members (m : gmap string value) (l : list (string * json)) : Prop :=
  NoDup l.*1 ∧ list_to_map ((λ kv, (kv.1, of_json kv.2)) <$> l) = m
  ∧ (∀ k j, (k, j) ∈ l → first_error j = None)
  ∧ foldr (λ '(_, j) n, nesting j `max` n)%N 0%N l = map_fold (λ _ v n, value_nesting v `max` n)%N 0%N m
  ∧ (utf8_value (VMap m) = true → ∀ k j, (k, j) ∈ l → valid_utf8 k = true ∧ json_ok j = true).

Lemma to_json_map m l :
  (∀ k v, m !! k = Some v → ∀ j, to_json v = Ok j → reads_as v j) →
  map_fold (λ k v acc, j ← to_json v; l ← acc; Ok ((k, j) :: l)) (Ok []) m = Ok l →
  reads_members m l.
Proof.
  revert l. induction m as [|k v m Hk Hfirst IHm] using map_first_key_ind; intros l Hm.
  - rewrite map_fold_empty. intros [= <-]. repeat split; try done; try constructor; set_solver.
  - unfold reads_members. cbn [utf8_value]. rewrite !map_fold_insert_first_key by done.
    intros (j & Hj & Hr)%outcome_bind_Ok. apply outcome_bind_Ok in Hr as (l' & Hl & [= <-]).
    destruct (Hm k v (lookup_insert_eq _ _ _) j Hj) as (Ho & He & Hn & Hu).
    destruct (IHm l') as (Hnd & Hmap & Herr & Hnest & Hutf); [|done|].
    { intros k' v' Hk'. apply (Hm k'). rewrite lookup_insert_ne; [done|congruence]. }
    split_and!.
    + rewrite fmap_cons. constructor; [|done]. cbn. intros Hin.
      assert (k ∈ (((λ kv, (kv.1, of_json kv.2)) <$> l').*1 : list string)) as Hin'
        by (by rewrite <-list_fmap_compose).
      rewrite <-Hmap in Hk. by apply not_elem_of_list_to_map in Hk.
    + rewrite fmap_cons. cbn. by rewrite Hmap, Ho.
    + intros k' j'. rewrite elem_of_cons. intros [[= -> ->]|?]; [done|by eapply Herr].
    + cbn [foldr]. by rewrite Hn, Hnest.
    + rewrite !andb_true_iff. intros [[Hvk Hvv] Hrest] k' j'. rewrite elem_of_cons.
      intros [[= -> ->]|Hin]; [auto|]. by eapply Hutf.
Qed.
Lemma foldr_max_perm (l1 l2 : list (string * json)) : l1 ≡ₚ l2 →
  foldr (λ '(_, j) n, nesting j `max` n)%N 0%N l1 = foldr (λ '(_, j) n, nesting j `max` n)%N 0%N l2.
Proof. induction 1 as [|[] ? ? ? IH|[] [] ?|]; cbn in *; [done|by rewrite IH|lia|congruence]. Qed.

Lemma no_errors (l : list (string * json)) :
  (∀ k j, (k, j) ∈ l → first_error j = None) →
  head (omap id ((λ kv, first_error kv.2) <$> l)) = None.
Proof.
  induction l as [|[k j] l IH]; intros Hl; [done|]. rewrite fmap_cons. cbn [omap list_omap].
  cbn [snd]. rewrite (Hl k j) by left. cbn. apply IH. intros. eapply Hl. by right.
Qed.

Lemma reads_as_map m l : reads_members m l → reads_as (VMap m) (JObject (sort_members l)).
Proof.
  intros (Hnd & Hmap & Herr & Hnest & Hutf).
  assert (sort_members l ≡ₚ l) as Hp by apply merge_sort_Permutation.
  unfold reads_as. cbn [of_json first_error nesting value_nesting json_ok]. split_and!.
  - f_equal. rewrite <-Hmap. apply list_to_map_proper.
    + rewrite <-Permutation_rev, <-list_fmap_compose. cbn. by rewrite Hp.
    + by rewrite <-Permutation_rev, Hp.
  - apply no_errors. intros k j Hj. apply (Herr k). by rewrite <-Hp.
  - by rewrite (foldr_max_perm _ _ Hp), Hnest.
  - intros Hu. apply forallb_forall. intros [k j] Hj%list_elem_of_In.
    rewrite Hp in Hj. destruct (Hutf Hu k j Hj) as [-> ->]. done.
Qed.

Lemma to_json_reads v j : to_json v = Ok j → reads_as v j.
Proof.
  revert j. induction v as [v Hv|l IH|m IH] using value_ind_nested; intros j.
  - destruct v as [|b|n|s|l|m]; try done; cbn [to_json]; try (by intros [= <-]).
    destruct (format_float n) as [t|] eqn:Ht; [|done]. intros [= <-].
    apply format_float_back in Ht as [Hok Hb]. unfold reads_as. cbn. by rewrite Hb.
  - cbn [to_json]. intros (js & Hjs & [= <-])%outcome_bind_Ok.
    by apply reads_as_array, to_json_array.
  - cbn [to_json]. intros (js & Hjs & [= <-])%outcome_bind_Ok.
    by apply reads_as_map, to_json_map.
Qed.

Lemma json_object_roundtrip m s :
  readable m = true → json_marshal m = Ok s → json_unmarshal_object s = Ok (Some m).
Proof.
  unfold readable, json_marshal. intros [Hu Hn%N.leb_le]%andb_true_iff.
  intros (j & Hj & [= <-])%outcome_bind_Ok.
  pose proof (to_json_reads _ _ Hj) as (Ho & He & Hd & Hok).
  unfold json_unmarshal_object, json_decode_object.
  rewrite parse_print by (auto || lia).
  destruct j as [|b|n|t|js|l]; try done; [by destruct (number_bits n) eqn:Hb; cbn in Ho; rewrite Hb in Ho|].
  by rewrite Ho, He.
Qed.

(** ** A YAML codec for the witnesses

    A value is written as the comma-separated nodes of a [gen_tree] in postfix
    order, each node a number in binary. *)
Module SimpleCodec.
Definition atom : Type := bool + Z + string.

Fixpoint enc (v : value) : gen_tree atom :=
  match v with
  | VNull => GenNode 0 []
  | VBool b => GenLeaf (inl (inl b))
  | VNumber n => GenLeaf (inl (inr n))
  | VString s => GenLeaf (inr s)
  | VArray l => GenNode 1 (enc <$> l)
  | VMap m => GenNode 2 (map_fold (λ k v' acc, GenLeaf (inr k) :: enc v' :: acc) [] m)
  end.

Fixpoint dec (t : gen_tree atom) : value :=
  match t with
  | GenLeaf (inl (inl b)) => VBool b
  | GenLeaf (inl (inr n)) => VNumber n
  | GenLeaf (inr s) => VString s
  | GenNode 0 _ => VNull
  | GenNode 1 l => VArray (dec <$> l)
  | GenNode _ l =>
    VMap ((fix go (l : list (gen_tree atom)) : gmap string value :=
             match l with
             | GenLeaf (inr k) :: t' :: l' => <[k := dec t']> (go l')
             | _ => ∅
             end) l)
  end.

Lemma dec_enc v : dec (enc v) = v.
Proof.
  induction v as [v Hv|l IH|m IH] using value_ind_nested.
  - by destruct v.
  - simpl. f_equal. induction l as [|v l IHl]; [done|]. simpl.
    rewrite (IH v) by left. f_equal. apply IHl. intros. apply IH. by right.
  - simpl. f_equal. revert IH.
    induction m as [|k v m Hk Hfirst IHm] using map_first_key_ind; intros IH.
    + done.
    + rewrite map_fold_insert_first_key by done. simpl.
      rewrite (IH k v) by apply lookup_insert_eq. f_equal. apply IHm.
      intros k' v' Hk'. apply (IH k'). rewrite lookup_insert_ne; [done|congruence].
Qed.

Fixpoint write_pos (p : positive) : string :=
  match p with
  | xH => EmptyString
  | xO p' => String (ascii_of_N 48) (write_pos p')
  | xI p' => String (ascii_of_N 49) (write_pos p')
  end.

Fixpoint read_pos (s : string) : positive :=
  match s with
  | EmptyString => xH
  | String c s' => if Ascii.eqb c (ascii_of_N 48) then xO (read_pos s') else xI (read_pos s')
  end.

Lemma read_write p : read_pos (write_pos p) = p.
Proof. induction p; simpl; by f_equal. Qed.

Definition comma : ascii := ascii_of_N 44.
Definition node : Type := nat * nat + atom.

Definition write (t : gen_tree atom) : string :=
  Strings.Join ((λ n : node, write_pos (encode n)) <$> gen_tree_to_list t)
    (char_string comma).
Definition read (s : string) : option (gen_tree atom) :=
  nodes ← mapM (λ e, decode (A:=node) (read_pos e))
            (@Strings.Split ascii_only s (char_string comma));
  gen_tree_of_list [] nodes.

Lemma write_pos_comma p : has_char comma (write_pos p) = false.
Proof. unfold has_char. induction p; simpl; done. Qed.

Lemma read_nodes (l : list node) :
  mapM (λ e, decode (A:=node) (read_pos e)) ((λ n : node, write_pos (encode n)) <$> l)
  = Some l.
Proof.
  induction l as [|n l IH]; [done|]. rewrite fmap_cons. cbn [mapM mbind option_bind].
  by rewrite read_write, decode_encode, IH.
Qed.

Lemma read_write_tree t : read (write t) = Some t.
Proof.
  unfold read, write. rewrite Split_Join_char.
  - rewrite read_nodes. cbn [mbind option_bind].
    by rewrite <-(right_id_L [] (++) (gen_tree_to_list t)), gen_tree_of_to_list.
  - destruct t as [|n ts]; simpl; [done|].
    rewrite fmap_app. by destruct (_ <$> (ts ≫= _)).
  - apply Forall_fmap, Forall_true. intros n. apply write_pos_comma.
Qed.

Definition marshal (m : gmap string value) : result string := Ok (write (enc (VMap m))).
Definition unmarshal (s : string) : result value :=
  match read s with
  | Some t => Ok (dec t)
  | None => Err (Errorf "invalid document")
  end.
Definition unmarshal_object (s : string) : result (gmap string value) :=
  unmarshal s ≫= λ v,
    match v with VMap m => Ok m | _ => Err (Errorf "not an object") end.

Definition instance : Codec := {|
  yaml_unmarshal_object := unmarshal_object;
  yaml_marshal := marshal;
|}.

Lemma unmarshal_enc v : unmarshal (write (enc v)) = Ok v.
Proof. unfold unmarshal. by rewrite read_write_tree, dec_enc. Qed.

End SimpleCodec.
