(* ===== verification/Data.v ===== *)
(** The data that travels between the loader and the controller: the settings
    of the store, what the loader makes of them
    ([internal/loader/configuration_setting_loader.go],
    [keyvault_reference_resolver.go]), and the parts of the Kubernetes objects
    the controller reads and writes.

    A Go map is an [option] where the code tells a nil map from an empty one
    (a comparison with nil, [reflect.DeepEqual], a write) and a [gmap]
    otherwise.  An [*azcore.ETag] is an [option string]. *)

From S2P Require Import Prelude GoStrings Api Tree.

Definition ETag : Type := string.
Definition page_etags : Type := gmap ComparableSelector.t (list (option ETag)).
Definition sentinel_etags : Type := gmap Sentinel.t (option ETag).

(** ** Kubernetes objects *)

Module OwnerReference.
Record t := mk { APIVersion : string; Kind : string; Name : string; UID : string }.
#[global] Instance owner_eq_dec : EqDecision t.
Proof. solve_decision. Defined.
End OwnerReference.

Module ObjectMeta.
Record t := mk {
  Name : string;
  Namespace : string;
  ResourceVersion : string;
  Labels : gmap string string;
  Annotations : gmap string string;
  OwnerReferences : list OwnerReference.t;
}.
#[global] Instance eta_meta : Eta t := λ m,
  mk (Name m) (Namespace m) (ResourceVersion m) (Labels m) (Annotations m)
     (OwnerReferences m).
(** The metadata of [&corev1.ConfigMap{ObjectMeta: {Name: n}}]. *)
Definition named (n : string) : t := mk n "" "" ∅ ∅ [].
End ObjectMeta.

(** [corev1.SecretType] is a string. *)
Definition SecretTypeOpaque : string := "Opaque".
Definition SecretTypeTLS : string := "kubernetes.io/tls".

Module Secret.
Record t := mk {
  Meta : ObjectMeta.t;
  Type_ : string;
  Data : option (gmap string string);
}.
#[global] Instance eta_secret : Eta t := λ s, mk (Meta s) (Type_ s) (Data s).
Definition data (s : t) : gmap string string := default ∅ (Data s).
(** [corev1.Secret{Data: data, Type: ty}] *)
Definition make (ty : string) (data : gmap string string) : t :=
  mk (ObjectMeta.named "") ty (Some data).
(** The zero value, which a lookup of a missing key returns. *)
Definition zero : t := mk (ObjectMeta.named "") "" None.
End Secret.

Module ConfigMap.
Record t := mk { Meta : ObjectMeta.t; Data : option (gmap string string) }.
#[global] Instance eta_configmap : Eta t := λ c, mk (Meta c) (Data c).
Definition data (c : t) : gmap string string := default ∅ (Data c).
Definition zero : t := mk (ObjectMeta.named "") None.
End ConfigMap.

(** ** Settings of the store: [azappconfig.Setting] *)

Module Setting.
Record t := mk {
  Key : option string;
  Label : option string;
  Value : option string;
  ContentType : option string;
  Tags : gmap string (option string);
  ETag : option string;
}.
#[global] Instance eta_setting : Eta t := λ s,
  mk (Key s) (Label s) (Value s) (ContentType s) (Tags s) (ETag s).
End Setting.

(** ** Key Vault references *)

Module KeyVaultSecretMetadata.
Record t := mk { HostName : string; SecretName : string; SecretVersion : string }.
#[global] Instance kv_eq_dec : EqDecision t.
Proof. solve_decision. Defined.
(** The zero value, which a lookup of a missing key returns. *)
Definition zero : t := mk "" "" "".
End KeyVaultSecretMetadata.

Module TargetK8sSecretMetadata.
Record t := mk {
  Type_ : string;
  SecretsKeyVaultMetadata : gmap string KeyVaultSecretMetadata.t;
  SecretResourceVersion : string;
}.
#[global] Instance eta_target : Eta t := λ s,
  mk (Type_ s) (SecretsKeyVaultMetadata s) (SecretResourceVersion s).
(** [&TargetK8sSecretMetadata{Type: ty, SecretsKeyVaultMetadata: make(...)}] *)
Definition make (ty : string) : t := mk ty ∅ "".
End TargetK8sSecretMetadata.

(** [azsecrets.GetSecretResponse] *)
Module SecretResponse.
Record t := mk { Value : option string; ContentType : option string }.
End SecretResponse.

(** ** What the loader returns *)

Module RawSettings.
Record t := mk {
  KeyValueSettings : gmap string (option string);
  IsJsonContentTypeMap : gmap string bool;
  FeatureFlagSettings : option (gmap string value);
  SecretSettings : gmap string Secret.t;
  K8sSecrets : gmap string TargetK8sSecretMetadata.t;
  KeyValueETags : option page_etags;
  FeatureFlagETags : option page_etags;
}.
#[global] Instance eta_raw : Eta t := λ r,
  mk (KeyValueSettings r) (IsJsonContentTypeMap r) (FeatureFlagSettings r)
     (SecretSettings r) (K8sSecrets r) (KeyValueETags r) (FeatureFlagETags r).
End RawSettings.

Module TargetKeyValueSettings.
Record t := mk {
  ConfigMapSettings : option (gmap string string);
  SecretSettings : gmap string Secret.t;
  K8sSecrets : gmap string TargetK8sSecretMetadata.t;
  KeyValueETags : option page_etags;
  FeatureFlagETags : option page_etags;
  SentinelETags : sentinel_etags;
}.
#[global] Instance eta_target : Eta t := λ s,
  mk (ConfigMapSettings s) (SecretSettings s) (K8sSecrets s) (KeyValueETags s)
     (FeatureFlagETags s) (SentinelETags s).
(** [&TargetKeyValueSettings{}] *)
Definition empty : t := mk None ∅ ∅ None None ∅.
End TargetKeyValueSettings.
