(* ===== verification/TypedSettings.v ===== *)
(** Turning settings into the data of a ConfigMap or Secret:
    [internal/loader/typed_setting.go].

    The theorems say when the result depends on the order in which Go visits
    its maps, that the properties format and the JSON document are read back
    as what was written, and which content types count as JSON. *)

From S2P Require Import Prelude GoStrings Regex Errors Api Filters Jsonc Tree Codec Data.
From Stdlib Require Import Ascii.

Definition FeatureManagementSectionName : string := "feature_management".
Definition FeatureFlagSectionName : string := "feature_flags".
Definition AIMimeProfileKey : string := "https://azconfig.io/mime-profiles/ai".
Definition AIChatCompletionMimeProfileKey : string :=
  "https://azconfig.io/mime-profiles/ai/chat-completion".

Definition newline : ascii := ascii_of_N 10.
Definition equals : ascii := ascii_of_N 61.

(** [[]byte(s)] and back, for the text the JSONC scanner works on. *)
Definition strip_text (s : string) : string :=
  String.string_of_list_ascii (StripComments (String.list_ascii_of_string s)).

(** ** Content types *)

(** The expression of [isJsonContentType]: [application/], optionally some bytes
    other than a slash and a plus, then [json], optionally followed by a
    semicolon and anything but a newline (which the dot does not match). *)
Definition not_slash (c : ascii) : bool := negb (Ascii.eqb c (ascii_of_N 47)).
Definition not_newline (c : ascii) : bool := negb (Ascii.eqb c newline).

Definition json_content_type_regex : regex :=
  Seq (Literal "application/")
    (Seq (Opt (Seq (Plus (Class_ not_slash)) (Literal "+")))
       (Seq (Literal "json") (Opt (Seq (Literal ";") (Star (Class_ not_newline)))))).

Section content_types.
Context `{Unicode}.

Definition isJsonContentType (contentType : option string) : bool :=
  match contentType with
  | None => false
  | Some ct =>
    let contentTypeStr := Strings.ToLower (Strings.Trim ct " ") in
    full_match json_content_type_regex contentTypeStr
  end.

(** The cutset of the profile's quotes. *)
Definition quotes : string := dquote +:+ "'".

Definition profile_is (profileValue part : string) : bool :=
  let part := Strings.TrimSpace part in
  if Strings.HasPrefix part "profile=" then
    let profile := str_drop (str_length "profile=") part in
    String.eqb (Strings.Trim profile quotes) profileValue
  else false.

Definition hasProfile (contentType profileValue : string) : bool :=
  existsb (profile_is profileValue) (tail (Strings.Split contentType ";")).

Definition isAIConfigurationContentType (contentType : option string) : result bool :=
  (λ ct, hasProfile ct AIMimeProfileKey) <$> deref contentType.
Definition isAIChatCompletionContentType (contentType : option string) : result bool :=
  (λ ct, hasProfile ct AIChatCompletionMimeProfileKey) <$> deref contentType.
End content_types.

(** ** Formats *)

Section typed.
Context `{Unicode} `{Codec} `{MapOrder}.

(** The loop of [marshalProperties] at index [i] of [n] entries. *)
Fixpoint properties_loop (n i : nat) (entries : list (string * string)) : string :=
  match entries with
  | [] => EmptyString
  | (k, v) :: entries' =>
    (k +:+ char_string equals +:+ v)
      +:+ (if bool_decide (i + 1 < n) then char_string newline else EmptyString)
      +:+ properties_loop n (i + 1) entries'
  end.

Definition marshalProperties (settings : gmap string string) : string :=
  properties_loop (size settings) 0 (range_map settings).

Definition marshalJsonYaml (settings : gmap string value)
    (dataOptions : DataOptions.t) : result string :=
  match dataOptions.(DataOptions.Type_) with
  | Yaml =>
    match yaml_marshal settings with
    | Err err => Err (Errorf ("failed to marshal key-values to yaml: " +:+ Error err))
    | o => o
    end
  | Json =>
    match json_marshal settings with
    | Err err => Err (Errorf ("failed to marshal key-values to json: " +:+ Error err))
    | o => o
    end
  | _ => Ok EmptyString
  end.

(** The value of one setting.  When the text is no JSON, the text without
    its comments is parsed only to report a failure: [value] keeps the raw
    text. *)
Definition setting_value (isJson : bool) (v : option string) : value :=
  match v with
  | None => VNull
  | Some s =>
    if isJson then
      match json_unmarshal s with
      | Ok out => out
      | _ =>
        match json_unmarshal (strip_text s) with
        | Ok out => VString s
        | _ => VString s
        end
      end
    else VString s
  end.

Definition parsed_value (raw : RawSettings.t) (k : string) (v : option string) : value :=
  setting_value (default false (raw.(RawSettings.IsJsonContentTypeMap) !! k)) v.

(** The two ways the loops collect values: under the key itself, or in a
    tree when a separator is set. *)
Definition parse_settings {A} (separator : option string) (f : string → A → value)
    (m : gmap string A) : result (gmap string value) :=
  match separator with
  | None => Ok (list_to_map ((λ '(k, v), (k, f k v)) <$> range_map m))
  | Some sep =>
    build (foldl (λ root '(k, v), insert root (Strings.Split k sep) (f k v))
             new_tree (range_map m))
  end.

Definition is_none {A} (o : option A) : bool :=
  match o with None => true | Some _ => false end.

Definition createTypedSettings (rawSettings : RawSettings.t)
    (dataOptions : option DataOptions.t) : result (gmap string string) :=
  if bool_decide (rawSettings.(RawSettings.KeyValueSettings) = ∅)
     && is_none rawSettings.(RawSettings.FeatureFlagSettings)
  then Ok ∅
  else
    let tmpSettings := omap id rawSettings.(RawSettings.KeyValueSettings) in
    match dataOptions with
    | None => Ok tmpSettings
    | Some opts =>
      match opts.(DataOptions.Type_) with
      | Default => Ok tmpSettings
      | Properties => Ok {[opts.(DataOptions.Key) := marshalProperties tmpSettings]}
      | _ =>
        parsedSettings ← parse_settings opts.(DataOptions.Separator)
          (parsed_value rawSettings) rawSettings.(RawSettings.KeyValueSettings);
        let parsedSettings :=
          match rawSettings.(RawSettings.FeatureFlagSettings) with
          | Some ff => <[FeatureManagementSectionName := VMap ff]> parsedSettings
          | None => parsedSettings
          end in
        typedStr ← marshalJsonYaml parsedSettings opts;
        Ok {[opts.(DataOptions.Key) := typedStr]}
      end
    end.

Definition createTypedSecrets (secretsMap : gmap string string)
    (dataOptions : option DataOptions.t) : result (gmap string string) :=
  if bool_decide (secretsMap = ∅) then Ok ∅ else
  match dataOptions with
  | None => Ok secretsMap
  | Some opts =>
    match opts.(DataOptions.Type_) with
    | Default => Ok secretsMap
    | Properties => Ok {[opts.(DataOptions.Key) := marshalProperties secretsMap]}
    | _ =>
      parsedSettings ← parse_settings opts.(DataOptions.Separator)
        (λ _ v, VString v) secretsMap;
      typedStr ← marshalJsonYaml parsedSettings opts;
      Ok {[opts.(DataOptions.Key) := typedStr]}
    end
  end.

(** The feature flag section and the other settings of the data. *)
Definition unmarshalConfigMap (existingConfigMapSetting : gmap string string)
    (dataOptions : option DataOptions.t)
    : result (gmap string value * gmap string value) :=
  opts ← deref dataOptions;
  match existingConfigMapSetting !! opts.(DataOptions.Key) with
  | None =>
    Err (Errorf ("failed to get data for key '" +:+ opts.(DataOptions.Key)
                 +:+ "' from configMap"))
  | Some existingConfigMapData =>
    keyValueSettings ←
      match opts.(DataOptions.Type_) with
      | Yaml => yaml_unmarshal_object existingConfigMapData
      | Json => default ∅ <$> json_unmarshal_object existingConfigMapData
      | t =>
        Err (Errorf ("unsupported data type '" +:+ DataType_string t
                     +:+ "', only supports json/yaml for now"))
      end;
    match keyValueSettings !! FeatureManagementSectionName with
    | Some (VMap featureFlagSection) =>
      Ok (featureFlagSection, delete FeatureManagementSectionName keyValueSettings)
    | _ =>
      Err (Errorf ("failed to get feature flags from configMap data '"
                   +:+ existingConfigMapData +:+ "'"))
    end
  end.
End typed.

(** ** Order of the maps *)

Lemma steps_scalar v : is_container v = false → steps v = [([], Some v)].
Proof. by destruct v. Qed.

(** No two settings of the map write a scalar at the same place. *)
Definition settings_disjoint `{Unicode} {A} (sep : string) (f : string → A → value)
    (m : gmap string A) : Prop :=
  ∀ k1 k2 v1 v2, k1 ≠ k2 → m !! k1 = Some v1 → m !! k2 = Some v2 →
  steps_disjoint (steps_at (Strings.Split k1 sep, f k1 v1))
                 (steps_at (Strings.Split k2 sep, f k2 v2)).

(** What a separator needs for the order not to matter. *)
Definition separator_ok `{Unicode} {A} (f : string → A → value) (m : gmap string A)
    (separator : option string) : Prop :=
  match separator with
  | None => True
  | Some sep => sep ≠ EmptyString ∧ settings_disjoint sep f m
  end.

Section order.
Context `{Unicode} `{Codec}.

Definition entry {A} (sep : string) (f : string → A → value) (e : string * A)
    : list string * value := (Strings.Split e.1 sep, f e.1 e.2).

Lemma parse_settings_insert_all `{MapOrder} {A} sep (f : string → A → value) m :
  parse_settings (Some sep) f m
  = build (insert_all (entry sep f <$> range_map m) new_tree).
Proof.
  unfold parse_settings, insert_all. f_equal. generalize new_tree.
  induction (range_map m) as [|[k v] l IH]; intros t; [done|]. simpl. apply IH.
Qed.

Lemma entries_paths_ok {A} sep (f : string → A → value) l :
  sep ≠ EmptyString → paths_ok (entry sep f <$> l).
Proof.
  intros Hsep. apply Forall_fmap, Forall_true. intros [k v]. by apply Split_ne_nil.
Qed.

Lemma range_entries_disjoint `{MapOrder} {A} sep (f : string → A → value) m :
  settings_disjoint sep f m → entries_disjoint (entry sep f <$> range_map m).
Proof.
  intros Hd i j e1 e2 Hij Hi Hj.
  apply list_lookup_fmap_Some in Hi as ([k1 v1] & -> & Hi).
  apply list_lookup_fmap_Some in Hj as ([k2 v2] & -> & Hj).
  apply (Hd k1 k2 v1 v2).
  - intros ->. apply Hij. pose proof (range_fst_NoDup m) as Hnd.
    rewrite NoDup_alt in Hnd.
    apply (Hnd i j k2); rewrite list_lookup_fmap; [by rewrite Hi|by rewrite Hj].
  - apply elem_of_range. by eapply list_elem_of_lookup_2.
  - apply elem_of_range. by eapply list_elem_of_lookup_2.
Qed.

Lemma scalar_settings_disjoint {A} sep (f : string → A → value) m :
  sep ≠ EmptyString → (∀ k v, is_container (f k v) = false) → settings_disjoint sep f m.
Proof.
  intros Hsep Hf k1 k2 v1 v2 Hk _ _ s1 s2.
  unfold steps_at. simpl. rewrite !steps_scalar by done. simpl.
  rewrite !list_elem_of_singleton, !app_nil_r. intros -> -> (Heq & _). simpl in Heq.
  by apply Hk, (Split_inj sep).
Qed.

Lemma parse_settings_order (o1 o2 : MapOrder) {A} separator (f : string → A → value) m :
  separator_ok f m separator →
  @parse_settings _ o1 A separator f m = @parse_settings _ o2 A separator f m.
Proof.
  destruct separator as [sep|]; unfold separator_ok.
  - intros [Hsep Hd].
    rewrite (@parse_settings_insert_all o1), (@parse_settings_insert_all o2).
    f_equal. apply insert_all_perm;
      [by apply entries_paths_ok|by apply range_entries_disjoint|].
    by rewrite (range_two o1 o2).
  - intros _. unfold parse_settings. f_equal. apply list_to_map_proper.
    + rewrite <-list_fmap_compose. pose proof (@range_fst_NoDup o1 string _ _ _ m) as Hnd.
      by erewrite list_fmap_ext; [exact Hnd|intros ? [? ?]].
    + by rewrite (range_two o1 o2).
Qed.
End order.

(** ** The properties format *)

(** A reader of the format: a line is a key, an equals sign and a value. *)
Definition parse_line (line : string) : option (string * string) :=
  i ← Strings.Index line (char_string equals);
  Some (str_take i line, str_drop (i + 1) line).

Definition parse_properties `{Unicode} (text : string) : gmap string string :=
  list_to_map (omap parse_line (Strings.Split text (char_string newline))).

Definition property_line (e : string * string) : string :=
  e.1 +:+ char_string equals +:+ e.2.

Lemma properties_loop_join n i entries :
  i + length entries = n →
  properties_loop n i entries
  = Strings.Join (property_line <$> entries) (char_string newline).
Proof.
  revert i. induction entries as [|[k v] es IH]; intros i Hi; [done|].
  cbn [properties_loop]. rewrite IH by (simpl in Hi; lia).
  destruct es as [|e es].
  - rewrite bool_decide_eq_false_2 by (simpl in Hi; lia).
    rewrite !str_app_nil. simpl. by rewrite !str_app_nil_r.
  - rewrite bool_decide_eq_true_2 by (simpl in Hi; lia). done.
Qed.

Lemma marshalProperties_join `{MapOrder} m :
  marshalProperties m
  = Strings.Join (property_line <$> range_map m) (char_string newline).
Proof. apply properties_loop_join. by rewrite range_length. Qed.

Lemma parse_property_line e :
  has_char equals e.1 = false → parse_line (property_line e) = Some e.
Proof.
  destruct e as [k v]. intros Hk. unfold parse_line, property_line.
  cbn [fst snd] in *. change (char_string equals +:+ v) with (String equals v).
  rewrite Index_char by done. simpl. by rewrite str_take_app, str_drop_app_add.
Qed.

Lemma parse_property_lines l :
  Forall (λ e, has_char equals e.1 = false) l → omap parse_line (property_line <$> l) = l.
Proof.
  induction 1 as [|e l He _ IH]; [done|]. rewrite fmap_cons. cbn [omap list_omap].
  rewrite parse_property_line by done. by f_equal.
Qed.

(** ** Properties *)

#[local] Opaque Literal.

(** A text counts as JSON exactly when, trimmed of spaces and in lower
    case, it is [application/json] or [application/<anything without a
    slash>+json], followed by nothing or by parameters after a semicolon. *)
Theorem isJsonContentType_shape `{Unicode} ct :
  isJsonContentType (Some ct) = true ↔
  ∃ sub params,
    Strings.ToLower (Strings.Trim ct " ") = "application/" +:+ sub +:+ "json" +:+ params
    ∧ (sub = EmptyString ∨
       ∃ x, sub = x +:+ "+" ∧ x ≠ EmptyString ∧ str_forall not_slash x = true)
    ∧ (params = EmptyString ∨
       ∃ p, params = ";" +:+ p ∧ str_forall not_newline p = true).
Proof.
  unfold isJsonContentType. rewrite full_match_lang. unfold json_content_type_regex.
  rewrite lang_seq_inv. setoid_rewrite lang_seq_inv. setoid_rewrite lang_seq_inv.
  setoid_rewrite lang_opt. setoid_rewrite lang_seq_inv.
  setoid_rewrite lang_plus_class. setoid_rewrite lang_star_class.
  setoid_rewrite lang_literal. split.
  - intros (? & ? & -> & -> & sub & ? & -> & Hsub & ? & params & -> & -> & Hp).
    exists sub, params. split; [done|]. split.
    + destruct Hsub as [(x & ? & -> & [? ?] & ->)|?]; [right; eauto|by left].
    + destruct Hp as [(? & p & -> & -> & ?)|?]; [right; eauto|by left].
  - intros (sub & params & -> & Hsub & Hp).
    eexists _, _. split; [done|]. split; [done|].
    eexists sub, _. split; [done|]. split; [naive_solver|].
    eexists _, params. split; [done|]. split; [done|]. naive_solver.
Qed.

(** C30: The ConfigMap data of a set of settings is the same whatever the order
    in which Go visits the map, except in the properties format, provided that
    with a separator no two settings write at the same place of the tree. *)
Theorem createTypedSettings_order `{Unicode} `{Codec} (o1 o2 : MapOrder) raw dataOptions :
  (∀ opts, dataOptions = Some opts →
     opts.(DataOptions.Type_) ≠ Properties ∧
     separator_ok (parsed_value raw) raw.(RawSettings.KeyValueSettings)
       opts.(DataOptions.Separator)) →
  @createTypedSettings _ _ o1 raw dataOptions = @createTypedSettings _ _ o2 raw dataOptions.
Proof.
  intros Ho. unfold createTypedSettings. case_match; [done|].
  destruct dataOptions as [opts|]; [|done].
  destruct (Ho opts eq_refl) as [Ht Hs].
  destruct (DataOptions.Type_ opts); try done; by rewrite (parse_settings_order o1 o2).
Qed.

Lemma typed_secrets_order `{Unicode} `{Codec} (o1 o2 : MapOrder) m dataOptions :
  (∀ opts, dataOptions = Some opts →
     opts.(DataOptions.Type_) ≠ Properties ∧ opts.(DataOptions.Separator) ≠ Some EmptyString) →
  @createTypedSecrets _ _ o1 m dataOptions = @createTypedSecrets _ _ o2 m dataOptions.
Proof.
  intros Ho. unfold createTypedSecrets. case_match; [done|].
  destruct dataOptions as [opts|]; [|done].
  destruct (Ho opts eq_refl) as [Ht Hs].
  assert (separator_ok (λ (_ : string) v, VString v) m (DataOptions.Separator opts)) as Hok.
  { destruct (DataOptions.Separator opts) as [sep|]; [|done]. simpl.
    assert (sep ≠ EmptyString) by (by intros ->).
    split; [done|]. by apply scalar_settings_disjoint. }
  destruct (DataOptions.Type_ opts); try done; by rewrite (parse_settings_order o1 o2).
Qed.

(** The Secret data never depends on the order of the map, except in the
    properties format: resolved secrets are texts, which never meet. *)
Theorem createTypedSecrets_order `{Unicode} `{Codec} (o1 o2 : MapOrder) m dataOptions :
  (∀ opts, dataOptions = Some opts →
     opts.(DataOptions.Type_) ≠ Properties ∧ opts.(DataOptions.Separator) ≠ Some EmptyString) →
  @createTypedSecrets _ _ o1 m dataOptions = @createTypedSecrets _ _ o2 m dataOptions.
Proof. apply typed_secrets_order. Qed.

(** Reading back a text in the properties format gives the settings it was
    written from, when no key holds an equals sign and no key or value holds a
    newline; neither is escaped. *)
Theorem marshalProperties_roundtrip `{Unicode} `{MapOrder} m :
  map_Forall (λ k v, has_char equals k = false ∧ has_char newline k = false
                     ∧ has_char newline v = false) m →
  parse_properties (marshalProperties m) = m.
Proof.
  intros Hm. unfold parse_properties. rewrite marshalProperties_join.
  assert (Forall (λ e, has_char equals e.1 = false ∧
                       has_char newline (property_line e) = false) (range_map m)) as Hf.
  { apply Forall_forall. intros [k v] (He & Hk & Hv)%elem_of_range%Hm. simpl.
    split; [done|]. unfold property_line. simpl.
    change (String equals v) with (char_string equals +:+ v).
    by rewrite !has_char_app, Hk, Hv. }
  destruct (range_map m) as [|e l] eqn:Hl.
  { simpl. by apply range_map_nil in Hl as ->. }
  rewrite Split_Join_char; [|done|].
  - rewrite parse_property_lines by (eapply Forall_impl; [exact Hf|]; by intros ? [? _]).
    rewrite <-Hl. apply range_list_to_map.
  - apply Forall_fmap. eapply Forall_impl; [exact Hf|]. by intros ? [_ ?].
Qed.

(** C20: The JSON data of a ConfigMap is read back, when a refresh needs the
    part it does not reload, as the feature flag section and the settings it
    was written from, if its strings are UTF-8 and it is nested 10000 deep at
    most. *)
Theorem unmarshalConfigMap_createTypedSettings `{Unicode} `{Codec} `{MapOrder}
    raw opts ff parsed data :
  opts.(DataOptions.Type_) = Json →
  raw.(RawSettings.FeatureFlagSettings) = Some ff →
  parse_settings opts.(DataOptions.Separator) (parsed_value raw)
    raw.(RawSettings.KeyValueSettings) = Ok parsed →
  readable (<[FeatureManagementSectionName := VMap ff]> parsed) = true →
  createTypedSettings raw (Some opts) = Ok data →
  unmarshalConfigMap data (Some opts)
  = Ok (ff, delete FeatureManagementSectionName parsed).
Proof.
  intros Ht Hff Hp Hu. unfold createTypedSettings, marshalJsonYaml.
  rewrite Hff, andb_false_r, Ht, Hp. cbn [mbind outcome_bind].
  destruct (json_marshal _) as [s| |] eqn:Hm; [|done|done]. intros [= <-].
  unfold unmarshalConfigMap. cbn [mbind outcome_bind deref].
  rewrite lookup_singleton_eq, Ht, (json_object_roundtrip _ _ Hu Hm).
  cbn. by rewrite lookup_insert_eq, delete_insert_eq.
Qed.

(** A value whose text is JSON only without its comments is kept as the text,
    although the loader has just parsed it. *)
Lemma commented_json_kept_as_text `{Codec} s e out :
  json_unmarshal s = Err e → json_unmarshal (strip_text s) = Ok out →
  setting_value true (Some s) = VString s.
Proof. intros He Ho. unfold setting_value. by rewrite He, Ho. Qed.

(** ** Witnesses *)

Module TypedSettingsWitness.
#[export] Existing Instance ascii_only.
#[export] Existing Instance SimpleCodec.instance.

Definition ff : gmap string value :=
  {[FeatureFlagSectionName := VArray [VMap {["id" := VString "Beta"]}]]}.
Definition raw : RawSettings.t :=
  RawSettings.mk {["app.name" := Some "demo"; "app.port" := Some "80"; "owner" := None]}
    ∅ (Some ff) ∅ ∅ None None.
Definition json_opts : DataOptions.t := DataOptions.mk Json "settings.json" (Some ".").
Definition parsed : gmap string value :=
  {["app" := VMap {["name" := VString "demo"; "port" := VString "80"]}; "owner" := VNull]}.

Lemma raw_disjoint :
  separator_ok (parsed_value raw) raw.(RawSettings.KeyValueSettings) (Some ".").
Proof.
  split; [done|]. apply scalar_settings_disjoint; [done|].
  intros k v. unfold parsed_value. simpl. rewrite lookup_empty. by destruct v.
Qed.

Definition secrets : gmap string string := {["db.user" := "u"; "db.pass" := "p"]}.
Definition props : gmap string string := {["a" := "1"; "b" := "x=y"; "c" := ""]}.
End TypedSettingsWitness.
Import TypedSettingsWitness.

Example content_types :
  (isJsonContentType (Some " Application/vnd.demo+JSON; charset=utf-8 "),
   isJsonContentType (Some "application/json5"), isJsonContentType (Some "text/a+json"))
  = (true, false, false).
Proof. vm_compute. reflexivity. Qed.

Example ai_profile :
  isAIChatCompletionContentType
    (Some ("application/json; profile=" +:+ dquote +:+ AIChatCompletionMimeProfileKey
           +:+ dquote +:+ "; charset=utf-8"))
  = Ok true.
Proof. vm_compute. reflexivity. Qed.

Lemma createTypedSettings_order_witness :
  @createTypedSettings _ _ map_to_list_order raw (Some json_opts)
  = @createTypedSettings _ _ reverse_order raw (Some json_opts).
Proof.
  apply (createTypedSettings_order map_to_list_order reverse_order raw (Some json_opts)).
  intros opts [= <-]. split; [done|apply raw_disjoint].
Defined.

Lemma createTypedSecrets_order_witness :
  @createTypedSecrets _ _ map_to_list_order secrets (Some json_opts)
  = @createTypedSecrets _ _ reverse_order secrets (Some json_opts).
Proof.
  apply (createTypedSecrets_order map_to_list_order reverse_order secrets (Some json_opts)).
  by intros opts [= <-].
Defined.

Lemma marshalProperties_roundtrip_witness :
  parse_properties (@marshalProperties reverse_order props) = props.
Proof.
  apply (@marshalProperties_roundtrip _ reverse_order).
  apply (bool_decide_eq_true_1 _). vm_compute. reflexivity.
Defined.

Lemma unmarshalConfigMap_createTypedSettings_witness :
  ∃ data, @createTypedSettings _ _ map_to_list_order raw (Some json_opts) = Ok data
          ∧ unmarshalConfigMap data (Some json_opts) = Ok (ff, parsed).
Proof.
  exists (default ∅ (match @createTypedSettings _ _ map_to_list_order raw (Some json_opts) with
                     | Ok d => Some d | _ => None end)).
  split; [vm_compute; reflexivity|].
  apply (@unmarshalConfigMap_createTypedSettings _ _ map_to_list_order raw json_opts ff parsed).
  - reflexivity.
  - reflexivity.
  - vm_compute. reflexivity.
  - vm_compute. reflexivity.
  - vm_compute; reflexivity.
Defined.

(** Two settings that meet under a separator: the object stored at [a] and the
    setting [a:b].  The result depends on the order of the map. *)
Example order_matters :
  let m : gmap string value := {["a" := VMap {["b" := VNumber 1]}; "a:b" := VString "x"]} in
  let at_ab (o : MapOrder) :=
    (λ r, value_get (VMap r) ["a"; "b"]) <$> @parse_settings _ o _ (Some ":") (λ _ v, v) m in
  at_ab reverse_order = Ok (Some (VString "x"))
  ∧ at_ab map_to_list_order = Ok (Some (VNumber 1)).
Proof. vm_compute. split; reflexivity. Qed.
