(* ===== verification/ConnString.v ===== *)
(** Endpoints and connection strings:
    [internal/loader/configuration_client_manager.go].

    [buildConnectionString] and [parseConnectionString] are shown inverse of
    each other, and [isValidEndpoint] to accept only hosts under the trusted
    domain of the store's own endpoint. *)

From S2P Require Import Prelude GoStrings Errors Url.
From Stdlib Require Import Ascii.

Definition EndpointSection : string := "Endpoint".
Definition SecretSection : string := "Secret".
Definition IdSection : string := "Id".
Definition AzConfigDomainLabel : string := ".azconfig.".
Definition AppConfigDomainLabel : string := ".appconfig.".

Section endpoints.
Context `{Unicode} `{IPLiterals}.

(** The first label found, from the last of its occurrences on.  The index
    is one of the lower-cased host, the slice is of the host itself. *)
Fixpoint domain_from (labels : list string) (host : string) : string :=
  match labels with
  | [] => EmptyString
  | label :: labels' =>
    match Strings.LastIndex (Strings.ToLower host) (Strings.ToLower label) with
    | Some index => str_drop index host
    | None => domain_from labels' host
    end
  end.

(** A URL that does not parse is a nil pointer. *)
Definition getValidDomain (endpoint : string) : result string :=
  url ← deref (url_parse endpoint);
  Ok (domain_from [AzConfigDomainLabel; AppConfigDomainLabel] url.(URL.Host)).

Definition isValidEndpoint (host validDomain : string) : bool :=
  if String.eqb validDomain EmptyString then false
  else Strings.HasSuffix (Strings.ToLower host) (Strings.ToLower validDomain).

Definition verifyEndpointFromConnectionString (endpoint : string) : result () :=
  match url_parse (Strings.ToLower endpoint) with
  | None => Err (Errorf ("invalid endpoint " +:+ Strconv.Quote endpoint +:+ " from connectionString"))
  | Some url =>
    if String.eqb url.(URL.Host) EmptyString then
      Err (Errorf ("invalid endpoint " +:+ Strconv.Quote endpoint
                   +:+ " from connectionString, host must be specified"))
    else if negb (String.eqb url.(URL.Scheme) "https") then
      Err (Errorf ("invalid endpoint " +:+ Strconv.Quote endpoint
                   +:+ " from connectionString, only https scheme is allowed"))
    else if negb (String.eqb (Strings.Trim url.(URL.Path) "/") EmptyString) then
      Err (Errorf ("invalid endpoint " +:+ Strconv.Quote endpoint
                   +:+ " from connectionString, only host name is allowed"))
    else Ok ()
  end.
End endpoints.

Definition buildConnectionString (endpoint secret id : string) : string :=
  if String.eqb secret EmptyString || String.eqb id EmptyString then EmptyString
  else EndpointSection +:+ "=" +:+ endpoint +:+ ";"
       +:+ IdSection +:+ "=" +:+ id +:+ ";"
       +:+ SecretSection +:+ "=" +:+ secret.

Definition parseConnectionString (connectionString token : string) : result string :=
  if String.eqb connectionString EmptyString
  then Err (Errorf "connectionString is empty")
  else
    let parseToken := token +:+ "=" in
    match Strings.Index connectionString parseToken with
    | None => Err (Errorf ("invalid connectionString " +:+ connectionString))
    | Some startIndex =>
      let endIndex :=
        match Strings.Index (str_drop startIndex connectionString) ";" with
        | None => str_length connectionString
        | Some e => e + startIndex
        end in
      Ok (str_take (endIndex - (startIndex + str_length parseToken))
            (str_drop (startIndex + str_length parseToken) connectionString))
    end.

(** The token is searched in the whole string, values included. *)
Example parse_inside_a_value :
  parseConnectionString "Endpoint=https://a;Secret=Id=x;Id=real" IdSection = Ok "x".
Proof. vm_compute. reflexivity. Qed.

(** ** Finding a section *)

Definition eq_sign : ascii := ascii_of_N 61.
Definition semicolon : ascii := ascii_of_N 59.

(** A prefix that ends at its only [c] is matched up to the first [c]. *)
Lemma HasPrefix_until c T x r :
  has_char c T = false → has_char c x = false →
  Strings.HasPrefix (x +:+ String c r) (T +:+ char_string c) = true → x = T.
Proof.
  unfold has_char. revert x. induction T as [|d T IH]; intros x HT Hx.
  - destruct x as [|e x]; [done|]. rewrite str_app_cons, str_app_nil. simpl in *.
    apply orb_false_iff in Hx as [Hc _]. by rewrite Hc.
  - destruct x as [|e x].
    + rewrite str_app_nil, str_app_cons. simpl in *.
      apply orb_false_iff in HT as [Hc _]. rewrite Ascii.eqb_sym, Hc. done.
    + rewrite !str_app_cons. simpl in *.
      apply orb_false_iff in HT as [_ HT], Hx as [_ Hx].
      intros [->%Ascii.eqb_eq Hp]%andb_true_iff. f_equal. by apply IH.
Qed.

Lemma has_char_drop c n s : has_char c s = false → has_char c (str_drop n s) = false.
Proof.
  unfold has_char. revert n. induction s as [|d s IH]; intros [|n]; simpl; try done.
  intros [_ ?]%orb_false_iff. by apply IH.
Qed.

Lemma str_drop_app_le n a b :
  n ≤ str_length a → str_drop n (a +:+ b) = str_drop n a +:+ b.
Proof.
  revert n. induction a as [|c a IH]; intros [|n] Hn; simpl in *; try done; try lia.
  apply IH. lia.
Qed.

Lemma Index_skip a r sub i :
  (∀ j, j < str_length a → Strings.HasPrefix (str_drop j (a +:+ r)) sub = false) →
  Strings.Index r sub = Some i → Strings.Index (a +:+ r) sub = Some (str_length a + i).
Proof.
  induction a as [|c a IH]; intros Ha Hr; [by rewrite str_app_nil|].
  rewrite str_app_cons. cbn [Strings.Index].
  pose proof (Ha 0 ltac:(simpl; lia)) as H0. rewrite str_app_cons in H0.
  cbn [str_drop] in H0. rewrite H0, IH; [done| |done].
  intros j Hj. specialize (Ha (S j) ltac:(simpl; lia)). by rewrite str_app_cons in Ha.
Qed.

(** A section [w=v;] is skipped in the search for the token of another one. *)
Lemma Index_skip_section w v w' r T i :
  has_char eq_sign T = false → has_char semicolon T = false → T ≠ EmptyString →
  has_char eq_sign w = false → has_char eq_sign v = false → has_char eq_sign w' = false →
  (∀ j, j < str_length w → str_drop j w ≠ T) →
  Strings.Index (w' +:+ String eq_sign r) (T +:+ char_string eq_sign) = Some i →
  Strings.Index (w +:+ String eq_sign (v +:+ String semicolon (w' +:+ String eq_sign r)))
    (T +:+ char_string eq_sign)
  = Some (str_length w + str_length v + 2 + i).
Proof.
  intros HTe HTs HTn Hw Hv Hw' Hsuf Hi.
  replace (w +:+ String eq_sign (v +:+ String semicolon (w' +:+ String eq_sign r)))
    with ((w +:+ String eq_sign (v +:+ char_string semicolon)) +:+ w' +:+ String eq_sign r)
    by (rewrite !str_app_assoc, str_app_cons, str_app_assoc; done).
  erewrite Index_skip; [| |exact Hi].
  { rewrite str_length_app. cbn [str_length]. rewrite str_length_app.
    cbn [str_length char_string]. f_equal. lia. }
  intros j Hj. rewrite str_length_app in Hj. cbn [str_length] in Hj.
  rewrite str_length_app in Hj. cbn [str_length char_string] in Hj.
  apply not_true_is_false. intros Hp.
  destruct (decide (j < str_length w)) as [Hjw|Hjw].
  { rewrite str_app_assoc, str_drop_app_le in Hp by lia. rewrite str_app_cons in Hp.
    apply HasPrefix_until in Hp; [|done|by apply has_char_drop]. by apply (Hsuf j). }
  replace j with (str_length w + (j - str_length w)) in Hp by lia.
  rewrite str_app_assoc, str_drop_app_add in Hp.
  destruct (j - str_length w) as [|k] eqn:Hk.
  { cbn [str_drop] in Hp. rewrite str_app_cons in Hp.
    apply (HasPrefix_until eq_sign T EmptyString) in Hp; [by apply HTn|done|done]. }
  rewrite str_app_cons in Hp. cbn [str_drop] in Hp. rewrite str_app_assoc in Hp.
  rewrite str_drop_app_le in Hp by lia.
  change (char_string semicolon +:+ w' +:+ String eq_sign r)
    with (String semicolon w' +:+ String eq_sign r) in Hp.
  rewrite <-str_app_assoc in Hp. apply HasPrefix_until in Hp; [|done|].
  - assert (has_char semicolon (str_drop k v +:+ String semicolon w') = true) as Hsc.
    { rewrite has_char_app. unfold has_char. simpl. by rewrite orb_true_r. }
    rewrite Hp in Hsc. congruence.
  - rewrite has_char_app, has_char_drop by done. unfold has_char in *. simpl. done.
Qed.

(** The value of a section whose token was found, up to the next semicolon. *)
Lemma parseConnectionString_at a T v tail :
  has_char semicolon T = false → has_char semicolon v = false →
  (tail = EmptyString ∨ ∃ r, tail = String semicolon r) →
  Strings.Index (a +:+ T +:+ String eq_sign (v +:+ tail)) (T +:+ char_string eq_sign)
  = Some (str_length a) →
  parseConnectionString (a +:+ T +:+ String eq_sign (v +:+ tail)) T = Ok v.
Proof.
  intros HT Hv Htail Hi. unfold parseConnectionString.
  destruct (String.eqb _ _) eqn:He.
  { apply String.eqb_eq, str_app_eq_nil in He as [_ [_ [=]]%str_app_eq_nil]. }
  change "=" with (char_string eq_sign). change ";" with (char_string semicolon).
  rewrite Hi. rewrite str_drop_app.
  assert (str_drop (str_length a + str_length (T +:+ char_string eq_sign))
            (a +:+ T +:+ String eq_sign (v +:+ tail)) = v +:+ tail) as ->.
  { rewrite str_drop_app_add.
    replace (T +:+ String eq_sign (v +:+ tail))
      with ((T +:+ char_string eq_sign) +:+ v +:+ tail) by (by rewrite str_app_assoc).
    apply str_drop_app. }
  assert (has_char semicolon (T +:+ String eq_sign v) = false) as Hsec.
  { rewrite has_char_app, HT. unfold has_char in *. simpl. done. }
  replace (T +:+ String eq_sign (v +:+ tail)) with ((T +:+ String eq_sign v) +:+ tail)
    by (by rewrite str_app_assoc, str_app_cons).
  f_equal. destruct Htail as [->|[r ->]].
  - rewrite !str_app_nil_r, Index_char_None by done.
    rewrite !str_length_app. cbn [str_length char_string].
    replace (_ - _) with (str_length v) by lia.
    rewrite <-(str_app_nil_r v) at 2. apply str_take_app.
  - rewrite Index_char by done. rewrite !str_length_app. cbn [str_length char_string].
    replace (_ - _) with (str_length v) by lia. apply str_take_app.
Qed.

Lemma Index_zero s sub : Strings.HasPrefix s sub = true → Strings.Index s sub = Some 0.
Proof. destruct s; cbn [Strings.Index]; by intros ->. Qed.

Lemma Index_section T r :
  Strings.Index (T +:+ String eq_sign r) (T +:+ char_string eq_sign) = Some 0.
Proof.
  apply Index_zero. replace (T +:+ String eq_sign r) with ((T +:+ char_string eq_sign) +:+ r)
    by (by rewrite str_app_assoc). apply HasPrefix_refl_app.
Qed.

(** A decision for the last premise of [Index_skip_section]. *)
Definition no_suffix (w T : string) : bool :=
  forallb (λ j, negb (String.eqb (str_drop j w) T)) (seq 0 (str_length w)).

Lemma no_suffix_spec w T j :
  no_suffix w T = true → j < str_length w → str_drop j w ≠ T.
Proof.
  unfold no_suffix. rewrite forallb_forall. intros Hf Hj.
  specialize (Hf j ltac:(apply in_seq; lia)).
  by apply negb_true_iff, String.eqb_neq in Hf.
Qed.

Section sections.
Context (endpoint secret id : string).
Context (He : has_char eq_sign endpoint = false) (He' : has_char semicolon endpoint = false).
Context (Hi : has_char eq_sign id = false) (Hi' : has_char semicolon id = false).
Context (Hs' : has_char semicolon secret = false).

Let secret_part : string := SecretSection +:+ String eq_sign secret.
Let id_part : string := IdSection +:+ String eq_sign (id +:+ String semicolon secret_part).
Let whole : string :=
  EndpointSection +:+ String eq_sign (endpoint +:+ String semicolon id_part).

Lemma parse_endpoint_section : parseConnectionString whole EndpointSection = Ok endpoint.
Proof.
  apply (parseConnectionString_at EmptyString); [done|done|right; by eexists|].
  apply Index_section.
Qed.

Lemma parse_id_section : parseConnectionString whole IdSection = Ok id.
Proof.
  unfold whole, id_part.
  pose proof (Index_skip_section EndpointSection endpoint IdSection
    (id +:+ String semicolon secret_part) IdSection 0 eq_refl eq_refl ltac:(done)
    eq_refl He eq_refl (λ j, no_suffix_spec EndpointSection IdSection j eq_refl) (Index_section _ _)) as Hx.
  set (a := EndpointSection +:+ String eq_sign (endpoint +:+ char_string semicolon)).
  replace (EndpointSection +:+ String eq_sign _)
    with (a +:+ IdSection +:+ String eq_sign (id +:+ String semicolon secret_part)) in *
    by (unfold a; by rewrite !str_app_assoc, str_app_cons, str_app_assoc).
  apply (parseConnectionString_at a); [done|done|right; by eexists|].
  rewrite Hx. f_equal. unfold a. rewrite str_length_app. cbn [str_length].
  rewrite str_length_app. cbn [str_length char_string]. lia.
Qed.

Lemma parse_secret_section : parseConnectionString whole SecretSection = Ok secret.
Proof.
  unfold whole, id_part, secret_part.
  pose proof (Index_skip_section IdSection id SecretSection
    secret SecretSection 0 eq_refl eq_refl ltac:(done)
    eq_refl Hi eq_refl (λ j, no_suffix_spec IdSection SecretSection j eq_refl) (Index_section _ _)) as Hx.
  pose proof (Index_skip_section EndpointSection endpoint IdSection
    (id +:+ String semicolon (SecretSection +:+ String eq_sign secret))
    SecretSection _ eq_refl eq_refl ltac:(done)
    eq_refl He eq_refl (λ j, no_suffix_spec EndpointSection SecretSection j eq_refl) Hx) as Hy.
  set (a := EndpointSection +:+ String eq_sign (endpoint +:+ char_string semicolon)
            +:+ IdSection +:+ String eq_sign (id +:+ char_string semicolon)).
  replace (EndpointSection +:+ String eq_sign _)
    with (a +:+ SecretSection +:+ String eq_sign (secret +:+ EmptyString)) in *
    by (unfold a; by rewrite str_app_nil_r, !str_app_assoc, !str_app_cons, !str_app_assoc).
  apply (parseConnectionString_at a); [done|done|by left|].
  rewrite Hy. f_equal. unfold a. rewrite !str_length_app. cbn [str_length].
  rewrite !str_length_app. cbn [str_length char_string]. lia.
Qed.
End sections.

(** ** Properties *)

(** C38: The three parts of a connection string built for a replica are read
    back as they were given, when the endpoint and the id hold no equals sign
    and no part holds a semicolon; the secret, which is Base64, may end with
    equals signs. *)
Theorem parse_buildConnectionString endpoint secret id :
  secret ≠ EmptyString → id ≠ EmptyString →
  has_char eq_sign endpoint = false → has_char eq_sign id = false →
  has_char semicolon endpoint = false → has_char semicolon id = false →
  has_char semicolon secret = false →
  let cs := buildConnectionString endpoint secret id in
  parseConnectionString cs EndpointSection = Ok endpoint
  ∧ parseConnectionString cs IdSection = Ok id
  ∧ parseConnectionString cs SecretSection = Ok secret.
Proof.
  intros Hs Hi. intros. unfold cs, buildConnectionString.
  rewrite (proj2 (String.eqb_neq _ _) Hs), (proj2 (String.eqb_neq _ _) Hi).
  split; [|split]; [by apply parse_endpoint_section|by apply parse_id_section|
    by apply parse_secret_section].
Qed.

Lemma parse_buildConnectionString_witness :
  let cs := buildConnectionString "https://store-alt.azconfig.io" "c2VjcmV0==" "abc:def" in
  parseConnectionString cs EndpointSection = Ok "https://store-alt.azconfig.io"
  ∧ parseConnectionString cs IdSection = Ok "abc:def"
  ∧ parseConnectionString cs SecretSection = Ok "c2VjcmV0==".
Proof. apply parse_buildConnectionString; done. Defined.

(** *** Trusted domains *)

Lemma LastIndex_Some s sub i :
  Strings.LastIndex s sub = Some i → Strings.HasPrefix (str_drop i s) sub = true.
Proof.
  revert i. induction s as [|c s IH]; intros i; cbn [Strings.LastIndex].
  - case_match eqn:Hp; [by intros [= <-]|done].
  - destruct (Strings.LastIndex s sub) as [n|].
    + intros [= <-]. by apply IH.
    + case_match eqn:Hp; [by intros [= <-]|done].
Qed.

Lemma str_drop_map f n s : str_drop n (str_map f s) = str_map f (str_drop n s).
Proof. revert n. induction s as [|c s IH]; intros [|n]; simpl; auto. Qed.

Lemma str_forall_drop f n s : str_forall f s = true → str_forall f (str_drop n s) = true.
Proof.
  revert n. induction s as [|c s IH]; intros [|n]; simpl; try done.
  intros [_ ?]%andb_true_iff. by apply IH.
Qed.

Section trusted.
Context `{Unicode} `{IPLiterals}.

Lemma domain_from_spec labels host :
  Strings.is_ascii host = true →
  domain_from labels host = EmptyString ∨
  ∃ label n, label ∈ labels ∧ domain_from labels host = str_drop n host ∧
    Strings.HasPrefix (Strings.ToLower (domain_from labels host)) (Strings.ToLower label)
    = true.
Proof.
  intros Ha. induction labels as [|label labels IH]; [by left|]. cbn [domain_from].
  destruct (Strings.LastIndex _ _) as [i|] eqn:Hi.
  - right. exists label, i. split; [by left|]. split; [done|].
    apply LastIndex_Some in Hi. unfold Strings.ToLower in Hi at 1 |- * at 1.
    rewrite Ha in Hi.
    assert (Strings.is_ascii (str_drop i host) = true) as -> by (by apply str_forall_drop).
    by rewrite <-str_drop_map.
  - destruct IH as [->|(l & n & ? & ? & ?)]; [by left|right]. exists l, n.
    split; [by right|done].
Qed.

(** A host is accepted as a replica only if, in lower case, it ends with
    the store's trusted domain: the end of the store's own host from a
    trusted label on.  A store outside the trusted domains has no replica. *)
Theorem isValidEndpoint_trusted endpoint url host dom :
  url_parse endpoint = Some url → Strings.is_ascii url.(URL.Host) = true →
  getValidDomain endpoint = Ok dom → isValidEndpoint host dom = true →
  (∃ sub, Strings.ToLower host = sub +:+ Strings.ToLower dom)
  ∧ (∃ n, dom = str_drop n url.(URL.Host))
  ∧ ∃ label rest, label ∈ [AzConfigDomainLabel; AppConfigDomainLabel]
      ∧ Strings.ToLower dom = label +:+ rest.
Proof.
  unfold getValidDomain, isValidEndpoint. intros -> Ha [= <-].
  destruct (String.eqb _ EmptyString) eqn:Hd; [done|].
  apply String.eqb_neq in Hd. intros Hs%HasSuffix_app. split; [done|].
  destruct (domain_from_spec [AzConfigDomainLabel; AppConfigDomainLabel] _ Ha)
    as [?|(label & n & Hl & Hn & Hp)]; [done|].
  split; [by exists n|]. exists label.
  apply HasPrefix_app in Hp as [rest Hrest]. exists rest. split; [done|].
  etrans; [exact Hrest|]. f_equal.
  by repeat (apply elem_of_cons in Hl as [-> |Hl]; [reflexivity|]); apply elem_of_nil in Hl.
Qed.
End trusted.

Lemma isValidEndpoint_trusted_witness :
  (∃ sub, @Strings.ToLower ascii_only "store-alt.AZCONFIG.io"
          = sub +:+ @Strings.ToLower ascii_only ".azconfig.io")
  ∧ (∃ n, ".azconfig.io" = str_drop n "store.azconfig.io")
  ∧ ∃ label rest, label ∈ [AzConfigDomainLabel; AppConfigDomainLabel]
      ∧ @Strings.ToLower ascii_only ".azconfig.io" = label +:+ rest.
Proof.
  apply (@isValidEndpoint_trusted ascii_only no_ip_literals
    "https://store.azconfig.io" (URL.mk "https" "store.azconfig.io" EmptyString)
    "store-alt.AZCONFIG.io" ".azconfig.io"); vm_compute; reflexivity.
Defined.
