(* ===== verification/Tracing.v ===== *)
(** The correlation header of a request: [internal/loader/request_tracing.go].

    What the function reads of its environment are arguments: the tracing value
    of the context, and whether the [AZURE_EXTENSION_CONTEXT] variable is set. *)

From Stdlib Require Import Ascii.
From S2P Require Import Prelude GoStrings Api.

Module TracingFeatures.
Record t := mk {
  ReplicaCount : nat;
  IsFailoverRequest : bool;
  UseAIConfiguration : bool;
  UseAIChatCompletionConfiguration : bool;
  UseSnapshotReference : bool;
}.
#[global] Instance eta_features : Eta t := λ f,
  mk (ReplicaCount f) (IsFailoverRequest f) (UseAIConfiguration f)
     (UseAIChatCompletionConfiguration f) (UseSnapshotReference f).
(** [TracingFeatures{}] *)
Definition zero : t := mk 0 false false false false.
End TracingFeatures.

Definition TracingFeatureDelimiterKey : string := "+".
Definition LoadBalancingKey : string := "LB".
Definition AIConfigurationKey : string := "AI".
Definition AIChatCompletionKey : string := "AICC".
Definition SnapshotReferenceKey : string := "SnapshotRef".

(** [if b then append(l, x)] *)
Definition opt_tag (b : bool) (x : string) : list string := if b then [x] else [].

Definition tracing_features (spec : Spec.t) (f : TracingFeatures.t) : list string :=
  opt_tag spec.(Spec.LoadBalancingEnabled) LoadBalancingKey
  ++ opt_tag f.(TracingFeatures.UseAIConfiguration) AIConfigurationKey
  ++ opt_tag f.(TracingFeatures.UseAIChatCompletionConfiguration) AIChatCompletionKey
  ++ opt_tag f.(TracingFeatures.UseSnapshotReference) SnapshotReferenceKey.

(** [http.Header]: the values of each name, the names in canonical form. *)
Definition Header : Type := gmap string (list string).
Definition CorrelationContext : string := "Correlation-Context".

(** The list [output]: [tracing] is the [IsStartUp] field of the
    [RequestTracing] of the context, if it has one. *)
Definition correlation_tags (tracing : option bool) (extension : bool)
    (spec : Spec.t) (f : TracingFeatures.t) : list string :=
  let features := tracing_features spec f in
  ["Host=Kubernetes"]
  ++ match tracing with
     | Some true => ["RequestType=StartUp"]
     | Some false => ["RequestType=Watch"]
     | None => []
     end
  ++ match spec.(Spec.Secret) with
     | Some s =>
       ["UsesKeyVault"]
       ++ match s.(SecretReference.Refresh) with
          | Some r => opt_tag r.(RefreshSettings.Enabled) "RefreshesKeyVault"
          | None => []
          end
     | None => []
     end
  ++ opt_tag (match spec.(Spec.FeatureFlag) with Some _ => true | None => false end)
       "UsesFeatureFlag"
  ++ (if spec.(Spec.ReplicaDiscoveryEnabled)
      then ["ReplicaCount=" +:+ Strconv.Itoa f.(TracingFeatures.ReplicaCount)]
           ++ opt_tag f.(TracingFeatures.IsFailoverRequest) "FailoverRequest"
      else [])
  ++ (if bool_decide (0 < length features)
      then ["Features=" +:+ Strings.Join features TracingFeatureDelimiterKey] else [])
  ++ [if extension then "InstalledBy=Extension" else "InstalledBy=Helm"].

Definition createCorrelationContextHeader (tracing : option bool) (extension : bool)
    (spec : Spec.t) (f : TracingFeatures.t) : Header :=
  {[CorrelationContext := [Strings.Join (correlation_tags tracing extension spec f) ","]]}.

Example header :
  createCorrelationContextHeader (Some true) false
    (Spec.mk (Some "https://s.azconfig.io") true true None (Target.mk "cm" None) None
       (KeyValueOptions.mk [] [] None) None None)
    (TracingFeatures.mk 2 true false true false)
  = {[CorrelationContext :=
      ["Host=Kubernetes,RequestType=StartUp,ReplicaCount=2,FailoverRequest,Features=LB+AICC,InstalledBy=Helm"]]}.
Proof. vm_compute. reflexivity. Qed.

(** ** The tags can be told apart *)

Definition comma_byte : ascii := ","%char.

Lemma opt_tag_comma b x : has_char comma_byte x = false →
  Forall (λ t, has_char comma_byte t = false) (opt_tag b x).
Proof. destruct b; by repeat constructor. Qed.

Lemma pretty_N_go_comma x s :
  has_char comma_byte s = false → has_char comma_byte (pretty_N_go x s) = false.
Proof.
  revert s. induction (N.lt_wf_0 x) as [x _ IH]. intros s Hs.
  destruct (decide (0 < x)%N) as [Hx|Hx].
  - rewrite pretty_N_go_step by done. apply IH; [by apply N.div_lt|].
    unfold has_char in *. cbn [str_exists]. rewrite Hs, orb_false_r. unfold pretty_N_char.
    by repeat case_match.
  - assert (x = 0)%N as -> by lia. by rewrite pretty_N_go_0.
Qed.
Lemma Itoa_comma n : has_char comma_byte (Strconv.Itoa n) = false.
Proof.
  unfold Strconv.Itoa, pretty, pretty_nat, pretty, pretty_N. case_decide; [done|].
  by apply pretty_N_go_comma.
Qed.

Lemma has_char_join c l sep :
  has_char c sep = false → Forall (λ t, has_char c t = false) l →
  has_char c (Strings.Join l sep) = false.
Proof.
  intros Hsep Hl. induction Hl as [|x l Hx Hl IH]; [done|]. destruct l as [|y l]; [done|].
  change (Strings.Join (x :: y :: l) sep) with (x +:+ sep +:+ Strings.Join (y :: l) sep).
  by rewrite !has_char_app, Hx, Hsep, IH.
Qed.

Lemma tracing_features_comma spec f :
  Forall (λ t, has_char comma_byte t = false) (tracing_features spec f).
Proof. unfold tracing_features. repeat apply Forall_app_2; by apply opt_tag_comma. Qed.

Lemma correlation_tags_comma tracing extension spec f :
  Forall (λ t, has_char comma_byte t = false) (correlation_tags tracing extension spec f).
Proof.
  unfold correlation_tags. repeat apply Forall_app_2; repeat case_match;
    repeat first [apply Forall_app_2 | apply opt_tag_comma; done | done | constructor];
    rewrite has_char_app.
  - by rewrite Itoa_comma.
  - by rewrite has_char_join by (done || apply tracing_features_comma).
Qed.

(** [provider.Spec.Secret.Refresh != nil && provider.Spec.Secret.Refresh.Enabled] *)
Definition refreshes_key_vault (spec : Spec.t) : bool :=
  match spec.(Spec.Secret) with
  | Some s => match s.(SecretReference.Refresh) with
              | Some r => r.(RefreshSettings.Enabled)
              | None => false
              end
  | None => false
  end.

Lemma elem_of_opt_tag t b x : t ∈ opt_tag b x ↔ t = x ∧ b = true.
Proof. destruct b; simpl; set_solver. Qed.

Lemma elem_of_secret_tags t spec :
  t ∈ match spec.(Spec.Secret) with
      | Some s =>
        ["UsesKeyVault"]
        ++ match s.(SecretReference.Refresh) with
           | Some r => opt_tag r.(RefreshSettings.Enabled) "RefreshesKeyVault"
           | None => []
           end
      | None => []
      end ↔
    (t = "UsesKeyVault" ∧ is_Some spec.(Spec.Secret))
    ∨ (t = "RefreshesKeyVault" ∧ refreshes_key_vault spec = true).
Proof.
  unfold refreshes_key_vault. destruct (Spec.Secret spec) as [s|]; [|set_solver by naive_solver].
  rewrite elem_of_app, list_elem_of_singleton.
  destruct (SecretReference.Refresh s) as [r|]; [rewrite elem_of_opt_tag|]; set_solver.
Qed.

Lemma elem_of_replica_tags t spec f :
  t ∈ (if spec.(Spec.ReplicaDiscoveryEnabled)
       then ["ReplicaCount=" +:+ Strconv.Itoa f.(TracingFeatures.ReplicaCount)]
            ++ opt_tag f.(TracingFeatures.IsFailoverRequest) "FailoverRequest" else []) ↔
    (t = "ReplicaCount=" +:+ Strconv.Itoa f.(TracingFeatures.ReplicaCount)
     ∧ spec.(Spec.ReplicaDiscoveryEnabled) = true)
    ∨ (t = "FailoverRequest" ∧ spec.(Spec.ReplicaDiscoveryEnabled) = true
       ∧ f.(TracingFeatures.IsFailoverRequest) = true).
Proof.
  case_match; [rewrite elem_of_app, list_elem_of_singleton, elem_of_opt_tag|]; set_solver.
Qed.

Lemma elem_of_feature_tags (t : string) (l : list string) :
  t ∈ (if bool_decide (0 < length l)
       then ["Features=" +:+ Strings.Join l TracingFeatureDelimiterKey] else []) ↔
    t = "Features=" +:+ Strings.Join l TracingFeatureDelimiterKey ∧ l ≠ [].
Proof. destruct l; simpl; set_solver. Qed.

Lemma elem_of_request_tags t (tracing : option bool) :
  t ∈ match tracing with
      | Some true => ["RequestType=StartUp"]
      | Some false => ["RequestType=Watch"]
      | None => []
      end ↔
    (t = "RequestType=StartUp" ∧ tracing = Some true)
    ∨ (t = "RequestType=Watch" ∧ tracing = Some false).
Proof. destruct tracing as [[]|]; set_solver. Qed.

Lemma elem_of_installed (t : string) (extension : bool) :
  t = (if extension then "InstalledBy=Extension" else "InstalledBy=Helm") ↔
    (t = "InstalledBy=Extension" ∧ extension = true)
    ∨ (t = "InstalledBy=Helm" ∧ extension = false).
Proof. destruct extension; naive_solver. Qed.

Lemma match_is_Some {A} (o : option A) :
  match o with Some _ => true | None => false end = true ↔ is_Some o.
Proof. destruct o; naive_solver. Qed.

(** The service reads from a request what the client meant: split at the
    commas, the one value of the correlation header is a list of tags, and the
    tags are exactly these, each there for exactly this reason. *)
Theorem createCorrelationContextHeader_tags `{Unicode} tracing extension spec f :
  ∃ value,
    createCorrelationContextHeader tracing extension spec f = {[CorrelationContext := [value]]}
    ∧ ∀ tag, tag ∈ Strings.Split value "," ↔
        tag = "Host=Kubernetes"
        ∨ (tag = "RequestType=StartUp" ∧ tracing = Some true)
        ∨ (tag = "RequestType=Watch" ∧ tracing = Some false)
        ∨ (tag = "UsesKeyVault" ∧ is_Some spec.(Spec.Secret))
        ∨ (tag = "RefreshesKeyVault" ∧ refreshes_key_vault spec = true)
        ∨ (tag = "UsesFeatureFlag" ∧ is_Some spec.(Spec.FeatureFlag))
        ∨ (tag = "ReplicaCount=" +:+ Strconv.Itoa f.(TracingFeatures.ReplicaCount)
           ∧ spec.(Spec.ReplicaDiscoveryEnabled) = true)
        ∨ (tag = "FailoverRequest" ∧ spec.(Spec.ReplicaDiscoveryEnabled) = true
           ∧ f.(TracingFeatures.IsFailoverRequest) = true)
        ∨ (tag = "Features=" +:+ Strings.Join (tracing_features spec f) TracingFeatureDelimiterKey
           ∧ tracing_features spec f ≠ [])
        ∨ (tag = "InstalledBy=Extension" ∧ extension = true)
        ∨ (tag = "InstalledBy=Helm" ∧ extension = false).
Proof.
  exists (Strings.Join (correlation_tags tracing extension spec f) ","). split; [done|].
  intros tag. change "," with (char_string comma_byte).
  rewrite Split_Join_char by (done || apply correlation_tags_comma).
  unfold correlation_tags.
  rewrite !elem_of_app, elem_of_request_tags, elem_of_secret_tags, elem_of_opt_tag,
    elem_of_replica_tags, elem_of_feature_tags, !list_elem_of_singleton, elem_of_installed,
    match_is_Some.
  tauto.
Qed.
