(* ===== verification/Backoff.v ===== *)
(** Back-off of a failing client: [calculateBackoffDuration] and [Jitter] of
    [internal/loader/configuration_client_manager.go].

    The computation in milliseconds is exact in [float64] (small multiples of
    powers of two), so it is written on integers.  [Jitter] rounds: its
    operations are followed by the rounding [round64] of Float.v, of which the
    proofs use monotonicity and exactness on quarters of integers. *)

From S2P Require Import Prelude Float.
From Stdlib Require Import QArith Lqa.
#[local] Close Scope Q_scope.

Definition MaxBackoffDuration : Time.duration := (10 * Time.Minute)%Z.
Definition MinBackoffDuration : Time.duration := (30 * Time.Second)%Z.
Definition SafeShiftLimit : Z := 63.

Definition Milliseconds (d : Time.duration) : Z := Z.quot d Time.Millisecond.

(** [r] is the value of [rand.Float64()]. *)
Definition Jitter (r : Q) (duration : Time.duration) : Time.duration :=
  let jitter := round64 (round64 (inject_Z duration) * (1 # 4)) in
  let randomJitter := round64 (round64 (r * round64 (2 * jitter)) - jitter) in
  wrap64 (duration + Qtruncate randomJitter).

Definition calculateBackoffDuration (r : Q) (failedAttempts : Z) : Time.duration :=
  if (failedAttempts <=? 1)%Z then MinBackoffDuration else
  let calculatedMilliseconds :=
    ((1 `max` Milliseconds MinBackoffDuration)
     * 2 ^ ((failedAttempts - 1) `min` SafeShiftLimit))%Z in
  let calculatedMilliseconds :=
    if ((Milliseconds MaxBackoffDuration <? calculatedMilliseconds)
        || (calculatedMilliseconds <=? 0))%Z
    then Milliseconds MaxBackoffDuration else calculatedMilliseconds in
  Jitter r (wrap64 (calculatedMilliseconds * Time.Millisecond)).

(** The duration before the jitter. *)
Definition base_backoff (n : Z) : Time.duration :=
  if (n <=? 1)%Z then MinBackoffDuration
  else ((MinBackoffDuration * 2 ^ ((n - 1) `min` SafeShiftLimit)) `min` MaxBackoffDuration)%Z.

Lemma Qtruncate_bounds (q : Q) (a b : Z) :
  (a <= 0 <= b)%Z → (inject_Z a <= q <= inject_Z b)%Q → (a <= Qtruncate q <= b)%Z.
Proof.
  intros Hab [Ha Hb]. destruct q as [n d]. unfold Qle, inject_Z, Qtruncate in *. simpl in *.
  rewrite Z.mul_1_r in *. pose proof (Z.quot_rem' n (Zpos d)).
  pose proof (Z.rem_bound_abs n (Zpos d) ltac:(lia)).
  destruct (Z.lt_trichotomy n 0) as [?|[->|?]].
  - pose proof (Z.rem_nonpos n (Zpos d) ltac:(lia) ltac:(lia)). nia.
  - rewrite Z.quot_0_l by lia. lia.
  - pose proof (Z.rem_nonneg n (Zpos d) ltac:(lia) ltac:(lia)). nia.
Qed.


Lemma round64_quarters q z : (q == z # 4)%Q → (Z.abs z ≤ 2 ^ 53)%Z → (round64 q == z # 4)%Q.
Proof. intros Hq Hz. rewrite Hq. by apply round64_quarter. Qed.

(** The jitter stays within a quarter of the duration. *)
Lemma Jitter_bounds r d :
  (0 <= r < 1)%Q → (0 ≤ d ≤ 2 ^ 50)%Z → (d `mod` 4 = 0)%Z →
  (d - d / 4 ≤ Jitter r d ≤ d + d / 4)%Z.
Proof.
  intros [Hr0 Hr1] Hd Hm. unfold Jitter.
  set (j := (d / 4)%Z). assert (d = 4 * j)%Z as Hdj
    by (unfold j; pose proof (Z.div_mod d 4 ltac:(lia)); lia).
  assert (round64 (inject_Z d) == inject_Z d)%Q as H1.
  { rewrite (round64_quarters _ (4 * d)%Z); [unfold Qeq; simpl; lia|unfold Qeq; simpl; lia|lia]. }
  assert (round64 (round64 (inject_Z d) * (1 # 4)) == inject_Z j)%Q as H2.
  { rewrite (round64_quarters _ d); [unfold Qeq; simpl; lia| |lia].
    rewrite H1. unfold Qeq. simpl. lia. }
  set (jit := round64 (round64 (inject_Z d) * (1 # 4))) in *.
  assert (round64 (2 * jit) == inject_Z (2 * j))%Q as H3.
  { rewrite (round64_quarters _ (8 * j)%Z); [unfold Qeq; simpl; lia| |lia].
    rewrite H2. unfold Qeq. simpl. lia. }
  set (twice := round64 (2 * jit)) in *.
  assert (0 <= round64 (r * twice) <= inject_Z (2 * j))%Q as [H4 H5].
  { assert (round64 0 == 0)%Q as Hz.
    { rewrite (round64_quarters _ 0); [reflexivity|reflexivity|lia]. }
    assert (0 <= inject_Z (2 * j))%Q by (unfold Qle; simpl; lia).
    split.
    - rewrite <-Hz. apply round64_mono. rewrite H3. by apply Qmult_le_0_compat.
    - assert (round64 (inject_Z (2 * j)) == inject_Z (2 * j))%Q as H6.
      { rewrite (round64_quarters _ (8 * j)%Z);
          [unfold Qeq; simpl; lia|unfold Qeq; simpl; lia|lia]. }
      apply Qle_trans with (round64 (inject_Z (2 * j)));
        [apply round64_mono; rewrite H3; nra|rewrite H6; apply Qle_refl]. }
  set (x := round64 (r * twice)) in *.
  assert (∀ z, (Z.abs z ≤ 2 ^ 50)%Z → round64 (inject_Z z) == inject_Z z)%Q as Hint.
  { intros z Hz. rewrite (round64_quarters _ (4 * z)%Z);
      [unfold Qeq; simpl; lia|unfold Qeq; simpl; lia|lia]. }
  assert (inject_Z (- j) <= round64 (x - jit) <= inject_Z j)%Q as Hb.
  { assert (inject_Z (2 * j) == 2 * inject_Z j)%Q as Hj2
      by (unfold Qeq; simpl; lia).
    assert (inject_Z (- j) == - inject_Z j)%Q as Hjn by (unfold Qeq; simpl; lia).
    split.
    - apply Qle_trans with (round64 (inject_Z (- j)));
        [rewrite Hint by lia; apply Qle_refl|].
      apply round64_mono. rewrite H2, Hjn. lra.
    - apply Qle_trans with (round64 (inject_Z j));
        [|rewrite Hint by lia; apply Qle_refl].
      apply round64_mono. rewrite H2. rewrite Hj2 in H5. lra. }
  apply Qtruncate_bounds in Hb; [|lia].
  rewrite wrap64_id; [lia|unfold min_int64, max_int64; lia].
Qed.

Lemma pow_large n : (5 ≤ n)%Z → (32 ≤ 2 ^ n)%Z.
Proof. intros. change 32%Z with (2 ^ 5)%Z. apply Z.pow_le_mono_r; lia. Qed.

(** The code's computation in milliseconds is the base back-off. *)
Lemma calculate_base r n :
  (1 < n)%Z → calculateBackoffDuration r n = Jitter r (base_backoff n).
Proof.
  intros Hn. unfold calculateBackoffDuration, base_backoff.
  destruct (n <=? 1)%Z eqn:Hle; [lia|]. f_equal.
  unfold Milliseconds, MinBackoffDuration, MaxBackoffDuration, SafeShiftLimit.
  change (Z.quot (30 * Time.Second) Time.Millisecond) with 30000%Z.
  change (Z.quot (10 * Time.Minute) Time.Millisecond) with 600000%Z.
  unfold Time.Minute, Time.Second, Time.Millisecond.
  change (1 `max` 30000)%Z with 30000%Z.
  destruct (decide (n ≤ 5)%Z) as [Hn5|Hn5].
  - assert (n = 2 ∨ n = 3 ∨ n = 4 ∨ n = 5)%Z as Hc by lia.
    by destruct Hc as [->|[->|[->| ->]]].
  - assert (32 ≤ 2 ^ ((n - 1) `min` 63))%Z as Hp by (apply pow_large; lia).
    set (p := (2 ^ _)%Z) in *. destruct (600000 <? 30000 * p)%Z eqn:H6; [|lia].
    simpl. rewrite wrap64_id by (unfold min_int64, max_int64; lia). lia.
Qed.

Lemma base_backoff_range n :
  (MinBackoffDuration ≤ base_backoff n ≤ MaxBackoffDuration)%Z.
Proof.
  unfold base_backoff, MinBackoffDuration, MaxBackoffDuration, Time.Minute, Time.Second,
    Time.Millisecond, SafeShiftLimit.
  destruct (n <=? 1)%Z eqn:Hle; [lia|].
  assert (1 ≤ 2 ^ ((n - 1) `min` 63))%Z by (apply (Z.pow_le_mono_r 2 0); lia). lia.
Qed.

Lemma base_backoff_mod4 n : (base_backoff n `mod` 4 = 0)%Z.
Proof.
  unfold base_backoff, MinBackoffDuration, MaxBackoffDuration, Time.Minute, Time.Second,
    Time.Millisecond.
  destruct (n <=? 1)%Z; [done|]. destruct (Z.min_spec
    (30 * (1000 * 1000000) * 2 ^ ((n - 1) `min` SafeShiftLimit))
    (10 * (60 * (1000 * 1000000))))%Z as [[_ ->]|[_ ->]]; [|done].
  rewrite Z.mul_comm, Z.mul_mod, Z.mul_0_r by lia. done.
Qed.

Lemma backoff_bounds r n :
  (0 <= r < 1)%Q →
  let d := calculateBackoffDuration r n in
  let b := base_backoff n in
  (b - b / 4 ≤ d ≤ b + b / 4
   ∧ MinBackoffDuration ≤ d ≤ MaxBackoffDuration + MaxBackoffDuration / 4)%Z
  ∧ ((n ≤ 1)%Z → d = MinBackoffDuration).
Proof.
  intros Hr. cbv zeta. pose proof (base_backoff_range n) as Hb.
  assert (MaxBackoffDuration < 2 ^ 50)%Z by done.
  assert (MinBackoffDuration = 30000000000)%Z as Hmin by done.
  assert (MaxBackoffDuration = 600000000000)%Z as Hmax by done.
  destruct (decide (n ≤ 1)%Z) as [Hn|Hn].
  - unfold calculateBackoffDuration, base_backoff.
    rewrite (proj2 (Z.leb_le n 1) Hn). repeat split; try done.
  - rewrite calculate_base by lia. split; [|lia].
    pose proof (Jitter_bounds r (base_backoff n) Hr ltac:(lia) (base_backoff_mod4 n)) as Hj.
    assert (2 * MinBackoffDuration ≤ base_backoff n)%Z.
    { unfold base_backoff. destruct (n <=? 1)%Z eqn:?; [lia|].
      assert (2 ≤ 2 ^ ((n - 1) `min` SafeShiftLimit))%Z
        by (apply (Z.pow_le_mono_r 2 1); unfold SafeShiftLimit; lia). lia. }
    pose proof (Z.div_mod (base_backoff n) 4 ltac:(lia)).
    pose proof (Z.mod_pos_bound (base_backoff n) 4 ltac:(lia)).
    split; [done|]. rewrite Hmax. change (600000000000 / 4)%Z with 150000000000%Z. lia.
Qed.

Lemma calculateBackoffDuration_range r n :
  (0 <= r < 1)%Q →
  (MinBackoffDuration ≤ calculateBackoffDuration r n
   ≤ MaxBackoffDuration + MaxBackoffDuration / 4)%Z.
Proof. intros Hr. apply (backoff_bounds r n Hr). Qed.

(** C28: A client that has failed [n] times in a row is left alone for the
    base back-off of [n] failures, within a quarter of it: 30 seconds doubled
    at each failure, at most ten minutes, exactly 30 seconds the first
    time.  Whatever the number of failures, it is between 30 seconds and
    twelve and a half minutes, and it never overflows. *)
Theorem calculateBackoffDuration_bounds r n :
  (0 <= r < 1)%Q →
  let d := calculateBackoffDuration r n in
  let b := base_backoff n in
  (b - b / 4 ≤ d ≤ b + b / 4
   ∧ MinBackoffDuration ≤ d ≤ MaxBackoffDuration + MaxBackoffDuration / 4)%Z
  ∧ ((n ≤ 1)%Z → d = MinBackoffDuration).
Proof. apply backoff_bounds. Qed.

Lemma calculateBackoffDuration_bounds_witness :
  let d := calculateBackoffDuration (1 # 3) 4 in
  let b := base_backoff 4 in
  (b - b / 4 ≤ d ≤ b + b / 4
   ∧ MinBackoffDuration ≤ d ≤ MaxBackoffDuration + MaxBackoffDuration / 4)%Z
  ∧ ((4 ≤ 1)%Z → d = MinBackoffDuration).
Proof.
  apply (calculateBackoffDuration_bounds (1 # 3) 4).
  unfold Qle, Qlt. simpl. lia.
Defined.
