(* ===== verification/Clients.v ===== *)
(** The client manager: [internal/loader/configuration_client_manager.go].

    The client wrappers are shared by pointer between the manager and the lists
    it returns, and updated in place, so they live in a heap: a pointer is an
    index of it.  Every method is a state transformer on the manager and its
    heap; the clock, the random numbers and the DNS are arguments.

    The theorems: a client in back-off is never returned, the replicas are
    looked up at most every 30 seconds and, while the list is fresh, every
    hour, and the replica list holds only trusted hosts other than the store's
    own. *)

From S2P Require Import Prelude GoStrings Errors Api Url ConnString Backoff.
From Stdlib Require Import QArith.
#[local] Close Scope Q_scope.

Definition FallbackClientRefreshExpireInterval : Time.duration := Time.Hour.
Definition MinimalClientRefreshInterval : Time.duration := (30 * Time.Second)%Z.

(** ** The outside world *)

(** [azappconfig.ClientOptions]: the parts that the program sets. *)
Module ClientOptions.
Record t := mk { ApplicationID : string; Audience : option string }.
End ClientOptions.

(** The App Configuration SDK: its clients and its constructors; and what the
    process is given: the variable [AZURE_APPCONFIGURATION_AUDIENCE] and the
    version set by the linker. *)
Class SDK := {
  client : Type;
  credential : Type;
  NewClient : string → option credential → ClientOptions.t → result client;
  NewClientFromConnectionString : string → ClientOptions.t → result client;
  audience_env : option string;
  ModuleVersion : string;
}.

Definition ModuleName : string := "azcfg-k8s".

(** An empty audience counts as none. *)
Definition newClientOptions `{SDK} : ClientOptions.t := {|
  ClientOptions.ApplicationID := ModuleName +:+ "/" +:+ ModuleVersion;
  ClientOptions.Audience :=
    match audience_env with
    | Some audience => if String.eqb audience EmptyString then None else Some audience
    | None => None
    end;
|}.

(** [net.DefaultResolver.LookupSRV] over TCP: the targets of the records. *)
Inductive dns_answer : Type :=
  | Records (targets : list string)
  | DNSNotFound
  | DNSError (err : error).
Class Resolver := LookupSRV : string → string → dns_answer.

(** ** State *)

Module Wrapper.  (** [ConfigurationClientWrapper] *)
Record t `{SDK} := mk {
  Endpoint : string;
  Client : client;
  BackOffEndTime : Time.time;
  FailedAttempts : Z;
}.
#[global] Instance eta_wrapper `{SDK} : Eta t := λ w,
  mk _ (Endpoint w) (Client w) (BackOffEndTime w) (FailedAttempts w).
(** The wrapper of a client just built. *)
Definition fresh `{SDK} (endpoint : string) (c : client) : t := mk _ endpoint c Time.zero 0.
End Wrapper.

Notation loc := nat.

Module Manager.  (** [ConfigurationClientManager] *)
Record t `{SDK} := mk {
  ReplicaDiscoveryEnabled : bool;
  LoadBalancingEnabled : bool;
  StaticClientWrappers : list loc;
  DynamicClientWrappers : option (list loc);
  validDomain : string;
  endpoint : string;
  credential_ : option credential;
  secret : string;
  id : string;
  lastFallbackClientAttempt : Time.time;
  lastFallbackClientRefresh : Time.time;
  lastSuccessfulEndpoint : string;
}.
#[global] Instance eta_manager `{SDK} : Eta t := λ m,
  mk _ (ReplicaDiscoveryEnabled m) (LoadBalancingEnabled m) (StaticClientWrappers m)
     (DynamicClientWrappers m) (validDomain m) (endpoint m) (credential_ m) (secret m)
     (id m) (lastFallbackClientAttempt m) (lastFallbackClientRefresh m)
     (lastSuccessfulEndpoint m).
Definition dynamic `{SDK} (m : t) : list loc := default [] (DynamicClientWrappers m).
End Manager.

Module Clients.
Record t `{SDK} := mk { manager : Manager.t; heap : list Wrapper.t }.
#[global] Instance eta_clients `{SDK} : Eta t := λ s, mk _ (manager s) (heap s).
Definition set_manager `{SDK} (f : Manager.t → Manager.t) (s : t) : t :=
  mk _ (f (manager s)) (heap s).
(** The endpoint behind a pointer. *)
Definition endpoint_of `{SDK} (s : t) (l : loc) : option string :=
  Wrapper.Endpoint <$> heap s !! l.
End Clients.

(** What a lookup of the replicas depends on: how many lookups of alternates
    the ten seconds allow ([None]: not even the first one), the numbers
    [rand.Intn] draws, and the time at the end. *)
Module Lookup.
Record t := mk { deadline : option nat; intn : nat → nat; finished : Time.time }.
End Lookup.

(** ** Back-off of a wrapper *)

Section wrappers.
Context `{SDK}.

Definition updateClientBackoffStatus (now : Time.time) (r : Q) (w : Wrapper.t)
    (successful : bool) : Wrapper.t :=
  if successful then
    let w := w <| Wrapper.BackOffEndTime := Time.zero |> in
    let w := if (0 <? w.(Wrapper.FailedAttempts))%Z
             then w <| Wrapper.FailedAttempts := 0%Z |> else w in
    w <| Wrapper.FailedAttempts := wrap64 (w.(Wrapper.FailedAttempts) - 1) |>
  else
    let w := if (w.(Wrapper.FailedAttempts) <? 0)%Z
             then w <| Wrapper.FailedAttempts := 0%Z |> else w in
    let w := w <| Wrapper.FailedAttempts := wrap64 (w.(Wrapper.FailedAttempts) + 1) |> in
    w <| Wrapper.BackOffEndTime :=
           Time.Add now (calculateBackoffDuration r w.(Wrapper.FailedAttempts)) |>.
End wrappers.

(** ** Replicas *)

Section dns.
Context `{Resolver}.

(** The loop over [_alt0], [_alt1], ...; [None] when the deadline passes. *)
Fixpoint alt_loop (fuel index : nat) (originHost : string) (results : list string)
    : option (result (list string)) :=
  match fuel with
  | O => None
  | S fuel' =>
    match LookupSRV ("alt" +:+ Strconv.Itoa index) originHost with
    | DNSNotFound => Some (Ok results)
    | DNSError err => Some (Err err)
    | Records targets =>
      let hosts := (λ t, Strings.TrimSuffix t ".") <$> targets in
      alt_loop fuel' (index + 1) originHost
        (results ++ filter (λ h, h ≠ EmptyString) hosts)
    end
  end.

Definition QuerySrvTargetHost (fuel : nat) (host : string)
    : option (result (list string)) :=
  match LookupSRV "origin" host with
  | DNSNotFound => Some (Ok [])
  | DNSError err => Some (Err err)
  | Records [] => Some (Ok [])
  | Records (target :: _) =>
    let originHost := Strings.TrimSuffix target "." in
    alt_loop fuel 0 originHost [originHost]
  end.
End dns.

(** [for i := range hosts { j := rand.Intn(i+1); swap }]; [rand.Intn(n)] is
    below [n]. *)
Fixpoint shuffle_loop {E} (intn : nat → nat) (rounds i : nat) (hosts : list string)
    : outcome E (list string) :=
  match rounds with
  | O => Ok hosts
  | S rounds' =>
    hosts' ← Slice.swap hosts i (intn i `mod` (i + 1));
    shuffle_loop intn rounds' (i + 1) hosts'
  end.

Section manager.
Context `{Unicode} `{IPLiterals} `{SDK} `{Resolver}.

Definition newConfigurationClient (m : Manager.t) (endpoint : string) : result client :=
  match m.(Manager.credential_) with
  | Some cred => NewClient endpoint (Some cred) newClientOptions
  | None =>
    let connectionStr := buildConnectionString endpoint m.(Manager.secret) m.(Manager.id) in
    if String.eqb connectionStr EmptyString
    then Err (Errorf "failed to build connection string for fallback client")
    else NewClientFromConnectionString connectionStr newClientOptions
  end.

(** The loop that builds the fallback clients; an error abandons them all. *)
Fixpoint build_fallbacks (m : Manager.t) (hosts : list string) : result (list Wrapper.t) :=
  match hosts with
  | [] => Ok []
  | host :: hosts' =>
    if isValidEndpoint host m.(Manager.validDomain) then
      let targetEndpoint := "https://" +:+ host in
      if Strings.EqualFold targetEndpoint m.(Manager.endpoint)
      then build_fallbacks m hosts'
      else
        c ← newConfigurationClient m targetEndpoint;
        ws ← build_fallbacks m hosts';
        Ok (Wrapper.fresh targetEndpoint c :: ws)
    else build_fallbacks m hosts'
  end.

(** The wrappers built are allocated and become the dynamic clients. *)
Definition install_fallbacks (finished : Time.time) (ws : list Wrapper.t)
    (s : Clients.t) : Clients.t :=
  {| Clients.manager :=
       s.(Clients.manager)
         <| Manager.DynamicClientWrappers :=
              Some (seq (length s.(Clients.heap)) (length ws)) |>
         <| Manager.lastFallbackClientRefresh := finished |>;
     Clients.heap := s.(Clients.heap) ++ ws |}.

Definition DiscoverFallbackClients (lk : Lookup.t) (host : string) : goM Clients.t error () :=
  λ s,
    match lk.(Lookup.deadline) with
    | None => (Ok (), s)
    | Some fuel =>
      match QuerySrvTargetHost fuel host with
      | Some (Ok srvTargetHosts) =>
        match shuffle_loop lk.(Lookup.intn) (length srvTargetHosts) 0 srvTargetHosts with
        | Ok hosts =>
          match build_fallbacks s.(Clients.manager) hosts with
          | Ok ws => (Ok (), install_fallbacks lk.(Lookup.finished) ws s)
          | Err _ => (Ok (), s)
          | Panic => (Panic, s)
          end
        | Err err => (Err err, s)
        | Panic => (Panic, s)
        end
      | Some Panic => (Panic, s)
      | Some (Err _) | None => (Ok (), s)
      end
    end.

(** [url, _ := url.Parse(endpoint)], whose [Host] is read. *)
Definition discover (now : Time.time) (lk : Lookup.t) : goM Clients.t error () :=
  _ ← modify (Clients.set_manager
                (set (p:=Manager.lastFallbackClientAttempt) (λ _, now)));
  s ← get;
  url ← lift (deref (url_parse s.(Clients.manager).(Manager.endpoint)));
  DiscoverFallbackClients lk url.(URL.Host).

(** The wrappers of a list whose back-off is over. *)
Fixpoint ready (now : Time.time) (heap : list Wrapper.t) (wrappers : list loc)
    : result (list loc) :=
  match wrappers with
  | [] => Ok []
  | l :: wrappers' =>
    w ← deref (heap !! l);
    rest ← ready now heap wrappers';
    Ok (if Time.After now w.(Wrapper.BackOffEndTime) then l :: rest else rest)
  end.

Definition attempt_due (now : Time.time) (m : Manager.t) : bool :=
  Time.After now (Time.Add m.(Manager.lastFallbackClientAttempt)
                   MinimalClientRefreshInterval).
Definition refresh_due (now : Time.time) (m : Manager.t) : bool :=
  match m.(Manager.DynamicClientWrappers) with
  | None => true
  | Some _ =>
    Time.After now (Time.Add m.(Manager.lastFallbackClientRefresh)
                     FallbackClientRefreshExpireInterval)
  end.

Definition GetClients (now : Time.time) (lk : Lookup.t) : goM Clients.t error (list loc) :=
  s ← get;
  clients ← lift (ready now s.(Clients.heap)
                    s.(Clients.manager).(Manager.StaticClientWrappers));
  if negb s.(Clients.manager).(Manager.ReplicaDiscoveryEnabled)
  then mret clients
  else
    _ ← (if attempt_due now s.(Clients.manager) && refresh_due now s.(Clients.manager)
         then discover now lk else mret ());
    s' ← get;
    dynamic ← lift (ready now s'.(Clients.heap) (Manager.dynamic s'.(Clients.manager)));
    mret (clients ++ dynamic).

Definition RefreshClients (now : Time.time) (lk : Lookup.t) : goM Clients.t error () :=
  s ← get;
  if s.(Clients.manager).(Manager.ReplicaDiscoveryEnabled)
     && attempt_due now s.(Clients.manager)
  then discover now lk else mret ().
End manager.

(** ** The invariant of the heap *)

(** The SDK constructors return a client or an error. *)
Class SDKOk `{SDK} : Prop := {
  NewClient_total e c o : NewClient e c o ≠ Panic;
  NewClientFromConnectionString_total s o : NewClientFromConnectionString s o ≠ Panic;
}.

Section invariants.
Context `{SDK}.

Definition wrappers (s : Clients.t) : list loc :=
  s.(Clients.manager).(Manager.StaticClientWrappers)
  ++ Manager.dynamic s.(Clients.manager).

(** Every pointer of the manager points into the heap. *)
Definition wf (s : Clients.t) : Prop :=
  Forall (λ l, l < length s.(Clients.heap)) (wrappers s).

Definition available (now : Time.time) (heap : list Wrapper.t) (l : loc) : bool :=
  match heap !! l with
  | Some w => Time.After now w.(Wrapper.BackOffEndTime)
  | None => false
  end.

Lemma ready_spec now heap ls :
  Forall (λ l, l < length heap) ls →
  ready now heap ls = Ok (List.filter (available now heap) ls).
Proof.
  induction 1 as [|l ls Hl _ IH]; [done|]. cbn [ready List.filter].
  destruct (lookup_lt_is_Some_2 heap l Hl) as [w Hw].
  assert (available now heap l = Time.After now w.(Wrapper.BackOffEndTime)) as ->
    by (unfold available; by rewrite Hw).
  rewrite Hw, IH. simpl. by case_match.
Qed.
End invariants.

(** ** Replicas: lemmas *)

Lemma swap_perm {E A} (l : list A) i j l' :
  Slice.swap (E:=E) l i j = Ok l' → l' ≡ₚ l.
Proof.
  unfold Slice.swap. destruct (l !! i) as [x|] eqn:Hi; [|done].
  destruct (l !! j) as [y|] eqn:Hj; [|done]. intros [= <-].
  by apply Permutation_insert_swap.
Qed.

Lemma swap_in_range {E A} (l : list A) i j :
  i < length l → j < length l → ∃ l', Slice.swap (E:=E) l i j = Ok l'.
Proof.
  intros [x Hx]%lookup_lt_is_Some_2 [y Hy]%lookup_lt_is_Some_2.
  unfold Slice.swap. rewrite Hx, Hy. eauto.
Qed.

(** The shuffle never indexes out of range, and keeps every host. *)
Lemma shuffle_loop_perm {E} intn rounds i hosts :
  i + rounds ≤ length hosts →
  ∃ hosts', shuffle_loop (E:=E) intn rounds i hosts = Ok hosts' ∧ hosts' ≡ₚ hosts.
Proof.
  revert i hosts. induction rounds as [|rounds IH]; intros i hosts Hi; [by exists hosts|].
  assert (intn i `mod` (i + 1) < i + 1) by (apply Nat.mod_upper_bound; lia).
  destruct (swap_in_range (E:=E) hosts i (intn i `mod` (i + 1))) as [l Hl]; [lia..|].
  cbn [shuffle_loop]. rewrite Hl. cbn [mbind outcome_bind].
  apply swap_perm in Hl. destruct (IH (i + 1) l) as (l' & -> & Hl').
  { rewrite Hl. lia. }
  exists l'. split; [done|]. by rewrite Hl'.
Qed.

Section dns_lemmas.
Context `{Resolver}.

Definition alt_hosts (targets : list string) : list string :=
  filter (λ h, h ≠ EmptyString) ((λ t, Strings.TrimSuffix t ".") <$> targets).

(** [n] lookups of alternates answer [ts], the next one finds no name. *)
Inductive alternates (originHost : string) : nat → list (list string) → Prop :=
  | alternates_end i :
    LookupSRV ("alt" +:+ Strconv.Itoa i) originHost = DNSNotFound →
    alternates originHost i []
  | alternates_next i targets ts :
    LookupSRV ("alt" +:+ Strconv.Itoa i) originHost = Records targets →
    alternates originHost (S i) ts → alternates originHost i (targets :: ts).

Lemma alt_loop_spec originHost i ts :
  alternates originHost i ts → ∀ fuel results, length ts < fuel →
  alt_loop fuel i originHost results = Some (Ok (results ++ (ts ≫= alt_hosts))).
Proof.
  induction 1 as [i Hn|i targets ts Hr _ IH]; intros fuel results Hf;
    (destruct fuel as [|fuel]; [simpl in Hf; lia|]); cbn [alt_loop].
  - rewrite Hn. simpl. by rewrite app_nil_r.
  - rewrite Hr. simpl in Hf. rewrite Nat.add_1_r, IH by lia.
    rewrite <-app_assoc. done.
Qed.

Lemma alt_loop_no_panic fuel i originHost results :
  alt_loop fuel i originHost results ≠ Some Panic.
Proof.
  revert i results. induction fuel as [|fuel IH]; intros i results; [done|].
  cbn [alt_loop]. destruct (LookupSRV _ _); [apply IH|done|done].
Qed.

Lemma QuerySrvTargetHost_no_panic fuel host : QuerySrvTargetHost fuel host ≠ Some Panic.
Proof.
  unfold QuerySrvTargetHost. destruct (LookupSRV _ _) as [[|t ts]| |]; try done.
  apply alt_loop_no_panic.
Qed.

(** The lookup of an alternate that ends the loop: no such name, or an error. *)
Definition ends_lookup (a : dns_answer) : Prop := ∀ targets, a ≠ Records targets.

(** The loop ends within [fuel] lookups. *)
Definition lookup_ends (fuel : nat) (host : string) : Prop :=
  match LookupSRV "origin" host with
  | Records (target :: _) =>
    ∃ i, i < fuel
      ∧ ends_lookup (LookupSRV ("alt" +:+ Strconv.Itoa i) (Strings.TrimSuffix target "."))
  | _ => True
  end.

Lemma alt_loop_ends fuel i originHost results :
  is_Some (alt_loop fuel i originHost results) ↔
  ∃ j, j < fuel ∧ ends_lookup (LookupSRV ("alt" +:+ Strconv.Itoa (i + j)) originHost).
Proof.
  revert i results. induction fuel as [|fuel IH]; intros i results; cbn [alt_loop].
  { split; [by intros []|intros (? & ? & _); lia]. }
  destruct (LookupSRV ("alt" +:+ Strconv.Itoa i) originHost) as [targets| |err] eqn:Hi.
  - rewrite IH. split.
    + intros (j & Hj & He). exists (S j). split; [lia|].
      by rewrite <-Nat.add_1_l, Nat.add_assoc.
    + intros ([|j] & Hj & He); [rewrite Nat.add_0_r, Hi in He; by destruct (He targets)|].
      exists j. split; [lia|]. by rewrite <-Nat.add_assoc, Nat.add_1_l.
  - split; [|by eexists]. intros _. exists 0. split; [lia|]. by rewrite Nat.add_0_r, Hi.
  - split; [|by eexists]. intros _. exists 0. split; [lia|]. by rewrite Nat.add_0_r, Hi.
Qed.

Lemma alt_loop_more fuel fuel' i originHost results r :
  fuel ≤ fuel' → alt_loop fuel i originHost results = Some r →
  alt_loop fuel' i originHost results = Some r.
Proof.
  revert fuel' i results. induction fuel as [|fuel IH]; intros fuel' i results Hf; [done|].
  destruct fuel' as [|fuel']; [lia|]. cbn [alt_loop].
  destruct (LookupSRV _ _); [apply IH; lia|done|done].
Qed.

(** C25: The lookup of the replicas ends before its deadline exactly when some
    alternate [_alt<i>] among those it has time to ask does not exist or
    fails; a DNS that answers every alternate keeps it busy until the deadline,
    whatever it is.  A lookup that ended gives the same hosts under any later
    deadline. *)
Theorem QuerySrvTargetHost_terminates fuel host :
  (is_Some (QuerySrvTargetHost fuel host) ↔ lookup_ends fuel host)
  ∧ ∀ fuel' r, fuel ≤ fuel' → QuerySrvTargetHost fuel host = Some r →
      QuerySrvTargetHost fuel' host = Some r.
Proof.
  unfold QuerySrvTargetHost, lookup_ends.
  destruct (LookupSRV "origin" host) as [[|target targets]| |err];
    [split; [split; [done|by eexists]|by intros ? ?]| |split; [split; [done|by eexists]|by intros ? ?]..].
  cbv zeta. split; [apply alt_loop_ends|]. intros fuel' r. apply alt_loop_more.
Qed.
End dns_lemmas.

Section manager_lemmas.
Context `{Unicode} `{IPLiterals} `{SDKOk} `{Resolver}.

(** The hosts that become replicas, and their endpoints. *)
Definition is_replica (m : Manager.t) (host : string) : bool :=
  isValidEndpoint host m.(Manager.validDomain)
  && negb (Strings.EqualFold ("https://" +:+ host) m.(Manager.endpoint)).

Definition replica_endpoints (m : Manager.t) (hosts : list string) : list string :=
  (λ h, "https://" +:+ h) <$> List.filter (is_replica m) hosts.

Lemma newConfigurationClient_total m e : newConfigurationClient m e ≠ Panic.
Proof.
  unfold newConfigurationClient. destruct (Manager.credential_ m).
  - apply NewClient_total.
  - destruct (String.eqb _ _); [done|]. apply NewClientFromConnectionString_total.
Qed.

Lemma build_fallbacks_total m hosts : build_fallbacks m hosts ≠ Panic.
Proof.
  induction hosts as [|host hosts IH]; [done|]. cbn [build_fallbacks].
  destruct (isValidEndpoint _ _); [|done]. destruct (Strings.EqualFold _ _); [done|].
  pose proof (newConfigurationClient_total m ("https://" +:+ host)) as Hc.
  destruct (newConfigurationClient _ _); [|done|done].
  destruct (build_fallbacks m hosts); done.
Qed.

Lemma build_fallbacks_endpoints m hosts ws :
  build_fallbacks m hosts = Ok ws →
  Wrapper.Endpoint <$> ws = replica_endpoints m hosts
  ∧ Forall (λ w, w.(Wrapper.BackOffEndTime) = Time.zero
                 ∧ w.(Wrapper.FailedAttempts) = 0%Z) ws.
Proof.
  unfold replica_endpoints. revert ws.
  induction hosts as [|host hosts IH]; intros ws; cbn [build_fallbacks].
  { intros [= <-]. by split. }
  cbn [List.filter]. change (is_replica m host)
    with (isValidEndpoint host m.(Manager.validDomain)
          && negb (Strings.EqualFold ("https://" +:+ host) m.(Manager.endpoint))).
  destruct (isValidEndpoint _ _); [|apply IH].
  destruct (Strings.EqualFold _ _); [apply IH|]. cbn [negb andb].
  intros Hb. go_inv Hb. simplify_eq. destruct (IH _ ltac:(eassumption)) as [Heq ?].
  split; [by rewrite !fmap_cons, Heq|by constructor].
Qed.

(** Discovery is total, and changes nothing but the dynamic clients and the
    time of their refresh. *)
Lemma DiscoverFallbackClients_spec lk host s :
  ∃ s', DiscoverFallbackClients lk host s = (Ok (), s') ∧
    (s' = s ∨
     ∃ fuel hosts hosts' ws,
       lk.(Lookup.deadline) = Some fuel ∧
       QuerySrvTargetHost fuel host = Some (Ok hosts) ∧ hosts' ≡ₚ hosts ∧
       build_fallbacks s.(Clients.manager) hosts' = Ok ws ∧
       s' = install_fallbacks lk.(Lookup.finished) ws s).
Proof.
  unfold DiscoverFallbackClients. destruct (Lookup.deadline lk) as [fuel|]; [|eauto].
  pose proof (QuerySrvTargetHost_no_panic fuel host) as Hq.
  destruct (QuerySrvTargetHost fuel host) as [[hosts| |]|] eqn:Hhosts; eauto; [|done].
  destruct (shuffle_loop_perm (E:=error) (Lookup.intn lk) (length hosts) 0 hosts)
    as (hosts' & -> & Hperm); [lia|].
  pose proof (build_fallbacks_total s.(Clients.manager) hosts').
  destruct (build_fallbacks _ hosts') as [ws| |] eqn:Hb; eauto; [|done].
  eexists. split; [done|]. right. by exists fuel, hosts, hosts', ws.
Qed.

Lemma wrappers_install t ws s :
  wrappers (install_fallbacks t ws s)
  = s.(Clients.manager).(Manager.StaticClientWrappers)
    ++ seq (length s.(Clients.heap)) (length ws).
Proof. done. Qed.

Lemma wf_install t ws s : wf s → wf (install_fallbacks t ws s).
Proof.
  unfold wf. rewrite wrappers_install. cbn [Clients.heap install_fallbacks].
  unfold wrappers. rewrite !Forall_app, length_app. intros [Hs _]. split.
  - eapply Forall_impl; [exact Hs|]. simpl. lia.
  - apply Forall_forall. intros l Hl%elem_of_seq. lia.
Qed.
End manager_lemmas.

(** ** The invariant is kept *)

Definition attempted `{SDK} (now : Time.time) (s : Clients.t) : Clients.t :=
  Clients.set_manager (set (p:=Manager.lastFallbackClientAttempt) (λ _, now)) s.

Section good.
Context `{Unicode} `{IPLiterals} `{SDKOk} `{Resolver}.

(** Every dynamic client is a trusted host, and not the store itself. *)
Definition replicas_ok (s : Clients.t) : Prop :=
  Forall (λ l, ∃ host, Clients.endpoint_of s l = Some ("https://" +:+ host)
                       ∧ is_replica s.(Clients.manager) host = true)
    (Manager.dynamic s.(Clients.manager)).

Definition good (s : Clients.t) : Prop :=
  wf s ∧ replicas_ok s
  ∧ is_Some (url_parse s.(Clients.manager).(Manager.endpoint)).

(** What no method changes: wrappers are only added to the heap. *)
Definition same_store (s s' : Clients.t) : Prop :=
  s'.(Clients.manager).(Manager.StaticClientWrappers)
  = s.(Clients.manager).(Manager.StaticClientWrappers)
  ∧ s'.(Clients.manager).(Manager.ReplicaDiscoveryEnabled)
    = s.(Clients.manager).(Manager.ReplicaDiscoveryEnabled)
  ∧ ∃ ws, s'.(Clients.heap) = s.(Clients.heap) ++ ws.

Lemma good_attempted now s : good (attempted now s) ↔ good s.
Proof. done. Qed.

Lemma replicas_ok_install t hosts ws s :
  build_fallbacks s.(Clients.manager) hosts = Ok ws →
  replicas_ok (install_fallbacks t ws s).
Proof.
  intros [He _]%build_fallbacks_endpoints. apply Forall_forall.
  intros l [Hl1 Hl2]%elem_of_seq.
  unfold Clients.endpoint_of. cbn [Clients.heap install_fallbacks].
  rewrite lookup_app_r, <-list_lookup_fmap, He by lia.
  assert (length (replica_endpoints s.(Clients.manager) hosts) = length ws) as Hlen
    by (by rewrite <-He, length_fmap).
  destruct (lookup_lt_is_Some_2 (replica_endpoints s.(Clients.manager) hosts)
    (l - length s.(Clients.heap))) as [e Hx]; [lia|].
  rewrite Hx. unfold replica_endpoints in Hx.
  apply list_lookup_fmap_Some in Hx as (host & -> & Hin%list_elem_of_lookup_2).
  exists host. split; [done|].
  apply list_elem_of_In, filter_In in Hin as [_ ?]. done.
Qed.

Lemma good_install t hosts ws s :
  good s → build_fallbacks s.(Clients.manager) hosts = Ok ws →
  good (install_fallbacks t ws s).
Proof.
  intros (Hwf & _ & Hu) Hb. split; [by apply wf_install|].
  split; [by eapply replicas_ok_install|done].
Qed.

Lemma discover_good now lk s :
  good s → ∃ s', discover now lk s = (Ok (), s') ∧ good s' ∧ same_store s s'
    ∧ s'.(Clients.manager).(Manager.lastFallbackClientAttempt) = now.
Proof.
  intros Hg. destruct (Hg) as (_ & _ & [url Hu]).
  unfold discover, modify, get, lift, mbind, goM_bind. cbn.
  rewrite Hu. cbn.
  destruct (DiscoverFallbackClients_spec lk url.(URL.Host) (attempted now s))
    as (s' & Hs' & Hcase).
  exists s'. split; [exact Hs'|].
  destruct Hcase as [->|(fuel & hosts & hosts' & ws & _ & _ & _ & Hb & ->)].
  - repeat split; try apply Hg. exists []. by rewrite app_nil_r.
  - split; [by eapply good_install; [apply good_attempted|]|].
    repeat split. by exists ws.
Qed.

Lemma discover_attempt now lk s :
  (discover now lk s).2.(Clients.manager).(Manager.lastFallbackClientAttempt) = now.
Proof.
  unfold discover, modify, get, lift, mbind, goM_bind. cbn.
  destruct (url_parse _) as [url|]; [|done]. cbn.
  destruct (DiscoverFallbackClients_spec lk url.(URL.Host) (attempted now s))
    as (s' & Hs' & Hcase).
  unfold attempted, Clients.set_manager in *. rewrite Hs'. simpl.
  by destruct Hcase as [->|(? & ? & ? & ? & _ & _ & _ & _ & ->)].
Qed.

(** The condition under which a method looks the replicas up. *)
Definition gets_replicas (now : Time.time) (s : Clients.t) : bool :=
  s.(Clients.manager).(Manager.ReplicaDiscoveryEnabled)
  && (attempt_due now s.(Clients.manager) && refresh_due now s.(Clients.manager)).
Definition refreshes_replicas (now : Time.time) (s : Clients.t) : bool :=
  s.(Clients.manager).(Manager.ReplicaDiscoveryEnabled)
  && attempt_due now s.(Clients.manager).

Lemma RefreshClients_run now lk s :
  RefreshClients now lk s
  = if refreshes_replicas now s then discover now lk s else (Ok (), s).
Proof.
  unfold RefreshClients, get, mbind, goM_bind, refreshes_replicas. cbn.
  by destruct (_ && _).
Qed.

(** The part of [GetClients] that changes the state. *)
Lemma GetClients_state now lk s :
  good s →
  (GetClients now lk s).2 = if gets_replicas now s then (discover now lk s).2 else s.
Proof.
  intros Hg. destruct (Hg) as (Hwf & _ & _). unfold wf, wrappers in Hwf.
  apply Forall_app in Hwf as [Hs Hd].
  unfold GetClients, gets_replicas, get, lift, mbind, goM_bind. cbn.
  rewrite ready_spec by done.
  destruct (Manager.ReplicaDiscoveryEnabled _); [|done]. cbn.
  destruct (_ && _).
  - destruct (discover_good now lk s Hg) as (s' & Hs' & (Hwf' & _) & _). rewrite Hs'.
    unfold wf, wrappers in Hwf'. apply Forall_app in Hwf' as [_ Hd'].
    cbn. by rewrite ready_spec.
  - cbn. by rewrite ready_spec.
Qed.

Lemma GetClients_run now lk s :
  good s →
  ∃ clients s', GetClients now lk s = (Ok clients, s') ∧ good s' ∧
    clients = List.filter (available now s'.(Clients.heap))
      (s.(Clients.manager).(Manager.StaticClientWrappers)
       ++ if s.(Clients.manager).(Manager.ReplicaDiscoveryEnabled)
          then Manager.dynamic s'.(Clients.manager) else []).
Proof.
  intros Hg. destruct (Hg) as (Hwf & _ & _). unfold wf, wrappers in Hwf.
  apply Forall_app in Hwf as [Hs Hd].
  unfold GetClients, get, lift, mbind, goM_bind. cbn.
  rewrite ready_spec by done.
  destruct (Manager.ReplicaDiscoveryEnabled _); cbn.
  2:{ eexists _, s. rewrite app_nil_r. by repeat split; apply Hg. }
  destruct (_ && _).
  - destruct (discover_good now lk s Hg) as (s' & Hs' & Hg' & (Hst & _ & ws & Hws) & _). rewrite Hs'.
    pose proof (proj1 Hg') as Hwf'. unfold wf, wrappers in Hwf'. rewrite Hst in Hwf'.
    apply Forall_app in Hwf' as [Hs1 Hd1]. cbn. rewrite ready_spec by done. cbn.
    eexists _, s'. split; [done|]. split; [done|].
    rewrite List.filter_app. f_equal.
    assert (∀ l, l < length s.(Clients.heap) →
      available now s'.(Clients.heap) l = available now s.(Clients.heap) l) as Hav.
    { intros l Hl. unfold available. by rewrite Hws, lookup_app_l. }
    apply List.filter_ext_in. intros l Hl%list_elem_of_In.
    rewrite Forall_forall in Hs. symmetry. by apply Hav, Hs.
  - cbn. rewrite ready_spec by done. eexists _, s. split; [done|]. split; [done|].
    by rewrite List.filter_app.
Qed.

(** C17: [GetClients] never fails, and returns exactly the clients whose
    back-off is over: those of the store first, then, when replica discovery
    is enabled, those of the replicas known after it, each in order.  It
    keeps the invariant of the manager. *)
Theorem GetClients_ready now lk s :
  good s →
  ∃ clients s', GetClients now lk s = (Ok clients, s') ∧ good s' ∧
    clients = List.filter (available now s'.(Clients.heap))
      (s.(Clients.manager).(Manager.StaticClientWrappers)
       ++ if s.(Clients.manager).(Manager.ReplicaDiscoveryEnabled)
          then Manager.dynamic s'.(Clients.manager) else []).
Proof. apply GetClients_run. Qed.
End good.

(** ** The replicas of a lookup *)

Lemma List_filter_Permutation {A} (f : A → bool) l l' :
  l ≡ₚ l' → List.filter f l ≡ₚ List.filter f l'.
Proof.
  induction 1; simpl; [done|by case_match; [f_equiv|]| |by etrans].
  repeat case_match; try done. apply Permutation_swap.
Qed.

Section replicas.
Context `{Unicode} `{SDKOk}.

Lemma build_fallbacks_complete m hosts :
  Forall (λ e, ∀ err, newConfigurationClient m e ≠ Err err) (replica_endpoints m hosts) →
  ∃ ws, build_fallbacks m hosts = Ok ws.
Proof.
  unfold replica_endpoints. induction hosts as [|h hosts IH]; intros Hc; [by eexists|].
  cbn [build_fallbacks]. cbn [List.filter] in Hc.
  change (is_replica m h) with (isValidEndpoint h m.(Manager.validDomain)
    && negb (Strings.EqualFold ("https://" +:+ h) m.(Manager.endpoint))) in Hc.
  destruct (isValidEndpoint _ _); [|by apply IH].
  destruct (Strings.EqualFold _ _); [by apply IH|].
  apply Forall_cons in Hc as [Hh Hc]. destruct (IH Hc) as [ws Hws].
  pose proof (newConfigurationClient_total m ("https://" +:+ h)).
  destruct (newConfigurationClient _ _) as [c|err|]; [|by destruct (Hh err)|done].
  rewrite Hws. by eexists.
Qed.

(** A wrapper just built: no failure yet, for a client of its endpoint. *)
Definition new_wrapper (m : Manager.t) (w : Wrapper.t) : Prop :=
  ∃ e c, newConfigurationClient m e = Ok c ∧ w = Wrapper.fresh e c.

Lemma build_fallbacks_fresh m hosts ws :
  build_fallbacks m hosts = Ok ws → Forall (new_wrapper m) ws.
Proof.
  revert ws. induction hosts as [|host hosts IH]; intros ws; cbn [build_fallbacks];
    [by intros [= <-]|].
  destruct (isValidEndpoint _ _); [|apply IH]. destruct (Strings.EqualFold _ _); [apply IH|].
  intros (c & Hc & (ws' & Hws & [= <-])%outcome_bind_Ok)%outcome_bind_Ok.
  constructor; [by eexists _, _|by apply IH].
Qed.

(** The wrappers installed are at new places of the heap. *)
Lemma install_wrappers t ws s (P : Wrapper.t → Prop) :
  Forall P ws →
  Forall (λ l, length s.(Clients.heap) ≤ l
    ∧ ∃ w, (install_fallbacks t ws s).(Clients.heap) !! l = Some w ∧ P w)
    (seq (length s.(Clients.heap)) (length ws)).
Proof.
  intros Hws. apply Forall_forall. intros l [Hlo Hhi]%elem_of_seq. split; [done|].
  destruct (lookup_lt_is_Some_2 ws (l - length s.(Clients.heap))) as [w Hw]; [lia|].
  exists w. split; [|by eapply Forall_lookup_1].
  cbn [Clients.heap install_fallbacks]. by rewrite lookup_app_r by lia.
Qed.

Lemma install_endpoints t ws s :
  (default EmptyString ∘ Clients.endpoint_of (install_fallbacks t ws s))
    <$> seq (length s.(Clients.heap)) (length ws)
  = Wrapper.Endpoint <$> ws.
Proof.
  apply list_eq. intros i. rewrite !list_lookup_fmap.
  destruct (decide (i < length ws)) as [Hi|Hi].
  - rewrite lookup_seq_lt by done. simpl. unfold Clients.endpoint_of.
    cbn [Clients.heap install_fallbacks].
    rewrite lookup_app_r by lia. replace (_ - _) with i by lia.
    by destruct (lookup_lt_is_Some_2 ws i Hi) as [w ->].
  - by rewrite lookup_seq_ge, (lookup_ge_None_2 ws) by lia.
Qed.
End replicas.

(** ** Sequences of calls *)

Inductive call : Type :=
  | CallGet (now : Time.time) (lk : Lookup.t)
  | CallRefresh (now : Time.time) (lk : Lookup.t).

Section calls.
Context `{Unicode} `{IPLiterals} `{SDKOk} `{Resolver}.

Definition call_time (c : call) : Time.time :=
  match c with CallGet now _ | CallRefresh now _ => now end.

Definition call_step (c : call) (s : Clients.t) : Clients.t :=
  match c with
  | CallGet now lk => (GetClients now lk s).2
  | CallRefresh now lk => (RefreshClients now lk s).2
  end.

Definition call_looks_up (c : call) (s : Clients.t) : bool :=
  match c with
  | CallGet now _ => gets_replicas now s
  | CallRefresh now _ => refreshes_replicas now s
  end.

(** The times at which a sequence of calls looks the replicas up. *)
Fixpoint lookup_times (calls : list call) (s : Clients.t) : list Time.time :=
  match calls with
  | [] => []
  | c :: calls' =>
    (if call_looks_up c s then [call_time c] else [])
    ++ lookup_times calls' (call_step c s)
  end.

Lemma call_step_good c s : good s → good (call_step c s).
Proof.
  intros Hg. destruct c as [now lk|now lk]; simpl.
  - rewrite GetClients_state by done. case_match; [|done].
    destruct (discover_good now lk s Hg) as (s' & -> & ? & _). done.
  - rewrite RefreshClients_run. case_match; [|done].
    destruct (discover_good now lk s Hg) as (s' & -> & ? & _). done.
Qed.

Lemma call_step_attempt c s :
  good s →
  (call_step c s).(Clients.manager).(Manager.lastFallbackClientAttempt)
  = if call_looks_up c s then call_time c
    else s.(Clients.manager).(Manager.lastFallbackClientAttempt).
Proof.
  intros Hg. destruct c as [now lk|now lk]; simpl.
  - rewrite GetClients_state by done. case_match; [apply discover_attempt|done].
  - rewrite RefreshClients_run. case_match; [apply discover_attempt|done].
Qed.

Lemma call_looks_up_due c s :
  call_looks_up c s = true →
  (s.(Clients.manager).(Manager.lastFallbackClientAttempt) + MinimalClientRefreshInterval
   < call_time c)%Z.
Proof.
  destruct c as [now lk|now lk]; simpl; unfold gets_replicas, refreshes_replicas;
    rewrite !andb_true_iff; unfold attempt_due, Time.After, Time.Add; lia.
Qed.

Definition spaced (a b : Time.time) : Prop := (a + MinimalClientRefreshInterval < b)%Z.

Lemma lookup_times_after calls s :
  good s →
  Forall (spaced s.(Clients.manager).(Manager.lastFallbackClientAttempt))
    (lookup_times calls s)
  ∧ StronglySorted spaced (lookup_times calls s).
Proof.
  revert s. induction calls as [|c calls IH]; intros s Hg; [by split; constructor|].
  simpl. destruct (IH (call_step c s) (call_step_good c s Hg)) as [Hf Hsort].
  rewrite (call_step_attempt c s Hg) in Hf.
  destruct (call_looks_up c s) eqn:Hc; simpl; [|done].
  apply call_looks_up_due in Hc. split; [|by constructor].
  constructor; [done|]. eapply Forall_impl; [exact Hf|].
  unfold spaced, MinimalClientRefreshInterval, Time.Second, Time.Millisecond in *.
  intros t ?. lia.
Qed.

(** C24: However the manager is called, two lookups of the replicas are more
    than 30 seconds apart, and the replicas known are always trusted hosts
    other than the store's own endpoint. *)
Theorem lookups_throttled calls s :
  good s →
  StronglySorted spaced (lookup_times calls s)
  ∧ replicas_ok (foldl (λ s c, call_step c s) s calls).
Proof.
  intros Hg. split; [by apply lookup_times_after|].
  revert s Hg. induction calls as [|c calls IH]; intros s Hg; simpl; [apply Hg|].
  by apply IH, call_step_good.
Qed.

(** C32: A lookup that ends in time makes the dynamic clients of exactly the
    trusted hosts the DNS lists (the origin and every alternate, until the
    first one that does not exist), each other than the store itself, in some
    order, provided that the client of each of them can be constructed.  Their
    wrappers are new and fresh (never failed, not in back-off), each around the
    client of its endpoint; the wrappers known before stay as they are; and the
    time of the lookup is recorded.  It needs one lookup more than there are
    groups of alternates. *)
Theorem discover_replicas lk host s target targets ts fuel :
  LookupSRV "origin" host = Records (target :: targets) →
  let originHost := Strings.TrimSuffix target "." in
  let replicas := replica_endpoints s.(Clients.manager) (originHost :: (ts ≫= alt_hosts)) in
  alternates originHost 0 ts →
  lk.(Lookup.deadline) = Some fuel → length ts < fuel →
  Forall (λ e, ∀ err, newConfigurationClient s.(Clients.manager) e ≠ Err err) replicas →
  ∃ s' dynamic, DiscoverFallbackClients lk host s = (Ok (), s')
    ∧ s'.(Clients.manager).(Manager.DynamicClientWrappers) = Some dynamic
    ∧ (default EmptyString ∘ Clients.endpoint_of s') <$> dynamic ≡ₚ replicas
    ∧ NoDup dynamic
    ∧ Forall (λ l, length s.(Clients.heap) ≤ l
        ∧ ∃ w, s'.(Clients.heap) !! l = Some w ∧ new_wrapper s.(Clients.manager) w) dynamic
    ∧ s.(Clients.heap) `prefix_of` s'.(Clients.heap)
    ∧ s'.(Clients.manager).(Manager.StaticClientWrappers)
      = s.(Clients.manager).(Manager.StaticClientWrappers)
    ∧ s'.(Clients.manager).(Manager.lastFallbackClientRefresh) = lk.(Lookup.finished).
Proof.
  intros Horigin originHost replicas Halt Hdl Hfuel Hc.
  assert (QuerySrvTargetHost fuel host = Some (Ok (originHost :: (ts ≫= alt_hosts)))) as Hq.
  { unfold QuerySrvTargetHost. rewrite Horigin. fold originHost.
    by rewrite (alt_loop_spec _ _ _ Halt). }
  unfold DiscoverFallbackClients. rewrite Hdl, Hq.
  destruct (shuffle_loop_perm (E:=error) (Lookup.intn lk)
    (length (originHost :: (ts ≫= alt_hosts))) 0 (originHost :: (ts ≫= alt_hosts)))
    as (hosts & -> & Hperm); [lia|].
  assert (replica_endpoints s.(Clients.manager) hosts ≡ₚ replicas) as Hrep
    by (by apply fmap_Permutation, List_filter_Permutation).
  destruct (build_fallbacks_complete s.(Clients.manager) hosts) as [ws Hb]; [by rewrite Hrep|].
  rewrite Hb. eexists _, _. split; [done|]. split; [done|].
  rewrite install_endpoints. destruct (build_fallbacks_endpoints _ _ _ Hb) as [-> _].
  split; [done|]. split; [apply NoDup_seq|]. split; [|by split; [eexists|]].
  by eapply install_wrappers, build_fallbacks_fresh.
Qed.
End calls.

(** ** Witnesses *)

Module ClientsWitness.
#[export] Existing Instance ascii_only.
#[export] Existing Instance no_ip_literals.

Definition sdk : SDK := {|
  client := string; credential := unit;
  NewClient e _ _ := Ok e; NewClientFromConnectionString s _ := Ok s;
  audience_env := None; ModuleVersion := "develop";
|}.
#[export] Existing Instance sdk.
Lemma sdk_ok : SDKOk.
Proof. by split. Qed.
#[export] Existing Instance sdk_ok.

Definition dns : Resolver := λ service host,
  if String.eqb service "origin" then Records ["store.azconfig.io."]
  else if String.eqb service "alt0"
       then Records ["store-eu.azconfig.io."; "evil.example.com."; "."]
       else DNSNotFound.
#[export] Existing Instance dns.

Definition state : Clients.t := {|
  Clients.manager := Manager.mk _ true false [0] None ".azconfig.io"
    "https://store.azconfig.io" (Some tt) EmptyString EmptyString 0%Z 0%Z EmptyString;
  Clients.heap := [Wrapper.fresh "https://store.azconfig.io" "c0"];
|}.
Lemma state_good : good state.
Proof. split; [repeat constructor|]. split; [constructor|]. by eexists. Qed.

Definition lk : Lookup.t := Lookup.mk (Some 5) (λ _, 7) 100%Z.
Definition t0 : Time.time := (100 * Time.Second)%Z.
Definition calls : list call :=
  [CallGet t0 lk; CallRefresh (t0 + Time.Second)%Z lk; CallRefresh (t0 + Time.Minute)%Z lk].
End ClientsWitness.
Import ClientsWitness.

Example throttled_calls :
  lookup_times calls state = [t0; (t0 + Time.Minute)%Z].
Proof. vm_compute. reflexivity. Qed.

Lemma GetClients_ready_witness :
  ∃ clients s', GetClients t0 lk state = (Ok clients, s') ∧ good s' ∧
    clients = List.filter (available t0 s'.(Clients.heap))
      ([0] ++ Manager.dynamic s'.(Clients.manager)).
Proof. apply (GetClients_ready t0 lk state state_good). Defined.

Lemma lookups_throttled_witness :
  StronglySorted spaced (lookup_times calls state)
  ∧ replicas_ok (foldl (λ s c, call_step c s) state calls).
Proof. apply (lookups_throttled calls state state_good). Defined.

Lemma discover_replicas_witness :
  ∃ s' dynamic, DiscoverFallbackClients lk "store.azconfig.io" state = (Ok (), s')
    ∧ s'.(Clients.manager).(Manager.DynamicClientWrappers) = Some dynamic
    ∧ (default EmptyString ∘ Clients.endpoint_of s') <$> dynamic
      ≡ₚ replica_endpoints state.(Clients.manager)
           ["store.azconfig.io"; "store-eu.azconfig.io"; "evil.example.com"]
    ∧ Forall (λ l, 1 ≤ l
        ∧ ∃ w, s'.(Clients.heap) !! l = Some w ∧ new_wrapper state.(Clients.manager) w) dynamic.
Proof.
  destruct (discover_replicas lk "store.azconfig.io" state "store.azconfig.io." []
    [["store-eu.azconfig.io."; "evil.example.com."; "."]] 5)
    as (s' & dynamic & Hd & Hm & He & _ & Hw & _).
  - reflexivity.
  - apply alternates_next; [reflexivity|]. apply alternates_end. reflexivity.
  - reflexivity.
  - simpl. lia.
  - by apply Forall_true.
  - exists s', dynamic. split; [exact Hd|]. split; [exact Hm|]. split; [exact He|exact Hw].
Defined.

Example replicas_found :
  replica_endpoints state.(Clients.manager)
    ["store.azconfig.io"; "store-eu.azconfig.io"; "evil.example.com"]
  = ["https://store-eu.azconfig.io"].
Proof. vm_compute. reflexivity. Qed.
