(* ===== verification/Failover.v ===== *)
(** The failover policy: [ExecuteFailoverPolicy] and [rotate] of
    [internal/loader/configuration_setting_loader.go].

    A settings client is a function from the tracing header of the context and
    the client to a response or an error; the loader's state is its tracing
    features and its client manager.

    [attempts] is the specification: which clients are tried and what each
    attempt yields.  The theorems say that the policy returns the response of
    the first client that does not fail with a failoverable error, that it
    updates the back-off of exactly the clients tried, and that load balancing
    starts with the client after the last successful one. *)

From S2P Require Import Prelude GoStrings Errors Api Url ConnString Backoff Tracing Clients.
From Stdlib Require Import QArith.
#[local] Close Scope Q_scope.

Module Loader.  (** [ConfigurationSettingLoader], its provider apart *)
Record t `{SDK} := mk { TracingFeatures : TracingFeatures.t; ClientManager : Clients.t }.
#[global] Instance eta_loader `{SDK} : Eta t := λ l, mk _ (TracingFeatures l) (ClientManager l).
Definition set_clients `{SDK} (f : Clients.t → Clients.t) (l : t) : t :=
  mk _ (TracingFeatures l) (f (ClientManager l)).
Definition set_features `{SDK} (f : TracingFeatures.t → TracingFeatures.t) (l : t) : t :=
  mk _ (f (TracingFeatures l)) (ClientManager l).
End Loader.

(** What one run of the policy reads: the clock and the DNS of its calls of
    the manager, the environment variables, and the time and random number of
    each update of a back-off. *)
Module PolicyEnv.
Record t := mk {
  now : Time.time;
  lookup : Lookup.t;
  RequestTracingEnabled : option string;
  extension : bool;
  tracing : option bool;
  attempt_time : nat → Time.time;
  attempt_rand : nat → Q;
  refresh_now : Time.time;
  refresh_lookup : Lookup.t;
}.
End PolicyEnv.

Definition reverseClients {E A} (clients : list A) (start end_ : nat) : outcome E (list A) :=
  Slice.reverse_range clients start end_.

Definition rotate {E A} (clients : list A) (k : nat) : outcome E (list A) :=
  let n := length clients in
  if bool_decide (n = 0) then Panic else
  let k := k `mod` n in
  if bool_decide (k = 0) then Ok clients else
  clients ← reverseClients clients 0 (n - 1);
  clients ← reverseClients clients 0 (n - k - 1);
  reverseClients clients (n - k) (n - 1).

Section policy.
Context `{Unicode} `{IPLiterals} `{SDK} `{Resolver}.
Context (spec : Spec.t) (env : PolicyEnv.t).

(** Runs a method of the client manager. *)
Definition on_clients {A} (m : goM Clients.t error A) : goM Loader.t error A := λ l,
  let '(o, s) := m l.(Loader.ClientManager) in
  (o, Loader.set_clients (λ _, s) l).

(** The number of clients up to the last successful one, or all of them. *)
Fixpoint next_client_index (heap : list Wrapper.t) (last : string) (clients : list loc)
    : result nat :=
  match clients with
  | [] => Ok 0
  | c :: clients' =>
    w ← deref (heap !! c);
    if String.eqb w.(Wrapper.Endpoint) last then Ok 1
    else S <$> next_client_index heap last clients'
  end.

(** The load balancing step on the list of clients. *)
Definition balance (s : Clients.t) (clients : list loc) : result (list loc) :=
  if spec.(Spec.LoadBalancingEnabled)
     && negb (String.eqb s.(Clients.manager).(Manager.lastSuccessfulEndpoint) EmptyString)
     && bool_decide (1 < length clients)
  then
    nextClientIndex ← next_client_index s.(Clients.heap)
      s.(Clients.manager).(Manager.lastSuccessfulEndpoint) clients;
    if bool_decide (nextClientIndex < length clients)
    then rotate clients nextClientIndex else Ok clients
  else Ok clients.

Definition tracing_enabled : bool :=
  match env.(PolicyEnv.RequestTracingEnabled) with
  | Some v => default false (Strconv.ParseBool v)
  | None => false
  end.

(** The tracing features and the header of one attempt. *)
Definition trace_attempt (isFailoverRequest : bool) (l : Loader.t) : Loader.t :=
  if tracing_enabled then
    Loader.set_features (λ f,
      f <| TracingFeatures.IsFailoverRequest := isFailoverRequest |>
        <| TracingFeatures.ReplicaCount :=
             length (Manager.dynamic l.(Loader.ClientManager).(Clients.manager)) |>) l
  else l.
Definition attempt_header (l : Loader.t) : option Header :=
  if tracing_enabled
  then Some (createCorrelationContextHeader env.(PolicyEnv.tracing)
               env.(PolicyEnv.extension) spec l.(Loader.TracingFeatures))
  else None.

Definition update_backoff (i : nat) (c : loc) (successful : bool) (s : Clients.t)
    : Clients.t :=
  {| Clients.manager := s.(Clients.manager);
     Clients.heap :=
       alter (λ w, updateClientBackoffStatus (env.(PolicyEnv.attempt_time) i)
                     (env.(PolicyEnv.attempt_rand) i) w successful) c s.(Clients.heap) |}.

(** [%v] of a slice of errors. *)
Definition errors_text (errors : list error) : string :=
  "[" +:+ Strings.Join (Error <$> errors) " " +:+ "]".

(** [SettingsClient.GetSettings] *)
Definition get_settings (A : Type) : Type := option Header → client → result A.

(** The loop over the clients, at attempt [i]. *)
Fixpoint try_clients {A} (GetSettings : get_settings A) (i : nat) (clients : list loc)
    (isFailoverRequest : bool) (errors : list error) : goM Loader.t error A :=
  match clients with
  | [] =>
    _ ← on_clients (RefreshClients env.(PolicyEnv.refresh_now)
                      env.(PolicyEnv.refresh_lookup));
    throw (Errorf ("all app configuration clients failed to get settings: "
                   +:+ errors_text errors))
  | c :: clients' =>
    _ ← modify (trace_attempt isFailoverRequest);
    l ← get;
    w ← lift (deref (l.(Loader.ClientManager).(Clients.heap) !! c));
    match GetSettings (attempt_header l) w.(Wrapper.Client) with
    | Err err =>
      _ ← modify (Loader.set_clients (update_backoff i c false));
      if IsFailoverable (Some err)
      then try_clients GetSettings (i + 1) clients' true (errors ++ [err])
      else throw err
    | Ok settingsResponse =>
      _ ← modify (Loader.set_clients (λ s, update_backoff i c true
            (Clients.set_manager
               (set (p:=Manager.lastSuccessfulEndpoint) (λ _, w.(Wrapper.Endpoint))) s)));
      mret settingsResponse
    | Panic => lift Panic
    end
  end.

Definition ExecuteFailoverPolicy {A} (GetSettings : get_settings A)
    : goM Loader.t error A :=
  clients ← on_clients (GetClients env.(PolicyEnv.now) env.(PolicyEnv.lookup));
  if bool_decide (length clients = 0) then
    _ ← on_clients (RefreshClients env.(PolicyEnv.refresh_now)
                      env.(PolicyEnv.refresh_lookup));
    throw (Errorf "no client is available to connect to the target App Configuration store")
  else
    l ← get;
    clients' ← lift (balance l.(Loader.ClientManager) clients);
    try_clients GetSettings 0 clients' false [].
End policy.

(** ** Rotation *)

Lemma rotate_spec {E A} (l : list A) k :
  l ≠ [] →
  rotate (E:=E) l k = Ok (drop (k `mod` length l) l ++ take (k `mod` length l) l).
Proof.
  intros Hl. assert (length l ≠ 0) as Hn by (by destruct l).
  unfold rotate, reverseClients. rewrite bool_decide_eq_false_2 by done.
  assert (k `mod` length l < length l) as Hk by (by apply Nat.mod_upper_bound).
  set (j := k `mod` length l) in *. case_bool_decide as Hj.
  { rewrite Hj. simpl. by rewrite drop_0, app_nil_r. }
  rewrite Slice.reverse_range_all. cbn [mbind outcome_bind].
  rewrite <-(take_drop j l) at 1. rewrite reverse_app.
  assert (length (drop j l) = length l - j) as Hd by apply length_drop.
  assert (length (take j l) = j) as Ht by (rewrite length_take; lia).
  pose proof (Slice.reverse_range_spec (E:=E) [] (reverse (drop j l)) (reverse (take j l)))
    as H1. simpl in H1. rewrite length_reverse, Hd in H1. rewrite H1.
  2:{ intros Hx. apply (f_equal length) in Hx. rewrite length_reverse, Hd in Hx.
      simpl in Hx. lia. }
  cbn [mbind outcome_bind]. rewrite reverse_involutive.
  pose proof (Slice.reverse_range_spec (E:=E) (drop j l) (reverse (take j l)) []) as H2.
  rewrite !app_nil_r, length_reverse, Hd, Ht, reverse_involutive in H2.
  replace (length l - j + j - 1) with (length l - 1) in H2 by lia. apply H2.
  intros Hx. apply (f_equal length) in Hx. rewrite length_reverse, Ht in Hx.
  simpl in Hx. lia.
Qed.

(** [rotate] turns a list to the left: three reversals give the elements
    from position [k] on, then the first [k]; only an empty list panics. *)
Theorem rotate_drop_take {E A} (l : list A) k :
  l ≠ [] →
  rotate (E:=E) l k = Ok (drop (k `mod` length l) l ++ take (k `mod` length l) l).
Proof. apply rotate_spec. Qed.

Lemma rotate_drop_take_witness :
  rotate (E:=error) [10; 20; 30; 40; 50] 7
  = Ok (drop (7 `mod` 5) [10; 20; 30; 40; 50] ++ take (7 `mod` 5) [10; 20; 30; 40; 50]).
Proof. apply (rotate_drop_take (E:=error) [10; 20; 30; 40; 50] 7). done. Defined.

(** ** One attempt *)

#[local] Arguments IsFailoverable : simpl never.

Section attempts.
Context `{Unicode} `{IPLiterals} `{SDKOk} `{Resolver}.
Context (spec : Spec.t) (env : PolicyEnv.t).
Context {A : Type} (GetSettings : get_settings A).

Notation heap_of l := (Clients.heap (Loader.ClientManager l)).
Notation manager_of l := (Clients.manager (Loader.ClientManager l)).

(** What a client answers; [b] tells an attempt after a failed one. *)
Definition response (l : Loader.t) (b : bool) (c : loc) : result A :=
  w ← deref (heap_of l !! c);
  GetSettings (attempt_header spec env (trace_attempt env b l)) w.(Wrapper.Client).

Definition fail_step (i : nat) (b : bool) (c : loc) (l : Loader.t) : Loader.t :=
  Loader.set_clients (update_backoff env i c false) (trace_attempt env b l).

Definition success_step (i : nat) (b : bool) (c : loc) (endpoint : string)
    (l : Loader.t) : Loader.t :=
  Loader.set_clients (λ s, update_backoff env i c true
    (Clients.set_manager (set (p:=Manager.lastSuccessfulEndpoint) (λ _, endpoint)) s))
    (trace_attempt env b l).

Lemma trace_attempt_clients b l :
  (trace_attempt env b l).(Loader.ClientManager) = l.(Loader.ClientManager).
Proof. unfold trace_attempt. by destruct (tracing_enabled env). Qed.

Lemma try_clients_failed i c cs b errs err l :
  response l b c = Err err → IsFailoverable (Some err) = true →
  try_clients spec env GetSettings i (c :: cs) b errs l
  = try_clients spec env GetSettings (i + 1) cs true (errs ++ [err]) (fail_step i b c l).
Proof.
  unfold response. intros Hr Hf. cbn [try_clients].
  unfold modify, get, lift, mbind, goM_bind. cbn.
  rewrite trace_attempt_clients. destruct (heap_of l !! c) as [w|]; [|done].
  cbn in Hr |- *. by rewrite Hr, Hf.
Qed.

Lemma try_clients_error i c cs b errs err l :
  response l b c = Err err → IsFailoverable (Some err) = false →
  try_clients spec env GetSettings i (c :: cs) b errs l = (Err err, fail_step i b c l).
Proof.
  unfold response. intros Hr Hf. cbn [try_clients].
  unfold modify, get, lift, mbind, goM_bind. cbn.
  rewrite trace_attempt_clients. destruct (heap_of l !! c) as [w|]; [|done].
  cbn in Hr |- *. by rewrite Hr, Hf.
Qed.

Lemma try_clients_ok i c cs b errs r l :
  response l b c = Ok r →
  ∃ w, heap_of l !! c = Some w ∧
    try_clients spec env GetSettings i (c :: cs) b errs l
    = (Ok r, success_step i b c w.(Wrapper.Endpoint) l).
Proof.
  unfold response. intros Hr. cbn [try_clients].
  unfold modify, get, lift, mbind, goM_bind. cbn.
  rewrite trace_attempt_clients. destruct (heap_of l !! c) as [w|]; [|done].
  cbn in Hr |- *. rewrite Hr. by exists w.
Qed.

(** A back-off update keeps the client and its endpoint. *)
Lemma update_keeps_client now r w b :
  Wrapper.Client (updateClientBackoffStatus now r w b) = Wrapper.Client w
  ∧ Wrapper.Endpoint (updateClientBackoffStatus now r w b) = Wrapper.Endpoint w.
Proof. unfold updateClientBackoffStatus. by repeat case_match. Qed.

Lemma header_fail_step i b c l b' :
  attempt_header spec env (trace_attempt env b' (fail_step i b c l))
  = attempt_header spec env (trace_attempt env b' l).
Proof.
  unfold fail_step, attempt_header, trace_attempt. by destruct (tracing_enabled env).
Qed.

Lemma heap_update_backoff i c ok s c' :
  Clients.heap (update_backoff env i c ok s) !! c'
  = if decide (c' = c)
    then (λ w, updateClientBackoffStatus (env.(PolicyEnv.attempt_time) i)
                 (env.(PolicyEnv.attempt_rand) i) w ok) <$> Clients.heap s !! c'
    else Clients.heap s !! c'.
Proof.
  unfold update_backoff. destruct (decide (c' = c)) as [->|Hc].
  - apply list_lookup_alter_eq.
  - by apply list_lookup_alter_ne.
Qed.

Lemma heap_fail_step i b c l c' :
  heap_of (fail_step i b c l) !! c'
  = if decide (c' = c)
    then (λ w, updateClientBackoffStatus (env.(PolicyEnv.attempt_time) i)
                 (env.(PolicyEnv.attempt_rand) i) w false) <$> heap_of l !! c'
    else heap_of l !! c'.
Proof.
  change (heap_of (fail_step i b c l)) with (Clients.heap (update_backoff env i c false
    (Loader.ClientManager (trace_attempt env b l)))).
  by rewrite trace_attempt_clients, heap_update_backoff.
Qed.

Lemma response_fail_step i b c l b' c' :
  response (fail_step i b c l) b' c' = response l b' c'.
Proof.
  unfold response. rewrite header_fail_step, heap_fail_step. case_decide; [|done].
  destruct (heap_of l !! c') as [w|]; [|done].
  cbn [fmap option_fmap option_map deref mbind outcome_bind].
  by destruct (update_keeps_client (env.(PolicyEnv.attempt_time) i)
    (env.(PolicyEnv.attempt_rand) i) w false) as [-> _].
Qed.

(** The state after a run of failures. *)
Fixpoint after_failures (i : nat) (b : bool) (cs : list loc) (l : Loader.t) : Loader.t :=
  match cs with
  | [] => l
  | c :: cs' => after_failures (i + 1) true cs' (fail_step i b c l)
  end.

(** The clients of [cs] fail in turn, with the failoverable errors [errs]. *)
Fixpoint all_fail (l : Loader.t) (b : bool) (cs : list loc) (errs : list error) : Prop :=
  match cs, errs with
  | [], [] => True
  | c :: cs', err :: errs' =>
    response l b c = Err err ∧ IsFailoverable (Some err) = true ∧ all_fail l true cs' errs'
  | _, _ => False
  end.

Lemma all_fail_step l l' b cs errs :
  (∀ b c, response l' b c = response l b c) → all_fail l b cs errs → all_fail l' b cs errs.
Proof.
  intros Hr. revert b errs. induction cs as [|c cs IH]; intros b [|err errs]; simpl; try done.
  rewrite Hr. naive_solver.
Qed.

Definition later (b : bool) (cs : list loc) : bool :=
  match cs with [] => b | _ => true end.

Lemma try_clients_failures i cs rest b errs0 errs l :
  all_fail l b cs errs →
  try_clients spec env GetSettings i (cs ++ rest) b errs0 l
  = try_clients spec env GetSettings (i + length cs) rest (later b cs) (errs0 ++ errs)
      (after_failures i b cs l).
Proof.
  revert i b errs0 errs l.
  induction cs as [|c cs IH]; intros i b errs0 [|err errs] l;
    cbn [app length later after_failures all_fail]; try done.
  { intros _. by rewrite Nat.add_0_r, app_nil_r. }
  intros (Hr & Hf & Hall). rewrite (try_clients_failed _ _ _ _ _ err) by done.
  rewrite (IH _ true _ errs).
  - rewrite <-app_assoc. cbn [app]. replace (i + 1 + length cs) with (i + S (length cs)) by lia.
    by destruct cs.
  - eapply all_fail_step; [|exact Hall]. intros. apply response_fail_step.
Qed.

Lemma response_after_failures i b cs l b' c :
  response (after_failures i b cs l) b' c = response l b' c.
Proof.
  revert i b l. induction cs as [|c' cs IH]; intros i b l; [done|]. simpl.
  by rewrite IH, response_fail_step.
Qed.

Lemma after_failures_snoc i b cs c l :
  after_failures i b (cs ++ [c]) l
  = fail_step (i + length cs) (later b cs) c (after_failures i b cs l).
Proof.
  revert i b l. induction cs as [|c' cs IH]; intros i b l; simpl; [by rewrite Nat.add_0_r|].
  rewrite IH. replace (i + 1 + length cs) with (i + S (length cs)) by lia.
  by destruct cs.
Qed.

(** Each client that failed is put in back-off, at the time of its attempt. *)
Lemma heap_after_failures i b cs l c :
  NoDup cs →
  heap_of (after_failures i b cs l) !! c
  = match list_find (λ c', c' = c) cs with
    | Some (j, _) =>
      (λ w, updateClientBackoffStatus (env.(PolicyEnv.attempt_time) (i + j))
              (env.(PolicyEnv.attempt_rand) (i + j)) w false) <$> heap_of l !! c
    | None => heap_of l !! c
    end.
Proof.
  intros Hnd. revert i b l. induction Hnd as [|c' cs Hc Hnd IH]; intros i b l; [done|].
  simpl. rewrite IH, heap_fail_step. destruct (decide (c' = c)) as [->|Hne].
  - rewrite decide_True by done.
    assert (list_find (λ c', c' = c) cs = None) as ->
      by (apply list_find_None, Forall_forall; by intros x Hx ->).
    by rewrite Nat.add_0_r.
  - rewrite decide_False by done.
    destruct (list_find _ cs) as [[j ?]|]; simpl; [|done].
    by replace (i + 1 + j) with (i + S j) by lia.
Qed.
End attempts.

(** ** The policy *)

Section execute.
Context `{Unicode} `{IPLiterals} `{SDKOk} `{Resolver}.
Context (spec : Spec.t) (env : PolicyEnv.t).
Context {A : Type} (GetSettings : get_settings A).

Notation heap_of l := (Clients.heap (Loader.ClientManager l)).
Notation manager_of l := (Clients.manager (Loader.ClientManager l)).
Notation failure i w := (updateClientBackoffStatus (PolicyEnv.attempt_time env i)
  (PolicyEnv.attempt_rand env i) w false).
Notation success i w := (updateClientBackoffStatus (PolicyEnv.attempt_time env i)
  (PolicyEnv.attempt_rand env i) w true).

(** The loader once [GetClients] has returned [clients]. *)
Definition got_clients (l l1 : Loader.t) (clients : list loc) : Prop :=
  on_clients (GetClients env.(PolicyEnv.now) env.(PolicyEnv.lookup)) l = (Ok clients, l1).

Lemma execute_run l l1 clients order :
  got_clients l l1 clients → clients ≠ [] →
  balance spec l1.(Loader.ClientManager) clients = Ok order →
  ExecuteFailoverPolicy spec env GetSettings l
  = try_clients spec env GetSettings 0 order false [] l1.
Proof.
  unfold got_clients, ExecuteFailoverPolicy. intros Hg Hne Hb.
  rewrite (goM_bind_run _ _ _ _ _ Hg). rewrite bool_decide_eq_false_2 by (by destruct clients).
  unfold get, lift, mbind, goM_bind. by rewrite Hb.
Qed.

(** Position of a client in the order of the attempts. *)
Definition position (cs : list loc) (c : loc) : option nat :=
  fst <$> list_find (λ c', c' = c) cs.

Lemma heap_failures i b cs l c :
  NoDup cs →
  heap_of (after_failures env i b cs l) !! c
  = match position cs c with
    | Some j => (λ w, failure (i + j) w) <$> heap_of l !! c
    | None => heap_of l !! c
    end.
Proof.
  intros Hnd. rewrite heap_after_failures by done. unfold position.
  by destruct (list_find _ cs) as [[j ?]|].
Qed.

Lemma manager_failures i b cs l :
  manager_of (after_failures env i b cs l) = manager_of l.
Proof.
  revert i b l. induction cs as [|c cs IH]; intros i b l; [done|]. simpl. rewrite IH.
  unfold fail_step. cbn. by rewrite trace_attempt_clients.
Qed.

Lemma position_None cs c : c ∉ cs → position cs c = None.
Proof.
  intros Hc. unfold position. apply fmap_None, list_find_None, Forall_forall.
  by intros x Hx ->.
Qed.

Context (l l1 : Loader.t) (clients failed : list loc) (c : loc) (rest : list loc).
Context (errs : list error).
Context (Hgot : got_clients l l1 clients).
Context (Hne : clients ≠ []).
Context (Horder : balance spec l1.(Loader.ClientManager) clients = Ok (failed ++ c :: rest)).
Context (Hnd : NoDup (failed ++ c :: rest)).
Context (Hfailed : all_fail spec env GetSettings l1 false failed errs).

Lemma NoDup_parts : NoDup failed ∧ c ∉ failed.
Proof.
  clear -Hnd. apply NoDup_app in Hnd as (? & Hd & _). split; [done|].
  intros Hc. apply (Hd c Hc). by left.
Qed.

Lemma execute_failures :
  ExecuteFailoverPolicy spec env GetSettings l
  = try_clients spec env GetSettings (length failed) (c :: rest) (later false failed) errs
      (after_failures env 0 false failed l1).
Proof.
  rewrite (execute_run l l1 clients (failed ++ c :: rest)) by done.
  by rewrite (try_clients_failures _ _ _ _ _ _ _ _ errs) by done.
Qed.

(** C9: The policy returns the response of the first client, in the order of
    load balancing, that answers.  The clients tried before it failed with
    failoverable errors and are each put in back-off; the one that answered
    leaves back-off and becomes the last successful one; the clients after
    it are neither asked nor changed. *)
Theorem failover_first_success r :
  response spec env GetSettings l1 (later false failed) c = Ok r →
  ∃ l' w, ExecuteFailoverPolicy spec env GetSettings l = (Ok r, l')
    ∧ heap_of l1 !! c = Some w
    ∧ (manager_of l').(Manager.lastSuccessfulEndpoint) = w.(Wrapper.Endpoint)
    ∧ heap_of l' !! c = Some (success (length failed) w)
    ∧ ∀ c', c' ≠ c → heap_of l' !! c'
        = match position failed c' with
          | Some j => (λ w', failure j w') <$> heap_of l1 !! c'
          | None => heap_of l1 !! c'
          end.
Proof.
  destruct NoDup_parts as [Hndf Hcf]. intros Hr.
  rewrite execute_failures.
  assert (response spec env GetSettings (after_failures env 0 false failed l1)
            (later false failed) c = Ok r) as Hr'
    by (by rewrite response_after_failures).
  destruct (try_clients_ok spec env GetSettings (length failed) c rest _ errs r _ Hr')
    as (w & Hw & ->).
  rewrite heap_failures, (position_None _ _ Hcf) in Hw by done.
  eexists _, w. split; [done|]. split; [done|]. split; [done|].
  assert (∀ c', heap_of (success_step env (length failed) (later false failed) c
      (Wrapper.Endpoint w) (after_failures env 0 false failed l1)) !! c'
    = if decide (c' = c)
      then (λ w, success (length failed) w)
             <$> heap_of (after_failures env 0 false failed l1) !! c'
      else heap_of (after_failures env 0 false failed l1) !! c') as Hh.
  { intros c'. unfold success_step. cbn [Loader.set_clients Loader.ClientManager].
    rewrite heap_update_backoff.
    cbn [Clients.set_manager Clients.heap]. by rewrite trace_attempt_clients. }
  split.
  - rewrite Hh, decide_True, heap_failures, (position_None _ _ Hcf) by done.
    by rewrite Hw.
  - intros c' Hc'. by rewrite Hh, decide_False, heap_failures by done.
Qed.

(** An error that is not failoverable ends the policy: it is returned as
    it is, the client that gave it is put in back-off too, and the clients
    after it are neither asked nor changed. *)
Theorem failover_stops_on_error err :
  response spec env GetSettings l1 (later false failed) c = Err err →
  IsFailoverable (Some err) = false →
  ∃ l', ExecuteFailoverPolicy spec env GetSettings l = (Err err, l')
    ∧ manager_of l' = manager_of l1
    ∧ ∀ c', heap_of l' !! c'
        = match position (failed ++ [c]) c' with
          | Some j => (λ w, failure j w) <$> heap_of l1 !! c'
          | None => heap_of l1 !! c'
          end.
Proof.
  intros Hr Hf. rewrite execute_failures.
  rewrite (try_clients_error spec env GetSettings _ _ _ _ _ err)
    by (rewrite ?response_after_failures; done).
  eexists. split; [done|]. split.
  - unfold fail_step. cbn. by rewrite trace_attempt_clients, manager_failures.
  - intros c'. assert (NoDup (failed ++ [c])) as Hnd'.
    { clear -Hnd. rewrite cons_middle, app_assoc in Hnd. by apply NoDup_app in Hnd as [? _]. }
    pose proof (heap_failures 0 false (failed ++ [c]) l1 c' Hnd') as Hx.
    by rewrite after_failures_snoc in Hx.
Qed.
End execute.

(** ** Errors of the policy *)

Section errors.
Context `{Unicode} `{IPLiterals} `{SDKOk} `{Resolver}.
Context (spec : Spec.t) (env : PolicyEnv.t).
Context {A : Type} (GetSettings : get_settings A).

Lemma ready_no_err now heap ls : no_err (E:=error) (ready now heap ls).
Proof.
  induction ls as [|c ls IH]; intros e; [done|]. simpl.
  destruct (heap !! c); simpl; [|done].
  destruct (ready now heap ls) as [?|e'|]; simpl; done.
Qed.

Lemma discover_no_err now lk s : no_err (discover now lk s).1.
Proof.
  intros e. unfold discover, modify, get, lift, mbind, goM_bind. cbn.
  destruct (url_parse _) as [url|]; [|done]. cbn.
  destruct (DiscoverFallbackClients_spec lk url.(URL.Host) (attempted now s))
    as (s' & Hs' & _).
  unfold attempted, Clients.set_manager in *. by rewrite Hs'.
Qed.

Lemma RefreshClients_no_err now lk s : no_err (RefreshClients now lk s).1.
Proof.
  rewrite RefreshClients_run. case_match; [apply discover_no_err|done].
Qed.

Lemma GetClients_no_err now lk s : no_err (GetClients now lk s).1.
Proof.
  intros e. unfold GetClients, get, lift, mbind, goM_bind. cbn.
  destruct (ready _ _ _) as [cs|e'|] eqn:Hr; [|by destruct (ready_no_err _ _ _ _ Hr)|done].
  destruct (negb _); [done|].
  assert (∀ s1 e2, (match ready now (Clients.heap s1) (Manager.dynamic (Clients.manager s1)) with
                    | Ok d => (Ok (cs ++ d), s1) | Err e3 => (Err e3, s1) | Panic => (Panic, s1)
                    end).1 ≠ Err (E:=error) e2) as Hd.
  { intros s1 e2.
    destruct (ready now (Clients.heap s1) (Manager.dynamic (Clients.manager s1))) eqn:Hr1;
      try done.
    by destruct (ready_no_err _ _ _ _ Hr1). }
  destruct (_ && _).
  - pose proof (discover_no_err now lk s) as Hn.
    destruct (discover now lk s) as [[[]|e1|] s1]; [apply Hd|by destruct (Hn e1)|done].
  - apply Hd.
Qed.

Lemma next_client_index_no_err heap last cs :
  no_err (E:=error) (next_client_index heap last cs).
Proof.
  induction cs as [|c cs IH]; intros e; [done|]. simpl.
  destruct (heap !! c) as [w|]; simpl; [|done]. case_match; [done|].
  by destruct (next_client_index heap last cs).
Qed.

Lemma balance_no_err s cs : no_err (balance spec s cs).
Proof.
  intros e. unfold balance. case_match; [|done].
  pose proof (next_client_index_no_err (Clients.heap s)
    (Manager.lastSuccessfulEndpoint (Clients.manager s)) cs) as Hn.
  destruct (next_client_index _ _ cs) as [n|e2|]; simpl; [|by destruct (Hn e2)|done].
  destruct (bool_decide (n < _)); [|done]. rewrite (rotate_spec cs n); [done|].
  intros ->. simpl in *. lia.
Qed.

Lemma on_clients_no_err {B} (m : goM Clients.t error B) l e :
  (∀ s, no_err (m s).1) → (on_clients m l).1 ≠ Err e.
Proof.
  intros Hm. unfold on_clients. specialize (Hm l.(Loader.ClientManager) e).
  by destruct (m _).
Qed.

Lemma try_clients_error_kind i cs b errs l e l' :
  try_clients spec env GetSettings i cs b errs l = (Err e, l') →
  IsFailoverable (Some e) = false.
Proof.
  revert i b errs l. induction cs as [|c cs IH]; intros i b errs l.
  - cbn [try_clients]. unfold mbind, goM_bind, throw.
    destruct (on_clients _ l) as [[[]|e1|] l1] eqn:Hr.
    + by intros [= <- <-].
    + pose proof (on_clients_no_err (RefreshClients env.(PolicyEnv.refresh_now)
        env.(PolicyEnv.refresh_lookup)) l e1 (RefreshClients_no_err _ _)) as Hn.
      by rewrite Hr in Hn.
    + done.
  - destruct (response spec env GetSettings l b c) as [r|err|] eqn:Hr.
    + destruct (try_clients_ok spec env GetSettings i c cs b errs r l Hr) as (w & _ & ->).
      done.
    + destruct (IsFailoverable (Some err)) eqn:Hf.
      * rewrite (try_clients_failed _ _ _ _ _ _ _ _ err) by done. apply IH.
      * rewrite (try_clients_error _ _ _ _ _ _ _ _ err) by done. by intros [= <- <-].
    + revert Hr. unfold response. cbn [try_clients].
      unfold modify, get, lift, mbind, goM_bind. cbn. rewrite trace_attempt_clients.
      destruct (_ !! c) as [w|]; [|done]. cbn. by intros ->.
Qed.

(** C26: The policy never returns an error on which it would have failed over:
    in particular never a 429, a 408 or a 5xx response of the store, whose
    [Retry-After] header is therefore lost to the caller. *)
Theorem failover_error_kind l e l' :
  ExecuteFailoverPolicy spec env GetSettings l = (Err e, l') →
  IsFailoverable (Some e) = false
  ∧ ∀ code retryAfter, as_ResponseError e = Some (code, retryAfter) →
      code ≠ 429%Z ∧ code ≠ 408%Z ∧ (code < 500)%Z.
Proof.
  intros He. assert (IsFailoverable (Some e) = false) as Hf.
  2:{ split; [done|]. intros. by eapply not_failoverable_status. }
  revert He. unfold ExecuteFailoverPolicy, mbind, goM_bind.
  destruct (on_clients (GetClients _ _) l) as [[cs|e1|] l1] eqn:Hg; [| |done].
  2:{ pose proof (on_clients_no_err (GetClients env.(PolicyEnv.now) env.(PolicyEnv.lookup))
        l e1 (GetClients_no_err _ _)) as Hn. by rewrite Hg in Hn. }
  case_bool_decide.
  - destruct (on_clients _ l1) as [[[]|e1|] l2] eqn:Hr; unfold throw.
    + by intros [= <- <-].
    + pose proof (on_clients_no_err (RefreshClients env.(PolicyEnv.refresh_now)
        env.(PolicyEnv.refresh_lookup)) l1 e1 (RefreshClients_no_err _ _)) as Hn.
      by rewrite Hr in Hn.
    + done.
  - unfold get, lift. destruct (balance spec _ cs) as [order|e1|] eqn:Hb; [| |done].
    + apply try_clients_error_kind.
    + by destruct (balance_no_err l1.(Loader.ClientManager) cs e1).
Qed.
End errors.

(** ** Load balancing *)

Section balancing.
Context `{SDK}.
Context (spec : Spec.t).

Lemma next_client_index_found heap last cs j c w :
  (∀ k c' w', k < j → cs !! k = Some c' → heap !! c' = Some w' →
     w'.(Wrapper.Endpoint) ≠ last) →
  Forall (λ c, is_Some (heap !! c)) cs →
  cs !! j = Some c → heap !! c = Some w → w.(Wrapper.Endpoint) = last →
  next_client_index heap last cs = Ok (j + 1).
Proof.
  intros Hne Hin. revert j Hne. induction Hin as [|c' cs [w' Hw'] _ IH]; intros j Hne; [done|].
  simpl. rewrite Hw'. simpl. destruct j as [|j]; simpl.
  - intros [= <-] Hw He. simplify_eq. by rewrite String.eqb_refl.
  - intros Hj Hw He.
    assert (w'.(Wrapper.Endpoint) ≠ last) as Hneq by (by apply (Hne 0 c' w'); [lia| |]).
    apply String.eqb_neq in Hneq. rewrite Hneq, (IH j); [done| |done..].
    intros k c1 w1 Hk. apply (Hne (S k)). lia.
Qed.

(** C19: With load balancing, when the last successful client is the one at
    position [j] of the list (and the first with its endpoint), the next run
    starts with the client after it and comes to it last: the clients are
    taken in turn. *)
Theorem balance_round_robin s cs j c w :
  spec.(Spec.LoadBalancingEnabled) = true →
  Forall (λ c, is_Some (s.(Clients.heap) !! c)) cs →
  cs !! j = Some c → s.(Clients.heap) !! c = Some w →
  w.(Wrapper.Endpoint) = s.(Clients.manager).(Manager.lastSuccessfulEndpoint) →
  w.(Wrapper.Endpoint) ≠ EmptyString →
  (∀ k c' w', k < j → cs !! k = Some c' → s.(Clients.heap) !! c' = Some w' →
     w'.(Wrapper.Endpoint) ≠ w.(Wrapper.Endpoint)) →
  balance spec s cs = Ok (drop (S j) cs ++ take (S j) cs).
Proof.
  intros Hlb Hin Hj Hw He Hne Hfirst. unfold balance.
  assert (j < length cs) as Hlen by (by eapply lookup_lt_Some).
  rewrite Hlb, <-He, (proj2 (String.eqb_neq _ _) Hne). cbn [andb negb].
  rewrite (next_client_index_found _ _ cs j c w) by done. cbn [mbind outcome_bind].
  destruct (decide (1 < length cs)) as [Hl|Hl].
  - rewrite (bool_decide_eq_true_2 (1 < length cs)) by done.
    destruct (decide (j + 1 < length cs)) as [Hn|Hn].
    + rewrite bool_decide_eq_true_2 by done.
      rewrite rotate_spec by (by intros ->). rewrite Nat.mod_small by done.
      by rewrite Nat.add_1_r.
    + rewrite bool_decide_eq_false_2 by done.
      replace (S j) with (length cs) by lia. by rewrite drop_all, firstn_all.
  - rewrite (bool_decide_eq_false_2 (1 < length cs)) by done.
    replace (S j) with (length cs) by lia. by rewrite drop_all, firstn_all.
Qed.
End balancing.

(** ** Back-off of a client *)

Section rest_period.
Context `{SDK}.

(** A failed client is not returned for at least 30 seconds, and may be
    again after twelve and a half minutes at most; the count of its failures
    starts at one after a success.  A successful client may be returned at
    once, and its count is negative. *)
Theorem backoff_of_attempt (heap : list Wrapper.t) c w now r :
  heap !! c = Some w → (0 <= r < 1)%Q → (0 < now)%Z →
  (min_int64 < w.(Wrapper.FailedAttempts) < max_int64)%Z →
  let failed := updateClientBackoffStatus now r w false in
  let succeeded := updateClientBackoffStatus now r w true in
  (∀ t, (t ≤ now + MinBackoffDuration)%Z → available t (<[c := failed]> heap) c = false)
  ∧ (∀ t, (now + MaxBackoffDuration + MaxBackoffDuration / 4 < t)%Z →
       available t (<[c := failed]> heap) c = true)
  ∧ failed.(Wrapper.FailedAttempts) = (1 + 0 `max` w.(Wrapper.FailedAttempts))%Z
  ∧ (∀ t, (0 < t)%Z → available t (<[c := succeeded]> heap) c = true)
  ∧ (succeeded.(Wrapper.FailedAttempts) < 0)%Z.
Proof.
  intros Hc Hr Hnow Hf failed succeeded.
  assert (c < length heap) as Hlen by (by eapply lookup_lt_Some).
  assert (∀ t w', available t (<[c := w']> heap) c
                  = Time.After t w'.(Wrapper.BackOffEndTime)) as Hav.
  { intros t w'. unfold available. by rewrite list_lookup_insert_eq. }
  assert (∃ n, failed.(Wrapper.BackOffEndTime)
               = (now + calculateBackoffDuration r n)%Z
               ∧ failed.(Wrapper.FailedAttempts) = n
               ∧ n = (1 + 0 `max` w.(Wrapper.FailedAttempts))%Z) as (n & He & Hfn & Hn).
  { unfold failed, updateClientBackoffStatus.
    destruct (Wrapper.FailedAttempts w <? 0)%Z eqn:Hneg; cbn.
    - eexists. split; [done|]. split; [done|]. rewrite wrap64_id; [lia|done].
    - eexists. split; [done|]. split; [done|].
      rewrite wrap64_id; unfold min_int64, max_int64 in *; lia. }
  destruct (calculateBackoffDuration_range r n Hr) as [Hlo Hhi].
  split; [|split; [|split; [by rewrite Hfn|split]]].
  - intros t Ht. rewrite Hav, He. unfold Time.After. lia.
  - intros t Ht. rewrite Hav, He. unfold Time.After. lia.
  - intros t Ht. rewrite Hav. unfold succeeded, updateClientBackoffStatus.
    destruct (0 <? _)%Z; cbn; unfold Time.After, Time.zero; lia.
  - unfold succeeded, updateClientBackoffStatus. cbn.
    destruct (0 <? Wrapper.FailedAttempts w)%Z eqn:Hpos; cbn; [by vm_compute|].
    rewrite wrap64_id; unfold min_int64, max_int64 in *; lia.
Qed.
End rest_period.

(** ** When every client fails *)

Section exhausted.
Context `{Unicode} `{IPLiterals} `{SDKOk} `{Resolver}.
Context (spec : Spec.t) (env : PolicyEnv.t).
Context {A : Type} (GetSettings : get_settings A).

Notation heap_of l := (Clients.heap (Loader.ClientManager l)).
Notation manager_of l := (Clients.manager (Loader.ClientManager l)).

Lemma RefreshClients_runs now lk s :
  is_Some (url_parse s.(Clients.manager).(Manager.endpoint)) →
  ∃ s' ws, RefreshClients now lk s = (Ok (), s') ∧ s'.(Clients.heap) = s.(Clients.heap) ++ ws.
Proof.
  intros [url Hu]. rewrite RefreshClients_run. case_match.
  2:{ exists s, []. by rewrite app_nil_r. }
  unfold discover, modify, get, lift, mbind, goM_bind. cbn. rewrite Hu. cbn.
  destruct (DiscoverFallbackClients_spec lk url.(URL.Host) (attempted now s))
    as (s' & Hs' & Hcase).
  unfold attempted, Clients.set_manager in *. rewrite Hs'. exists s'.
  destruct Hcase as [->|(? & ? & ? & ws & _ & _ & _ & _ & ->)].
  - exists []. by rewrite app_nil_r.
  - by exists ws.
Qed.

(** What [RefreshClients] does: nothing when no lookup is due, and else the
    lookup, recorded as an attempt. *)
Definition refreshed now lk (s s' : Clients.t) : Prop :=
  if s.(Clients.manager).(Manager.ReplicaDiscoveryEnabled)
     && attempt_due now s.(Clients.manager)
  then
    s'.(Clients.manager).(Manager.lastFallbackClientAttempt) = now
    ∧ ∃ url, url_parse s.(Clients.manager).(Manager.endpoint) = Some url
      ∧ DiscoverFallbackClients lk url.(URL.Host) (attempted now s) = (Ok (), s')
  else s' = s.

Lemma RefreshClients_refreshed now lk s :
  is_Some (url_parse s.(Clients.manager).(Manager.endpoint)) →
  ∃ s' ws, RefreshClients now lk s = (Ok (), s') ∧ refreshed now lk s s'
    ∧ s'.(Clients.heap) = s.(Clients.heap) ++ ws.
Proof.
  intros Hu. destruct (RefreshClients_runs now lk s Hu) as (s' & ws & Hr & Hh).
  exists s', ws. split; [done|]. split; [|done]. destruct Hu as [url Hu].
  rewrite RefreshClients_run in Hr. unfold refreshed. fold (refreshes_replicas now s).
  destruct (refreshes_replicas now s); [|by injection Hr].
  split; [by rewrite <-(discover_attempt now lk s), Hr|]. exists url. split; [done|].
  unfold discover, modify, get, lift, mbind, goM_bind in Hr. cbn in Hr.
  by rewrite Hu in Hr.
Qed.

(** C27: When every client returned fails with a failoverable error, each is
    put in back-off at the time of its attempt (and no other); then the
    replicas are refreshed: if replica discovery is enabled and the last
    attempt is old enough, they are looked up, from the host of the store, and
    the attempt is recorded; otherwise nothing else changes.  The error
    returned is the text of all the errors. *)
Theorem failover_exhausted l l1 clients order errs :
  got_clients env l l1 clients → clients ≠ [] →
  balance spec l1.(Loader.ClientManager) clients = Ok order → NoDup order →
  is_Some (url_parse (manager_of l1).(Manager.endpoint)) →
  all_fail spec env GetSettings l1 false order errs →
  ∃ l' rested, ExecuteFailoverPolicy spec env GetSettings l
      = (Err (Errorf ("all app configuration clients failed to get settings: "
                      +:+ errors_text errs)), l')
    ∧ rested.(Clients.manager) = manager_of l1
    ∧ (∀ c, rested.(Clients.heap) !! c
         = match position order c with
           | Some j => (λ w, updateClientBackoffStatus (env.(PolicyEnv.attempt_time) j)
                               (env.(PolicyEnv.attempt_rand) j) w false) <$> heap_of l1 !! c
           | None => heap_of l1 !! c
           end)
    ∧ refreshed env.(PolicyEnv.refresh_now) env.(PolicyEnv.refresh_lookup)
        rested l'.(Loader.ClientManager)
    ∧ rested.(Clients.heap) `prefix_of` heap_of l'.
Proof.
  intros Hg Hne Hb Hnd Hu Hall. rewrite (execute_run _ _ _ l l1 clients order) by done.
  pose proof (try_clients_failures spec env GetSettings 0 order [] false [] errs l1 Hall)
    as Hx.
  rewrite app_nil_r in Hx. rewrite Hx. cbn [try_clients].
  set (l2 := after_failures env 0 false order l1).
  destruct (RefreshClients_refreshed env.(PolicyEnv.refresh_now) env.(PolicyEnv.refresh_lookup)
    l2.(Loader.ClientManager)) as (s' & ws & Hr & Href & Hws).
  { unfold l2. by rewrite manager_failures. }
  unfold mbind, goM_bind, on_clients, throw. rewrite Hr. cbn.
  eexists _, l2.(Loader.ClientManager). split; [done|]. cbn.
  split; [unfold l2; by rewrite manager_failures|].
  split; [|split; [done|by exists ws]].
  intros c. unfold l2. by rewrite heap_failures.
Qed.
End exhausted.

(** ** Witnesses *)

Import ClientsWitness.

Module FailoverWitness.
Definition spec : Spec.t :=
  Spec.mk (Some "https://store.azconfig.io") true true None (Target.mk "cm" None) None
    (KeyValueOptions.mk [] [] None) None None.
Definition wrapper (n : string) : Wrapper.t :=
  @Wrapper.fresh sdk ("https://" +:+ n +:+ ".azconfig.io") n.
Definition loader (last : string) : Loader.t := {|
  Loader.TracingFeatures := TracingFeatures.zero;
  Loader.ClientManager := {|
    Clients.manager := Manager.mk _ true true [0] (Some [1; 2]) ".azconfig.io"
      "https://store.azconfig.io" (Some tt) EmptyString EmptyString t0 t0 last;
    Clients.heap := [wrapper "store"; wrapper "alt"; wrapper "eu"];
  |};
|}.
Definition env : PolicyEnv.t :=
  PolicyEnv.mk t0 lk (Some "true") false (Some true) (λ i, (t0 + Z.of_nat i)%Z) (λ _, 0%Q)
    t0 lk.
(** The policy ends a minute later. *)
Definition slow : PolicyEnv.t :=
  PolicyEnv.mk t0 lk (Some "true") false (Some true) (λ i, (t0 + Z.of_nat i)%Z) (λ _, 0%Q)
    (t0 + Time.Minute)%Z lk.
Definition unavailable : error := ResponseError 503 EmptyString "unavailable".
Definition forbidden : error := ResponseError 403 EmptyString "forbidden".
(** The store is down, the replica [alt] answers, [eu] refuses. *)
Definition answers : @get_settings sdk nat := λ _ (c : string),
  if String.eqb c "store" then Err unavailable
  else if String.eqb c "alt" then Ok 7 else Err forbidden.
Definition all_down : @get_settings sdk nat := λ _ _, Err unavailable.

Lemma nodup_order : NoDup [0; 1; 2].
Proof. apply (bool_decide_eq_true_1 _). vm_compute. reflexivity. Qed.
Lemma nodup_order' : NoDup [2; 0; 1].
Proof. apply (bool_decide_eq_true_1 _). vm_compute. reflexivity. Qed.
End FailoverWitness.
Import FailoverWitness.

Lemma failover_first_success_witness :
  ∃ l' w, ExecuteFailoverPolicy spec env answers (loader EmptyString) = (Ok 7, l')
    ∧ [wrapper "store"; wrapper "alt"; wrapper "eu"] !! 1 = Some w
    ∧ l'.(Loader.ClientManager).(Clients.manager).(Manager.lastSuccessfulEndpoint)
      = w.(Wrapper.Endpoint)
    ∧ l'.(Loader.ClientManager).(Clients.heap) !! 1
      = Some (updateClientBackoffStatus (t0 + 1)%Z 0%Q w true)
    ∧ ∀ c', c' ≠ 1 → l'.(Loader.ClientManager).(Clients.heap) !! c'
        = match position [0] c' with
          | Some j => (λ w', updateClientBackoffStatus (t0 + Z.of_nat j)%Z 0%Q w' false)
                        <$> [wrapper "store"; wrapper "alt"; wrapper "eu"] !! c'
          | None => [wrapper "store"; wrapper "alt"; wrapper "eu"] !! c'
          end.
Proof.
  apply (failover_first_success spec env answers (loader EmptyString) (loader EmptyString)
    [0; 1; 2] [0] 1 [2] [unavailable]).
  - vm_compute. reflexivity.
  - done.
  - vm_compute. reflexivity.
  - apply nodup_order.
  - vm_compute. done.
  - vm_compute. reflexivity.
Defined.

(** After a success of the store, load balancing starts with [alt]; here [alt]
    was the last one, so [eu] comes first and its refusal is final. *)
Lemma failover_stops_on_error_witness :
  ∃ l', ExecuteFailoverPolicy spec env answers (loader "https://alt.azconfig.io")
        = (Err forbidden, l')
    ∧ l'.(Loader.ClientManager).(Clients.manager)
      = (loader "https://alt.azconfig.io").(Loader.ClientManager).(Clients.manager)
    ∧ ∀ c', l'.(Loader.ClientManager).(Clients.heap) !! c'
        = match position ([] ++ [2]) c' with
          | Some j => (λ w, updateClientBackoffStatus (t0 + Z.of_nat j)%Z 0%Q w false)
                        <$> [wrapper "store"; wrapper "alt"; wrapper "eu"] !! c'
          | None => [wrapper "store"; wrapper "alt"; wrapper "eu"] !! c'
          end.
Proof.
  apply (failover_stops_on_error spec env answers (loader "https://alt.azconfig.io")
    (loader "https://alt.azconfig.io") [0; 1; 2] [] 2 [0; 1] []).
  - vm_compute. reflexivity.
  - done.
  - vm_compute. reflexivity.
  - apply nodup_order'.
  - vm_compute. done.
  - vm_compute. reflexivity.
  - vm_compute. reflexivity.
Defined.

Lemma failover_exhausted_witness :
  ∃ l' rested, ExecuteFailoverPolicy spec slow all_down (loader EmptyString)
      = (Err (Errorf ("all app configuration clients failed to get settings: "
                      +:+ errors_text [unavailable; unavailable; unavailable])), l')
    ∧ rested.(Clients.manager) = (loader EmptyString).(Loader.ClientManager).(Clients.manager)
    ∧ refreshed slow.(PolicyEnv.refresh_now) slow.(PolicyEnv.refresh_lookup)
        rested l'.(Loader.ClientManager)
    ∧ l'.(Loader.ClientManager).(Clients.manager).(Manager.lastFallbackClientAttempt)
      = slow.(PolicyEnv.refresh_now).
Proof.
  destruct (failover_exhausted spec slow all_down (loader EmptyString) (loader EmptyString)
    [0; 1; 2] [0; 1; 2] [unavailable; unavailable; unavailable])
    as (l' & rested & He & Hm & _ & Hr & _).
  - vm_compute. reflexivity.
  - done.
  - vm_compute. reflexivity.
  - apply nodup_order.
  - by eexists.
  - vm_compute. done.
  - exists l', rested. split; [exact He|]. split; [exact Hm|]. split; [exact Hr|].
    unfold refreshed in Hr. rewrite Hm in Hr.
    match type of Hr with if ?b then _ else _ => assert (b = true) as Hb end.
    { vm_compute. reflexivity. }
    rewrite Hb in Hr. apply Hr.
Defined.

Lemma failover_error_kind_witness :
  IsFailoverable (Some forbidden) = false
  ∧ ∀ code retryAfter, as_ResponseError forbidden = Some (code, retryAfter) →
      code ≠ 429%Z ∧ code ≠ 408%Z ∧ (code < 500)%Z.
Proof.
  apply (failover_error_kind spec env answers (loader "https://alt.azconfig.io") forbidden
    (ExecuteFailoverPolicy spec env answers (loader "https://alt.azconfig.io")).2).
  vm_compute. reflexivity.
Defined.

Lemma balance_round_robin_witness :
  balance spec (loader "https://alt.azconfig.io").(Loader.ClientManager) [0; 1; 2]
  = Ok ([2] ++ [0; 1]).
Proof.
  apply (balance_round_robin spec (loader "https://alt.azconfig.io").(Loader.ClientManager)
    [0; 1; 2] 1 1 (wrapper "alt")).
  - done.
  - repeat constructor; by eexists.
  - done.
  - done.
  - done.
  - done.
  - intros [|k] c' w' ? Hc Hw; [|lia]. simpl in Hc, Hw. simplify_eq. simpl in Hw.
    simplify_eq. done.
Defined.

Lemma backoff_of_attempt_witness :
  let failed := updateClientBackoffStatus t0 (1 # 2) (wrapper "alt") false in
  let succeeded := updateClientBackoffStatus t0 (1 # 2) (wrapper "alt") true in
  (∀ t, (t ≤ t0 + MinBackoffDuration)%Z → available t (<[0 := failed]> [wrapper "alt"]) 0 = false)
  ∧ (∀ t, (t0 + MaxBackoffDuration + MaxBackoffDuration / 4 < t)%Z →
       available t (<[0 := failed]> [wrapper "alt"]) 0 = true)
  ∧ failed.(Wrapper.FailedAttempts) = (1 + 0 `max` 0)%Z
  ∧ (∀ t, (0 < t)%Z → available t (<[0 := succeeded]> [wrapper "alt"]) 0 = true)
  ∧ (succeeded.(Wrapper.FailedAttempts) < 0)%Z.
Proof.
  apply (backoff_of_attempt [wrapper "alt"] 0 (wrapper "alt") t0 (1 # 2)).
  - done.
  - unfold Qle, Qlt. simpl. lia.
  - done.
  - done.
Defined.
