(* ===== verification/SettingsClients.v ===== *)
(** What is asked of a store: [internal/loader/settings_client.go].

    The three settings clients list the settings of the selectors, get a
    sentinel, and compare the page ETags recorded at the last listing with the
    current ones.  The store is an interface of the calls they make; a pager is
    the list of the pages it yields, up to the first error.

    The main theorem says that the recorded ETags detect exactly the changes of
    the pages of a selector. *)

From S2P Require Import Prelude GoStrings Errors Api Json Filters Codec Data Clients.

(** ** The store *)

Module Page.
Record t := mk { Settings : option (list Setting.t); ETag : option string }.
End Page.

Module StoreSelector.  (** [azappconfig.SettingSelector] *)
Record t := mk {
  KeyFilter : option string;
  LabelFilter : option string;
  TagsFilter : list string;
}.
End StoreSelector.

(** The calls of [azappconfig.Client].  [ListSettings] takes the ETags of the
    match conditions; [GetSetting] the key, the label and the ETag of
    [OnlyIfChanged]; [GetSnapshot] returns the composition type. *)
Class Store `{SDK} := {
  ListSettings : client → StoreSelector.t → list (option ETag) → list (result Page.t);
  GetSetting : client → string → option string → option ETag → result Setting.t;
  GetSnapshot : client → string → result (option string);
  ListSettingsForSnapshot : client → string → list (result Page.t);
}.

Definition CompositionTypeKey : string := "key".

Module SettingsResponse.
Record t := mk {
  Settings : option (list Setting.t);
  Etags : option page_etags;
}.
#[global] Instance eta_response : Eta t := λ r, mk (Settings r) (Etags r).
End SettingsResponse.

(** The zero [azappconfig.Setting], which comes with an error. *)
Definition zero_setting : Setting.t := Setting.mk None None None None ∅ None.

Section clients.
Context `{Unicode} `{SDK} `{!Store}.

(** ** Listing *)

(** The loop over the pages of one selector: the settings and the ETags of
    the pages that have settings. *)
Fixpoint read_pages (pages : list (result Page.t))
    : result (list Setting.t * list (option ETag)) :=
  match pages with
  | [] => Ok ([], [])
  | p :: pages' =>
    page ← p;
    '(settings, etags) ← read_pages pages';
    Ok (match page.(Page.Settings) with
        | Some ss => (ss ++ settings, page.(Page.ETag) :: etags)
        | None => (settings, etags)
        end)
  end.

Definition loadSnapshotSettings (c : client) (snapshotName : string)
    : result (list Setting.t) :=
  match GetSnapshot c snapshotName with
  | Err err =>
    match as_ResponseError err with
    | Some (code, _) => if (code =? 404)%Z then Ok [] else Err err
    | None => Err err
    end
  | Panic => Panic
  | Ok composition =>
    if bool_decide (composition = Some CompositionTypeKey)
    then fst <$> read_pages (ListSettingsForSnapshot c snapshotName)
    else Err (Errorf ("compositionType for the selected snapshot '" +:+ snapshotName
                      +:+ "' must be 'key'"))
  end.

Definition store_selector (filter : Selector.t) : StoreSelector.t :=
  StoreSelector.mk filter.(Selector.KeyFilter) filter.(Selector.LabelFilter)
    (Selector.tags filter).

(** The loop over the selectors. *)
Fixpoint list_selectors (c : client) (selectors : list Selector.t)
    (settings : list Setting.t) (pageEtags : page_etags)
    : result (list Setting.t * page_etags) :=
  match selectors with
  | [] => Ok (settings, pageEtags)
  | filter :: selectors' =>
    match filter.(Selector.KeyFilter) with
    | Some _ =>
      '(ss, latestEtags) ← read_pages (ListSettings c (store_selector filter) []);
      list_selectors c selectors' (settings ++ ss)
        (<[MakeComparable filter := latestEtags]> pageEtags)
    | None =>
      name ← deref filter.(Selector.SnapshotName);
      ss ← loadSnapshotSettings c name;
      list_selectors c selectors' (settings ++ ss) pageEtags
    end
  end.

(** [SelectorSettingsClient.GetSettings] *)
Definition SelectorSettings (selectors : list Selector.t) (c : client)
    : result SettingsResponse.t :=
  '(settings, pageEtags) ← list_selectors c selectors [] ∅;
  Ok {| SettingsResponse.Settings := Some settings;
        SettingsResponse.Etags := Some pageEtags |}.

(** ** Sentinels *)

(** [SentinelSettingsClient.GetSettings]; [None] is a nil response. *)
Definition SentinelSettings (sentinel : Sentinel.t) (etag : option ETag) (c : client)
    : result (option SettingsResponse.t) :=
  match GetSetting c sentinel.(Sentinel.Key) (Sentinel.label sentinel) etag with
  | Ok s => Ok (Some (SettingsResponse.mk (Some [s]) None))
  | Panic => Panic
  | Err err =>
    match as_ResponseError err with
    | Some (404%Z, _) => Ok None
    | Some (304%Z, _) => Ok (Some (SettingsResponse.mk (Some [zero_setting]) None))
    | _ => Err err
    end
  end.

(** ** Page ETags *)

(** The loop over the pages of one selector: [true] as soon as a page has an
    ETag, otherwise whether the number of pages changed. *)
Fixpoint pages_changed (pages : list (result Page.t)) (pageCount expected : nat)
    : result bool :=
  match pages with
  | [] => Ok (negb (bool_decide (pageCount = expected)))
  | p :: pages' =>
    page ← p;
    match page.(Page.ETag) with
    | Some _ => Ok true
    | None => pages_changed pages' (pageCount + 1) expected
    end
  end.

Definition default_label (filter : Selector.t) : Selector.t :=
  match filter.(Selector.LabelFilter) with
  | None => filter <| Selector.LabelFilter := Some nul_string |>
  | Some _ => filter
  end.

Definition selector_changed (c : client) (e : ComparableSelector.t * list (option ETag))
    : result bool :=
  let filter := FromComparable e.1 in
  match filter.(Selector.KeyFilter) with
  | Some _ =>
    pages_changed (ListSettings c (store_selector (default_label filter)) e.2) 0 (length e.2)
  | None => Ok false
  end.

(** The loop over the selectors, up to the first change. *)
Fixpoint any_changed (c : client) (es : list (ComparableSelector.t * list (option ETag)))
    : result bool :=
  match es with
  | [] => Ok false
  | e :: es' =>
    changed ← selector_changed c e;
    if (changed : bool) then Ok true else any_changed c es'
  end.

(** [EtagSettingsClient.GetSettings]: non-nil ETags mean a change. *)
Definition EtagSettings `{MapOrder} (etags : page_etags) (c : client)
    : result SettingsResponse.t :=
  changed ← any_changed c (range_map etags);
  Ok {| SettingsResponse.Settings := None;
        SettingsResponse.Etags := if (changed : bool) then Some ∅ else None |}.
End clients.

(** ** A store with its pages *)

(** The pages of each selector: their settings and their ETag. *)
Definition store_pages : Type := StoreSelector.t → list (list Setting.t * ETag).

(** Listing under match conditions: a page whose ETag is the one of its
    condition is not sent again, and has no ETag. *)
Definition answer_page (condition : option (option ETag)) (p : list Setting.t * ETag) : Page.t :=
  if decide (condition = Some (Some p.2)) then Page.mk None None
  else Page.mk (Some p.1) (Some p.2).

Fixpoint answer_pages (conditions : list (option ETag)) (pages : list (list Setting.t * ETag))
    : list (result Page.t) :=
  match pages with
  | [] => []
  | p :: pages' => Ok (answer_page (head conditions) p) :: answer_pages (tail conditions) pages'
  end.

(** The store answers the client [c] from [pages]; the order of the tags of a
    selector does not matter to it. *)
Record answers `{SDK} `{!Store} (c : client) (pages : store_pages) : Prop := {
  answers_list sel conditions :
    ListSettings c sel conditions = answer_pages conditions (pages sel);
  answers_tags k l tags tags' :
    tags ≡ₚ tags' → pages (StoreSelector.mk k l tags) = pages (StoreSelector.mk k l tags');
}.

Definition page_tags (pages : list (list Setting.t * ETag)) : list (option ETag) :=
  Some <$> pages.*2.

Lemma read_answer_pages pages :
  read_pages (answer_pages [] pages) = Ok (pages.*1 ≫= id, page_tags pages).
Proof.
  induction pages as [|[ss e] pages IH]; [done|]. cbn [answer_pages read_pages head tail].
  unfold answer_page. rewrite decide_False by done. cbn [mbind outcome_bind].
  rewrite IH. done.
Qed.

Lemma pages_changed_answer conditions pages n :
  pages_changed (answer_pages conditions pages) n (n + length conditions)
  = Ok (negb (bool_decide (conditions = page_tags pages))).
Proof.
  revert conditions n. induction pages as [|[ss e] pages IH]; intros conditions n.
  - cbn [answer_pages pages_changed]. do 2 f_equal. apply bool_decide_ext.
    unfold page_tags. simpl. split; [intros; apply nil_length_inv; lia|intros ->; simpl; lia].
  - cbn [answer_pages pages_changed mbind outcome_bind]. unfold answer_page, page_tags.
    destruct conditions as [|x conditions]; [done|]. cbn [head tail].
    case_decide as Hx; simpl in Hx |- *.
    + simplify_eq. replace (n + S (length conditions)) with (n + 1 + length conditions) by lia.
      rewrite IH. do 2 f_equal. apply bool_decide_ext. unfold page_tags. naive_solver.
    + rewrite bool_decide_eq_false_2; [done|]. naive_solver.
Qed.

Section etags.
Context `{Unicode} `{SDK} `{!Store}.

Definition has_key (f : Selector.t) : bool :=
  match f.(Selector.KeyFilter) with Some _ => true | None => false end.

(** What the listing records, in the order of the selectors. *)
Lemma list_selectors_etags c pages selectors settings etags settings' etags' :
  answers c pages →
  list_selectors c selectors settings etags = Ok (settings', etags') →
  etags' = foldl (λ m f, <[MakeComparable f := page_tags (pages (store_selector f))]> m)
             etags (List.filter has_key selectors).
Proof.
  intros Ha. revert settings etags. induction selectors as [|f fs IH]; intros settings etags.
  - by intros [= <- <-].
  - cbn [list_selectors List.filter]. unfold has_key at 1.
    destruct (Selector.KeyFilter f) as [k|].
    + rewrite (answers_list _ _ Ha), read_answer_pages. cbn [mbind outcome_bind].
      intros Hl. by apply IH in Hl.
    + intros Hl. go_inv Hl. by eapply IH.
Qed.

Lemma foldl_insert_lookup {K A B} `{Countable K} (key : A → K) (val : A → B) l m k v :
  NoDup (key <$> l) →
  foldl (λ m f, <[key f := val f]> m) m l !! k = Some v ↔
  (∃ f, f ∈ l ∧ key f = k ∧ val f = v) ∨ (k ∉ (key <$> l) ∧ (m : gmap K B) !! k = Some v).
Proof.
  revert m. induction l as [|f l IH]; intros m; simpl.
  { set_solver. }
  rewrite NoDup_cons. intros [Hf Hnd]. rewrite IH by done.
  destruct (decide (key f = k)) as [<-|Hk].
  - rewrite lookup_insert_eq. set_solver.
  - rewrite lookup_insert_ne by done. set_solver.
Qed.

Lemma recorded_etags c pages selectors settings etags :
  answers c pages → NoDup (MakeComparable <$> selectors) →
  list_selectors c selectors [] ∅ = Ok (settings, etags) →
  ∀ k v, etags !! k = Some v ↔
    ∃ f, f ∈ List.filter has_key selectors ∧ MakeComparable f = k
         ∧ page_tags (pages (store_selector f)) = v.
Proof.
  intros Ha Hnd Hl k v. apply (list_selectors_etags _ _ _ _ _ _ _ Ha) in Hl as ->.
  pose proof (foldl_insert_lookup MakeComparable (λ f, page_tags (pages (store_selector f)))
    (List.filter has_key selectors) ∅ k v) as Hx.
  cbv beta in Hx. rewrite Hx.
  - rewrite lookup_empty. naive_solver.
  - eapply sublist_NoDup; [exact Hnd|]. apply fmap_sublist, List_filter_sublist.
Qed.

Lemma selector_changed_recorded c pages f tags :
  answers c pages → tags_valid f → is_Some f.(Selector.LabelFilter) →
  has_key f = true →
  selector_changed c (MakeComparable f, tags)
  = Ok (negb (bool_decide (tags = page_tags (pages (store_selector f))))).
Proof.
  intros Ha Hv [l Hl] Hk. unfold selector_changed. cbn [fst snd].
  pose proof (comparable_roundtrip f Hv) as (Hkey & Hlab & _ & Htags).
  unfold has_key in Hk. destruct (Selector.KeyFilter f) as [k|] eqn:Hkf; [|done].
  rewrite Hkey, (answers_list _ _ Ha).
  assert (pages (store_selector (default_label (FromComparable (MakeComparable f))))
          = pages (store_selector f)) as ->.
  { unfold default_label. rewrite Hlab, Hl. unfold store_selector.
    rewrite Hkey, Hlab, Hkf, Hl. by apply (answers_tags _ _ Ha). }
  apply (pages_changed_answer tags (pages (store_selector f)) 0).
Qed.

Lemma any_changed_existsb c es f :
  (∀ e, e ∈ es → selector_changed c e = Ok (f e)) → any_changed c es = Ok (existsb f es).
Proof.
  induction es as [|e es IH]; intros Hes; [done|]. simpl.
  rewrite (Hes e) by left. simpl. destruct (f e); [done|].
  apply IH. intros. apply Hes. by right.
Qed.
End etags.

(** ** Properties *)

Section detection.
Context `{Unicode} `{SDK} `{!Store} `{MapOrder}.

(** The pages of a selector have other ETags, or are more or fewer. *)
Definition pages_differ (before after : store_pages) (f : Selector.t) : bool :=
  has_key f && negb (bool_decide (page_tags (before (store_selector f))
                                  = page_tags (after (store_selector f)))).

(** C11: The page ETags recorded by a listing tell exactly whether a page of a
    selector has changed since, been added or removed, whatever the order in
    which the selectors are visited; the selectors must differ, and each have
    a label filter, as normalisation gives them. *)
Theorem etags_detect_changes c c' before after selectors resp etags :
  answers c before → answers c' after →
  NoDup (MakeComparable <$> selectors) →
  Forall (λ f, tags_valid f ∧ is_Some f.(Selector.LabelFilter)) selectors →
  SelectorSettings selectors c = Ok resp →
  resp.(SettingsResponse.Etags) = Some etags →
  EtagSettings etags c'
  = Ok (SettingsResponse.mk None
          (if existsb (pages_differ before after) selectors then Some ∅ else None)).
Proof.
  intros Hb Ha Hnd Hval Hresp Hetags. unfold SelectorSettings in Hresp.
  apply outcome_bind_Ok in Hresp as ([settings etags'] & Hl & [= <-]).
  simpl in Hetags. injection Hetags as ->.
  pose proof (recorded_etags _ _ _ _ _ Hb Hnd Hl) as Hlook.
  assert (∀ f, f ∈ List.filter has_key selectors →
    selector_changed c' (MakeComparable f, page_tags (before (store_selector f)))
    = Ok (pages_differ before after f)) as Hchg.
  { intros f [Hin Hk]%elem_of_filter_bool. rewrite Forall_forall in Hval.
    destruct (Hval f Hin) as [Hv Hlab].
    rewrite (selector_changed_recorded _ _ _ _ Ha Hv Hlab Hk).
    unfold pages_differ. by rewrite Hk. }
  unfold EtagSettings.
  set (chg := λ e, match selector_changed c' e with Ok b => b | _ => false end).
  rewrite (any_changed_existsb c' (range_map etags) chg).
  2:{ intros [k v] (f & Hf & <- & <-)%elem_of_range%Hlook. unfold chg. by rewrite (Hchg f Hf). }
  cbn [mbind outcome_bind]. do 2 f_equal.
  replace (existsb chg (range_map etags)) with (existsb (pages_differ before after) selectors);
    [done|].
  apply eq_bool_prop_intro. rewrite !Is_true_true, !existsb_true. split.
  - intros (f & Hf & Hd). exists (MakeComparable f, page_tags (before (store_selector f))).
    assert (f ∈ List.filter has_key selectors) as Hin.
    { apply elem_of_filter_bool. split; [done|].
      unfold pages_differ in Hd. by apply andb_true_iff in Hd as [? _]. }
    split; [apply elem_of_range, Hlook; eauto|]. unfold chg. by rewrite (Hchg f Hin).
  - intros ([k v] & (f & Hf & <- & <-)%elem_of_range%Hlook & Hd).
    exists f. unfold chg in Hd. rewrite (Hchg f Hf) in Hd. split; [|done].
    by apply elem_of_filter_bool in Hf as [? _].
Qed.
End detection.

(** The selector used when the specification has none lists the settings of
    every label, but its pages are compared with those of no label: a store
    that did not change is reported as changed when the two differ. *)
Lemma default_selector_compared_with_no_label `{Unicode} `{SDK} `{!Store}
    c pages tags :
  answers c pages →
  selector_changed c (MakeComparable wildcard_filter, tags)
  = Ok (negb (bool_decide
      (tags = page_tags (pages (StoreSelector.mk (Some "*") (Some nul_string) []))))).
Proof.
  intros Ha. unfold selector_changed.
  change (FromComparable _) with wildcard_filter. simpl.
  rewrite (answers_list _ _ Ha).
  apply (pages_changed_answer tags _ 0).
Qed.

(** ** Witness *)

Module SettingsClientsWitness.
Import ClientsWitness.

(** The client [new] sees a store where a page of the key [b*] has changed. *)
Definition pages (new : bool) : store_pages := λ s,
  if bool_decide (s.(StoreSelector.KeyFilter) = Some "b*")
  then [([], "e1"); ([], if new then "e3" else "e2")] else [([], "e0")].
Definition new : @client sdk := ("new" : string).
Definition old : @client sdk := ("old" : string).
Definition is_new : @client sdk → bool := String.eqb "new".
Definition store : @Store sdk := {|
  ListSettings c sel conditions := answer_pages conditions (pages (is_new c) sel);
  GetSetting _ _ _ _ := Err (ResponseError 404 EmptyString "not found");
  GetSnapshot _ _ := Err (ResponseError 404 EmptyString "not found");
  ListSettingsForSnapshot _ _ := [];
|}.
#[export] Existing Instance store.

Lemma store_answers (c : @client sdk) : answers c (pages (is_new c)).
Proof. by split. Qed.

Definition selectors : list Selector.t :=
  [FiltersWitness.sel "a*" "prod" ["t=1"; "s=2"]; FiltersWitness.sel "b*" "prod" []].
Definition recorded : page_etags :=
  {[MakeComparable (FiltersWitness.sel "a*" "prod" ["t=1"; "s=2"]) := [Some "e0"];
    MakeComparable (FiltersWitness.sel "b*" "prod" []) := [Some "e1"; Some "e2"]]}.
End SettingsClientsWitness.
Import ClientsWitness SettingsClientsWitness.

Lemma etags_detect_changes_witness :
  @EtagSettings _ _ _ reverse_order recorded new
  = Ok (SettingsResponse.mk None
          (if existsb (pages_differ (pages false) (pages true)) selectors
           then Some ∅ else None)).
Proof.
  apply (@etags_detect_changes _ _ _ reverse_order old new (pages false) (pages true)
    selectors (SettingsResponse.mk (Some []) (Some recorded)) recorded).
  - apply (store_answers old).
  - apply (store_answers new).
  - apply (bool_decide_eq_true_1 _). vm_compute. reflexivity.
  - repeat constructor; by eexists.
  - vm_compute. reflexivity.
  - reflexivity.
Defined.

Example change_found : existsb (pages_differ (pages false) (pages true)) selectors = true.
Proof. vm_compute. reflexivity. Qed.
