(* ===== verification/Auth.v ===== *)
(** Credentials and the first client:
    [CreateTokenCredential] and [NewConfigurationClientManager] of
    [internal/loader/configuration_client_manager.go], with the helpers that
    read ConfigMaps, Secrets and service accounts.

    [azidentity] and the cluster are interfaces.  The theorem says that the
    manager built satisfies the invariant of [Clients.v]. *)

From S2P Require Import Prelude GoStrings Errors Api Data Url ConnString Backoff Clients.

(** ** Interfaces *)

(** The cluster as the loader reaches it: the configuration of the process, a
    client of the API built from it, [client.Get] on a ConfigMap, a Secret and a
    service account (of which the annotations are read), and the clientset that
    makes tokens for a service account. *)
Class Cluster := {
  rest_config : Type;
  kube_client : Type;
  clientset : Type;
  GetConfig : result rest_config;
  NewKubeClient : rest_config → result kube_client;
  Get_ConfigMap : kube_client → string → string → result ConfigMap.t;
  Get_Secret : kube_client → string → string → result Secret.t;
  Get_ServiceAccount : kube_client → string → string → result (gmap string string);
  NewForConfig : rest_config → result clientset;
  CreateToken : clientset → string → string → list string → result string;
}.

(** The constructors of [azidentity]; the last is given the function that makes
    an assertion. *)
Class Identity `{SDK} := {
  NewManagedIdentityCredential : option string → result credential;
  NewWorkloadIdentityCredential : string → result credential;
  NewClientSecretCredential : string → string → string → result credential;
  NewClientAssertionCredential : string → string → (() → result string) → result credential;
}.

Class UUIDParser := uuid_valid : string → bool.

(** The [AZURE_TENANT_ID] environment variable. *)
Class TenantEnv := tenant_env : option string.

Definition AzureClientId : string := "azure_client_id".
Definition AzureClientSecret : string := "azure_client_secret".
Definition AzureTenantId : string := "azure_tenant_id".
Definition AzureAppConfigurationConnectionString : string :=
  "azure_app_configuration_connection_string".
Definition ApiTokenExchangeAudience : string := "api://AzureADTokenExchange".
Definition AnnotationClientID : string := "azure.workload.identity/client-id".
Definition AnnotationTenantID : string := "azure.workload.identity/tenant-id".

(** [if err != nil { return fmt.Errorf("<msg>: %s", err) }] *)
Definition wrap_error {A} (f : string → string) (o : result A) : result A :=
  match o with Err err => Err (Errorf (f (Error err))) | _ => o end.

Section auth.
Context `{Unicode} `{IPLiterals} `{SDK} `{!Identity} `{Cluster} `{UUIDParser} `{TenantEnv}.

Definition getConfigMap (namespace name : string) : result ConfigMap.t :=
  cfg ← GetConfig;
  client ← NewKubeClient cfg;
  Get_ConfigMap client namespace name.

Definition GetSecret (namespace name : string) : result Secret.t :=
  cfg ← GetConfig;
  client ← NewKubeClient cfg;
  Get_Secret client namespace name.

(** The assertion is a token of the service account, asked for each time. *)
Definition newGetAssertionFunc (serviceAccountNamespace serviceAccountName : string)
    : () → result string := λ _,
  cfg ← GetConfig;
  kubeClient ← NewForConfig cfg;
  CreateToken kubeClient serviceAccountNamespace serviceAccountName [ApiTokenExchangeAudience].

Definition getWorkloadIdentityClientId (wi : WorkloadIdentity.t) (namespace : string)
    : result string :=
  match wi.(WorkloadIdentity.ManagedIdentityClientIdReference) with
  | None => deref wi.(WorkloadIdentity.ManagedIdentityClientId)
  | Some (name, key) =>
    configMap ← getConfigMap namespace name;
    match ConfigMap.data configMap !! key with
    | None => Err (Errorf ("key '" +:+ key +:+ "' does not exist"))
    | Some managedIdentityClientId =>
      if uuid_valid managedIdentityClientId then Ok managedIdentityClientId
      else Err (Errorf ("managedIdentityClientId " +:+ Strconv.Quote managedIdentityClientId
                        +:+ " is not a valid uuid"))
    end
  end.

Definition getConnectionStringParameter (namespace name : string) : result string :=
  secret ← GetSecret namespace name;
  match Secret.data secret !! AzureAppConfigurationConnectionString with
  | None =>
    Err (Errorf ("key '" +:+ AzureAppConfigurationConnectionString +:+ "' does not exist"))
  | Some s => Ok s
  end.

(** The client id, the secret and the tenant id; a missing key reads as the
    empty string. *)
Definition getServicePrincipleAuthenticationParameters (namespace name : string)
    : result (string * string * string) :=
  secret ← GetSecret namespace name;
  let get k := default EmptyString (Secret.data secret !! k) in
  Ok (get AzureClientId, get AzureClientSecret, get AzureTenantId).

Definition newClientAssertionCredential (serviceAccountName namespace : string)
    : result credential :=
  cfg ← GetConfig;
  client ← NewKubeClient cfg;
  annotations ← Get_ServiceAccount client namespace serviceAccountName;
  match annotations !! AnnotationClientID with
  | None =>
    Err (Errorf ("annotation '" +:+ AnnotationClientID +:+ "' of service account "
                 +:+ namespace +:+ "/" +:+ serviceAccountName +:+ " is required"))
  | Some clientId =>
    tenantId ←
      match annotations !! AnnotationTenantID with
      | Some t => Ok t
      | None =>
        match tenant_env with
        | Some t => Ok t
        | None =>
          Err (Errorf ("annotation '" +:+ AnnotationTenantID +:+ "' of service account "
                       +:+ namespace +:+ "/" +:+ serviceAccountName
                       +:+ " is required since using global service account for workload identity is disabled"))
        end
      end;
    NewClientAssertionCredential tenantId clientId
      (newGetAssertionFunc namespace serviceAccountName)
  end.

(** [Ok None] is a nil credential without an error.  Reading the client id of
    a workload identity fails only when the reference is set, so its
    ConfigMap can be named in the message. *)
Definition CreateTokenCredential (acpAuth : option Auth.t) (namespace : string)
    : result (option credential) :=
  match acpAuth with
  | None => Some <$> NewManagedIdentityCredential None
  | Some auth =>
    match auth.(Auth.WorkloadIdentity) with
    | Some wi =>
      match wi.(WorkloadIdentity.ServiceAccountName) with
      | Some name => Some <$> newClientAssertionCredential name namespace
      | None =>
        let configMap :=
          from_option fst EmptyString wi.(WorkloadIdentity.ManagedIdentityClientIdReference) in
        clientId ← wrap_error (λ e, "fail to retrieve workload identity client ID from configMap '"
                                    +:+ configMap +:+ "' : " +:+ e)
                     (getWorkloadIdentityClientId wi namespace);
        Some <$> NewWorkloadIdentityCredential clientId
      end
    | None =>
      match auth.(Auth.ServicePrincipalReference) with
      | Some name =>
        '(clientId, clientSecret, tenantId) ←
          wrap_error (λ e, "fail to retrieve service principal secret from '" +:+ name
                           +:+ "': " +:+ e)
            (getServicePrincipleAuthenticationParameters namespace name);
        Some <$> NewClientSecretCredential tenantId clientId clientSecret
      | None =>
        match auth.(Auth.ManagedIdentityClientId) with
        | Some id => Some <$> NewManagedIdentityCredential (Some id)
        | None => Ok None
        end
      end
    end
  end.

(** The endpoint, the secret, the id, the credential and the first client. *)
Definition connect (provider : Provider.t)
    : result (string * string * string * option credential * client) :=
  let spec := provider.(Provider.Spec) in
  match spec.(Spec.ConnectionStringReference) with
  | Some ref =>
    connectionString ←
      wrap_error (λ e, "fail to retrieve connection string from secret '" +:+ ref
                       +:+ "': " +:+ e)
        (getConnectionStringParameter provider.(Provider.Namespace) ref);
    endpoint ← parseConnectionString connectionString EndpointSection;
    _ ← verifyEndpointFromConnectionString endpoint;
    secret ← parseConnectionString connectionString SecretSection;
    id ← parseConnectionString connectionString IdSection;
    c ← NewClientFromConnectionString connectionString newClientOptions;
    Ok (endpoint, secret, id, None, c)
  | None =>
    cred ← CreateTokenCredential spec.(Spec.Auth) provider.(Provider.Namespace);
    endpoint ← deref spec.(Spec.Endpoint);
    c ← NewClient endpoint cred newClientOptions;
    Ok (endpoint, EmptyString, EmptyString, cred, c)
  end.

Definition NewConfigurationClientManager (provider : Provider.t) : result Clients.t :=
  '(endpoint, secret, id, cred, c) ← connect provider;
  validDomain ← getValidDomain endpoint;
  Ok {| Clients.manager :=
          Manager.mk _ provider.(Provider.Spec).(Spec.ReplicaDiscoveryEnabled)
            provider.(Provider.Spec).(Spec.LoadBalancingEnabled)
            [0] None validDomain endpoint cred secret id Time.zero Time.zero EmptyString;
        Clients.heap := [Wrapper.fresh endpoint c] |}.

Lemma new_manager_good provider s : NewConfigurationClientManager provider = Ok s → good s.
Proof.
  intros Hs. unfold NewConfigurationClientManager in Hs.
  apply outcome_bind_Ok in Hs as ([[[[endpoint secret] id] cred] c] & Hc & Hs).
  apply outcome_bind_Ok in Hs as (dom & Hdom & [= <-]).
  split; [repeat constructor|]. split; [constructor|]. cbn.
  unfold getValidDomain in Hdom. by destruct (url_parse endpoint).
Qed.

(** What the manager [m] and its first client [c] are made from: the endpoint
    and the credential of the specification, or the sections of the connection
    string in the Secret that it names. *)
Definition made_for (provider : Provider.t) (m : Manager.t) (c : client) : Prop :=
  let spec := provider.(Provider.Spec) in
  match spec.(Spec.ConnectionStringReference) with
  | None =>
    spec.(Spec.Endpoint) = Some m.(Manager.endpoint)
    ∧ CreateTokenCredential spec.(Spec.Auth) provider.(Provider.Namespace)
      = Ok m.(Manager.credential_)
    ∧ NewClient m.(Manager.endpoint) m.(Manager.credential_) newClientOptions = Ok c
  | Some ref =>
    m.(Manager.credential_) = None
    ∧ ∃ text, getConnectionStringParameter provider.(Provider.Namespace) ref = Ok text
      ∧ parseConnectionString text EndpointSection = Ok m.(Manager.endpoint)
      ∧ parseConnectionString text SecretSection = Ok m.(Manager.secret)
      ∧ parseConnectionString text IdSection = Ok m.(Manager.id)
      ∧ verifyEndpointFromConnectionString m.(Manager.endpoint) = Ok ()
      ∧ NewClientFromConnectionString text newClientOptions = Ok c
  end.

Lemma wrap_error_Ok {A} f (o : result A) a : wrap_error f o = Ok a → o = Ok a.
Proof. by destruct o. Qed.

(** C33: The client manager built for a provider satisfies the invariant, so
    that every theorem about the manager applies to it: its static clients are
    one client, fresh, made for the endpoint and the credential of the
    specification, or, with a connection string, from the endpoint, secret and
    id sections of the string in the Secret; there is no replica yet, and none
    was looked up, so the first use may look them up. *)
Theorem NewConfigurationClientManager_good provider s :
  NewConfigurationClientManager provider = Ok s →
  let m := s.(Clients.manager) in
  good s
  ∧ (∃ c, m.(Manager.StaticClientWrappers) = [0]
       ∧ s.(Clients.heap) = [Wrapper.fresh m.(Manager.endpoint) c]
       ∧ made_for provider m c)
  ∧ m.(Manager.DynamicClientWrappers) = None
  ∧ (∀ now, (MinimalClientRefreshInterval < now)%Z →
       attempt_due now m = true ∧ refresh_due now m = true)
  ∧ m.(Manager.ReplicaDiscoveryEnabled) = provider.(Provider.Spec).(Spec.ReplicaDiscoveryEnabled)
  ∧ m.(Manager.lastSuccessfulEndpoint) = EmptyString.
Proof.
  intros Hs m. split; [by eapply new_manager_good|].
  unfold m. unfold NewConfigurationClientManager in Hs.
  apply outcome_bind_Ok in Hs as ([[[[endpoint secret] id] cred] c] & Hc & Hs).
  apply outcome_bind_Ok in Hs as (dom & Hdom & [= <-]). cbn.
  split; [|split; [done|split; [|done]]].
  - exists c. split; [done|]. split; [done|]. unfold made_for, connect in *. cbn.
    destruct (Spec.ConnectionStringReference _) as [ref|].
    + apply outcome_bind_Ok in Hc as (text & Ht%wrap_error_Ok & Hc).
      apply outcome_bind_Ok in Hc as (e & He & Hc).
      apply outcome_bind_Ok in Hc as ([] & Hv & Hc).
      apply outcome_bind_Ok in Hc as (sec & Hsec & Hc).
      apply outcome_bind_Ok in Hc as (i & Hi & Hc).
      apply outcome_bind_Ok in Hc as (c' & Hc' & [= <- <- <- <- <-]). split; [done|].
      by exists text.
    + apply outcome_bind_Ok in Hc as (cred' & Hcred & Hc).
      apply outcome_bind_Ok in Hc as (e & He & Hc).
      apply outcome_bind_Ok in Hc as (c' & Hc' & [= <- <- <- <- <-]).
      by destruct (Spec.Endpoint _); simplify_eq/=.
  - intros now Hnow. unfold attempt_due, Time.After, Time.Add. cbn. split; [|done].
    unfold Time.zero, MinimalClientRefreshInterval in *. lia.
Qed.
End auth.

(** ** Witness *)

Module AuthWitness.
Import ClientsWitness.

Definition cluster : Cluster := {|
  rest_config := unit; kube_client := unit; clientset := unit;
  GetConfig := Ok tt; NewKubeClient _ := Ok tt; NewForConfig _ := Ok tt;
  Get_ConfigMap _ _ _ := Err (StatusError true "not found");
  Get_Secret _ _ name :=
    if String.eqb name "conn" then
      Ok (Secret.make SecretTypeOpaque
            {[AzureAppConfigurationConnectionString :=
                "Endpoint=https://store.azconfig.io;Id=abc;Secret=c2VjcmV0"]})
    else Err (StatusError true "not found");
  Get_ServiceAccount _ _ _ := Err (StatusError true "not found");
  CreateToken _ _ _ _ := Ok "token";
|}.
Definition identity : @Identity sdk := {|
  NewManagedIdentityCredential _ := Ok tt;
  NewWorkloadIdentityCredential _ := Ok tt;
  NewClientSecretCredential _ _ _ := Ok tt;
  NewClientAssertionCredential _ _ _ := Ok tt;
|}.
Definition uuids : UUIDParser := λ _, true.
Definition no_tenant : TenantEnv := None.
Definition provider : Provider.t :=
  Provider.mk "p" "ns" "uid" 1 ∅ ∅
    (Spec.mk None true false (Some "conn") (Target.mk "cm" None) None
       (KeyValueOptions.mk [] [] None) None None)
    (Status.mk 0%Z 0%Z NoPhase EmptyString (RefreshStatus.mk 0%Z 0%Z 0%Z)).
End AuthWitness.
Import ClientsWitness AuthWitness.

Lemma NewConfigurationClientManager_good_witness :
  ∃ s, @NewConfigurationClientManager _ _ _ identity cluster uuids no_tenant provider = Ok s
    ∧ good s
    ∧ s.(Clients.manager).(Manager.endpoint) = "https://store.azconfig.io"
    ∧ ∃ c, s.(Clients.heap) = [Wrapper.fresh s.(Clients.manager).(Manager.endpoint) c]
        ∧ @made_for _ _ _ identity cluster uuids no_tenant provider s.(Clients.manager) c.
Proof.
  eexists. split; [vm_compute; reflexivity|].
  destruct (@NewConfigurationClientManager_good _ _ _ identity cluster uuids no_tenant provider
    _ ltac:(vm_compute; reflexivity)) as (Hg & (c & _ & Hh & Hm) & _).
  split; [exact Hg|]. split; [reflexivity|]. exists c. split; [exact Hh|exact Hm].
Defined.
