(* ===== verification/KeyVault.v ===== *)
(** Key Vault references and secrets:
    [internal/loader/keyvault_reference_resolver.go], and [parseSecretType],
    [createSecretClients], [decodePem], [decodePkcs12], [parsePemBlock] and
    [MergeSecret] of [internal/loader/configuration_setting_loader.go].

    The Key Vault SDK and the cryptography are interfaces.  The theorems: a
    reference is parsed to the parts of its path; the cache of secret clients
    never changes what a reference resolves to, in whatever order goroutines
    resolve; the decoded certificate keeps its blocks in order. *)

From S2P Require Import Prelude GoStrings Errors Url Api Json Filters Codec Data ConnString Clients Auth.
From Stdlib Require Import Ascii.

(** ** Parsing a reference *)

(** [json.Unmarshal] into a structure with one string field: a member is the
    field's when its name is, up to case; the last one counts, and a value of
    another type leaves the field and is an error, the first of which is
    returned. *)
Section string_field.
Context `{Unicode} (struct_name type_name field : string).

Definition is_field (k : string) : bool := String.eqb k field || Strings.EqualFold k field.

Fixpoint field_loop (value : string) (e : option error) (members : list (string * json))
    : result string :=
  match members with
  | [] => match e with Some e => Err e | None => Ok value end
  | (k, j) :: members' =>
    if is_field k then
      match j with
      | JString s => field_loop s e members'
      | JNull => field_loop value e members'
      | _ =>
        let e' := ForeignError false ("json: cannot unmarshal " +:+ json_kind j
          +:+ " into Go struct field " +:+ struct_name +:+ "." +:+ field
          +:+ " of type string") None in
        field_loop value (Some (default e' e)) members'
      end
    else field_loop value e members'
  end.

Definition unmarshal_field (text : string) : result string :=
  j ← parse_json text;
  match j with
  | JObject members => field_loop EmptyString None members
  | JNull => Ok EmptyString
  | _ => Err (UnmarshalTypeError (json_kind j) type_name)
  end.
End string_field.

Section parse.
Context `{Unicode} `{IPLiterals}.

Definition parse (settingValue : string) : result KeyVaultSecretMetadata.t :=
  uri ← unmarshal_field "SecretReference" "loader.SecretReference" "uri" settingValue;
  secretUrl ← Parse uri;
  let trimmedPath := Strings.TrimPrefix secretUrl.(URL.Path) "/" in
  let segments := Strings.Split trimmedPath "/" in
  match segments with
  | s0 :: s1 :: rest =>
    if negb (String.eqb (Strings.ToLower s0) "secrets") || String.eqb s1 EmptyString
    then Err (Errorf ("not a valid url in Key Vault reference type setting '"
                      +:+ settingValue +:+ "', not a valid item"))
    else
      Ok {| KeyVaultSecretMetadata.HostName := Strings.ToLower secretUrl.(URL.Host);
            KeyVaultSecretMetadata.SecretName := s1;
            KeyVaultSecretMetadata.SecretVersion := from_option id EmptyString (head rest) |}
  | _ => Err (Errorf ("not a valid url in Key Vault reference type setting '"
                      +:+ settingValue +:+ "', not a valid item"))
  end.

(** [parseSnapshotReference] *)
Definition parseSnapshotReference (ref : string) : result string :=
  match unmarshal_field EmptyString
          ("struct { SnapshotName string " +:+ dquote +:+ "json:" +:+ char_string backslash
           +:+ dquote +:+ "snapshot_name" +:+ char_string backslash +:+ dquote +:+ dquote +:+ " }")
          "snapshot_name" ref with
  | Err err => Err (Errorf ("failed to parse snapshot reference: " +:+ Error err))
  | Panic => Panic
  | Ok name =>
    if String.eqb name EmptyString
    then Err (Errorf "snapshot_name is empty in snapshot reference") else Ok name
  end.
End parse.

Definition parseSecretType `{Unicode} (secretType : string) : result string :=
  let secretTypeMap : gmap string string :=
    {["opaque" := SecretTypeOpaque; "kubernetes.io/tls" := SecretTypeTLS]} in
  match secretTypeMap !! secretType with
  | Some parsedType =>
    if negb (String.eqb parsedType SecretTypeTLS)
    then Err (Errorf ("secret type " +:+ Strconv.Quote secretType +:+ " is not supported"))
    else Ok parsedType
  | None => Err (Errorf ("secret type " +:+ Strconv.Quote secretType +:+ " is not supported"))
  end.

(** ** The resolver and its cache *)

(** [azsecrets]: a client of a vault, built for a URL with a credential, and
    [GetSecret] by name and version. *)
Class Vault `{SDK} := {
  vault_client : Type;
  NewVaultClient : string → option credential → result vault_client;
  GetVaultSecret : vault_client → string → string → result SecretResponse.t;
}.

Module KeyVaultConnector.
Record t `{SDK} `{!Vault} := mk {
  DefaultTokenCredential : option credential;
  Clients : gmap string vault_client;
}.
End KeyVaultConnector.

Section resolver.
Context `{Unicode} `{IPLiterals} `{SDK} `{!Vault}.

(** One atomic run of [Resolve]; the cache is a concurrent map. *)
Definition Resolve (md : KeyVaultSecretMetadata.t)
    : goM KeyVaultConnector.t error SecretResponse.t := λ resolver,
  let host := md.(KeyVaultSecretMetadata.HostName) in
  match resolver.(KeyVaultConnector.Clients) !! host with
  | Some c =>
    (GetVaultSecret c md.(KeyVaultSecretMetadata.SecretName)
       md.(KeyVaultSecretMetadata.SecretVersion), resolver)
  | None =>
    match NewVaultClient ("https://" +:+ host)
            resolver.(KeyVaultConnector.DefaultTokenCredential) with
    | Ok c =>
      (GetVaultSecret c md.(KeyVaultSecretMetadata.SecretName)
         md.(KeyVaultSecretMetadata.SecretVersion),
       KeyVaultConnector.mk _ _ resolver.(KeyVaultConnector.DefaultTokenCredential)
         (<[host := c]> resolver.(KeyVaultConnector.Clients)))
    | Err err => (Err err, resolver)
    | Panic => (Panic, resolver)
    end
  end.

Fixpoint resolve_sequence (mds : list KeyVaultSecretMetadata.t)
    (resolver : KeyVaultConnector.t) : list (result SecretResponse.t) :=
  match mds with
  | [] => []
  | md :: mds' =>
    let '(o, resolver') := Resolve md resolver in o :: resolve_sequence mds' resolver'
  end.

(** The client of a vault: the one configured for it, or a new one with the
    default credential. *)
Definition client_of (resolver : KeyVaultConnector.t) (host : string)
    : result vault_client :=
  match resolver.(KeyVaultConnector.Clients) !! host with
  | Some c => Ok c
  | None =>
    NewVaultClient ("https://" +:+ host) resolver.(KeyVaultConnector.DefaultTokenCredential)
  end.

Definition resolves_to (resolver : KeyVaultConnector.t) (md : KeyVaultSecretMetadata.t)
    : result SecretResponse.t :=
  c ← client_of resolver md.(KeyVaultSecretMetadata.HostName);
  GetVaultSecret c md.(KeyVaultSecretMetadata.SecretName)
    md.(KeyVaultSecretMetadata.SecretVersion).

Lemma Resolve_result md resolver : (Resolve md resolver).1 = resolves_to resolver md.
Proof.
  unfold Resolve, resolves_to, client_of. destruct (_ !! _); [done|].
  by destruct (NewVaultClient _ _).
Qed.

Lemma Resolve_keeps_clients md resolver host :
  client_of (Resolve md resolver).2 host = client_of resolver host.
Proof.
  unfold Resolve, client_of. destruct (_ !! KeyVaultSecretMetadata.HostName md) eqn:Hc; [done|].
  destruct (NewVaultClient _ _) as [c| |] eqn:Hn; [|done|done]. simpl.
  destruct (decide (host = KeyVaultSecretMetadata.HostName md)) as [->|Hne].
  - by rewrite lookup_insert_eq, Hc, Hn.
  - by rewrite lookup_insert_ne.
Qed.

(** The cache of vault clients is transparent: in whatever order
    references are resolved, each resolves to what it would have alone, with
    the client configured for its vault or a new one. *)
Theorem Resolve_order_independent mds resolver :
  resolve_sequence mds resolver = resolves_to resolver <$> mds.
Proof.
  revert resolver. induction mds as [|md mds IH]; intros resolver; [done|].
  cbn [resolve_sequence]. rewrite fmap_cons, <-Resolve_result.
  destruct (Resolve md resolver) as [o resolver'] eqn:Hr. rewrite IH. simpl. f_equal.
  apply list_fmap_ext. intros i md' _. unfold resolves_to.
  pose proof (Resolve_keeps_clients md resolver (KeyVaultSecretMetadata.HostName md')) as Hk.
  by rewrite Hr in Hk; simpl in Hk; rewrite Hk.
Qed.

(** [createSecretClients]: the clients of the vaults with their own
    credential.  A URL that does not parse is a nil pointer. *)
Fixpoint secret_clients_loop (create : option Auth.t → result (option credential))
    (vaults : list VaultAuth.t) (clients : gmap string vault_client)
    : result (gmap string vault_client) :=
  match vaults with
  | [] => Ok clients
  | keyVault :: vaults' =>
    tokenCredential ← create keyVault.(VaultAuth.auth);
    url ← deref (url_parse keyVault.(VaultAuth.Uri));
    let hostName := Strings.ToLower url.(URL.Host) in
    newSecretClient ← NewVaultClient ("https://" +:+ hostName) tokenCredential;
    secret_clients_loop create vaults' (<[hostName := newSecretClient]> clients)
  end.

Definition createSecretClients (create : option Auth.t → result (option credential))
    (spec : Spec.t) : result (gmap string vault_client) :=
  match spec.(Spec.Secret) with
  | Some s =>
    match s.(SecretReference.Auth) with
    | Some a => secret_clients_loop create a.(KeyVaultAuth.KeyVaults) ∅
    | None => Ok ∅
    end
  | None => Ok ∅
  end.

(** [createSecretReferenceResolver] *)
Definition createSecretReferenceResolver (create : option Auth.t → result (option credential))
    (spec : Spec.t) : result KeyVaultConnector.t :=
  let defaultAuth :=
    s ← spec.(Spec.Secret); a ← s.(SecretReference.Auth); a.(KeyVaultAuth.auth) in
  defaultCred ← create defaultAuth;
  secretClients ← createSecretClients create spec;
  Ok (KeyVaultConnector.mk _ _ defaultCred secretClients).
End resolver.

(** ** Certificates *)

Module Block.  (** [pem.Block] *)
Record t := mk { Type_ : string; Headers : gmap string string; Bytes : string }.
End Block.

(** [encoding/pem], [encoding/base64], [crypto/x509] and [pkcs12]; [pem_decode]
    returns a block and the rest of the text. *)
Class Crypto := {
  private_key : Type;
  base64_decode : string → result string;
  pkcs12_to_pem : string → result (list Block.t);
  pem_decode : string → option (Block.t * string);
  pem_encode : Block.t → string;
  parse_pkcs1 : string → option private_key;
  parse_pkcs8 : string → option private_key;
  parse_ec : string → option private_key;
  marshal_pkcs8 : private_key → result string;
}.

(** A block is read from the text: the rest is shorter. *)
Class CryptoOk `{Crypto} : Prop :=
  pem_decode_shorter s b r : pem_decode s = Some (b, r) → str_length r < str_length s.

Definition TlsKey : string := "tls.key".
Definition TlsCrt : string := "tls.crt".
Definition CertTypePem : string := "application/x-pem-file".
Definition CertTypePfx : string := "application/x-pkcs12".
Definition BlockCertificate : string := "CERTIFICATE".

Section certificates.
Context `{Crypto}.

Definition parsePrivateKey (block : string) : result private_key :=
  match parse_pkcs1 block, parse_pkcs8 block, parse_ec block with
  | Some key, _, _ => Ok key
  | None, Some key, _ => Ok key
  | None, None, Some key => Ok key
  | None, None, None => Err (Errorf "failed to parse key for type pkcs1, pkcs8 or ec")
  end.

(** The loop of [parsePemBlock], with the data collected so far. *)
Fixpoint pem_loop (blocks : list Block.t) (pemKeyData pemCertData : string)
    : result (string * string) :=
  match blocks with
  | [] => Ok (pemKeyData, pemCertData)
  | block :: blocks' =>
    if String.eqb block.(Block.Type_) BlockCertificate
    then pem_loop blocks' pemKeyData
           (pemCertData +:+ pem_encode (Block.mk block.(Block.Type_) ∅ block.(Block.Bytes)))
    else
      key ← parsePrivateKey block.(Block.Bytes);
      bytes ← marshal_pkcs8 key;
      pem_loop blocks' (pemKeyData +:+ pem_encode (Block.mk block.(Block.Type_) ∅ bytes))
        pemCertData
  end.

(** The key and the certificate. *)
Definition parsePemBlock (pemBlock : list Block.t) : result (string * string) :=
  pem_loop pemBlock EmptyString EmptyString.

Fixpoint pem_blocks (fuel : nat) (text : string) : list Block.t :=
  match fuel with
  | O => []
  | S fuel' =>
    match pem_decode text with
    | Some (b, rest) => b :: pem_blocks fuel' rest
    | None => []
    end
  end.

(** Each block shortens the text, whose length is fuel enough
    ([pem_blocks_fuel]). *)
Definition decodePem (value : string) : result (string * string) :=
  let pemBlocks := pem_blocks (S (str_length value)) value in
  if bool_decide (length pemBlocks = 0)
  then Err (Errorf "failed to decode pem block") else parsePemBlock pemBlocks.

Definition decodePkcs12 (value : string) : result (string * string) :=
  pfxRaw ← base64_decode value;
  pemBlock ← pkcs12_to_pem pfxRaw;
  parsePemBlock pemBlock.

Lemma pem_blocks_fuel `{!CryptoOk} text fuel :
  str_length text < fuel → pem_blocks fuel text = pem_blocks (S (str_length text)) text.
Proof.
  remember (str_length text) as n eqn:Hn. revert text fuel Hn.
  induction (lt_wf n) as [n _ IH]; intros text fuel -> Hf.
  destruct fuel as [|fuel]; [lia|]. cbn [pem_blocks].
  destruct (pem_decode text) as [[b rest]|] eqn:Hd; [|done]. f_equal.
  apply pem_decode_shorter in Hd.
  rewrite (IH (str_length rest) Hd rest fuel), (IH (str_length rest) Hd rest (str_length text));
    done || lia.
Qed.
End certificates.

(** ** Merging secrets *)

(** The loop of [MergeSecret], which updates [secret] in place: what it has
    done before an error stays.  A write to the nil data of a secret panics. *)
Fixpoint merge_loop `{Unicode} (entries : list (string * Secret.t))
    : goM (gmap string Secret.t) error () := λ secret,
  match entries with
  | [] => (Ok (), secret)
  | (k, v) :: entries' =>
    match secret !! k with
    | None => merge_loop entries' (<[k := v]> secret)
    | Some existing =>
      if negb (String.eqb existing.(Secret.Type_) v.(Secret.Type_))
      then (Err (Errorf ("secret type mismatch for key " +:+ Strconv.Quote k)), secret)
      else
        match existing.(Secret.Data) with
        | None =>
          if bool_decide (Secret.data v = ∅)
          then merge_loop entries' (<[k := existing]> secret) else (Panic, secret)
        | Some data =>
          merge_loop entries'
            (<[k := existing <| Secret.Data := Some (Secret.data v ∪ data) |>]> secret)
        end
    end
  end.

Definition MergeSecret `{Unicode} `{MapOrder} (newSecret : gmap string Secret.t)
    : goM (gmap string Secret.t) error () :=
  merge_loop (range_map newSecret).

(** ** Properties *)

(** A URL whose path is [/secrets/<name>] and possibly more gives that name,
    the next part as the version, and the host in lower case. *)
Lemma parse_path `{Unicode} `{IPLiterals}
    value uri url secrets name rest :
  unmarshal_field "SecretReference" "loader.SecretReference" "uri" value = Ok uri → Parse uri = Ok url →
  Strings.ToLower secrets = "secrets" → name ≠ EmptyString →
  Forall (λ s, has_char slash_byte s = false) (secrets :: name :: rest) →
  url.(URL.Path) = "/" +:+ Strings.Join (secrets :: name :: rest) "/" →
  parse value = Ok (KeyVaultSecretMetadata.mk (Strings.ToLower url.(URL.Host)) name
                      (from_option id EmptyString (head rest))).
Proof.
  intros Hu Hurl Hsec Hname Hf Hp. unfold parse. rewrite Hu. cbn [mbind outcome_bind].
  rewrite Hurl. cbn [mbind outcome_bind]. rewrite Hp. unfold Strings.TrimPrefix.
  rewrite HasPrefix_refl_app, str_drop_app.
  change "/" with (char_string slash_byte).
  rewrite Split_Join_char by done. rewrite Hsec, String.eqb_refl.
  by rewrite (proj2 (String.eqb_neq _ _) Hname).
Qed.

(** The URL of a secret, of its latest version when the version is empty. *)
Definition segment_byte (c : ascii) : bool :=
  path_byte c && is_ascii_byte c && negb (Ascii.eqb slash_byte c).
Definition secret_path (md : KeyVaultSecretMetadata.t) : list string :=
  "secrets" :: md.(KeyVaultSecretMetadata.SecretName)
  :: (if String.eqb md.(KeyVaultSecretMetadata.SecretVersion) EmptyString then []
      else [md.(KeyVaultSecretMetadata.SecretVersion)]).
Definition reference_url (md : KeyVaultSecretMetadata.t) : string :=
  "https://" +:+ md.(KeyVaultSecretMetadata.HostName)
  +:+ "/" +:+ Strings.Join (secret_path md) "/".

Lemma str_forall_app f (s t : string) : str_forall f (s +:+ t) = str_forall f s && str_forall f t.
Proof.
  induction s as [|c s IH]; [done|]. rewrite str_app_cons. cbn. by rewrite IH, andb_assoc.
Qed.

Lemma str_forall_join f l sep :
  Forall (λ s, str_forall f s = true) l → str_forall f sep = true →
  str_forall f (Strings.Join l sep) = true.
Proof.
  intros Hl Hsep. induction Hl as [|s l Hs Hl IH]; [done|]. destruct l as [|t l]; [done|].
  cbn [Strings.Join] in *. by rewrite !str_forall_app, Hs, Hsep, IH.
Qed.

Lemma segment_byte_path c : segment_byte c = true → path_byte c = true.
Proof. all_bytes c. Qed.
Lemma segment_byte_ascii c : segment_byte c = true → is_ascii_byte c = true.
Proof. all_bytes c. Qed.
Lemma name_byte_ascii c : name_byte c = true → is_ascii_byte c = true.
Proof. all_bytes c. Qed.

Lemma ascii_valid_utf8 s : str_forall is_ascii_byte s = true → valid_utf8 s = true.
Proof.
  induction s as [|c s IH]; [done|]. unfold valid_utf8 in *. cbn [str_forall utf8_from rune_len].
  intros [-> Hs]%andb_true_iff. by apply IH.
Qed.

Lemma secret_path_segments md :
  str_forall segment_byte md.(KeyVaultSecretMetadata.SecretName) = true →
  str_forall segment_byte md.(KeyVaultSecretMetadata.SecretVersion) = true →
  Forall (λ s, str_forall segment_byte s = true) (secret_path md).
Proof. intros. unfold secret_path. repeat constructor; try done. case_match; by repeat constructor. Qed.

Lemma forall_join f l :
  Forall (λ s, str_forall segment_byte s = true) l → (∀ c, segment_byte c = true → f c = true) →
  f slash_byte = true → str_forall f ("/" +:+ Strings.Join l "/") = true.
Proof.
  intros Hl Hf Hs. rewrite str_forall_app. change "/" with (char_string slash_byte).
  cbn [char_string str_forall]. rewrite Hs. cbn [andb].
  apply str_forall_join; [|cbn; by rewrite Hs]. eapply Forall_impl; [exact Hl|]. intros s.
  by apply str_forall_impl.
Qed.

(** The text of a reference. *)
Definition reference_text (md : KeyVaultSecretMetadata.t) : string :=
  print (JObject [("uri", JString (reference_url md))]).

(** C39: The reference to a secret, written from its host, name and version, is
    parsed back to them, the host in lower case: a reference and its metadata
    are the same thing, for a host and parts of plain characters, the empty
    version included. *)
Theorem parse_reference_url `{Unicode} `{IPLiterals} md :
  str_forall name_byte md.(KeyVaultSecretMetadata.HostName) = true →
  str_forall segment_byte md.(KeyVaultSecretMetadata.SecretName) = true →
  md.(KeyVaultSecretMetadata.SecretName) ≠ EmptyString →
  str_forall segment_byte md.(KeyVaultSecretMetadata.SecretVersion) = true →
  parse (reference_text md) = Ok (KeyVaultSecretMetadata.mk
                      (Strings.ToLower md.(KeyVaultSecretMetadata.HostName))
                      md.(KeyVaultSecretMetadata.SecretName)
                      md.(KeyVaultSecretMetadata.SecretVersion)).
Proof.
  intros Hh Hn Hne Hv. pose proof (secret_path_segments md Hn Hv) as Hf.
  rewrite (parse_path _ (reference_url md) (URL.mk "https" md.(KeyVaultSecretMetadata.HostName)
    ("/" +:+ Strings.Join (secret_path md) "/")) "secrets" md.(KeyVaultSecretMetadata.SecretName)
    (tail (tail (secret_path md)))).
  - f_equal. unfold secret_path. destruct md as [h n v]. cbn.
    by destruct (String.eqb_spec v EmptyString) as [->|].
  - unfold unmarshal_field, reference_text. rewrite parse_print; [done| |done].
    cbn [json_ok forallb]. change (valid_utf8 "uri") with true. rewrite !andb_true_r. cbn [andb].
    apply ascii_valid_utf8. unfold reference_url. rewrite (str_forall_app _ "https://"), str_forall_app.
    rewrite forall_join by (done || apply segment_byte_ascii).
    rewrite (str_forall_impl name_byte _ md.(KeyVaultSecretMetadata.HostName))
      by (done || apply name_byte_ascii). done.
  - apply Parse_https; [done| |by right]. apply forall_join; [done|apply segment_byte_path|done].
  - done.
  - done.
  - eapply Forall_impl; [exact Hf|]. cbn. intros s Hs.
    apply (str_forall_absent segment_byte); [done|]. reflexivity.
  - done.
Qed.

Section pem.
Context `{Crypto}.

Definition is_cert (b : Block.t) : bool := String.eqb b.(Block.Type_) BlockCertificate.
Definition encoded_cert (b : Block.t) : string :=
  pem_encode (Block.mk b.(Block.Type_) ∅ b.(Block.Bytes)).
Definition encoded_key (b : Block.t) : result string :=
  key ← parsePrivateKey b.(Block.Bytes);
  bytes ← marshal_pkcs8 key;
  Ok (pem_encode (Block.mk b.(Block.Type_) ∅ bytes)).
Definition concat_strings (l : list string) : string :=
  foldr (λ s acc, s +:+ acc) EmptyString l.

Lemma pem_loop_spec blocks k0 c0 key crt :
  pem_loop blocks k0 c0 = Ok (key, crt) ↔
  ∃ ks, Forall2 (λ b k, encoded_key b = Ok k) (List.filter (negb ∘ is_cert) blocks) ks
    ∧ key = k0 +:+ concat_strings ks
    ∧ crt = c0 +:+ concat_strings (encoded_cert <$> List.filter is_cert blocks).
Proof.
  revert k0 c0. induction blocks as [|b blocks IH]; intros k0 c0.
  { simpl. rewrite !str_app_nil_r. split.
    - intros [= -> ->]. exists []. simpl. by rewrite !str_app_nil_r.
    - intros (ks & Hks & -> & ->). inversion Hks; subst. simpl. by rewrite !str_app_nil_r. }
  cbn [pem_loop List.filter compose].
  change (String.eqb (Block.Type_ b) BlockCertificate) with (is_cert b).
  destruct (is_cert b) eqn:Hb; cbn [negb].
  - rewrite IH. rewrite fmap_cons. simpl.
    setoid_rewrite str_app_assoc. done.
  - rewrite !outcome_bind_Ok. split.
    + intros (pk & Hpk & Hk). apply outcome_bind_Ok in Hk as (bytes & Hbytes & Hk).
      apply IH in Hk as (ks & Hks & -> & ->).
      exists (pem_encode (Block.mk b.(Block.Type_) ∅ bytes) :: ks). split.
      * constructor; [|done]. unfold encoded_key. rewrite Hpk. simpl. by rewrite Hbytes.
      * simpl. by rewrite str_app_assoc.
    + intros (ks & Hks & -> & ->). inversion Hks as [|? k ? ks' Hk Hks']; subst.
      unfold encoded_key in Hk. apply outcome_bind_Ok in Hk as (pk & Hpk & Hk).
      apply outcome_bind_Ok in Hk as (bytes & Hbytes & [= <-]).
      exists pk. split; [done|]. rewrite Hbytes. simpl. apply IH.
      exists ks'. split; [done|]. simpl. by rewrite str_app_assoc.
Qed.

(** A decoded certificate is the encodings of all its certificate blocks
    in order, and its key those of all its other blocks, converted to
    PKCS #8, in order, all without headers; it fails exactly when one of
    the keys cannot be converted. *)
Theorem parsePemBlock_parts blocks key crt :
  parsePemBlock blocks = Ok (key, crt) ↔
  ∃ ks, Forall2 (λ b k, encoded_key b = Ok k) (List.filter (negb ∘ is_cert) blocks) ks
    ∧ key = concat_strings ks
    ∧ crt = concat_strings (encoded_cert <$> List.filter is_cert blocks).
Proof. apply pem_loop_spec. Qed.
End pem.

(** What a merge makes of one secret. *)
Definition merged (old new : option Secret.t) : option Secret.t :=
  match old, new with
  | Some e, Some v => Some (e <| Secret.Data := Some (Secret.data v ∪ Secret.data e) |>)
  | Some e, None => Some e
  | None, o => o
  end.

Definition mergeable (old new : option Secret.t) : Prop :=
  match old, new with
  | Some e, Some v => e.(Secret.Type_) = v.(Secret.Type_) ∧ is_Some e.(Secret.Data)
  | _, _ => True
  end.

Lemma merge_loop_union `{Unicode} l secret :
  NoDup l.*1 →
  (∀ k v, (k, v) ∈ l → mergeable (secret !! k) (Some v)) →
  ∃ secret', merge_loop l secret = (Ok (), secret')
    ∧ ∀ k, secret' !! k = merged (secret !! k) (list_to_map (M:=gmap string Secret.t) l !! k).
Proof.
  revert secret. induction l as [|[k v] l IH]; intros secret.
  { intros _ _. exists secret. split; [done|]. intros k. simpl. rewrite lookup_empty.
    by destruct (secret !! k). }
  rewrite fmap_cons, NoDup_cons. intros [Hk Hnd] Hm. cbn [merge_loop].
  pose proof (Hm k v ltac:(left)) as Hkv.
  assert (∀ x, merged (secret !! k) (Some v) = Some x →
    ∃ secret', merge_loop l (<[k := x]> secret) = (Ok (), secret')
      ∧ ∀ k', secret' !! k'
          = merged (secret !! k') (list_to_map (M:=gmap string Secret.t) ((k, v) :: l) !! k'))
    as Hrec.
  { intros x Hx. destruct (IH (<[k := x]> secret) Hnd) as (secret' & Hs & Hl).
    { intros k' v' Hk'. rewrite lookup_insert_ne; [apply Hm; by right|].
      intros <-. apply Hk. apply list_elem_of_fmap. by exists (k, v'). }
    exists secret'. split; [done|]. intros k'. rewrite Hl. simpl.
    destruct (decide (k' = k)) as [->|Hne].
    - rewrite !lookup_insert_eq, Hx.
      by rewrite (proj1 (not_elem_of_list_to_map _ k)).
    - by rewrite !lookup_insert_ne by done. }
  destruct (secret !! k) as [e|] eqn:He; [|by apply Hrec].
  simpl in Hkv. destruct Hkv as [Ht [d Hd]]. rewrite Ht, String.eqb_refl. cbn [negb].
  rewrite Hd. apply Hrec. simpl. unfold Secret.data at 2. by rewrite Hd.
Qed.

(** Merging secrets of the same types adds the new data to the old, the
    new winning, and keeps every other secret, whatever the order of the map;
    into no secret at all, it copies the new ones. *)
Theorem MergeSecret_union `{Unicode} `{MapOrder} new secret :
  (∀ k, mergeable (secret !! k) (new !! k)) →
  ∃ secret', MergeSecret new secret = (Ok (), secret')
    ∧ (∀ k, secret' !! k = merged (secret !! k) (new !! k))
    ∧ (secret = ∅ → secret' = new).
Proof.
  intros Hm. destruct (merge_loop_union (range_map new) secret) as (secret' & Hs & Hl).
  - apply range_fst_NoDup.
  - intros k v Hk%elem_of_range. specialize (Hm k). by rewrite Hk in Hm.
  - rewrite range_list_to_map in Hl. exists secret'. split; [done|]. split; [done|].
    intros ->. apply map_eq. intros k. by rewrite Hl, lookup_empty.
Qed.

(** The only supported value of the secret type tag. *)
Lemma parseSecretType_tls `{Unicode} ty r :
  parseSecretType ty = Ok r ↔ ty = "kubernetes.io/tls" ∧ r = SecretTypeTLS.
Proof.
  unfold parseSecretType. destruct (decide (ty = "kubernetes.io/tls")) as [->|Hne].
  - vm_compute. split; [by intros [= <-]|by intros [_ ->]].
  - destruct (decide (ty = "opaque")) as [->|Hne'].
    + vm_compute. split; [done|]. by intros [? _].
    + rewrite lookup_insert_ne, lookup_singleton_ne by done. naive_solver.
Qed.

(** ** Witnesses *)

Module KeyVaultWitness.
#[export] Existing Instance ascii_only.
#[export] Existing Instance no_ip_literals.

Definition secret (ty : string) (data : gmap string string) : Secret.t := Secret.make ty data.
End KeyVaultWitness.
Import KeyVaultWitness.

Lemma parse_reference_url_witness :
  parse (dquoted ["{"; "uri"; ":"; "https://Vault.azure.net/secrets/db-pass/0123"; "}"])
  = Ok (KeyVaultSecretMetadata.mk "vault.azure.net" "db-pass" "0123").
Proof.
  apply (parse_reference_url (KeyVaultSecretMetadata.mk "Vault.azure.net" "db-pass" "0123")); done.
Defined.

Lemma MergeSecret_union_witness :
  let old : gmap string Secret.t :=
    {["app" := secret SecretTypeOpaque {["a" := "1"; "b" := "2"]}]} in
  let new : gmap string Secret.t :=
    {["app" := secret SecretTypeOpaque {["b" := "3"]}; "tls" := secret SecretTypeTLS ∅]} in
  ∃ secret', @MergeSecret _ reverse_order new old = (Ok (), secret')
    ∧ (∀ k, secret' !! k = merged (old !! k) (new !! k))
    ∧ (old = ∅ → secret' = new).
Proof.
  apply (@MergeSecret_union _ reverse_order). intros k.
  destruct (decide (k = "app")) as [->|Hne]; [by split; [|eexists]|].
  rewrite lookup_singleton_ne by done. done.
Defined.
