(* ===== verification/SettingLoader.v ===== *)
(** The loader: [internal/loader/configuration_setting_loader.go].

    A loader is run by the processor through its six methods, each of which
    asks the store through the failover policy and turns the answers into
    settings.  [settings client] is nil in the program (only tests set it), so
    the client each method builds is written in its place.

    The main theorems: the settings collected are a left fold over the list of
    settings in which each snapshot reference is replaced by the settings of
    its snapshot, the last setting of a key winning; feature flags are
    deduplicated the same way; and the resolution of secrets does not depend on
    the order in which goroutines and maps run. *)

From S2P Require Import Prelude GoStrings Errors Api Json Filters Tree Codec Data.
From S2P Require Import TypedSettings Url ConnString Backoff Tracing Clients Failover.
From S2P Require Import SettingsClients Auth KeyVault.
From Stdlib Require Import QArith.
#[local] Close Scope Q_scope.

Definition FeatureFlagContentType : string :=
  "application/vnd.microsoft.appconfig.ff+json;charset=utf-8".
Definition SecretReferenceContentType : string :=
  "application/vnd.microsoft.appconfig.keyvaultref+json;charset=utf-8".
Definition SnapshotReferenceContentType : string :=
  "application/json; profile=" +:+ dquote +:+ "https://azconfig.io/mime-profiles/snapshot-ref"
  +:+ dquote +:+ "; charset=utf-8".
Definition PreservedSecretTypeTag : string := ".kubernetes.secret.type".

Definition TelemetryKey : string := "telemetry".
Definition EnabledKey : string := "enabled".
Definition MetadataKey : string := "metadata".
Definition ETagKey : string := "ETag".
Definition FeatureFlagReferenceKey : string := "FeatureFlagReference".

Fixpoint trimPrefix (key : string) (prefixToTrim : list string) : string :=
  match prefixToTrim with
  | [] => key
  | v :: vs => if Strings.HasPrefix key v then Strings.TrimPrefix key v else trimPrefix key vs
  end.

(** ** Feature flags *)

Section flags.
Context `{Unicode}.

Definition generateFeatureFlagReference (setting : Setting.t) (endpoint : string)
    : result string :=
  key ← deref setting.(Setting.Key);
  let featureFlagReference := endpoint +:+ "/kv/" +:+ key in
  Ok (match setting.(Setting.Label) with
      | Some label =>
        if negb (String.eqb (Strings.TrimSpace label) EmptyString)
        then featureFlagReference +:+ "?label=" +:+ label else featureFlagReference
      | None => featureFlagReference
      end).

(** The map is updated in place; [telemetry] is its element. *)
Definition populateTelemetryMetadata (featureFlag : gmap string value) (setting : Setting.t)
    (endpoint : string) : result (gmap string value) :=
  match featureFlag !! TelemetryKey with
  | Some (VMap telemetry) =>
    match telemetry !! EnabledKey with
    | Some (VBool true) =>
      let metadata :=
        match telemetry !! MetadataKey with Some (VMap m) => m | _ => ∅ end in
      etag ← deref setting.(Setting.ETag);
      ref ← generateFeatureFlagReference setting endpoint;
      let metadata := <[FeatureFlagReferenceKey := VString ref]>
                        (<[ETagKey := VString etag]> metadata) in
      Ok (<[TelemetryKey := VMap (<[MetadataKey := VMap metadata]> telemetry)]> featureFlag)
    | _ => Ok featureFlag
    end
  | _ => Ok featureFlag
  end.

(** A flag with its metadata.  The text [null] leaves a nil map, in which there
    is no telemetry to find; it is written as null. *)
Definition flag_value (out : option (gmap string value)) (setting : Setting.t)
    (endpoint : string) : result value :=
  match out with
  | Some flag => VMap <$> populateTelemetryMetadata flag setting endpoint
  | None => Ok VNull
  end.
End flags.

Section flag_loop.
Context `{Unicode} `{Codec}.

(** The loop from the last setting to the first, over the settings in reverse:
    the keys seen and the flags collected. *)
Fixpoint flags_loop (endpoint : string) (settings : list Setting.t)
    (featureFlagExist : gset string) (flags : list value)
    : result (list value) :=
  match settings with
  | [] => Ok flags
  | setting :: settings' =>
    key ← deref setting.(Setting.Key);
    if bool_decide (key ∈ featureFlagExist)
    then flags_loop endpoint settings' featureFlagExist flags
    else
      v ← deref setting.(Setting.Value);
      match json_unmarshal_object v with
      | Err err => Err (Errorf ("failed to unmarshal feature flag settings: " +:+ Error err))
      | Panic => Panic
      | Ok out =>
        out' ← flag_value out setting endpoint;
        flags_loop endpoint settings' ({[key]} ∪ featureFlagExist) (flags ++ [out'])
      end
  end.

Definition deduplicate_flags (endpoint : string) (settings : list Setting.t)
    : result (list value) :=
  flags ← flags_loop endpoint (rev settings) ∅ [];
  Slice.reverse_range flags 0 (length flags - 1).
End flag_loop.

(** ** Classification of the settings *)

(** The cases of the [switch], with what they need of the setting. *)
Inductive kind : Type :=
  | Plain (v : option string) (isJson : bool)
  | FeatureFlag
  | SecretRef
  | SnapshotRef.

Section classify.
Context `{Unicode}.

Definition setting_kind (setting : Setting.t) : kind :=
  match setting.(Setting.ContentType) with
  | None => Plain setting.(Setting.Value) false
  | Some ct =>
    let ct' := Strings.TrimSpace (Strings.ToLower ct) in
    if String.eqb ct' FeatureFlagContentType then FeatureFlag
    else if String.eqb ct' SecretReferenceContentType then SecretRef
    else if String.eqb ct' SnapshotReferenceContentType then SnapshotRef
    else Plain setting.(Setting.Value) (isJsonContentType (Some ct))
  end.
End classify.

(** [settingProcessContext], with the loader it runs in; the resolver and the
    raw settings are shared with the context of a snapshot. *)
Module ProcessCtx.
Record t `{SDK} {R : Type} := mk {
  rawSettings : RawSettings.t;
  resolver : option R;
  snapshotClient : option client;
  useAIConfiguration : bool;
  useAIChatCompletionConfiguration : bool;
  loader : Loader.t;
}.
Arguments t {_} R.
Arguments mk {_ R}.
#[global] Instance eta_ctx `{SDK} {R} : Eta (t R) := λ p,
  mk (rawSettings p) (resolver p) (snapshotClient p) (useAIConfiguration p)
     (useAIChatCompletionConfiguration p) (loader p).
End ProcessCtx.

(** A resolver of secret references ([SecretReferenceResolver]): how it is
    built, and what it resolves a reference to. *)
Class SecretResolver (R : Type) := {
  new_resolver : Spec.t → result R;
  resolve : R → KeyVaultSecretMetadata.t → result SecretResponse.t;
}.

(** The program's own: [KeyVaultConnector]. *)
#[export] Instance key_vault_resolver `{Unicode} `{IPLiterals} `{SDK} `{!Vault} `{!Identity}
    `{Cluster} `{UUIDParser} `{TenantEnv} (namespace : string)
    : SecretResolver KeyVaultConnector.t := {|
  new_resolver := createSecretReferenceResolver (λ auth, CreateTokenCredential auth namespace);
  resolve := resolves_to;
|}.

Section process.
Context `{Unicode} `{IPLiterals} `{SDK} `{!Store}
  `{Resolver}.
Context {R : Type} `{!SecretResolver R}.
Context (provider : Provider.t).
Let spec : Spec.t := provider.(Provider.Spec).
Notation processor A := (goM (ProcessCtx.t R) error A).

Definition set_raw (f : RawSettings.t → RawSettings.t) : processor () :=
  modify (λ p, p <| ProcessCtx.rawSettings := f p.(ProcessCtx.rawSettings) |>).

Definition put_key_value (key : string) (v : option string) (isJson : bool)
    (r : RawSettings.t) : RawSettings.t :=
  r <| RawSettings.KeyValueSettings := <[key := v]> r.(RawSettings.KeyValueSettings) |>
    <| RawSettings.IsJsonContentTypeMap :=
         <[key := isJson]> r.(RawSettings.IsJsonContentTypeMap) |>.

(** The metadata of a key, in the Secret it goes to, created when missing. *)
Definition put_secret (secretName secretType key : string) (md : KeyVaultSecretMetadata.t)
    (r : RawSettings.t) : RawSettings.t :=
  let secret := default (TargetK8sSecretMetadata.make secretType)
                  (r.(RawSettings.K8sSecrets) !! secretName) in
  let secret := secret <| TargetK8sSecretMetadata.SecretsKeyVaultMetadata :=
      <[key := md]> secret.(TargetK8sSecretMetadata.SecretsKeyVaultMetadata) |> in
  r <| RawSettings.K8sSecrets := <[secretName := secret]> r.(RawSettings.K8sSecrets) |>.

Definition secret_type_of (setting : Setting.t) (key : string) : result string :=
  match setting.(Setting.Tags) !! PreservedSecretTypeTag with
  | None => Ok SecretTypeOpaque
  | Some None =>
    Err (Errorf ("the secret type tag '" +:+ PreservedSecretTypeTag +:+ "' for setting '"
                 +:+ key +:+ "' is invalid"))
  | Some (Some tag) => parseSecretType tag
  end.

Definition process_secret (setting : Setting.t) (key trimmedKey : string) : processor () :=
  match setting.(Setting.Value), spec.(Spec.Secret) with
  | None, _ => throw (Errorf ("the value of Key Vault reference '" +:+ key +:+ "' is null"))
  | Some _, None =>
    throw (Errorf ("a Key Vault reference is found in App Configuration, but 'spec.secret' was not configured in the Azure App Configuration provider '"
                   +:+ provider.(Provider.Name) +:+ "' in namespace '"
                   +:+ provider.(Provider.Namespace) +:+ "'"))
  | Some currentUrl, Some secret =>
    secretType ← lift (secret_type_of setting key);
    p ← get;
    _ ← match p.(ProcessCtx.resolver) with
        | Some _ => mret ()
        | None =>
          newResolver ← lift (new_resolver spec);
          modify (λ p, p <| ProcessCtx.resolver := Some newResolver |>)
        end;
    secretMetadata ← lift (parse currentUrl);
    let secretName :=
      if String.eqb secretType SecretTypeOpaque
      then secret.(SecretReference.Target).(SecretTarget.SecretName) else trimmedKey in
    set_raw (put_secret secretName secretType trimmedKey secretMetadata)
  end.

Definition process_plain (trimmedKey : string) (ct v : option string) (isJson : bool)
    : processor () :=
  _ ← set_raw (put_key_value trimmedKey v isJson);
  if negb isJson then mret () else
  ai ← lift (isAIConfigurationContentType ct);
  aicc ← lift (isAIChatCompletionContentType ct);
  modify (λ p, p <| ProcessCtx.useAIConfiguration := p.(ProcessCtx.useAIConfiguration) || ai |>
                 <| ProcessCtx.useAIChatCompletionConfiguration :=
                      p.(ProcessCtx.useAIChatCompletionConfiguration) || aicc |>).

(** The client that loads snapshots: the first one the manager returns. *)
Definition snapshot_client (now : Time.time) (lk : Lookup.t) : processor client :=
  λ p : ProcessCtx.t R,
    match p.(ProcessCtx.snapshotClient) with
    | Some c => (Ok c, p)
    | None =>
      let '(o, l) := on_clients (GetClients now lk) p.(ProcessCtx.loader) in
      let p' : ProcessCtx.t R := p <| ProcessCtx.loader := l |> in
      match o with
      | Err err => (Err err, p')
      | Panic => (Panic, p')
      | Ok [] => (Err (Errorf "no client is available to resolve snapshot references"), p')
      | Ok (c :: _) =>
        match l.(Loader.ClientManager).(Clients.heap) !! c with
        | Some w =>
          (Ok w.(Wrapper.Client),
           p' <| ProcessCtx.snapshotClient := Some w.(Wrapper.Client) |>)
        | None => (Panic, p')
        end
      end
    end.

Context (now : Time.time) (lk : Lookup.t).

(** The settings of the snapshot a reference names. *)
Definition open_snapshot (value trimmedKey : string) : processor (list Setting.t) :=
  _ ← modify (λ p, p <| ProcessCtx.loader :=
    Loader.set_features (λ f, f <| TracingFeatures.UseSnapshotReference := true |>)
      p.(ProcessCtx.loader) |>);
  snapshotName ← lift (wrap_error (λ e, "invalid format for snapshot reference setting '"
                                        +:+ trimmedKey +:+ "': " +:+ e)
                         (parseSnapshotReference value));
  c ← snapshot_client now lk;
  lift (wrap_error (λ e, "failed to load snapshot settings: key=" +:+ trimmedKey
                         +:+ ", error=" +:+ e)
          (loadSnapshotSettings c snapshotName)).

(** [processSettings] on the settings of a snapshot: its flags start unset and
    are added to those of the outer context. *)
Definition nested_process (process : list Setting.t → processor ())
    (snapshotSettings : list Setting.t) : processor () := λ p,
  let inner := p <| ProcessCtx.useAIConfiguration := false |>
                 <| ProcessCtx.useAIChatCompletionConfiguration := false |> in
  match process snapshotSettings inner with
  | (Ok _, q) =>
    (Ok (), q <| ProcessCtx.useAIConfiguration :=
                   p.(ProcessCtx.useAIConfiguration) || q.(ProcessCtx.useAIConfiguration) |>
              <| ProcessCtx.useAIChatCompletionConfiguration :=
                   p.(ProcessCtx.useAIChatCompletionConfiguration)
                   || q.(ProcessCtx.useAIChatCompletionConfiguration) |>
              <| ProcessCtx.snapshotClient := p.(ProcessCtx.snapshotClient) |>)
  | (Err err, q) => (Err err, q)
  | (Panic, q) => (Panic, q)
  end.

(** One turn of the loop; [nested] processes a snapshot, and is [None] inside
    one ([allowSnapshotRef]). *)
Definition process_one (nested : option (list Setting.t → processor ()))
    (setting : Setting.t) : processor () :=
  match setting.(Setting.Key) with
  | None => mret ()
  | Some key =>
    let trimmedKey :=
      trimPrefix key spec.(Spec.Configuration).(KeyValueOptions.TrimKeyPrefixes) in
    if bool_decide (str_length trimmedKey = 0) then mret () else
    match setting_kind setting with
    | FeatureFlag => mret ()
    | Plain v isJson => process_plain trimmedKey setting.(Setting.ContentType) v isJson
    | SecretRef => process_secret setting key trimmedKey
    | SnapshotRef =>
      match nested, setting.(Setting.Value) with
      | Some process, Some value =>
        snapshotSettings ← open_snapshot value trimmedKey;
        nested_process process snapshotSettings
      | _, _ => mret ()
      end
    end
  end.

Fixpoint process_loop (nested : option (list Setting.t → processor ()))
    (settings : list Setting.t) : processor () :=
  match settings with
  | [] => mret ()
  | setting :: settings' => _ ← process_one nested setting; process_loop nested settings'
  end.

Definition processSettings (allowSnapshotRef : bool) (settings : list Setting.t)
    : processor () :=
  process_loop (if allowSnapshotRef then Some (process_loop None) else None) settings.
End process.

(** ** Resolving the secrets *)

Section resolve.
Context `{Unicode} `{Codec} `{MapOrder} `{Crypto}.
(** [csl.Spec.Secret.Target.SecretData]; [Panic] when [Spec.Secret] is nil. *)
Context (SecretData : result (option DataOptions.t)).
Context (resolve : KeyVaultSecretMetadata.t → result SecretResponse.t).

Definition resolve_reference (key : string) (md : KeyVaultSecretMetadata.t)
    : result SecretResponse.t :=
  wrap_error (λ e, "fail to resolve the Key Vault reference type setting '" +:+ key
                   +:+ "': " +:+ e) (resolve md).

(** The references of an Opaque secret are resolved by a goroutine each. *)
Definition resolve_opaque (refs : gmap string KeyVaultSecretMetadata.t)
    : result (gmap string string) :=
  if bool_decide (refs = ∅) then Ok ∅ else
  values ← range_collect (λ key md, SecretResponse.Value <$> resolve_reference key md) refs;
  opts ← SecretData;
  createTypedSecrets (omap id values) opts.

Definition decode_certificate (contentType value : string) : result (string * string) :=
  if String.eqb contentType CertTypePfx then decodePkcs12 value
  else if String.eqb contentType CertTypePem then decodePem value
  else Err (Errorf ("unknown content type '" +:+ contentType +:+ "'")).

Definition resolve_tls (name : string) (refs : gmap string KeyVaultSecretMetadata.t)
    : result (gmap string string) :=
  resolvedSecret ←
    resolve_reference name (default KeyVaultSecretMetadata.zero (refs !! name));
  match resolvedSecret.(SecretResponse.ContentType) with
  | None => Err (Errorf "unspecified content type")
  | Some ct =>
    '(key, crt) ←
      wrap_error (λ e, "fail to decode the cert '" +:+ name +:+ "': " +:+ e)
        (if String.eqb ct CertTypePfx || String.eqb ct CertTypePem
         then v ← deref resolvedSecret.(SecretResponse.Value); decode_certificate ct v
         else decode_certificate ct EmptyString);
    Ok {[TlsKey := key; TlsCrt := crt]}
  end.

(** One turn of the loop; other types of secrets have no data. *)
Definition resolve_secret (name : string) (target : TargetK8sSecretMetadata.t)
    : result Secret.t :=
  let ty := target.(TargetK8sSecretMetadata.Type_) in
  let refs := target.(TargetK8sSecretMetadata.SecretsKeyVaultMetadata) in
  data ← (if String.eqb ty SecretTypeOpaque then resolve_opaque refs
          else if String.eqb ty SecretTypeTLS then resolve_tls name refs
          else Ok ∅);
  Ok (Secret.make ty data).

Definition resolve_secrets (refs : gmap string TargetK8sSecretMetadata.t)
    : result (gmap string Secret.t) :=
  range_collect resolve_secret refs.
End resolve.

(** ** The methods of the loader *)

(** A loader and the number of times it has run the failover policy. *)
Module CSL.
Record t `{SDK} := mk { loader : Loader.t; runs : nat }.
#[global] Instance eta_csl `{SDK} : Eta t := λ c, mk _ (loader c) (runs c).
End CSL.

Section methods.
Context `{Unicode} `{IPLiterals} `{Codec} `{MapOrder} `{Crypto}
  `{SDK} `{!Store} `{Resolver}.
Context {R : Type} `{!SecretResolver R}.
Context (provider : Provider.t).
Let spec : Spec.t := provider.(Provider.Spec).
(** The environment of each run of the failover policy, and of the client
    manager when snapshots are loaded. *)
Context (env : nat → PolicyEnv.t) (now : Time.time) (lk : Lookup.t).
Notation method A := (goM CSL.t error A).

(** [csl.ExecuteFailoverPolicy(ctx, settingsClient)] *)
Definition execute {A} (settingsClient : client → result A) : method A := λ s,
  let '(o, l) := ExecuteFailoverPolicy spec (env s.(CSL.runs)) (λ _, settingsClient)
                   s.(CSL.loader) in
  (o, CSL.mk _ l (S s.(CSL.runs))).

(** The method [ResolveSecretReferences]; a nil resolver is created. *)
Definition ResolveSecretReferences
    (secretReferencesToResolve : gmap string TargetK8sSecretMetadata.t)
    (resolver : option R) : result TargetKeyValueSettings.t :=
  r ← match resolver with Some r => Ok r | None => new_resolver spec end;
  let secretData :=
    s ← deref spec.(Spec.Secret);
    Ok s.(SecretReference.Target).(SecretTarget.SecretData) in
  secrets ← resolve_secrets secretData (resolve r) secretReferencesToResolve;
  Ok (TargetKeyValueSettings.empty
        <| TargetKeyValueSettings.SecretSettings := secrets |>
        <| TargetKeyValueSettings.K8sSecrets := secretReferencesToResolve |>).

(** The raw settings before any is processed. *)
Definition initial_raw (etags : option page_etags) : RawSettings.t :=
  RawSettings.mk ∅ ∅ None ∅
    (match spec.(Spec.Secret) with
     | Some s =>
       {[s.(SecretReference.Target).(SecretTarget.SecretName) :=
           TargetK8sSecretMetadata.make SecretTypeOpaque]}
     | None => ∅
     end) etags None.

Definition process_all (settings : list Setting.t) (etags : option page_etags)
    (resolver : option R) : method (RawSettings.t * option R) := λ s,
  let ctx := ProcessCtx.mk (initial_raw etags) resolver None false false s.(CSL.loader) in
  let '(o, p) := processSettings provider now lk true settings ctx in
  let s' l := CSL.mk _ l s.(CSL.runs) in
  match o with
  | Ok _ =>
    (Ok (p.(ProcessCtx.rawSettings), p.(ProcessCtx.resolver)),
     s' (Loader.set_features (λ f,
       f <| TracingFeatures.UseAIConfiguration := p.(ProcessCtx.useAIConfiguration) |>
         <| TracingFeatures.UseAIChatCompletionConfiguration :=
              p.(ProcessCtx.useAIChatCompletionConfiguration) |>) p.(ProcessCtx.loader)))
  | Err err => (Err err, s' p.(ProcessCtx.loader))
  | Panic => (Panic, s' p.(ProcessCtx.loader))
  end.

Definition CreateKeyValueSettings (resolver : option R) : method RawSettings.t :=
  keyValueFilters ← lift (match GetKeyValueFilters spec with Ok f => Ok f | _ => Panic end);
  settingsResponse ← execute (SelectorSettings keyValueFilters);
  '(raw, resolver') ← process_all (default [] settingsResponse.(SettingsResponse.Settings))
                        settingsResponse.(SettingsResponse.Etags) resolver;
  resolvedSecret ← lift (ResolveSecretReferences raw.(RawSettings.K8sSecrets) resolver');
  merged ← lift (let '(o, m) := MergeSecret
                     resolvedSecret.(TargetKeyValueSettings.SecretSettings)
                     raw.(RawSettings.SecretSettings) in
                 _ ← o; Ok m);
  mret (raw <| RawSettings.K8sSecrets := resolvedSecret.(TargetKeyValueSettings.K8sSecrets) |>
            <| RawSettings.SecretSettings := merged |>).

(** The endpoint of the first static client. *)
Definition primary_endpoint : method string := λ s,
  let c := s.(CSL.loader).(Loader.ClientManager) in
  (l ← deref (head c.(Clients.manager).(Manager.StaticClientWrappers));
   w ← deref (c.(Clients.heap) !! l);
   Ok w.(Wrapper.Endpoint), s).

Definition getFeatureFlagSettings
    : method (gmap string value * option page_etags) :=
  featureFlagFilters ← lift (match GetFeatureFlagFilters spec with Ok f => Ok f | _ => Panic end);
  settingsResponse ← execute (SelectorSettings featureFlagFilters);
  clientEndpoint ← primary_endpoint;
  flags ← lift (deduplicate_flags clientEndpoint
                  (default [] settingsResponse.(SettingsResponse.Settings)));
  mret ({[FeatureFlagSectionName := VArray flags]},
        settingsResponse.(SettingsResponse.Etags)).

(** The loop of [CheckAndRefreshSentinels]: a response whose first setting
    has an ETag is a change. *)
Fixpoint sentinels_loop (eTags : list (Sentinel.t * option ETag)) (changed : bool)
    (refreshed : sentinel_etags) : method (bool * sentinel_etags) :=
  match eTags with
  | [] => mret (changed, refreshed)
  | (sentinel, currentETag) :: eTags' =>
    response ← execute (SentinelSettings sentinel currentETag);
    newETag ← lift (match response with
                    | Some r =>
                      match r.(SettingsResponse.Settings) with
                      | Some ss => Setting.ETag <$> deref (head ss)
                      | None => Ok None
                      end
                    | None => Ok None
                    end);
    match newETag with
    | Some e => sentinels_loop eTags' true (<[sentinel := Some e]> refreshed)
    | None => sentinels_loop eTags' changed (<[sentinel := currentETag]> refreshed)
    end
  end.

Definition CheckAndRefreshSentinels (eTags : sentinel_etags)
    : method (bool * sentinel_etags) :=
  sentinels_loop (range_map eTags) false ∅.

Definition CheckPageETags (eTags : page_etags) : method bool :=
  settingsResponse ← execute (EtagSettings eTags);
  mret (match settingsResponse.(SettingsResponse.Etags) with Some _ => true | None => false end).

(** The sentinels monitored, when refresh is enabled; [null] is the address
    of the label of [normalizeSentinels]. *)
Definition monitored_sentinels (null : N) : option (list Sentinel.t) :=
  r ← spec.(Spec.Configuration).(KeyValueOptions.Refresh);
  if r.(KeyValueRefresh.Enabled) then
    sentinels ← r.(KeyValueRefresh.Monitoring);
    Some (normalizeSentinels null sentinels)
  else None.

Definition CreateTargetSettings (null : N) (resolver : option R)
    : method TargetKeyValueSettings.t :=
  rawSettings ← CreateKeyValueSettings resolver;
  initializedSentinelETags ←
    match monitored_sentinels null with
    | Some sentinels =>
      snd <$> CheckAndRefreshSentinels
                (list_to_map ((λ s, (s, None)) <$> sentinels))
    | None => mret ∅
    end;
  rawSettings ←
    match spec.(Spec.FeatureFlag) with
    | Some _ =>
      '(section, etags) ← getFeatureFlagSettings;
      mret (rawSettings <| RawSettings.FeatureFlagSettings := Some section |>
                        <| RawSettings.FeatureFlagETags := etags |>)
    | None => mret rawSettings
    end;
  typedSettings ← lift (createTypedSettings rawSettings
                          spec.(Spec.Target).(Target.ConfigMapData));
  mret {| TargetKeyValueSettings.ConfigMapSettings := Some typedSettings;
          TargetKeyValueSettings.SecretSettings := rawSettings.(RawSettings.SecretSettings);
          TargetKeyValueSettings.K8sSecrets := rawSettings.(RawSettings.K8sSecrets);
          TargetKeyValueSettings.KeyValueETags := rawSettings.(RawSettings.KeyValueETags);
          TargetKeyValueSettings.FeatureFlagETags := rawSettings.(RawSettings.FeatureFlagETags);
          TargetKeyValueSettings.SentinelETags := initializedSentinelETags |}.

Definition RefreshKeyValueSettings (existingConfigMapSetting : gmap string string)
    (resolver : option R) : method TargetKeyValueSettings.t :=
  rawSettings ← CreateKeyValueSettings resolver;
  rawSettings ←
    match spec.(Spec.FeatureFlag) with
    | Some _ =>
      '(section, _) ← lift (unmarshalConfigMap existingConfigMapSetting
                              spec.(Spec.Target).(Target.ConfigMapData));
      mret (rawSettings <| RawSettings.FeatureFlagSettings := Some section |>)
    | None => mret rawSettings
    end;
  typedSettings ← lift (createTypedSettings rawSettings
                          spec.(Spec.Target).(Target.ConfigMapData));
  mret (TargetKeyValueSettings.empty
          <| TargetKeyValueSettings.ConfigMapSettings := Some typedSettings |>
          <| TargetKeyValueSettings.SecretSettings := rawSettings.(RawSettings.SecretSettings) |>
          <| TargetKeyValueSettings.K8sSecrets := rawSettings.(RawSettings.K8sSecrets) |>
          <| TargetKeyValueSettings.KeyValueETags := rawSettings.(RawSettings.KeyValueETags) |>).

(** The new data of the ConfigMap and the page ETags of the flags. *)
Definition replace_flags (existingConfigMapSetting : gmap string string)
    (section : gmap string value) : result (gmap string string) :=
  let dataOptions := spec.(Spec.Target).(Target.ConfigMapData) in
  '(_, existingSettings) ← unmarshalConfigMap existingConfigMapSetting dataOptions;
  opts ← deref dataOptions;
  typedStr ← marshalJsonYaml (<[FeatureManagementSectionName := VMap section]> existingSettings)
               opts;
  Ok {[opts.(DataOptions.Key) := typedStr]}.

Definition RefreshFeatureFlagSettings (existingConfigMapSetting : gmap string string)
    : method TargetKeyValueSettings.t :=
  '(section, etags) ← getFeatureFlagSettings;
  data ← lift (replace_flags existingConfigMapSetting section);
  mret (TargetKeyValueSettings.empty
          <| TargetKeyValueSettings.ConfigMapSettings := Some data |>
          <| TargetKeyValueSettings.FeatureFlagETags := etags |>).
End methods.

(** ** Settings as a fold *)

Section fold.
Context `{Unicode} `{IPLiterals} `{SDK} `{!Store}
  `{Resolver}.
Context {R : Type} `{!SecretResolver R}.
Context (provider : Provider.t) (now : Time.time) (lk : Lookup.t).
Let spec : Spec.t := provider.(Provider.Spec).

Definition trimmed (key : string) : string :=
  trimPrefix key spec.(Spec.Configuration).(KeyValueOptions.TrimKeyPrefixes).

(** The key of a setting that is not ignored. *)
Definition effective_key (s : Setting.t) : option string :=
  key ← s.(Setting.Key);
  if bool_decide (str_length (trimmed key) = 0) then None else Some (trimmed key).

(** What a setting that is no snapshot reference does to the raw settings;
    [None] when it is refused. *)
Definition effect (r : RawSettings.t) (s : Setting.t) : option RawSettings.t :=
  match effective_key s with
  | None => Some r
  | Some k =>
    match setting_kind s with
    | FeatureFlag | SnapshotRef => Some r
    | Plain v isJson => Some (put_key_value k v isJson r)
    | SecretRef =>
      secret ← spec.(Spec.Secret);
      match secret_type_of s (default EmptyString s.(Setting.Key)), from_option parse Panic s.(Setting.Value) with
      | Ok ty, Ok md =>
        Some (put_secret
                (if String.eqb ty SecretTypeOpaque
                 then secret.(SecretReference.Target).(SecretTarget.SecretName) else k)
                ty k md r)
      | _, _ => None
      end
    end
  end.

Fixpoint effects (settings : list Setting.t) (r : RawSettings.t) : option RawSettings.t :=
  match settings with
  | [] => Some r
  | s :: settings' => r' ← effect r s; effects settings' r'
  end.

(** The value of a snapshot reference that is followed. *)
Definition followed (s : Setting.t) : option string :=
  match effective_key s, setting_kind s with
  | Some _, SnapshotRef => s.(Setting.Value)
  | _, _ => None
  end.

(** Each snapshot reference is replaced by the settings of its snapshot,
    loaded with the client [oc]; references inside a snapshot stay (and have
    no effect). *)
Inductive expands (oc : option client) : list Setting.t → list Setting.t → Prop :=
  | expands_nil : expands oc [] []
  | expands_keep s l l' :
    followed s = None → expands oc l l' → expands oc (s :: l) (s :: l')
  | expands_snapshot s v c name ss l l' :
    followed s = Some v → oc = Some c → parseSnapshotReference v = Ok name →
    loadSnapshotSettings c name = Ok ss → expands oc l l' → expands oc (s :: l) (ss ++ l').

Lemma effects_app a b r : effects (a ++ b) r = r' ← effects a r; effects b r'.
Proof.
  revert r. induction a as [|s a IH]; intros r; [done|]. simpl.
  destruct (effect r s); [apply IH|done].
Qed.

Notation raw p := (ProcessCtx.rawSettings p).
Notation snap p := (ProcessCtx.snapshotClient p).

Lemma process_plain_Ok k ct v isJson (p q : ProcessCtx.t R) :
  process_plain k ct v isJson p = (Ok (), q) →
  raw q = put_key_value k v isJson (raw p) ∧ snap q = snap p.
Proof.
  unfold process_plain, set_raw, modify, lift, mbind, goM_bind. cbn.
  destruct isJson; cbn; [|by intros [= <-]].
  destruct (isAIConfigurationContentType ct); [|done|done].
  destruct (isAIChatCompletionContentType ct); [|done|done]. cbn. by intros [= <-].
Qed.

Lemma process_secret_Ok s key k (p q : ProcessCtx.t R) :
  process_secret provider s key k p = (Ok (), q) →
  ∃ url secret ty md, s.(Setting.Value) = Some url ∧ spec.(Spec.Secret) = Some secret
    ∧ secret_type_of s key = Ok ty ∧ parse url = Ok md
    ∧ raw q = put_secret (if String.eqb ty SecretTypeOpaque
                          then secret.(SecretReference.Target).(SecretTarget.SecretName) else k)
                ty k md (raw p)
    ∧ snap q = snap p.
Proof.
  unfold process_secret. fold spec.
  destruct (Setting.Value s) as [url|]; [|done].
  destruct (Spec.Secret spec) as [secret|]; [|done].
  intros Hq. go_inv Hq. exists url, secret.
  repeat match goal with
  | H : lift _ _ = (Ok _, _) |- _ => unfold lift in H; injection H as ? ?; subst
  | H : Prelude.get _ = (Ok _, _) |- _ => unfold Prelude.get in H; injection H as ? ?; subst
  end.
  match goal with H : match ProcessCtx.resolver _ with _ => _ end _ = _ |- _ =>
    rename H into Hres end.
  unfold set_raw, modify in Hq. injection Hq as <-.
  eexists _, _. do 2 (split; [done|]). split; [eassumption|]. split; [eassumption|].
  destruct (ProcessCtx.resolver _).
  - unfold mret, goM_ret in Hres. by injection Hres as _ <-.
  - unfold mbind, goM_bind, lift, modify in Hres.
    destruct (new_resolver _); [|done|done]. by injection Hres as _ <-.
Qed.

Lemma effective_key_unfold s key :
  s.(Setting.Key) = Some key →
  effective_key s
  = if bool_decide (str_length (trimmed key) = 0) then None else Some (trimmed key).
Proof. unfold effective_key. by intros ->. Qed.

(** A turn of the loop that follows no snapshot. *)
Lemma process_one_keep nested s (p q : ProcessCtx.t R) :
  (nested = None ∨ followed s = None) →
  process_one provider now lk nested s p = (Ok (), q) →
  effect (raw p) s = Some (raw q) ∧ snap q = snap p.
Proof.
  intros Hn. unfold process_one, effect, followed in *.
  destruct (Setting.Key s) as [key|] eqn:Hk.
  2:{ unfold effective_key. rewrite Hk. by intros [= <-]. }
  rewrite (effective_key_unfold s key Hk) in *. unfold trimmed in *. fold spec.
  case_bool_decide; [by intros [= <-]|].
  destruct (setting_kind s) as [v j| | |].
  - by intros [-> ->]%process_plain_Ok.
  - by intros [= <-].
  - intros (url & secret & ty & md & Hv & Hs & Hty & Hmd & Hraw & Hsn)%process_secret_Ok.
    rewrite Hs, Hv. simpl. rewrite Hty, Hmd, Hraw. done.
  - destruct nested as [f|], (Setting.Value s) as [v|];
      try (by intros [= <-]). by destruct Hn.
Qed.

(** A turn that follows a snapshot reference. *)
Lemma process_one_snapshot f s v (p q : ProcessCtx.t R) :
  followed s = Some v →
  process_one provider now lk (Some f) s p = (Ok (), q) →
  ∃ c name ss p1 q1, parseSnapshotReference v = Ok name
    ∧ loadSnapshotSettings c name = Ok ss ∧ f ss p1 = (Ok (), q1)
    ∧ raw p1 = raw p ∧ raw q = raw q1 ∧ snap q = Some c
    ∧ (∀ c0, snap p = Some c0 → c0 = c).
Proof.
  unfold followed, process_one. destruct (Setting.Key s) as [key|] eqn:Hk.
  2:{ unfold effective_key. by rewrite Hk. }
  rewrite (effective_key_unfold s key Hk). unfold trimmed. fold spec.
  case_bool_decide; [done|].
  destruct (setting_kind s); try done. intros ->. intros Hq.
  apply goM_bind_Ok in Hq as (ss & p2 & Ho & Hq). unfold open_snapshot in Ho.
  apply goM_bind_Ok in Ho as ([] & p3 & Hm & Ho). injection Hm as <-.
  apply goM_bind_Ok in Ho as (name & p4 & Hname & Ho). unfold lift in Hname.
  injection Hname as Hname <-.
  apply goM_bind_Ok in Ho as (c & p5 & Hc & Hss). unfold lift in Hss. injection Hss as Hss <-.
  assert (snap p5 = Some c ∧ raw p5 = raw p ∧ ∀ c0, snap p = Some c0 → c0 = c)
    as (Hs5 & Hr5 & Hc0).
  { revert Hc. unfold snapshot_client. cbn. destruct (snap p) as [c1|] eqn:Hs1.
    - intros [= <- <-]. cbn. rewrite Hs1. naive_solver.
    - destruct (on_clients _ _) as [[[|l ls]| |] l1]; try done. cbn.
      destruct (_ !! l); [|done]. by intros [= <- <-]. }
  unfold nested_process in Hq.
  destruct (f ss _) as [[[]| |] q1] eqn:Hf; try done. injection Hq as <-.
  exists c, name, ss. eexists _, q1.
  split; [by destruct (parseSnapshotReference v); simplify_eq/=|].
  split; [by destruct (loadSnapshotSettings c name); simplify_eq/=|].
  split; [exact Hf|]. by rewrite Hs5.
Qed.

Lemma process_nested_effects ss (p q : ProcessCtx.t R) :
  process_loop provider now lk None ss p = (Ok (), q) →
  effects ss (raw p) = Some (raw q).
Proof.
  revert p. induction ss as [|s ss IH]; intros p; [by intros [= <-]|].
  intros Hq. cbn [process_loop] in Hq. apply goM_bind_Ok in Hq as ([] & p1 & Hp & Hq).
  apply process_one_keep in Hp as [He _]; [|by left]. simpl. rewrite He. by apply IH.
Qed.

Lemma process_expands settings (p q : ProcessCtx.t R) :
  processSettings provider now lk true settings p = (Ok (), q) →
  ∃ oc expanded, expands oc settings expanded
    ∧ effects expanded (raw p) = Some (raw q)
    ∧ ∀ c, snap p = Some c → oc = Some c.
Proof.
  unfold processSettings. revert p. induction settings as [|s l IH]; intros p.
  { intros [= <-]. exists (snap p), []. by repeat constructor. }
  intros Hq. cbn [process_loop] in Hq. apply goM_bind_Ok in Hq as ([] & p1 & Hp & Hq).
  destruct (IH p1 Hq) as (oc & l' & Hexp & Heff & Hoc).
  destruct (followed s) as [v|] eqn:Hf.
  - destruct (process_one_snapshot _ _ _ _ _ Hf Hp)
      as (c & name & ss & p2 & q2 & Hn & Hl & Hr & Hp2 & Hq2 & Hsc & Hc0).
    pose proof (Hoc c Hsc) as ->. exists (Some c), (ss ++ l').
    split; [by eapply expands_snapshot|]. split.
    + rewrite effects_app. apply process_nested_effects in Hr.
      by rewrite <-Hp2, Hr, <-Hq2.
    + intros c0 Hs. by rewrite (Hc0 c0 Hs).
  - apply process_one_keep in Hp as [He Hs]; [|by right].
    exists oc, (s :: l'). split; [by constructor|]. split; [simpl; by rewrite He|].
    intros c0 Hp0. apply Hoc. by rewrite Hs.
Qed.

(** *** The last setting of a key wins *)

Definition plain_value (k : string) (s : Setting.t) : option (option string * bool) :=
  match effective_key s, setting_kind s with
  | Some k', Plain v isJson => if String.eqb k' k then Some (v, isJson) else None
  | _, _ => None
  end.

Lemma effects_key_value settings r r' k :
  effects settings r = Some r' →
  r'.(RawSettings.KeyValueSettings) !! k
    = match last (omap (plain_value k) settings) with
      | Some (v, _) => Some v
      | None => r.(RawSettings.KeyValueSettings) !! k
      end
  ∧ r'.(RawSettings.IsJsonContentTypeMap) !! k
    = match last (omap (plain_value k) settings) with
      | Some (_, isJson) => Some isJson
      | None => r.(RawSettings.IsJsonContentTypeMap) !! k
      end.
Proof.
  revert r. induction settings as [|s l IH]; intros r; [by intros [= <-]|].
  cbn [effects]. intros (r1 & He & Hl)%bind_Some. destruct (IH r1 Hl) as [IH1 IH2].
  assert (r1.(RawSettings.KeyValueSettings) !! k
          = match plain_value k s with
            | Some (v, _) => Some v | None => r.(RawSettings.KeyValueSettings) !! k end
        ∧ r1.(RawSettings.IsJsonContentTypeMap) !! k
          = match plain_value k s with
            | Some (_, j) => Some j | None => r.(RawSettings.IsJsonContentTypeMap) !! k end)
    as [Hr1 Hr2].
  { clear -He. unfold effect, plain_value in *.
    destruct (effective_key s) as [k'|]; [|by injection He as <-].
    destruct (setting_kind s) as [v j| | |].
    - injection He as <-. cbn. destruct (String.eqb k' k) eqn:Hk.
      + apply String.eqb_eq in Hk as ->. by rewrite !lookup_insert_eq.
      + apply String.eqb_neq in Hk. by rewrite !lookup_insert_ne.
    - by injection He as <-.
    - apply bind_Some in He as (sec & _ & He).
      destruct (secret_type_of _ _); try done. destruct (from_option _ _ _); try done.
      by injection He as <-.
    - by injection He as <-. }
  rewrite IH1, IH2, Hr1, Hr2. cbn [omap list_omap].
  destruct (plain_value k s) as [[v j]|]; [|by destruct (last _) as [[]|]].
  rewrite last_cons. by destruct (last _) as [[]|].
Qed.

(** C7: The raw settings of a successful load are those of a left fold over
    the settings in which every snapshot reference is replaced, where it
    stands, by the settings of its snapshot.  A key that is not a secret, a
    flag or a reference has the value and the JSON mark of the last such
    setting with that key once its prefix is trimmed. *)
Theorem processSettings_fold settings (p q : ProcessCtx.t R) :
  processSettings provider now lk true settings p = (Ok (), q) →
  ∃ oc expanded, expands oc settings expanded
    ∧ effects expanded (raw p) = Some (raw q)
    ∧ ∀ k,
      (raw q).(RawSettings.KeyValueSettings) !! k
        = match last (omap (plain_value k) expanded) with
          | Some (v, _) => Some v
          | None => (raw p).(RawSettings.KeyValueSettings) !! k
          end
      ∧ (raw q).(RawSettings.IsJsonContentTypeMap) !! k
        = match last (omap (plain_value k) expanded) with
          | Some (_, isJson) => Some isJson
          | None => (raw p).(RawSettings.IsJsonContentTypeMap) !! k
          end.
Proof.
  intros (oc & expanded & Hexp & Heff & _)%process_expands.
  exists oc, expanded. split; [done|]. split; [done|]. intros k. by apply effects_key_value.
Qed.
End fold.

(** ** Feature flags are kept by key, the last one winning *)

Section flag_lemmas.
Context `{Unicode} `{Codec} (endpoint : string).

(** The flag a setting stands for. *)
Definition decode_flag (s : Setting.t) : result value :=
  v ← deref s.(Setting.Value);
  out ← json_unmarshal_object v;
  flag_value out s endpoint.

(** Reference: a setting stays unless a later one has its key. *)
Fixpoint last_by_key (settings : list Setting.t) : list Setting.t :=
  match settings with
  | [] => []
  | s :: l =>
    if bool_decide (Setting.Key s ∈ Setting.Key <$> l) then last_by_key l
    else s :: last_by_key l
  end.

(** The settings the loop decodes, in its order. *)
Fixpoint first_new (seen : gset string) (settings : list Setting.t) : list Setting.t :=
  match settings with
  | [] => []
  | s :: l =>
    match s.(Setting.Key) with
    | None => first_new seen l
    | Some k =>
      if bool_decide (k ∈ seen) then first_new seen l else s :: first_new ({[k]} ∪ seen) l
    end
  end.

Lemma flags_loop_Ok settings seen flags r :
  Forall (λ s, is_Some s.(Setting.Key)) settings →
  flags_loop endpoint settings seen flags = Ok r ↔
  ∃ fs, Forall2 (λ s f, decode_flag s = Ok f) (first_new seen settings) fs ∧ r = flags ++ fs.
Proof.
  revert seen flags. induction settings as [|s l IH]; intros seen flags; simpl.
  { intros _. split.
    - intros [= ->]. exists []. by rewrite app_nil_r.
    - intros (fs & ->%Forall2_nil_inv_l & ->). by rewrite app_nil_r. }
  intros [[k Hk] Hl]%Forall_cons. rewrite Hk. cbn [deref mbind outcome_bind].
  destruct (bool_decide (k ∈ seen)); [by apply IH|].
  transitivity (∃ f, decode_flag s = Ok f
                     ∧ flags_loop endpoint l ({[k]} ∪ seen) (flags ++ [f]) = Ok r).
  { unfold decode_flag. destruct (Setting.Value s) as [v|]; simpl; [|naive_solver].
    destruct (json_unmarshal_object v); simpl; [|naive_solver|naive_solver].
    apply outcome_bind_Ok. }
  setoid_rewrite (IH _ _ Hl). split.
  - intros (f & Hf & fs & Hfs & ->). exists (f :: fs). split; [by constructor|].
    by rewrite <-app_assoc.
  - intros (fs & Hfs & ->). inversion Hfs as [|? f ? fs' Hf Hfs']; subst.
    exists f. split; [done|]. exists fs'. by rewrite <-app_assoc.
Qed.

Lemma first_new_snoc seen l s k :
  s.(Setting.Key) = Some k →
  first_new seen (l ++ [s])
  = first_new seen l
    ++ (if bool_decide (k ∈ seen ∨ Some k ∈ Setting.Key <$> l) then [] else [s]).
Proof.
  intros Hk. revert seen. induction l as [|s' l IH]; intros seen; simpl.
  { rewrite Hk. rewrite (bool_decide_ext (k ∈ seen ∨ Some k ∈ []) (k ∈ seen))
      by (rewrite elem_of_nil; tauto).
    by destruct (bool_decide _). }
  assert (∀ (P Q : Prop) `{Decision P, Decision Q} (a : list Setting.t), (P ↔ Q) →
    a ++ (if bool_decide P then [] else [s]) = a ++ (if bool_decide Q then [] else [s]))
    as Hif by (intros * HPQ; by rewrite (bool_decide_ext _ _ HPQ)).
  destruct (Setting.Key s') as [k'|] eqn:Hk';
    [destruct (bool_decide_reflect (k' ∈ seen)) as [Hin|Hin]|];
    rewrite IH; cbn [app]; try apply (f_equal (cons s')); apply Hif; simpl;
    rewrite elem_of_cons; set_solver.
Qed.

Lemma first_new_rev l :
  Forall (λ s, is_Some s.(Setting.Key)) l → first_new ∅ (rev l) = rev (last_by_key l).
Proof.
  induction 1 as [|s l [k Hk] _ IH]; [done|]. simpl. rewrite (first_new_snoc _ _ _ _ Hk), IH.
  rewrite Hk, (bool_decide_ext (k ∈ ∅ ∨ Some k ∈ Setting.Key <$> rev l)
                               (Some k ∈ Setting.Key <$> l))
    by (rewrite <-reverse_rev, fmap_reverse, elem_of_reverse; set_solver).
  destruct (bool_decide _); [by rewrite app_nil_r|done].
Qed.

(** C14: The feature flags collected are those of the settings that no later
    setting has the key of, in the order of the settings: the loop from the
    last to the first with a set of keys, and the reversal in place of the
    flags, implement that reference; and the load succeeds exactly when each
    flag kept can be decoded. *)
Theorem deduplicate_flags_last settings flags :
  Forall (λ s, is_Some s.(Setting.Key)) settings →
  deduplicate_flags endpoint settings = Ok flags ↔
  Forall2 (λ s f, decode_flag s = Ok f) (last_by_key settings) flags.
Proof.
  intros Hk. unfold deduplicate_flags. rewrite outcome_bind_Ok.
  setoid_rewrite flags_loop_Ok; [|by apply Forall_rev].
  rewrite first_new_rev, <-reverse_rev by done.
  setoid_rewrite Slice.reverse_range_all. split.
  - intros (a & (fs & Hfs & ->) & [= <-]). simpl.
    by rewrite <-(reverse_involutive (last_by_key _)); apply Forall2_reverse.
  - intros Hfs. exists (list.reverse flags). split; [|by rewrite reverse_involutive].
    exists (list.reverse flags). split; [by apply Forall2_reverse|done].
Qed.
End flag_lemmas.

(** ** The order in which secrets are resolved *)

Section resolve_lemmas.
Context `{Unicode} `{Codec} `{Crypto}.
Context (dataOptions : option DataOptions.t).
Context (resolve : KeyVaultSecretMetadata.t → result SecretResponse.t).
Hypothesis options_ok : ∀ opts, dataOptions = Some opts →
  opts.(DataOptions.Type_) ≠ Properties ∧ opts.(DataOptions.Separator) ≠ Some EmptyString.

Lemma resolve_opaque_order (o1 o2 : MapOrder) refs data :
  @resolve_opaque _ _ o1 (Ok dataOptions) resolve refs = Ok data →
  @resolve_opaque _ _ o2 (Ok dataOptions) resolve refs = Ok data.
Proof.
  unfold resolve_opaque. case_match; [done|]. rewrite !outcome_bind_Ok.
  intros (values & Hv & Hd). exists values.
  split; [by apply (range_collect_order _ o1 o2)|].
  cbn [mbind outcome_bind] in *. by rewrite (typed_secrets_order o2 o1).
Qed.

Lemma resolve_secret_order (o1 o2 : MapOrder) name target s :
  @resolve_secret _ _ o1 _ (Ok dataOptions) resolve name target = Ok s →
  @resolve_secret _ _ o2 _ (Ok dataOptions) resolve name target = Ok s
  ∧ s.(Secret.Type_) = target.(TargetK8sSecretMetadata.Type_).
Proof.
  unfold resolve_secret. rewrite !outcome_bind_Ok. intros (data & Hd & [= <-]).
  split; [|done]. exists data. split; [|done].
  destruct (String.eqb _ SecretTypeOpaque); [by apply (resolve_opaque_order o1 o2)|done].
Qed.

(** C18: Resolving the secret references, which starts a goroutine per
    reference and ranges over maps, gives one result whatever the order in
    which the goroutines finish and the maps are visited (outside the
    properties format): one Secret per name asked for, of the type asked
    for. *)
Theorem resolve_secrets_order (o1 o2 : MapOrder) refs secrets :
  @resolve_secrets _ _ o1 _ (Ok dataOptions) resolve refs = Ok secrets →
  @resolve_secrets _ _ o2 _ (Ok dataOptions) resolve refs = Ok secrets
  ∧ dom secrets = dom refs
  ∧ ∀ name target s, refs !! name = Some target → secrets !! name = Some s →
      s.(Secret.Type_) = target.(TargetK8sSecretMetadata.Type_).
Proof.
  unfold resolve_secrets. intros Hr.
  pose proof (proj1 (range_collect_Ok _ _ _) Hr) as Hr'. clear Hr. rename Hr' into Hr. split; [|split].
  - refine (proj2 (range_collect_Ok _ _ _) _). intros name. specialize (Hr name).
    case_match; [|done]. destruct Hr as (s & Hs & Hl). exists s. split; [|done].
    by apply (resolve_secret_order o1 o2).
  - apply set_eq. intros name. rewrite !elem_of_dom. specialize (Hr name).
    destruct (refs !! name); [|by rewrite Hr]. naive_solver.
  - intros name target s Ht Hs. specialize (Hr name). rewrite Ht in Hr.
    destruct Hr as (s' & Hs' & Hl). simplify_eq. by eapply (resolve_secret_order o1 o2).
Qed.
End resolve_lemmas.

(** ** Refreshing the feature flags, and the sentinels *)

(** C21: A refresh of the feature flags replaces the flag section of the JSON
    data of the ConfigMap and keeps every other setting: reading the new data
    gives the new section and the settings that were there (UTF-8 and nested
    10000 deep at most). *)
Theorem replace_flags_keeps_settings `{Unicode} `{Codec} provider opts existing section
    old others data :
  provider.(Provider.Spec).(Spec.Target).(Target.ConfigMapData) = Some opts →
  opts.(DataOptions.Type_) = Json →
  unmarshalConfigMap existing (Some opts) = Ok (old, others) →
  readable (<[FeatureManagementSectionName := VMap section]> others) = true →
  replace_flags provider existing section = Ok data →
  unmarshalConfigMap data (Some opts) = Ok (section, others).
Proof.
  intros Hc Ht Hu Hutf. unfold replace_flags, marshalJsonYaml. rewrite Hc, Hu.
  cbn [mbind outcome_bind deref]. rewrite Ht.
  destruct (json_marshal _) as [s| |] eqn:Hm; [|done|done]. intros [= <-].
  assert (others !! FeatureManagementSectionName = None) as Hnone.
  { revert Hu. unfold unmarshalConfigMap. cbn [mbind outcome_bind deref].
    destruct (existing !! _); [|done]. rewrite outcome_bind_Ok. intros (kv & _ & Hkv).
    destruct (kv !! _) as [[]|]; try done. injection Hkv as _ <-. apply lookup_delete_eq. }
  unfold unmarshalConfigMap. cbn [mbind outcome_bind deref].
  rewrite lookup_singleton_eq, Ht, (json_object_roundtrip _ _ Hutf Hm).
  cbn. by rewrite lookup_insert_eq, delete_insert_id by done.
Qed.

Section sentinels.
Context `{Unicode} `{IPLiterals} `{MapOrder} `{SDK} `{!Store} `{Resolver}.
Context (provider : Provider.t) (env : nat → PolicyEnv.t).

Lemma sentinels_loop_Ok eTags changed refreshed changed' refreshed' s s' :
  sentinels_loop provider env eTags changed refreshed s = (Ok (changed', refreshed'), s') →
  NoDup eTags.*1 → (∀ k, k ∈ eTags.*1 → refreshed !! k = None) →
  (changed = true → changed' = true)
  ∧ dom refreshed' = (list_to_set eTags.*1 ∪ dom refreshed : gset Sentinel.t)
  ∧ (changed' = false → refreshed' = (list_to_map eTags : sentinel_etags) ∪ refreshed).
Proof.
  unfold sentinel_etags, ETag in *. revert changed refreshed s.
  induction eTags as [|[sentinel tag] l IH];
    intros changed refreshed s.
  { cbn. intros [= <- <- <-] _ _. split; [done|]. split; [set_solver|].
    by rewrite (left_id_L ∅ (∪)). }
  cbn [sentinels_loop]. intros Hr. go_inv Hr. rename x into response, x1 into newETag.
  rewrite fmap_cons. intros [Hn Hnd]%NoDup_cons Hfresh.
  assert (∀ v k, k ∈ l.*1 → <[sentinel := v]> refreshed !! k = None) as Hfresh'.
  { intros v k Hk. rewrite lookup_insert_ne by (intros ->; done). apply Hfresh. by right. }
  destruct newETag as [e|]; apply IH in Hr as (Hc & Hd & He); try exact Hnd;
    try (intros k; apply Hfresh'); unfold sentinel_etags, ETag in *.
  - split; [by intros _; apply Hc|]. rewrite Hd, dom_insert_L. split; [set_solver|].
    by rewrite Hc.
  - split; [done|]. rewrite Hd, dom_insert_L. split; [set_solver|].
    intros Hf. rewrite (He Hf). cbn [list_to_map foldr fst snd].
    rewrite <-insert_union_l, insert_union_r; [done|].
    by apply not_elem_of_list_to_map.
Qed.

(** A check of the sentinels looks at each sentinel once and returns an
    ETag for each of them; unless it reports a change, the ETags are those
    it was given. *)
Theorem CheckAndRefreshSentinels_unchanged eTags changed refreshed s s' :
  CheckAndRefreshSentinels provider env eTags s = (Ok (changed, refreshed), s') →
  dom refreshed = dom eTags ∧ (changed = false → refreshed = eTags).
Proof.
  unfold CheckAndRefreshSentinels, sentinel_etags, ETag. intros Hr%sentinels_loop_Ok;
    [|apply range_fst_NoDup|intros; apply lookup_empty].
  destruct Hr as (_ & Hd & Hu). unfold sentinel_etags, ETag in *.
  rewrite (right_id_L ∅ (∪)), range_list_to_map in Hu. split; [|done].
  rewrite Hd, dom_empty_L, (right_id_L ∅ (∪)), <-dom_list_to_map_L.
  by rewrite range_list_to_map.
Qed.
End sentinels.

(** ** Witnesses *)

Module SettingLoaderWitness.
Import ClientsWitness FailoverWitness.
#[export] Existing Instance no_ip_literals.
#[export] Existing Instance SimpleCodec.instance.
#[export] Existing Instance map_to_list_order.

Definition plain (k v : string) : Setting.t := Setting.mk (Some k) None (Some v) None ∅ (Some k).
Definition typed (k v ct : string) : Setting.t :=
  Setting.mk (Some k) None (Some v) (Some ct) ∅ (Some k).

(** The snapshot [snap] holds a setting and a reference to itself. *)
Definition store : @Store sdk := {|
  ListSettings _ _ _ := [];
  GetSetting _ k _ tag :=
    if bool_decide (tag = Some "e1") then Err (ResponseError 304 EmptyString "not modified")
    else Ok (Setting.mk (Some k) None (Some "1") None ∅ (Some "e1"));
  GetSnapshot _ n :=
    if String.eqb n "snap" then Ok (Some CompositionTypeKey)
    else Err (ResponseError 404 EmptyString "not found");
  ListSettingsForSnapshot _ _ :=
    [Ok (Page.mk (Some [plain "app:color" "blue"; typed "again" "snap" SnapshotReferenceContentType])
           None)];
|}.
#[export] Existing Instance store.

Definition get_secret (md : KeyVaultSecretMetadata.t) : result SecretResponse.t :=
  Ok (SecretResponse.mk (Some ("value of " +:+ md.(KeyVaultSecretMetadata.SecretName)))
        (Some CertTypePem)).
Definition vault : SecretResolver unit := {| new_resolver _ := Ok tt; resolve _ := get_secret |}.
#[export] Existing Instance vault.

(** No certificate can be decoded. *)
Definition crypto : Crypto := {|
  private_key := unit;
  base64_decode _ := Err (Errorf "illegal base64 data");
  pkcs12_to_pem _ := Err (Errorf "pkcs12");
  pem_decode _ := None;
  pem_encode _ := EmptyString;
  parse_pkcs1 _ := None; parse_pkcs8 _ := None; parse_ec _ := None;
  marshal_pkcs8 _ := Ok EmptyString;
|}.
#[export] Existing Instance crypto.

Definition opts : DataOptions.t := DataOptions.mk Json "settings.json" (Some ":").
Definition provider : Provider.t :=
  Provider.mk "p" "ns" "uid" 1 ∅ ∅
    (Spec.mk (Some "https://store.azconfig.io") true false None (Target.mk "cm" (Some opts)) None
       (KeyValueOptions.mk [] ["app:"] None)
       (Some (SecretReference.mk (SecretTarget.mk "secret" None) None None)) None)
    (Status.mk 0%Z 0%Z NoPhase EmptyString (RefreshStatus.mk 0%Z 0%Z 0%Z)).

Definition settings : list Setting.t :=
  [plain "app:color" "red"; plain "color" "green";
   typed "ref" (dquoted ["{"; "snapshot_name"; ": "; "snap"; "}"]) SnapshotReferenceContentType; plain "app:size" "3";
   typed "pass" (dquoted ["{"; "uri"; ":"; "https://v.azure.net/secrets/pass"; "}"])
     SecretReferenceContentType].
Definition context : ProcessCtx.t unit :=
  ProcessCtx.mk (initial_raw provider None) None None false false (FailoverWitness.loader "").
Definition run := processSettings provider t0 lk true settings context.

Definition flag (k v : string) : Setting.t := typed k v FeatureFlagContentType.
Definition doc (n : string) : string :=
  match json_marshal {["id" := VString n]} with Ok s => s | _ => EmptyString end.
Definition flag_settings : list Setting.t :=
  [flag "a" (doc "a1"); flag "b" (doc "b"); flag "a" (doc "a2")].

Definition refs : gmap string TargetK8sSecretMetadata.t :=
  {["secret" := TargetK8sSecretMetadata.mk SecretTypeOpaque
      {["x" := KeyVaultSecretMetadata.mk "v" "x" ""; "y" := KeyVaultSecretMetadata.mk "v" "y" "1"]}
      ""]}.
Definition resolved : gmap string Secret.t :=
  {["secret" := Secret.make SecretTypeOpaque {["x" := "value of x"; "y" := "value of y"]}]}.

Definition others : gmap string value := {["color" := VString "red"]}.
Definition section (n : string) : gmap string value :=
  {[FeatureFlagSectionName := VArray [VMap {["id" := VString n]}]]}.
Definition data (n : string) : gmap string string :=
  match marshalJsonYaml (<[FeatureManagementSectionName := VMap (section n)]> others) opts with
  | Ok s => {["settings.json" := s]} | _ => ∅ end.

Definition sentinel (k : string) : Sentinel.t := Sentinel.mk k None.
Definition sentinels : sentinel_etags := {[sentinel "a" := Some "e1"]}.
Definition csl : CSL.t := CSL.mk _ (FailoverWitness.loader "") 0.
Definition checked := CheckAndRefreshSentinels provider (λ _, FailoverWitness.env) sentinels csl.
End SettingLoaderWitness.
Import ClientsWitness FailoverWitness SettingLoaderWitness.

Example settings_processed :
  (ProcessCtx.rawSettings run.2).(RawSettings.KeyValueSettings)
  = {["color" := Some "blue"; "size" := Some "3"]}.
Proof. vm_compute. reflexivity. Qed.

Lemma processSettings_fold_witness :
  ∃ oc expanded, expands provider oc settings expanded
    ∧ effects provider expanded (initial_raw provider None) = Some (ProcessCtx.rawSettings run.2)
    ∧ ∀ k,
      (ProcessCtx.rawSettings run.2).(RawSettings.KeyValueSettings) !! k
        = match last (omap (plain_value provider k) expanded) with
          | Some (v, _) => Some v | None => None end
      ∧ (ProcessCtx.rawSettings run.2).(RawSettings.IsJsonContentTypeMap) !! k
        = match last (omap (plain_value provider k) expanded) with
          | Some (_, isJson) => Some isJson | None => None end.
Proof.
  apply (processSettings_fold provider t0 lk settings context run.2).
  vm_compute. reflexivity.
Defined.

Lemma deduplicate_flags_last_witness :
  ∃ flags, deduplicate_flags "https://store" flag_settings = Ok flags
    ∧ Forall2 (λ s f, decode_flag "https://store" s = Ok f)
        (last_by_key flag_settings) flags
    ∧ length flags = 2.
Proof.
  exists (match deduplicate_flags "https://store" flag_settings with Ok f => f | _ => [] end).
  split; [vm_compute; reflexivity|]. split; [|vm_compute; reflexivity].
  apply (deduplicate_flags_last "https://store" flag_settings).
  - repeat constructor; by eexists.
  - vm_compute. reflexivity.
Defined.

Lemma resolve_secrets_order_witness :
  @resolve_secrets _ _ reverse_order _ (Ok None) get_secret refs = Ok resolved
  ∧ dom resolved = dom refs
  ∧ ∀ name target s, refs !! name = Some target → resolved !! name = Some s →
      s.(Secret.Type_) = target.(TargetK8sSecretMetadata.Type_).
Proof.
  apply (resolve_secrets_order None get_secret ltac:(done) map_to_list_order reverse_order).
  vm_compute. reflexivity.
Defined.

Lemma replace_flags_keeps_settings_witness :
  replace_flags provider (data "old") (section "new") = Ok (data "new")
  ∧ unmarshalConfigMap (data "new") (Some opts) = Ok (section "new", others).
Proof.
  split; [vm_compute; reflexivity|].
  apply (replace_flags_keeps_settings provider opts (data "old")
    (section "new") (section "old") others).
  - reflexivity.
  - reflexivity.
  - vm_compute. reflexivity.
  - vm_compute. reflexivity.
  - vm_compute. reflexivity.
Defined.

Lemma CheckAndRefreshSentinels_unchanged_witness :
  dom sentinels = dom sentinels ∧ (false = false → sentinels = sentinels).
Proof.
  apply (CheckAndRefreshSentinels_unchanged provider (λ _, FailoverWitness.env) sentinels false
    sentinels csl checked.2).
  vm_compute. reflexivity.
Defined.
