(* ===== verification/ManagerInvariant.v ===== *)
(** Invariants of the client manager along every method of the loader.

    [ManagerInv P] says that the operations of the manager keep [P]; then so do
    the failover policy and the six methods the processor calls, on every path:
    an error or a panic in the middle of a load leaves a manager in [P].

    There are two instances: [good], the invariant of the manager and its heap
    that [Clients.v] states and [Auth.v] proves of a new manager; and
    [allocated c], that the client [c] is one the manager has built. *)

From S2P Require Import Prelude GoStrings Errors Api Json Filters Tree Codec Data TypedSettings.
From S2P Require Import Url ConnString Backoff Tracing Clients Failover SettingsClients Auth.
From S2P Require Import KeyVault SettingLoader.
From Stdlib Require Import QArith.
#[local] Close Scope Q_scope.

(** ** What the operations of the manager keep *)

Class ManagerInv `{Unicode} `{IPLiterals} `{SDK} `{Resolver}
    (P : Clients.t → Prop) : Prop := {
  GetClients_inv now lk : keeps (preserves P) (GetClients now lk);
  RefreshClients_inv now lk : keeps (preserves P) (RefreshClients now lk);
  update_backoff_inv env i c ok s : P s → P (update_backoff env i c ok s);
  last_endpoint_inv e s :
    P s → P (Clients.set_manager (set (p:=Manager.lastSuccessfulEndpoint) (λ _, e)) s);
}.

Section instances.
Context `{Unicode} `{IPLiterals} `{SDKOk} `{Resolver}.

(** A back-off changes no endpoint and moves no pointer. *)
Lemma endpoint_update_backoff env i c ok s l :
  Clients.endpoint_of (update_backoff env i c ok s) l = Clients.endpoint_of s l.
Proof.
  unfold Clients.endpoint_of. rewrite heap_update_backoff. case_decide; [|done].
  destruct (Clients.heap s !! l) as [w|]; [|done]. cbn. f_equal.
  apply (update_keeps_client (PolicyEnv.attempt_time env i) (PolicyEnv.attempt_rand env i) w ok).
Qed.

#[export] Instance good_inv : ManagerInv good.
Proof.
  split; [| | |done].
  - intros now lk s Hg. apply (call_step_good (CallGet now lk) s Hg).
  - intros now lk s Hg. apply (call_step_good (CallRefresh now lk) s Hg).
  - intros env i c ok s (Hwf & Hr & Hu). split; [|split; [|done]].
    + unfold wf, wrappers in *. cbn [update_backoff Clients.manager Clients.heap].
      by rewrite length_alter.
    + unfold replicas_ok in *. eapply Forall_impl; [exact Hr|].
      intros l (host & He & Hh). exists host. by rewrite endpoint_update_backoff.
Qed.

(** The client is in a wrapper that the manager has allocated. *)
Definition allocated (c : client) (s : Clients.t) : Prop :=
  ∃ l w, s.(Clients.heap) !! l = Some w ∧ w.(Wrapper.Client) = c.

Lemma allocated_app c s s' ws :
  s'.(Clients.heap) = s.(Clients.heap) ++ ws → allocated c s → allocated c s'.
Proof.
  intros Hh (l & w & Hl & Hc). exists l, w. rewrite Hh. split; [|done].
  by apply lookup_app_l_Some.
Qed.

Lemma discover_allocated c now lk : keeps (preserves (allocated c)) (discover now lk).
Proof.
  unfold discover. repeat keeps_step; [intros Hc; exact Hc|].
  intros s Hc. unfold DiscoverFallbackClients. repeat (case_match; simplify_eq/=; try done).
  by eapply allocated_app; [|exact Hc].
Qed.

#[export] Instance allocated_inv c : ManagerInv (allocated c).
Proof.
  split; [| | |done].
  - intros now lk. unfold GetClients. repeat keeps_step. apply discover_allocated.
  - intros now lk. unfold RefreshClients. repeat keeps_step. apply discover_allocated.
  - intros env i c' ok s (l & w & Hl & Hc). unfold allocated.
    setoid_rewrite heap_update_backoff. destruct (decide (l = c')) as [Heq|Hne].
    + eexists l, _. rewrite decide_True by done. rewrite Hl. split; [reflexivity|].
      rewrite <-Hc. by apply update_keeps_client.
    + exists l, w. by rewrite decide_False.
Qed.
End instances.

(** ** The failover policy *)

Section manager.
Context `{Unicode} `{IPLiterals} `{SDK} `{Resolver}.
Context (P : Clients.t → Prop) `{!ManagerInv P}.

(** The loader's manager satisfies the invariant. *)
Definition loader_inv (l : Loader.t) : Prop := P l.(Loader.ClientManager).

Lemma on_clients_keeps {A} (m : goM Clients.t error A) :
  keeps (preserves P) m → keeps (preserves loader_inv) (on_clients m).
Proof.
  intros Hm l Hl. specialize (Hm (Loader.ClientManager l) Hl).
  unfold on_clients. by destruct (m _).
Qed.

Lemma trace_attempt_loader_inv env b l : loader_inv l → loader_inv (trace_attempt env b l).
Proof. unfold loader_inv. by rewrite trace_attempt_clients. Qed.

Lemma try_clients_keeps {A} spec env (G : get_settings A) i cs b errs :
  keeps (preserves loader_inv) (try_clients spec env G i cs b errs).
Proof.
  revert i b errs. induction cs as [|c cs IH]; intros i b errs; cbn [try_clients];
    repeat keeps_step; try apply IH.
  - apply on_clients_keeps, RefreshClients_inv.
  - intros Hl. by apply trace_attempt_loader_inv.
  - intros Hl. by apply update_backoff_inv, last_endpoint_inv.
  - intros Hl. by apply update_backoff_inv.
Qed.

Lemma execute_policy_keeps {A} spec env (G : get_settings A) :
  keeps (preserves loader_inv) (ExecuteFailoverPolicy spec env G).
Proof.
  unfold ExecuteFailoverPolicy. repeat keeps_step; try apply on_clients_keeps.
  - apply GetClients_inv.
  - apply RefreshClients_inv.
  - apply try_clients_keeps.
Qed.
End manager.

(** ** The settings of a load *)

Section process.
Context `{Unicode} `{IPLiterals} `{SDK} `{!Store}
  `{Resolver}.
Context {R : Type} `{!SecretResolver R}.
Context (P : Clients.t → Prop) `{!ManagerInv P}.
Context (provider : Provider.t) (now : Time.time) (lk : Lookup.t).

Definition ctx_inv (p : ProcessCtx.t R) : Prop := loader_inv P p.(ProcessCtx.loader).

Lemma set_raw_keeps f : keeps (preserves ctx_inv) (set_raw f).
Proof. apply keeps_modify. intros p. keeps_state. Qed.

Lemma process_secret_keeps s key k :
  keeps (preserves ctx_inv) (process_secret provider s key k).
Proof.
  unfold process_secret. repeat keeps_step; try keeps_state. apply set_raw_keeps.
Qed.

Lemma process_plain_keeps k ct v j : keeps (preserves ctx_inv) (process_plain k ct v j).
Proof.
  unfold process_plain. keeps_step; [apply set_raw_keeps|]. repeat keeps_step. keeps_state.
Qed.

Lemma snapshot_client_keeps : keeps (preserves ctx_inv) (snapshot_client now lk).
Proof.
  intros p Hp. unfold snapshot_client. case_match; [done|].
  pose proof (on_clients_keeps P _ (GetClients_inv now lk) _ Hp) as Hl.
  destruct (on_clients _ _) as [o l]. repeat case_match; exact Hl.
Qed.

Lemma open_snapshot_keeps v k : keeps (preserves ctx_inv) (open_snapshot now lk v k).
Proof.
  unfold open_snapshot. repeat keeps_step; [keeps_state|apply snapshot_client_keeps].
Qed.

Lemma nested_process_keeps f ss :
  (∀ ss, keeps (preserves ctx_inv) (f ss)) → keeps (preserves ctx_inv) (nested_process f ss).
Proof.
  intros Hf p Hp. unfold nested_process.
  match goal with |- context [f ss ?q] => pose proof (Hf ss q Hp) as Hq end.
  destruct (f ss _) as [[| |] q]; exact Hq.
Qed.

Lemma process_loop_keeps nested settings :
  (∀ f ss, nested = Some f → keeps (preserves ctx_inv) (f ss)) →
  keeps (preserves ctx_inv) (process_loop provider now lk nested settings).
Proof.
  intros Hf. induction settings as [|s l IH]; cbn [process_loop]; keeps_step; [|apply IH].
  unfold process_one. repeat keeps_step; simplify_eq.
  - apply process_plain_keeps.
  - apply process_secret_keeps.
  - apply open_snapshot_keeps.
  - apply nested_process_keeps. eauto.
Qed.

Lemma processSettings_keeps allow settings :
  keeps (preserves ctx_inv) (processSettings provider now lk allow settings).
Proof.
  unfold processSettings. apply process_loop_keeps. intros f ss Hf.
  destruct allow; [|done]. injection Hf as <-. by apply process_loop_keeps.
Qed.
End process.

(** ** The methods of the loader *)

Section methods.
Context `{Unicode} `{IPLiterals} `{Codec} `{MapOrder} `{Crypto}
  `{SDK} `{!Store} `{Resolver}.
Context {R : Type} `{!SecretResolver R}.
Context (P : Clients.t → Prop) `{!ManagerInv P}.
Context (provider : Provider.t) (env : nat → PolicyEnv.t) (now : Time.time) (lk : Lookup.t).

Definition csl_inv (s : CSL.t) : Prop := loader_inv P s.(CSL.loader).
Notation method_good m := (keeps (preserves csl_inv) m).

Lemma execute_keeps {A} (c : client → result A) : method_good (execute provider env c).
Proof.
  intros s Hs. unfold execute.
  pose proof (execute_policy_keeps P provider.(Provider.Spec) (env s.(CSL.runs)) (λ _, c)
    s.(CSL.loader) Hs) as Hl.
  destruct (ExecuteFailoverPolicy _ _ _ _); exact Hl.
Qed.

Lemma process_all_keeps settings etags (r : option R) :
  method_good (process_all provider now lk settings etags r).
Proof.
  intros s Hs. unfold process_all.
  pose proof (processSettings_keeps P provider now lk true settings
    (ProcessCtx.mk (initial_raw provider etags) r None false false s.(CSL.loader)) Hs) as Hp.
  destruct (processSettings _ _ _ _ _ _) as [[| |] q]; exact Hp.
Qed.

Lemma CreateKeyValueSettings_keeps (r : option R) :
  method_good (CreateKeyValueSettings provider env now lk r).
Proof.
  unfold CreateKeyValueSettings.
  repeat keeps_step; [apply execute_keeps|apply process_all_keeps].
Qed.

Lemma primary_endpoint_keeps : method_good primary_endpoint.
Proof. intros s Hs. exact Hs. Qed.

Lemma getFeatureFlagSettings_keeps : method_good (getFeatureFlagSettings provider env).
Proof.
  unfold getFeatureFlagSettings.
  repeat keeps_step; [apply execute_keeps|apply primary_endpoint_keeps].
Qed.

Lemma sentinels_loop_keeps eTags b refreshed :
  method_good (sentinels_loop provider env eTags b refreshed).
Proof.
  revert b refreshed. induction eTags as [|[s e] l IH]; intros b refreshed;
    cbn [sentinels_loop]; repeat keeps_step; first [apply execute_keeps|apply IH].
Qed.

Lemma keeps_fmap {S E A B} (Q : relation S) (f : A → B) (m : goM S E A) :
  keeps Q m → keeps Q (f <$> m).
Proof. intros Hm s. apply Hm. Qed.

Lemma CreateTargetSettings_keeps null (r : option R) :
  method_good (CreateTargetSettings provider env now lk null r).
Proof.
  unfold CreateTargetSettings. repeat keeps_step.
  - apply CreateKeyValueSettings_keeps.
  - apply keeps_fmap, sentinels_loop_keeps.
  - apply getFeatureFlagSettings_keeps.
Qed.

Lemma CheckPageETags_keeps etags : method_good (CheckPageETags provider env etags).
Proof. unfold CheckPageETags. repeat keeps_step. apply execute_keeps. Qed.

Lemma CheckAndRefreshSentinels_keeps etags :
  method_good (CheckAndRefreshSentinels provider env etags).
Proof. apply sentinels_loop_keeps. Qed.

Lemma RefreshKeyValueSettings_keeps existing (r : option R) :
  method_good (RefreshKeyValueSettings provider env now lk existing r).
Proof.
  unfold RefreshKeyValueSettings. repeat keeps_step. apply CreateKeyValueSettings_keeps.
Qed.

Lemma RefreshFeatureFlagSettings_keeps existing :
  method_good (RefreshFeatureFlagSettings provider env existing).
Proof.
  unfold RefreshFeatureFlagSettings. repeat keeps_step. apply getFeatureFlagSettings_keeps.
Qed.
End methods.
