(* ===== verification/LoadSpec.v ===== *)
(** What a load promises: the specification of the loader's methods, end to end.

    [SettingLoader.v] says what each stage of a load does.  Here the stages are
    composed: the settings written to the ConfigMap are those a client of the
    provider listed, page by page and selector by selector, every snapshot
    reference replaced by its snapshot, the last setting of a key winning; and
    the Secrets are of the types their metadata announce, with the keys the
    format asks for. *)

From S2P Require Import Prelude GoStrings Errors Api Json Filters Tree Codec Data TypedSettings.
From S2P Require Import Url ConnString Backoff Tracing Clients Failover SettingsClients Auth.
From S2P Require Import KeyVault SettingLoader ManagerInvariant.
From Stdlib Require Import QArith.
#[local] Close Scope Q_scope.

(** ** What a client lists *)

Section listing.
Context `{Unicode} `{SDK} `{!Store}.

(** The settings of one selector: all its pages, or its snapshot. *)
Definition selected (c : client) (filter : Selector.t) : result (list Setting.t) :=
  match filter.(Selector.KeyFilter) with
  | Some _ => fst <$> read_pages (ListSettings c (store_selector filter) [])
  | None => name ← deref filter.(Selector.SnapshotName); loadSnapshotSettings c name
  end.

(** The settings of the selectors, one after the other. *)
Definition lists (c : client) (filters : list Selector.t) (settings : list Setting.t) : Prop :=
  ∃ parts, Forall2 (λ f part, selected c f = Ok part) filters parts ∧ settings = concat parts.

Lemma list_selectors_lists c filters ss etags ss' etags' :
  list_selectors c filters ss etags = Ok (ss', etags') →
  ∃ settings, lists c filters settings ∧ ss' = ss ++ settings.
Proof.
  revert ss etags. induction filters as [|f filters IH]; intros ss etags; cbn [list_selectors].
  { intros [= <- _]. exists []. split; [by exists []|by rewrite app_nil_r]. }
  intros Hl. assert (∃ part etags1, selected c f = Ok part
    ∧ list_selectors c filters (ss ++ part) etags1 = Ok (ss', etags'))
    as (part & etags1 & Hp & Hr).
  { unfold selected. destruct (Selector.KeyFilter f).
    - apply outcome_bind_Ok in Hl as ([part e] & -> & Hr). by exists part, (<[MakeComparable f := e]> etags).
    - apply outcome_bind_Ok in Hl as (name & -> & Hl).
      apply outcome_bind_Ok in Hl as (part & Hp & Hr). by exists part, etags. }
  destruct (IH _ _ Hr) as (settings & (parts & Hparts & ->) & ->).
  exists (concat (part :: parts)). split; [|by rewrite <-app_assoc].
  exists (part :: parts). by split; [constructor|].
Qed.

Lemma SelectorSettings_lists filters c resp :
  SelectorSettings filters c = Ok resp →
  lists c filters (default [] resp.(SettingsResponse.Settings)).
Proof.
  unfold SelectorSettings. intros ([ss etags] & Hl & [= <-])%outcome_bind_Ok. cbn.
  by apply list_selectors_lists in Hl as (settings & Hs & ->).
Qed.
End listing.

(** ** The answer of the failover policy comes from a client of the manager *)

Section answer.
Context `{Unicode} `{IPLiterals} `{SDK} `{Resolver}.
Context (provider : Provider.t) (env : nat → PolicyEnv.t).

Lemma update_backoff_allocated env' i l ok s c w :
  s.(Clients.heap) !! l = Some w → w.(Wrapper.Client) = c →
  allocated c (update_backoff env' i l ok s).
Proof. intros Hl Hc. apply update_backoff_inv. by exists l, w. Qed.

Lemma try_clients_answer {A} spec env' (f : client → result A) i cs b errs l l' r :
  try_clients spec env' (λ _, f) i cs b errs l = (Ok r, l') →
  ∃ c, f c = Ok r ∧ allocated c l'.(Loader.ClientManager).
Proof.
  revert i b errs l. induction cs as [|c cs IH]; intros i b errs l; cbn [try_clients].
  { by intros (? & ? & _ & ?)%goM_bind_Ok. }
  intros (? & l1 & [= _ <-] & Hr)%goM_bind_Ok.
  apply goM_bind_Ok in Hr as (? & l2 & [= <- <-] & Hr).
  apply goM_bind_Ok in Hr as (w & l3 & Hw & Hr). unfold lift in Hw. injection Hw as Hw <-.
  destruct (f w.(Wrapper.Client)) as [r'|err|] eqn:Hf; [| |done].
  - apply goM_bind_Ok in Hr as (? & l4 & [= _ <-] & Hr). injection Hr as -> <-.
    exists w.(Wrapper.Client). split; [done|]. cbn.
    eapply update_backoff_allocated; [|done]. cbn.
    by destruct (Clients.heap _ !! c); simplify_eq/=.
  - apply goM_bind_Ok in Hr as (? & l4 & [= _ <-] & Hr).
    destruct (IsFailoverable _); [by eapply IH|done].
Qed.

Lemma execute_answer {A} (f : client → result A) (s s' : CSL.t) r :
  execute provider env f s = (Ok r, s') →
  ∃ c, f c = Ok r ∧ csl_inv (allocated c) s'.
Proof.
  unfold execute. destruct (ExecuteFailoverPolicy _ _ _ _) as [o l] eqn:He.
  intros [= -> <-]. unfold ExecuteFailoverPolicy in He.
  apply goM_bind_Ok in He as (cs & l1 & _ & He). case_bool_decide.
  { by apply goM_bind_Ok in He as (? & ? & _ & ?). }
  apply goM_bind_Ok in He as (l2 & l3 & _ & He).
  apply goM_bind_Ok in He as (cs' & l4 & _ & He). by eapply try_clients_answer.
Qed.
End answer.

(** ** The settings a load collects *)

(** [MergeSecret] into no secrets is the secrets. *)
Lemma merge_new `{Unicode} l (m : gmap string Secret.t) :
  NoDup l.*1 → (∀ k, k ∈ l.*1 → m !! k = None) →
  merge_loop l m = (Ok (), list_to_map l ∪ m).
Proof.
  revert m. induction l as [|[k v] l IH]; intros m; simpl.
  { intros _ _. by rewrite (left_id_L ∅ (∪)). }
  intros [Hk Hl]%NoDup_cons Hm. rewrite Hm by left. rewrite IH; [|done|].
  - f_equal. rewrite <-insert_union_r by (by apply not_elem_of_list_to_map_1).
    by rewrite insert_union_l.
  - intros k' Hk'. rewrite lookup_insert_ne by (by intros ->). apply Hm. by right.
Qed.

Lemma MergeSecret_empty `{Unicode} `{MapOrder} secrets : MergeSecret secrets ∅ = (Ok (), secrets).
Proof.
  unfold MergeSecret. rewrite merge_new by (first [apply range_fst_NoDup|done]).
  by rewrite (right_id_L ∅ (∪)), range_list_to_map.
Qed.

Section load.
Context `{Unicode} `{IPLiterals} `{Codec} `{MapOrder} `{Crypto}
  `{SDK} `{!Store} `{Resolver}.
Context {R : Type} `{!SecretResolver R}.
Context (provider : Provider.t) (env : nat → PolicyEnv.t) (now : Time.time) (lk : Lookup.t).
Let spec : Spec.t := provider.(Provider.Spec).

(** The value and the JSON mark of each key, the last setting of a key
    winning; flags, references and settings whose trimmed key is empty do not
    count. *)
Definition current_step (m : gmap string (option string * bool)) (s : Setting.t)
    : gmap string (option string * bool) :=
  match effective_key provider s, setting_kind s with
  | Some k, Plain v isJson => <[k := (v, isJson)]> m
  | _, _ => m
  end.
Definition current_settings (settings : list Setting.t) : gmap string (option string * bool) :=
  foldl current_step ∅ settings.

(** What a load sees: a client of the manager listed the selectors, and the
    snapshot references in what it listed were replaced. *)
Definition loads (s : CSL.t) (expanded : list Setting.t) : Prop :=
  ∃ filters c listed oc,
    GetKeyValueFilters spec = Ok filters ∧ csl_inv (allocated c) s
    ∧ lists c filters listed ∧ expands provider oc listed expanded.

(** The raw settings hold the current settings [m]. *)
Definition raw_of (m : gmap string (option string * bool)) (r : RawSettings.t) : Prop :=
  r.(RawSettings.KeyValueSettings) = fst <$> m
  ∧ r.(RawSettings.IsJsonContentTypeMap) = snd <$> m.

Lemma effect_current r r' m s :
  effect provider r s = Some r' → raw_of m r → raw_of (current_step m s) r'.
Proof.
  unfold effect, current_step. intros He [Hk Hj].
  destruct (effective_key provider s) as [k|]; [|by injection He as <-].
  destruct (setting_kind s) as [v j| | |]; [|by injection He as <-| |by injection He as <-].
  - injection He as <-. unfold raw_of, put_key_value. cbn.
    by rewrite !fmap_insert, Hk, Hj.
  - apply bind_Some in He as (sec & _ & He).
    destruct (secret_type_of _ _); try done. destruct (from_option _ _ _); try done.
    by injection He as <-.
Qed.

Lemma effects_current settings r r' m :
  effects provider settings r = Some r' → raw_of m r →
  raw_of (foldl current_step m settings) r'.
Proof.
  revert r m. induction settings as [|s l IH]; intros r m; cbn [effects foldl];
    [by intros [= ->]|].
  intros (r1 & He & Hl)%bind_Some Hr. eapply IH; [exact Hl|]. by eapply effect_current.
Qed.

(** The parts of the raw settings that no setting changes. *)
Lemma effects_fixed settings r r' :
  effects provider settings r = Some r' →
  r'.(RawSettings.SecretSettings) = r.(RawSettings.SecretSettings)
  ∧ r'.(RawSettings.FeatureFlagSettings) = r.(RawSettings.FeatureFlagSettings).
Proof.
  revert r. induction settings as [|s l IH]; intros r; cbn [effects]; [by intros [= ->]|].
  intros (r1 & He & Hl)%bind_Some. destruct (IH _ Hl) as [-> ->]. unfold effect in He.
  destruct (effective_key provider s) as [k|]; [|by injection He as <-].
  destruct (setting_kind s) as [v j| | |]; [by injection He as <-..| |by injection He as <-].
  apply bind_Some in He as (sec & _ & He).
  destruct (secret_type_of _ _); try done. destruct (from_option _ _ _); try done.
  by injection He as <-.
Qed.

(** The secrets that the settings resolve to. *)
Definition resolves (k8s : gmap string TargetK8sSecretMetadata.t)
    (secrets : gmap string Secret.t) : Prop :=
  ∃ resolver : R,
    resolve_secrets (s ← deref spec.(Spec.Secret);
                     Ok s.(SecretReference.Target).(SecretTarget.SecretData))
      (resolve resolver) k8s = Ok secrets.

Lemma CreateKeyValueSettings_loads (r : option R) (s s' : CSL.t) raw :
  CreateKeyValueSettings provider env now lk r s = (Ok raw, s') →
  ∃ expanded etags raw0, loads s' expanded
    ∧ effects provider expanded (initial_raw provider etags) = Some raw0
    ∧ raw = raw0 <| RawSettings.SecretSettings := raw.(RawSettings.SecretSettings) |>
    ∧ resolves raw0.(RawSettings.K8sSecrets) raw.(RawSettings.SecretSettings).
Proof.
  unfold CreateKeyValueSettings. intros (filters & s1 & Hf & Hr)%goM_bind_Ok.
  unfold lift in Hf. injection Hf as Hf <-.
  assert (GetKeyValueFilters spec = Ok filters) as Hfilters
    by (by destruct (GetKeyValueFilters _); simplify_eq/=).
  apply goM_bind_Ok in Hr as (resp & s2 & Hex & Hr).
  apply execute_answer in Hex as (c & Hc & Hs2).
  apply goM_bind_Ok in Hr as ([raw0 resolver'] & s3 & Hp & Hr).
  pose proof (keeps_run _ _ _ _ _ (process_all_keeps (allocated c) provider now lk _ _ r) Hp Hs2)
    as Hs3.
  unfold process_all in Hp.
  destruct (processSettings _ _ _ _ _ _) as [[[]|err|] p] eqn:Hps; [|done|done].
  apply process_expands in Hps as (oc & expanded & Hexp & Heff & _). cbn in Heff.
  injection Hp as Hraw Hres _. rewrite Hraw in Heff.
  apply goM_bind_Ok in Hr as (resolved & s4 & Hrs & Hr).
  unfold lift in Hrs. injection Hrs as Hrs <-.
  apply goM_bind_Ok in Hr as (merged & s5 & Hm & Hr).
  injection Hr as <- <-. unfold lift in Hm. injection Hm as Hm <-.
  destruct (effects_fixed _ _ _ Heff) as [Hsec _]. cbn in Hsec. rewrite Hsec, MergeSecret_empty in Hm.
  injection Hm as <-. unfold ResolveSecretReferences in Hrs.
  apply outcome_bind_Ok in Hrs as (rs & _ & Hrs).
  apply outcome_bind_Ok in Hrs as (secrets & Hrs & [= <-]).
  exists expanded, resp.(SettingsResponse.Etags), raw0.
  split; [exists filters, c, (default [] resp.(SettingsResponse.Settings)), oc; split_and!;
          [done..|by apply SelectorSettings_lists|done]|].
  split; [done|]. split; [by destruct raw0|]. by exists rs.
Qed.

(** ** The settings and the Secrets a load returns *)

(** The feature flags of the section are those listed, deduplicated. *)
Definition loads_flags (s : CSL.t) (flags : list value) : Prop :=
  ∃ filters c listed endpoint,
    GetFeatureFlagFilters spec = Ok filters ∧ csl_inv (allocated c) s
    ∧ lists c filters listed ∧ deduplicate_flags endpoint listed = Ok flags.

Definition flag_section (s : CSL.t) (section : option (gmap string value)) : Prop :=
  match spec.(Spec.FeatureFlag) with
  | None => section = None
  | Some _ => ∃ flags, loads_flags s flags
                ∧ section = Some {[FeatureFlagSectionName := VArray flags]}
  end.

(** A later client is still one of the manager's. *)
Lemma loads_keeps {A} (m : goM CSL.t error A) s o s' expanded :
  (∀ c, keeps (preserves (csl_inv (allocated c))) m) → m s = (o, s') →
  loads s expanded → loads s' expanded.
Proof.
  intros Hm Hr (filters & c & listed & oc & Hf & Hc & Hl & He).
  exists filters, c, listed, oc. split_and!; [done| |done..].
  by apply (keeps_run _ _ _ _ _ (Hm c) Hr).
Qed.

Lemma getFeatureFlagSettings_loads s s' section etags :
  getFeatureFlagSettings provider env s = (Ok (section, etags), s') →
  ∃ flags, loads_flags s' flags
    ∧ section = {[FeatureFlagSectionName := VArray flags]}.
Proof.
  unfold getFeatureFlagSettings. fold spec. intros (filters & s1 & Hf & Hr)%goM_bind_Ok.
  unfold lift in Hf. injection Hf as Hf <-.
  apply goM_bind_Ok in Hr as (resp & s2 & (c & Hc & Hs2)%execute_answer & Hr).
  apply goM_bind_Ok in Hr as (endpoint & s3 & He & Hr).
  unfold primary_endpoint in He. injection He as _ <-.
  apply goM_bind_Ok in Hr as (flags & s4 & Hd & Hr). unfold lift in Hd. injection Hd as Hd <-.
  injection Hr as <- _ <-. exists flags. split; [|done].
  exists filters, c, (default [] resp.(SettingsResponse.Settings)), endpoint.
  split_and!; [by destruct (GetFeatureFlagFilters spec); simplify_eq/=|done| |done].
  by apply SelectorSettings_lists.
Qed.

(** What a successful load returns. *)
Record loaded (s : CSL.t) (t : TargetKeyValueSettings.t) (expanded : list Setting.t)
    (section : option (gmap string value)) (raw : RawSettings.t)
    (data : gmap string string) : Prop := {
  loaded_settings : loads s expanded;
  loaded_flags : flag_section s section;
  loaded_raw : raw_of (current_settings expanded) raw;
  loaded_section : raw.(RawSettings.FeatureFlagSettings) = section;
  loaded_typed : createTypedSettings raw spec.(Spec.Target).(Target.ConfigMapData) = Ok data;
  loaded_data : t.(TargetKeyValueSettings.ConfigMapSettings) = Some data;
  loaded_k8s : ∃ etags raw0, effects provider expanded (initial_raw provider etags) = Some raw0
    ∧ t.(TargetKeyValueSettings.K8sSecrets) = raw0.(RawSettings.K8sSecrets)
    ∧ resolves raw0.(RawSettings.K8sSecrets) t.(TargetKeyValueSettings.SecretSettings);
}.

Lemma CreateTargetSettings_loaded null (r : option R) s s' t :
  CreateTargetSettings provider env now lk null r s = (Ok t, s') →
  ∃ expanded section raw data, loaded s' t expanded section raw data.
Proof.
  unfold CreateTargetSettings. fold spec. intros (raw & s1 & Hraw & Hr)%goM_bind_Ok.
  apply CreateKeyValueSettings_loads in Hraw
    as (expanded & etags & raw0 & Hl & Heff & Heq & Hres).
  assert (raw_of (current_settings expanded) raw) as Hof.
  { rewrite Heq. eapply effects_current in Heff; [exact Heff|]. split; cbn; by rewrite fmap_empty. }
  assert (raw.(RawSettings.FeatureFlagSettings) = None) as Hff.
  { rewrite Heq. cbn. by destruct (effects_fixed _ _ _ Heff) as [_ ->]. }
  apply goM_bind_Ok in Hr as (sentinels & s2 & Hsent & Hr).
  assert (loads s2 expanded) as Hl2.
  { eapply loads_keeps; [|exact Hsent|exact Hl]. intros c.
    destruct (monitored_sentinels _ _); [|apply keeps_ret; apply _].
    apply keeps_fmap, sentinels_loop_keeps, _. }
  apply goM_bind_Ok in Hr as (raw2 & s3 & Hflags & Hr).
  assert (loads s3 expanded ∧ ∃ section, flag_section s3 section
    ∧ raw_of (current_settings expanded) raw2
    ∧ raw2.(RawSettings.FeatureFlagSettings) = section
    ∧ raw2.(RawSettings.K8sSecrets) = raw.(RawSettings.K8sSecrets)
    ∧ raw2.(RawSettings.SecretSettings) = raw.(RawSettings.SecretSettings))
    as (Hl3 & section & Hsec & Hof2 & Hff2 & Hk2 & Hs2).
  { unfold flag_section. destruct (Spec.FeatureFlag spec).
    - apply goM_bind_Ok in Hflags as ([section fetags] & s4 & Hf & Hflags).
      injection Hflags as <- <-. split.
      + eapply loads_keeps; [|exact Hf|exact Hl2]. intros c. apply getFeatureFlagSettings_keeps, _.
      + apply getFeatureFlagSettings_loads in Hf as (flags & Hlf & ->). eexists.
        split; [by exists flags|done].
    - injection Hflags as <- <-. split; [done|]. by exists None. }
  apply goM_bind_Ok in Hr as (data & s4 & Ht & Hr). unfold lift in Ht. injection Ht as Ht <-.
  injection Hr as <- <-. exists expanded, section, raw2, data.
  constructor; [done..|]. exists etags, raw0. cbn.
  split; [done|]. rewrite Hk2, Hs2. split; [by rewrite Heq|done].
Qed.

(** *** The data of the ConfigMap *)

Lemma foldl_current_lookup settings m k :
  foldl current_step m settings !! k
  = match last (omap (plain_value provider k) settings) with
    | Some x => Some x
    | None => m !! k
    end.
Proof.
  revert m. induction settings as [|s l IH]; intros m; [done|].
  cbn [foldl omap list_omap]. rewrite IH.
  assert (current_step m s !! k
    = match plain_value provider k s with Some x => Some x | None => m !! k end) as ->.
  { unfold current_step, plain_value. destruct (effective_key provider s) as [k'|]; [|done].
    destruct (setting_kind s); try done. destruct (String.eqb_spec k' k) as [->|Hne].
    - by rewrite lookup_insert_eq.
    - by rewrite lookup_insert_ne. }
  destruct (plain_value provider k s) as [x|]; [|done].
  rewrite last_cons. by destruct (last _).
Qed.

Lemma current_settings_lookup settings k :
  current_settings settings !! k = last (omap (plain_value provider k) settings).
Proof.
  unfold current_settings. rewrite foldl_current_lookup, lookup_empty. by destruct (last _).
Qed.

(** The settings that have a value. *)
Definition plain_data (m : gmap string (option string * bool)) : gmap string string :=
  omap fst m.

(** How a setting is shown in a document.  A text whose content type is JSON
    is the JSON it denotes; one that denotes none, JSON with comments
    included, is itself, like any other text. *)
Definition shown (v : option string) (isJson : bool) (x : value) : Prop :=
  match v with
  | None => x = VNull
  | Some text =>
    if isJson
    then (∃ out, json_unmarshal text = Ok out ∧ x = out)
         ∨ ((∀ out, json_unmarshal text ≠ Ok out) ∧ x = VString text)
    else x = VString text
  end.

Lemma setting_value_shown v isJson : shown v isJson (setting_value isJson v).
Proof.
  unfold shown, setting_value. destruct v as [text|]; [|done]. destruct isJson; [|done].
  destruct (json_unmarshal text) as [out|err|]; [left; by exists out|right..];
    (split; [done|by destruct (json_unmarshal (strip_text text))]).
Qed.

(** What is in the document of the settings [m].  Without a separator, a member
    per setting.  With one, the paths of the keys lead to the values: the
    document is built from a list of entries, one per setting, and a value that
    an entry sets, or that is inside the object or array it sets, is found at
    its path, unless another entry writes there or below. *)
Definition document (separator : option string) (m : gmap string (option string * bool))
    (doc : gmap string value) : Prop :=
  match separator with
  | None =>
    ∀ k, match m !! k with
         | Some (v, isJson) => ∃ x, doc !! k = Some x ∧ shown v isJson x
         | None => doc !! k = None
         end
  | Some sep =>
    ∃ settings : list (string * value),
      (∀ k, k ∈ settings.*1 ↔ is_Some (m !! k)) ∧ NoDup settings.*1
      ∧ (∀ k x, (k, x) ∈ settings → ∃ v isJson, m !! k = Some (v, isJson) ∧ shown v isJson x)
      ∧ let entries := (λ '(k, x), (Strings.Split k sep, x)) <$> settings in
        build (insert_all entries new_tree) = Ok doc
        ∧ (sep ≠ EmptyString → ∀ p x, p ≠ [] → leaf_path (entries ≫= steps_at) p →
             (p, Some x) ∈ entries ≫= steps_at → value_get (VMap doc) p = Some x)
  end.
Definition with_flags (section : option (gmap string value)) (doc : gmap string value)
    : gmap string value :=
  match section with
  | Some ff => <[FeatureManagementSectionName := VMap ff]> doc
  | None => doc
  end.

(** The values the loop collects, in the order it visits the settings. *)
Definition visited (raw : RawSettings.t) : list (string * value) :=
  (λ '(k, v), (k, parsed_value raw k v)) <$> range_map raw.(RawSettings.KeyValueSettings).

Lemma visited_keys raw : (visited raw).*1 = (range_map raw.(RawSettings.KeyValueSettings)).*1.
Proof.
  unfold visited. rewrite <-list_fmap_compose. apply list_fmap_ext. by intros ? [??].
Qed.
Lemma visited_domain m raw k :
  raw_of m raw → k ∈ (visited raw).*1 ↔ is_Some (m !! k).
Proof.
  intros [Hk _]. rewrite visited_keys, list_elem_of_fmap. split.
  - intros ([k' v] & -> & Hin). apply elem_of_range in Hin. cbn.
    rewrite Hk, lookup_fmap in Hin. by destruct (m !! k'); [eexists|].
  - intros [[v j] Hm]. exists (k, v). split; [done|]. apply elem_of_range.
    by rewrite Hk, lookup_fmap, Hm.
Qed.
Lemma visited_shown m raw k x :
  raw_of m raw → (k, x) ∈ visited raw →
  ∃ v isJson, m !! k = Some (v, isJson) ∧ shown v isJson x.
Proof.
  intros [Hk Hj] ([k' v] & [= -> ->] & Hin)%list_elem_of_fmap.
  apply elem_of_range in Hin. rewrite Hk, lookup_fmap in Hin.
  destruct (m !! k') as [[v' j]|] eqn:Hm; [|done]. injection Hin as ->.
  exists v, j. split; [done|]. unfold parsed_value. rewrite Hj, lookup_fmap, Hm.
  apply setting_value_shown.
Qed.
Lemma visited_NoDup raw : NoDup (visited raw).*1.
Proof. rewrite visited_keys. apply range_fst_NoDup. Qed.

Lemma document_raw separator m raw doc :
  raw_of m raw →
  parse_settings separator (parsed_value raw) raw.(RawSettings.KeyValueSettings) = Ok doc →
  document separator m doc.
Proof.
  intros Hraw. unfold document. destruct separator as [sep|]; intros Hp.
  - exists (visited raw). split; [intros k; by apply visited_domain|].
    split; [apply visited_NoDup|]. split; [intros k x; by apply visited_shown|].
    rewrite parse_settings_insert_all in Hp. cbv zeta.
    assert ((λ '(k, x), (Strings.Split k sep, x)) <$> visited raw
      = entry sep (parsed_value raw) <$> range_map raw.(RawSettings.KeyValueSettings)) as ->.
    { unfold visited. rewrite <-list_fmap_compose. apply list_fmap_ext. by intros ? [??]. }
    split; [done|]. intros Hsep p x Hne Hl Hin. destruct p as [|k p]; [done|].
    eapply build_get; [|exact Hp]. apply insert_all_get; [by apply entries_paths_ok|done..].
  - injection Hp as <-. fold (visited raw). intros k.
    destruct (list_to_map (visited raw) !! k) as [x|] eqn:Hx.
    + apply elem_of_list_to_map_2 in Hx.
      destruct (visited_shown _ _ _ _ Hraw Hx) as (v & j & -> & Hs). by exists x.
    + apply not_elem_of_list_to_map_2 in Hx. rewrite (visited_domain _ _ _ Hraw) in Hx.
      apply eq_None_not_Some in Hx. by rewrite Hx.
Qed.

Lemma createTypedSettings_plain raw m data opts :
  raw_of m raw → (∀ o, opts = Some o → o.(DataOptions.Type_) = Default) →
  createTypedSettings raw opts = Ok data → data = plain_data m.
Proof.
  intros [Hk _] Ho. unfold createTypedSettings.
  assert (omap id raw.(RawSettings.KeyValueSettings) = plain_data m) as ->.
  { rewrite Hk. apply map_eq. intros k. unfold plain_data.
    rewrite !lookup_omap, lookup_fmap. by destruct (m !! k) as [[[]]|]. }
  destruct (bool_decide _ && _) eqn:He.
  - intros [= <-]. apply andb_true_iff in He as [He%bool_decide_eq_true _].
    rewrite Hk in He. apply fmap_empty_inv in He as ->. unfold plain_data. by rewrite omap_empty.
  - destruct opts as [o|]; [rewrite (Ho o eq_refl)|]; by intros [= <-].
Qed.

(** Read back, the text of the document is the document. *)
Definition written (o : DataOptions.t) (section : option (gmap string value))
    (m : gmap string (option string * bool)) (data : gmap string string) : Prop :=
  if decide (m = ∅ ∧ section = None) then data = ∅
  else ∃ doc text, document o.(DataOptions.Separator) m doc
    ∧ data = {[o.(DataOptions.Key) := text]}
    ∧ (readable (with_flags section doc) = true →
       json_unmarshal_object text = Ok (Some (with_flags section doc))).

Lemma createTypedSettings_json raw m data o :
  raw_of m raw → o.(DataOptions.Type_) = Json →
  createTypedSettings raw (Some o) = Ok data →
  written o raw.(RawSettings.FeatureFlagSettings) m data.
Proof.
  intros Hraw Ho. unfold createTypedSettings, written.
  assert (raw.(RawSettings.KeyValueSettings) = ∅ ↔ m = ∅) as Hm.
  { rewrite (proj1 Hraw). split; [apply fmap_empty_inv|intros ->; apply fmap_empty]. }
  destruct (decide (m = ∅ ∧ _)) as [[He Hn]|He].
  - rewrite (bool_decide_eq_true_2 _ (proj2 Hm He)), Hn. by intros [= <-].
  - assert (bool_decide (raw.(RawSettings.KeyValueSettings) = ∅)
      && is_none raw.(RawSettings.FeatureFlagSettings) = false) as ->.
    { apply not_true_is_false. intros [Hk%bool_decide_eq_true Hn]%andb_true_iff.
      apply He. split; [by apply Hm|by destruct (RawSettings.FeatureFlagSettings raw)]. }
    rewrite Ho. unfold marshalJsonYaml. rewrite Ho.
    intros (doc & Hdoc & Hd)%outcome_bind_Ok. apply outcome_bind_Ok in Hd as (text & Ht & [= <-]).
    exists doc, text. split; [by eapply document_raw|]. split; [done|]. intros Hu.
    apply json_object_roundtrip; [done|]. unfold with_flags.
    by destruct (json_marshal _); simplify_eq.
Qed.

(** *** The types of the Secrets *)

(** The target Secret is Opaque; any other is a certificate with a single
    reference, under its own name. *)
Definition metadata_typed (target name : string) (md : TargetK8sSecretMetadata.t) : Prop :=
  if decide (name = target) then md.(TargetK8sSecretMetadata.Type_) = SecretTypeOpaque
  else md.(TargetK8sSecretMetadata.Type_) = SecretTypeTLS
       ∧ ∃ ref, md.(TargetK8sSecretMetadata.SecretsKeyVaultMetadata) = {[name := ref]}.

Definition k8s_typed (k8s : gmap string TargetK8sSecretMetadata.t) : Prop :=
  match spec.(Spec.Secret) with
  | None => k8s = ∅
  | Some s =>
    let target := s.(SecretReference.Target).(SecretTarget.SecretName) in
    is_Some (k8s !! target) ∧ map_Forall (metadata_typed target) k8s
  end.

Lemma secret_type_cases s key ty :
  secret_type_of s key = Ok ty → ty = SecretTypeOpaque ∨ ty = SecretTypeTLS.
Proof.
  unfold secret_type_of. destruct (_ !! _) as [[tag|]|]; [|done|intros [= <-]; by left].
  intros [_ ->]%parseSecretType_tls. by right.
Qed.

(** The metadata of a key are added to a Secret of the right type. *)
Lemma put_secret_typed sec ty k md r :
  spec.(Spec.Secret) = Some sec → ty = SecretTypeOpaque ∨ ty = SecretTypeTLS →
  k8s_typed r.(RawSettings.K8sSecrets) →
  k8s_typed (put_secret (if String.eqb ty SecretTypeOpaque
     then sec.(SecretReference.Target).(SecretTarget.SecretName) else k) ty k md r)
    .(RawSettings.K8sSecrets).
Proof.
  unfold k8s_typed. intros -> Hty. set (target := SecretTarget.SecretName _).
  intros [[t Ht] Hall]. cbn. split.
  { unfold is_Some. destruct (decide ((if String.eqb ty SecretTypeOpaque then target else k) = target))
      as [->|Hne]; [rewrite lookup_insert_eq|rewrite lookup_insert_ne by done]; by eexists. }
  apply map_Forall_insert_2; [|done].
  destruct Hty as [->| ->]; cbn.
  - rewrite Ht. cbn. unfold metadata_typed. rewrite decide_True by done.
    specialize (Hall _ _ Ht). unfold metadata_typed in Hall. by rewrite decide_True in Hall.
  - unfold metadata_typed. destruct (decide (k = target)) as [->|Hne].
    + rewrite Ht. cbn. specialize (Hall _ _ Ht). unfold metadata_typed in Hall.
      by rewrite decide_True in Hall.
    + destruct (RawSettings.K8sSecrets r !! k) as [t'|] eqn:Hk; cbn.
      * specialize (Hall _ _ Hk). unfold metadata_typed in Hall. rewrite decide_False in Hall by done.
        destruct Hall as [-> [ref ->]]. split; [done|]. exists md. by rewrite insert_singleton_eq.
      * split; [done|]. exists md. by rewrite insert_empty.
Qed.

Lemma effects_typed settings r r' :
  effects provider settings r = Some r' → k8s_typed r.(RawSettings.K8sSecrets) →
  k8s_typed r'.(RawSettings.K8sSecrets).
Proof.
  revert r. induction settings as [|s l IH]; intros r; cbn [effects]; [by intros [= ->]|].
  intros (r1 & He & Hl)%bind_Some Hr. apply (IH _ Hl). clear IH Hl. unfold effect in He.
  destruct (effective_key provider s) as [k|]; [|by injection He as <-].
  destruct (setting_kind s) as [v j| | |]; [by injection He as <-..| |by injection He as <-].
  apply bind_Some in He as (sec & Hsec & He).
  destruct (secret_type_of _ _) as [ty| |] eqn:Hty; try done.
  destruct (from_option parse Panic _); try done. injection He as <-.
  by apply put_secret_typed; [|eapply secret_type_cases|].
Qed.

Lemma initial_typed etags : k8s_typed (initial_raw provider etags).(RawSettings.K8sSecrets).
Proof.
  unfold k8s_typed. cbn. fold spec. destruct (Spec.Secret spec) as [sec|]; [|done].
  split; [rewrite lookup_singleton_eq; by eexists|]. apply map_Forall_singleton.
  unfold metadata_typed. by rewrite decide_True.
Qed.

(** A Secret of the type of its metadata, with the keys of that type. *)
Definition secret_typed (md : TargetK8sSecretMetadata.t) (s : Secret.t) : Prop :=
  s.(Secret.Type_) = md.(TargetK8sSecretMetadata.Type_)
  ∧ (md.(TargetK8sSecretMetadata.Type_) = SecretTypeTLS →
     dom (Secret.data s) = {[TlsKey; TlsCrt]}).

Lemma resolve_secret_typed sd rs name md s :
  resolve_secret sd rs name md = Ok s → secret_typed md s.
Proof.
  unfold resolve_secret. intros (data & Hd & [= <-])%outcome_bind_Ok. split; [done|].
  intros Hty. rewrite Hty in Hd. cbn in Hd. unfold resolve_tls in Hd.
  apply outcome_bind_Ok in Hd as (resp & _ & Hd).
  destruct (SecretResponse.ContentType resp); [|done].
  apply outcome_bind_Ok in Hd as ([key crt] & _ & [= <-]). cbn. set_solver.
Qed.

Lemma resolves_typed k8s secrets :
  resolves k8s secrets →
  dom secrets = dom k8s
  ∧ ∀ name md s, k8s !! name = Some md → secrets !! name = Some s → secret_typed md s.
Proof.
  intros [rs Hr]. unfold resolve_secrets in Hr.
  pose proof (proj1 (range_collect_Ok _ _ _) Hr) as Hc. clear Hr. split.
  - apply set_eq. intros name. rewrite !elem_of_dom. specialize (Hc name).
    destruct (k8s !! name); [destruct Hc as (s & _ & ->)|rewrite Hc]; split; intros [x Hx]; simplify_eq; by eexists.
  - intros name md s Hmd Hs. specialize (Hc name). rewrite Hmd in Hc.
    destruct Hc as (s' & Hs' & Hs''). simplify_eq. by eapply resolve_secret_typed.
Qed.
End load.

(** ** The theorems *)

(** C4: What is written without a data format is what the store holds: a load
    that succeeds returns, for the ConfigMap, the map from each trimmed key to
    the value of the last plain setting of that key, in the settings that one
    of the clients of the provider listed for the selectors, page after page,
    with each followed snapshot reference replaced by the settings of its
    snapshot. *)
Theorem CreateTargetSettings_plain `{Unicode} `{IPLiterals} `{Codec}
    `{MapOrder} `{Crypto} `{SDK} `{!Store} `{Resolver}
    {R} `{!SecretResolver R} provider env now lk null (r : option R) s s' t :
  (∀ o, provider.(Provider.Spec).(Spec.Target).(Target.ConfigMapData) = Some o →
     o.(DataOptions.Type_) = Default) →
  CreateTargetSettings provider env now lk null r s = (Ok t, s') →
  ∃ expanded, loads provider s' expanded
    ∧ t.(TargetKeyValueSettings.ConfigMapSettings)
      = Some (plain_data (current_settings provider expanded))
    ∧ ∀ k, current_settings provider expanded !! k = last (omap (plain_value provider k) expanded).
Proof.
  intros Ho (expanded & section & raw & data & Hl)%CreateTargetSettings_loaded.
  exists expanded. split; [apply Hl|]. split; [|apply current_settings_lookup].
  rewrite (loaded_data _ _ _ _ _ _ _ Hl). f_equal.
  by eapply createTypedSettings_plain; [apply Hl|exact Ho|apply Hl].
Qed.

(** C5: With the JSON format the ConfigMap holds one text (none only when there
    is no setting and no section), which decodes to the document of the
    settings, with the section of the feature flags that a client listed,
    deduplicated, when flags are selected (if its strings are UTF-8 and it is
    nested 10000 deep at most).  In the document a setting without a value is
    null; one whose content type is JSON is the JSON its text denotes; any other
    is its text, and so is a JSON setting whose text is JSON only once its
    comments are stripped, which the code parses again but does not use.  Under
    a separator the values are placed in the tree at the paths of their keys. *)
Theorem CreateTargetSettings_json `{Unicode} `{IPLiterals} `{Codec}
    `{MapOrder} `{Crypto} `{SDK} `{!Store} `{Resolver}
    {R} `{!SecretResolver R} provider env now lk null (r : option R) s s' t o :
  provider.(Provider.Spec).(Spec.Target).(Target.ConfigMapData) = Some o →
  o.(DataOptions.Type_) = Json →
  CreateTargetSettings provider env now lk null r s = (Ok t, s') →
  ∃ expanded section data, loads provider s' expanded ∧ flag_section provider s' section
    ∧ t.(TargetKeyValueSettings.ConfigMapSettings) = Some data
    ∧ written o section (current_settings provider expanded) data.
Proof.
  intros Ho Hj (expanded & section & raw & data & Hl)%CreateTargetSettings_loaded.
  exists expanded, section, data. split; [apply Hl|]. split; [apply Hl|]. split; [apply Hl|].
  rewrite <-(loaded_section _ _ _ _ _ _ _ Hl).
  eapply createTypedSettings_json; [apply Hl|exact Hj|].
  rewrite <-Ho. apply (loaded_typed _ _ _ _ _ _ _ Hl).
Qed.

(** C13: The Secrets of a load are well typed: without a target Secret there is
    none; otherwise the target is there and Opaque, every other Secret is a TLS
    certificate with one reference, its own name; each resolved Secret has the
    type of its metadata, and a certificate has exactly a key and a
    certificate. *)
Theorem CreateTargetSettings_typed `{Unicode} `{IPLiterals} `{Codec}
    `{MapOrder} `{Crypto} `{SDK} `{!Store} `{Resolver}
    {R} `{!SecretResolver R} provider env now lk null (r : option R) s s' t :
  CreateTargetSettings provider env now lk null r s = (Ok t, s') →
  k8s_typed provider t.(TargetKeyValueSettings.K8sSecrets)
  ∧ dom t.(TargetKeyValueSettings.SecretSettings) = dom t.(TargetKeyValueSettings.K8sSecrets)
  ∧ ∀ name md s, t.(TargetKeyValueSettings.K8sSecrets) !! name = Some md →
      t.(TargetKeyValueSettings.SecretSettings) !! name = Some s → secret_typed md s.
Proof.
  intros (expanded & section & raw & data & Hl)%CreateTargetSettings_loaded.
  destruct (loaded_k8s _ _ _ _ _ _ _ Hl) as (etags & raw0 & He & -> & Hr).
  split; [eapply effects_typed; [exact He|apply initial_typed]|]. by apply resolves_typed in Hr.
Qed.

(** ** Concrete inputs *)

Module LoadSpecWitness.
Import ClientsWitness FailoverWitness SettingLoaderWitness.

(** A store whose listing has a snapshot reference and a secret. *)
Definition listing : @Store sdk := {|
  ListSettings _ _ _ :=
    [Ok (Page.mk (Some (take 3 settings)) (Some "e1")); Ok (Page.mk (Some (drop 3 settings)) None)];
  GetSetting := @GetSetting _ store;
  GetSnapshot := @GetSnapshot _ store;
  ListSettingsForSnapshot := @ListSettingsForSnapshot _ store;
|}.
#[export] Existing Instance listing.
Definition with_data (o : option DataOptions.t) : Provider.t :=
  provider <| Provider.Spec := provider.(Provider.Spec)
    <| Spec.Target := Target.mk "cm" o |> |>.
Definition flat : DataOptions.t := DataOptions.mk Json "settings.json" None.
Definition load (p : Provider.t) :=
  @CreateTargetSettings _ _ _ _ _ _ listing _ unit vault p (λ _, env) t0 lk 0 None csl.
Definition target (p : Provider.t) : TargetKeyValueSettings.t :=
  match (load p).1 with Ok t => t | _ => TargetKeyValueSettings.empty end.
End LoadSpecWitness.
Import ClientsWitness FailoverWitness SettingLoaderWitness LoadSpecWitness.

Example loaded_plain :
  (target (with_data None)).(TargetKeyValueSettings.ConfigMapSettings)
  = Some {["color" := "blue"; "size" := "3"]}.
Proof. vm_compute. reflexivity. Qed.

Lemma CreateTargetSettings_plain_witness :
  ∃ expanded, loads (with_data None) (load (with_data None)).2 expanded
    ∧ Some {["color" := "blue"; "size" := "3"]}
      = Some (plain_data (current_settings (with_data None) expanded))
    ∧ ∀ k, current_settings (with_data None) expanded !! k
           = last (omap (plain_value (with_data None) k) expanded).
Proof.
  apply (@CreateTargetSettings_plain _ _ _ _ _ _ listing _ unit vault (with_data None)
    (λ _, env) t0 lk 0 None csl (load (with_data None)).2 (target (with_data None))).
  - done.
  - vm_compute. reflexivity.
Defined.

Lemma CreateTargetSettings_json_witness :
  ∃ expanded section data, loads (with_data (Some flat)) (load (with_data (Some flat))).2 expanded
    ∧ flag_section (with_data (Some flat)) (load (with_data (Some flat))).2 section
    ∧ (target (with_data (Some flat))).(TargetKeyValueSettings.ConfigMapSettings) = Some data
    ∧ written flat section (current_settings (with_data (Some flat)) expanded) data.
Proof.
  apply (@CreateTargetSettings_json _ _ _ _ _ _ listing _ unit vault
    (with_data (Some flat)) (λ _, env) t0 lk 0 None csl (load (with_data (Some flat))).2
    (target (with_data (Some flat))) flat).
  - reflexivity.
  - reflexivity.
  - vm_compute. reflexivity.
Defined.

Lemma CreateTargetSettings_typed_witness :
  k8s_typed (with_data None) (target (with_data None)).(TargetKeyValueSettings.K8sSecrets)
  ∧ dom (target (with_data None)).(TargetKeyValueSettings.SecretSettings) = {["secret"]}.
Proof.
  destruct (@CreateTargetSettings_typed _ _ _ _ _ _ listing _ unit vault (with_data None)
    (λ _, env) t0 lk 0 None csl (load (with_data None)).2 (target (with_data None)))
    as (Ht & Hd & _).
  - vm_compute. reflexivity.
  - split; [exact Ht|]. rewrite Hd. vm_compute. reflexivity.
Defined.
