(* ===== verification/Processor.v ===== *)
(** One reconciliation: [internal/controller/processor.go].

    The processor decides what has to be loaded (everything, or what a due
    refresh finds changed), loads it through the [Retriever] interface and, in
    [Finish], records in the reconciliation state what was loaded and says when
    to come back.

    The main theorems: nothing is loaded when nothing changed and no refresh is
    due; a run that fails leaves the ETags, the generation and the secrets
    recorded as they were, and leaves due the timer of the refresh that failed;
    after a successful run every timer is in the future; only secrets without a
    version are resolved again, and the data of the others is kept; the requeue
    interval is at least a second and no later than the first timer. *)

From S2P Require Import Prelude GoStrings Duration Errors Api Codec Data.

(** [refreshInterval, _ := time.ParseDuration(s)]: zero with an error. *)
Definition interval (s : string) : Time.duration :=
  match ParseDuration s with inr d => d | inl _ => 0%Z end.

(** What is remembered of a provider between reconciliations; [M] is the type
    of client managers.  The pointers to metadata are never nil. *)
Module ReconciliationState.
Record t {M : Type} := mk {
  Generation : Z;
  ConfigMapResourceVersion : option string;
  Annotations : gmap string string;
  SentinelETags : sentinel_etags;
  KeyValueETags : option page_etags;
  FeatureFlagETags : option page_etags;
  ExistingK8sSecrets : gmap string TargetK8sSecretMetadata.t;
  NextKeyValueRefreshReconcileTime : Time.time;
  NextSecretReferenceRefreshReconcileTime : Time.time;
  NextFeatureFlagRefreshReconcileTime : Time.time;
  ClientManager : option M;
}.
Arguments t M : clear implicits.
#[global] Instance eta_state {M} : Eta (t M) := λ s,
  mk M (Generation s) (ConfigMapResourceVersion s) (Annotations s) (SentinelETags s)
     (KeyValueETags s) (FeatureFlagETags s) (ExistingK8sSecrets s)
     (NextKeyValueRefreshReconcileTime s) (NextSecretReferenceRefreshReconcileTime s)
     (NextFeatureFlagRefreshReconcileTime s) (ClientManager s).
End ReconciliationState.

Module RefreshOptions.
Record t := mk {
  keyValueRefreshEnabled : bool;
  secretReferenceRefreshEnabled : bool;
  secretReferenceRefreshNeeded : bool;
  featureFlagRefreshEnabled : bool;
  featureFlagRefreshNeeded : bool;
  ConfigMapSettingPopulated : bool;
  SecretSettingPopulated : bool;
  sentinelChanged : bool;
  keyValuePageETagsChanged : bool;
  updatedSentinelETags : sentinel_etags;
  updatedKeyValueETags : option page_etags;
  updatedFeatureFlagETags : option page_etags;
}.
#[global] Instance eta_options : Eta t := λ r,
  mk (keyValueRefreshEnabled r) (secretReferenceRefreshEnabled r)
     (secretReferenceRefreshNeeded r) (featureFlagRefreshEnabled r)
     (featureFlagRefreshNeeded r) (ConfigMapSettingPopulated r) (SecretSettingPopulated r)
     (sentinelChanged r) (keyValuePageETagsChanged r) (updatedSentinelETags r)
     (updatedKeyValueETags r) (updatedFeatureFlagETags r).
End RefreshOptions.

Definition NewRefreshOptions : RefreshOptions.t :=
  RefreshOptions.mk false false false false false false false false false ∅ None None.

(** [ConfigurationSettingsRetriever]: the methods of a loader [L].  The
    processor passes a nil [SecretReferenceResolver], so it is left out; a nil
    map of ETags is visited as an empty one. *)
Class Retriever (L : Type) := {
  CreateTargetSettings : goM L error TargetKeyValueSettings.t;
  CheckPageETags : page_etags → goM L error bool;
  CheckAndRefreshSentinels : sentinel_etags → goM L error (bool * sentinel_etags);
  RefreshKeyValueSettings : gmap string string → goM L error TargetKeyValueSettings.t;
  RefreshFeatureFlagSettings : gmap string string → goM L error TargetKeyValueSettings.t;
  ResolveSecretReferences : gmap string TargetK8sSecretMetadata.t →
    goM L error TargetKeyValueSettings.t;
}.

Module Processor.  (** [AppConfigurationProviderProcessor] and its loader *)
Record t {M L : Type} := mk {
  Retriever : L;
  Provider : Provider.t;
  Settings : TargetKeyValueSettings.t;
  (** [Settings.K8sSecrets] is the map [State.ExistingK8sSecrets] itself *)
  SharedSecrets : bool;
  ShouldReconcile : bool;
  State : ReconciliationState.t M;
  CurrentTime : Time.time;
  RefreshOptions : RefreshOptions.t;
}.
Arguments t M L : clear implicits.
#[global] Instance eta_processor {M L} : Eta (t M L) := λ p,
  mk M L (Retriever p) (Provider p) (Settings p) (SharedSecrets p) (ShouldReconcile p)
     (State p) (CurrentTime p) (RefreshOptions p).
End Processor.

(** [ctrl.Result] *)
Module Result.
Record t := mk { Requeue : bool; RequeueAfter : Time.duration }.
Definition zero : t := mk false 0%Z.
End Result.

Section processor.
Context `{MapOrder} {M L : Type} `{!Retriever L}.
Notation processor := (Processor.t M L).
Notation method A := (goM processor error A).

Definition set_state (f : ReconciliationState.t M → ReconciliationState.t M) : method () :=
  modify (λ p, p <| Processor.State := f p.(Processor.State) |>).
Definition set_options (f : RefreshOptions.t → RefreshOptions.t) : method () :=
  modify (λ p, p <| Processor.RefreshOptions := f p.(Processor.RefreshOptions) |>).

(** A call of the retriever. *)
Definition retrieve {A} (m : goM L error A) : method A := λ p,
  let '(o, l) := m p.(Processor.Retriever) in (o, p <| Processor.Retriever := l |>).

(** [annotationChanged(oldAnnotations, newAnnotations)] *)
Definition annotationChanged (oldAnnotations newAnnotations : gmap string string) : bool :=
  if negb (bool_decide (size oldAnnotations = size newAnnotations)) then true
  else existsb (λ '(key, v),
         match oldAnnotations !! key with
         | Some oldValue => negb (String.eqb v oldValue)
         | None => true
         end) (range_map newAnnotations).

Definition shouldReconcile (p : processor) (existingConfigMap : ConfigMap.t)
    (existingSecrets : gmap string Secret.t) : bool :=
  let state := p.(Processor.State) in
  let provider := p.(Processor.Provider) in
  let existing := state.(ReconciliationState.ExistingK8sSecrets) in
  if negb (provider.(Provider.Generation) =? state.(ReconciliationState.Generation))%Z
  then true
  else if annotationChanged state.(ReconciliationState.Annotations)
            provider.(Provider.Annotations) then true
  else if negb (bool_decide (state.(ReconciliationState.ConfigMapResourceVersion)
         = Some existingConfigMap.(ConfigMap.Meta).(ObjectMeta.ResourceVersion))) then true
  else match provider.(Provider.Spec).(Spec.Secret) with
  | None => false
  | Some _ =>
    if bool_decide (size existing = 0)
       || negb (bool_decide (size existing = size existingSecrets)) then true
    else existsb (λ '(name, secret),
           match existing !! name with
           | Some md =>
             negb (String.eqb md.(TargetK8sSecretMetadata.SecretResourceVersion)
                     secret.(Secret.Meta).(ObjectMeta.ResourceVersion))
           | None => false
           end) (range_map existingSecrets)
  end.

Definition processFullReconciliation : method () :=
  updatedSettings ← retrieve CreateTargetSettings;
  _ ← modify (λ p, p <| Processor.Settings := updatedSettings |>);
  _ ← set_options (λ r, r
    <| RefreshOptions.ConfigMapSettingPopulated := true |>
    <| RefreshOptions.updatedKeyValueETags :=
         updatedSettings.(TargetKeyValueSettings.KeyValueETags) |>
    <| RefreshOptions.updatedFeatureFlagETags :=
         updatedSettings.(TargetKeyValueSettings.FeatureFlagETags) |>
    <| RefreshOptions.updatedSentinelETags :=
         updatedSettings.(TargetKeyValueSettings.SentinelETags) |>);
  p ← get;
  match p.(Processor.Provider).(Provider.Spec).(Spec.Secret) with
  | Some _ => set_options (λ r, r <| RefreshOptions.SecretSettingPopulated := true |>)
  | None => mret ()
  end.

Definition set_next_ff (t : Time.time) : method () :=
  set_state (λ s, s <| ReconciliationState.NextFeatureFlagRefreshReconcileTime := t |>).
Definition set_next_kv (t : Time.time) : method () :=
  set_state (λ s, s <| ReconciliationState.NextKeyValueRefreshReconcileTime := t |>).
Definition set_next_secret (t : Time.time) : method () :=
  set_state (λ s, s <| ReconciliationState.NextSecretReferenceRefreshReconcileTime := t |>).

(** The refresh of a part, when it is set and enabled. *)
Definition featureFlagRefresh (spec : Spec.t) : option RefreshSettings.t :=
  ff ← spec.(Spec.FeatureFlag);
  r ← ff.(FeatureFlagOptions.Refresh);
  if r.(RefreshSettings.Enabled) then Some r else None.
Definition keyValueRefresh (spec : Spec.t) : option KeyValueRefresh.t :=
  r ← spec.(Spec.Configuration).(KeyValueOptions.Refresh);
  if r.(KeyValueRefresh.Enabled) then Some r else None.
Definition secretRefresh (spec : Spec.t) : option RefreshSettings.t :=
  s ← spec.(Spec.Secret);
  r ← s.(SecretReference.Refresh);
  if r.(RefreshSettings.Enabled) then Some r else None.

Definition processFeatureFlagRefresh (existingConfigMap : ConfigMap.t) : method () :=
  p ← get;
  match featureFlagRefresh p.(Processor.Provider).(Provider.Spec) with
  | None => set_next_ff Time.zero
  | Some refresh =>
    _ ← set_options (λ r, r <| RefreshOptions.featureFlagRefreshEnabled := true |>);
    let next := Time.Add p.(Processor.CurrentTime)
                  (interval refresh.(RefreshSettings.Interval)) in
    let state := p.(Processor.State) in
    if p.(Processor.ShouldReconcile) then set_next_ff next
    else if negb (Time.After p.(Processor.CurrentTime)
           state.(ReconciliationState.NextFeatureFlagRefreshReconcileTime)) then mret ()
    else
      needed ← retrieve (CheckPageETags
                 (default ∅ state.(ReconciliationState.FeatureFlagETags)));
      _ ← set_options (λ r, r <| RefreshOptions.featureFlagRefreshNeeded := needed |>);
      if negb needed then set_next_ff next else
      refreshed ← retrieve (RefreshFeatureFlagSettings (ConfigMap.data existingConfigMap));
      _ ← set_options (λ r, r
        <| RefreshOptions.updatedFeatureFlagETags :=
             refreshed.(TargetKeyValueSettings.FeatureFlagETags) |>
        <| RefreshOptions.ConfigMapSettingPopulated := true |>);
      _ ← modify (λ p, p <| Processor.Settings := refreshed |>);
      set_next_ff next
  end.

(** The check of a due refresh: the sentinels when they are monitored, the
    page ETags otherwise. *)
Definition check_key_values (refresh : KeyValueRefresh.t) : method () :=
  p ← get;
  let state := p.(Processor.State) in
  match refresh.(KeyValueRefresh.Monitoring) with
  | Some _ =>
    '(changed, etags) ← retrieve (CheckAndRefreshSentinels
                          state.(ReconciliationState.SentinelETags));
    set_options (λ r, r <| RefreshOptions.sentinelChanged := changed |>
                        <| RefreshOptions.updatedSentinelETags := etags |>)
  | None =>
    changed ← retrieve (CheckPageETags (default ∅ state.(ReconciliationState.KeyValueETags)));
    set_options (λ r, r <| RefreshOptions.keyValuePageETagsChanged := changed |>)
  end.

Definition processKeyValueRefresh (existingConfigMap : ConfigMap.t) : method () :=
  p ← get;
  let provider := p.(Processor.Provider) in
  match keyValueRefresh provider.(Provider.Spec) with
  | None => set_next_kv Time.zero
  | Some refresh =>
    _ ← set_options (λ r, r <| RefreshOptions.keyValueRefreshEnabled := true |>);
    let next := Time.Add p.(Processor.CurrentTime)
                  (interval refresh.(KeyValueRefresh.Interval)) in
    if p.(Processor.ShouldReconcile) then set_next_kv next
    else if negb (Time.After p.(Processor.CurrentTime)
           p.(Processor.State).(ReconciliationState.NextKeyValueRefreshReconcileTime))
    then mret ()
    else
      _ ← check_key_values refresh;
      p ← get;
      let options := p.(Processor.RefreshOptions) in
      if negb options.(RefreshOptions.sentinelChanged)
         && negb options.(RefreshOptions.keyValuePageETagsChanged)
      then set_next_kv next else
      refreshed ← retrieve (RefreshKeyValueSettings
        (default (ConfigMap.data existingConfigMap)
           p.(Processor.Settings).(TargetKeyValueSettings.ConfigMapSettings)));
      _ ← modify (λ p, p <| Processor.Settings := refreshed |>);
      _ ← set_options (λ r, r
        <| RefreshOptions.ConfigMapSettingPopulated := true |>
        <| RefreshOptions.updatedKeyValueETags :=
             if options.(RefreshOptions.keyValuePageETagsChanged)
             then refreshed.(TargetKeyValueSettings.KeyValueETags)
             else r.(RefreshOptions.updatedKeyValueETags) |>
        <| RefreshOptions.SecretSettingPopulated :=
             match provider.(Provider.Spec).(Spec.Secret) with
             | Some _ => true | None => r.(RefreshOptions.SecretSettingPopulated) end |>);
      set_next_kv next
  end.

(** ** Secrets *)

(** The loop over the metadata of one Secret: those without a version are
    added to [r]. *)
Fixpoint unversioned_loop (secretName Type_ : string)
    (refs : list (string * KeyVaultSecretMetadata.t))
    (r : gmap string TargetK8sSecretMetadata.t) : gmap string TargetK8sSecretMetadata.t :=
  match refs with
  | [] => r
  | (key, md) :: refs' =>
    unversioned_loop secretName Type_ refs'
      (if String.eqb md.(KeyVaultSecretMetadata.SecretVersion) EmptyString then
         let target := default (TargetK8sSecretMetadata.make Type_) (r !! secretName) in
         <[secretName := target <| TargetK8sSecretMetadata.SecretsKeyVaultMetadata :=
             <[key := md]> target.(TargetK8sSecretMetadata.SecretsKeyVaultMetadata) |>]> r
       else r)
  end.

Fixpoint references_loop (secrets : list (string * TargetK8sSecretMetadata.t))
    (r : gmap string TargetK8sSecretMetadata.t) : gmap string TargetK8sSecretMetadata.t :=
  match secrets with
  | [] => r
  | (secretName, k8sSecret) :: secrets' =>
    references_loop secrets'
      (unversioned_loop secretName k8sSecret.(TargetK8sSecretMetadata.Type_)
         (range_map k8sSecret.(TargetK8sSecretMetadata.SecretsKeyVaultMetadata)) r)
  end.

Definition secretReferencesToSolve (existing : gmap string TargetK8sSecretMetadata.t)
    : gmap string TargetK8sSecretMetadata.t := references_loop (range_map existing) ∅.

(** [for k, v := range data { existingSecret.Data[k] = v }]: a write to the
    nil map of a Secret without data panics. *)
Definition write_data (data : gmap string string) (s : Secret.t) : result Secret.t :=
  if bool_decide (data = ∅) then Ok s else
  old ← deref s.(Secret.Data);
  Ok (s <| Secret.Data := Some (data ∪ old) |>).

(** The loop that writes the resolved values into the copies of the existing
    Secrets; a Secret that does not exist is left out. *)
Fixpoint update_loop (resolved : list (string * Secret.t)) (secrets : gmap string Secret.t)
    : result (gmap string Secret.t) :=
  match resolved with
  | [] => Ok secrets
  | (secretName, r) :: resolved' =>
    match secrets !! secretName with
    | Some s =>
      s' ← write_data (Secret.data r) s;
      update_loop resolved' (<[secretName := s']> secrets)
    | None => update_loop resolved' secrets
    end
  end.

Definition processSecretReferenceRefresh (existingSecrets : gmap string Secret.t)
    : method () :=
  p ← get;
  match secretRefresh p.(Processor.Provider).(Provider.Spec) with
  | None => set_next_secret Time.zero
  | Some refresh =>
    _ ← set_options (λ r, r <| RefreshOptions.secretReferenceRefreshEnabled := true |>);
    let state := p.(Processor.State) in
    if negb (Time.After p.(Processor.CurrentTime)
           state.(ReconciliationState.NextSecretReferenceRefreshReconcileTime)) then mret ()
    else
      _ ← set_options (λ r, r <| RefreshOptions.secretReferenceRefreshNeeded := true |>);
      let next := Time.Add p.(Processor.CurrentTime)
                    (interval refresh.(RefreshSettings.Interval)) in
      if p.(Processor.RefreshOptions).(RefreshOptions.SecretSettingPopulated)
      then set_next_secret next else
      resolvedSecrets ← retrieve (ResolveSecretReferences
        (secretReferencesToSolve state.(ReconciliationState.ExistingK8sSecrets)));
      secrets ← lift (update_loop
        (range_map resolvedSecrets.(TargetKeyValueSettings.SecretSettings)) existingSecrets);
      _ ← modify (λ p, p
        <| Processor.Settings := p.(Processor.Settings)
             <| TargetKeyValueSettings.SecretSettings := secrets |>
             <| TargetKeyValueSettings.K8sSecrets :=
                  state.(ReconciliationState.ExistingK8sSecrets) |> |>
        <| Processor.SharedSecrets := true |>);
      _ ← set_options (λ r, r <| RefreshOptions.SecretSettingPopulated := true |>);
      set_next_secret next
  end.

Definition PopulateSettings (existingConfigMap : ConfigMap.t)
    (existingSecrets : gmap string Secret.t) : method () :=
  _ ← modify (λ p, p <| Processor.ShouldReconcile :=
        shouldReconcile p existingConfigMap existingSecrets |>);
  p ← get;
  _ ← (if p.(Processor.ShouldReconcile) then processFullReconciliation else mret ());
  _ ← processFeatureFlagRefresh existingConfigMap;
  _ ← processKeyValueRefresh existingConfigMap;
  processSecretReferenceRefresh existingSecrets.

(** ** Finishing *)

(** The first of the times that are set. *)
Fixpoint next_requeue_time (nextRefreshTimeList : list Time.time) (nextRequeueTime : Time.time)
    : Time.time :=
  match nextRefreshTimeList with
  | [] => nextRequeueTime
  | time :: times =>
    next_requeue_time times
      (if negb (Time.IsZero time)
          && (Time.IsZero nextRequeueTime || Time.Before time nextRequeueTime)
       then time else nextRequeueTime)
  end.

(** [now] is the time of the call. *)
Definition calculateRequeueAfterInterval (now : Time.time) (state : ReconciliationState.t M)
    : Time.duration :=
  let nextRequeueTime := next_requeue_time
    [state.(ReconciliationState.NextKeyValueRefreshReconcileTime);
     state.(ReconciliationState.NextSecretReferenceRefreshReconcileTime);
     state.(ReconciliationState.NextFeatureFlagRefreshReconcileTime)] Time.zero in
  let requeueAfterInterval := Time.Sub nextRequeueTime now in
  if (requeueAfterInterval <? Time.Second)%Z then Time.Second else requeueAfterInterval.

Definition set_refresh_status (f : RefreshStatus.t → RefreshStatus.t) (p : processor)
    : processor :=
  let status := p.(Processor.Provider).(Provider.Status) in
  p <| Processor.Provider := p.(Processor.Provider)
       <| Provider.Status := status
          <| Status.RefreshStatus := f status.(Status.RefreshStatus) |> |> |>.

(** What [Finish] records whether or not a refresh is enabled. *)
Definition commit (p : processor) : ReconciliationState.t M :=
  let options := p.(Processor.RefreshOptions) in
  let state := p.(Processor.State)
    <| ReconciliationState.Generation := p.(Processor.Provider).(Provider.Generation) |>
    <| ReconciliationState.Annotations := p.(Processor.Provider).(Provider.Annotations) |> in
  let state :=
    if options.(RefreshOptions.SecretSettingPopulated)
    then state <| ReconciliationState.ExistingK8sSecrets :=
           p.(Processor.Settings).(TargetKeyValueSettings.K8sSecrets) |>
    else state in
  let state :=
    match options.(RefreshOptions.updatedKeyValueETags) with
    | Some etags => state <| ReconciliationState.KeyValueETags := Some etags |>
    | None => state
    end in
  let state :=
    match options.(RefreshOptions.updatedFeatureFlagETags) with
    | Some etags => state <| ReconciliationState.FeatureFlagETags := Some etags |>
    | None => state
    end in
  if p.(Processor.ShouldReconcile)
  then state <| ReconciliationState.SentinelETags :=
         options.(RefreshOptions.updatedSentinelETags) |>
  else state.

(** What it records besides when one is. *)
Definition commit_refresh (p : processor) : processor :=
  let options := p.(Processor.RefreshOptions) in
  let now := p.(Processor.CurrentTime) in
  let p :=
    if options.(RefreshOptions.sentinelChanged) then
      set_refresh_status (λ r, r <| RefreshStatus.LastKeyValueRefreshTime := now |>)
        (p <| Processor.State := p.(Processor.State)
              <| ReconciliationState.SentinelETags :=
                   options.(RefreshOptions.updatedSentinelETags) |> |>)
    else p in
  let p :=
    if options.(RefreshOptions.keyValuePageETagsChanged) then
      set_refresh_status (λ r, r <| RefreshStatus.LastKeyValueRefreshTime := now |>)
        (p <| Processor.State := p.(Processor.State)
              <| ReconciliationState.KeyValueETags :=
                   options.(RefreshOptions.updatedKeyValueETags) |> |>)
    else p in
  let p :=
    if options.(RefreshOptions.secretReferenceRefreshNeeded) then
      set_refresh_status (λ r, r <| RefreshStatus.LastKeyVaultReferenceRefreshTime := now |>) p
    else p in
  if options.(RefreshOptions.featureFlagRefreshNeeded) then
    set_refresh_status (λ r, r <| RefreshStatus.LastFeatureFlagRefreshTime := now |>) p
  else p.

Definition Finish (now : Time.time) (p : processor) : Result.t * processor :=
  let options := p.(Processor.RefreshOptions) in
  let p := p <| Processor.State := commit p |> in
  if negb options.(RefreshOptions.secretReferenceRefreshEnabled)
     && negb options.(RefreshOptions.keyValueRefreshEnabled)
     && negb options.(RefreshOptions.featureFlagRefreshEnabled)
  then (Result.zero, p)
  else
    let p := commit_refresh p in
    (Result.mk true (calculateRequeueAfterInterval now p.(Processor.State)), p).
End processor.

(** ** What a step keeps *)

Section keeps.
Context `{MapOrder} {M L : Type} `{!Retriever L}.
Notation processor := (Processor.t M L).

Lemma keeps_retrieve {A} (R : relation processor) (m : goM L error A) :
  (∀ p l, R p (p <| Processor.Retriever := l |>)) → keeps R (retrieve m).
Proof. intros HR p. unfold retrieve. destruct (m _) as [o l]. apply HR. Qed.

(** The part of the processor that only [Finish] changes: the provider, the
    clock, and what is recorded of earlier runs. *)
Definition recorded (p : processor) :=
  (p.(Processor.Provider), p.(Processor.CurrentTime),
   p.(Processor.State)
     <| ReconciliationState.NextKeyValueRefreshReconcileTime := Time.zero |>
     <| ReconciliationState.NextSecretReferenceRefreshReconcileTime := Time.zero |>
     <| ReconciliationState.NextFeatureFlagRefreshReconcileTime := Time.zero |>).

Definition next_ff (p : processor) : Time.time :=
  p.(Processor.State).(ReconciliationState.NextFeatureFlagRefreshReconcileTime).
Definition next_kv (p : processor) : Time.time :=
  p.(Processor.State).(ReconciliationState.NextKeyValueRefreshReconcileTime).
Definition next_secret (p : processor) : Time.time :=
  p.(Processor.State).(ReconciliationState.NextSecretReferenceRefreshReconcileTime).

Ltac keeps_all :=
  repeat first [ keeps_step | apply keeps_retrieve; intros | progress cbv zeta beta
               | unfold set_options, set_state, set_next_ff, set_next_kv, set_next_secret ];
  try reflexivity.

Lemma full_keeps : keeps (same (λ p : processor, (recorded p, Processor.ShouldReconcile p,
  (next_ff p, next_kv p, next_secret p)))) processFullReconciliation.
Proof. unfold processFullReconciliation. keeps_all. Qed.
Lemma ff_keeps cm : keeps (same (λ p : processor, (recorded p, Processor.ShouldReconcile p,
  (next_kv p, next_secret p)))) (processFeatureFlagRefresh cm).
Proof. unfold processFeatureFlagRefresh. keeps_all. Qed.
Lemma kv_keeps cm : keeps (same (λ p : processor, (recorded p, Processor.ShouldReconcile p,
  (next_ff p, next_secret p)))) (processKeyValueRefresh cm).
Proof. unfold processKeyValueRefresh, check_key_values. keeps_all. Qed.
Lemma secret_keeps ss : keeps (same (λ p : processor, (recorded p, Processor.ShouldReconcile p,
  (next_ff p, next_kv p)))) (processSecretReferenceRefresh ss).
Proof. unfold processSecretReferenceRefresh. keeps_all. Qed.
End keeps.

(** ** The timers *)

Section timers.
Context `{MapOrder} {M L : Type} `{!Retriever L}.
Notation processor := (Processor.t M L).
Notation method A := (goM processor error A).

(** The timer of a refresh after it ran: unset when it is not enabled, an
    interval from now when it was due or everything was loaded. *)
Definition advance (p : processor) (reconciled : bool) (refresh : option string)
    (next : Time.time) : Time.time :=
  match refresh with
  | None => Time.zero
  | Some i =>
    if reconciled || Time.After p.(Processor.CurrentTime) next
    then Time.Add p.(Processor.CurrentTime) (interval i) else next
  end.

Notation spec p := (Provider.Spec (Processor.Provider p)).

Ltac run_step :=
  repeat first
    [ progress (unfold retrieve, set_options, set_state, set_next_ff, set_next_kv,
        set_next_secret, modify, Prelude.get, lift, mbind, goM_bind, mret, goM_ret; cbn)
    | case_match; simplify_eq/= ];
  intros; simplify_eq/=.

Lemma ff_timer cm (p p' : processor) o :
  processFeatureFlagRefresh cm p = (o, p') →
  next_ff p' = match o with
               | Ok _ => advance p p.(Processor.ShouldReconcile)
                           (RefreshSettings.Interval <$> featureFlagRefresh (spec p)) (next_ff p)
               | _ => next_ff p
               end.
Proof.
  unfold processFeatureFlagRefresh, advance, next_ff. run_step; try congruence.
Qed.

Lemma kv_timer cm (p p' : processor) o :
  processKeyValueRefresh cm p = (o, p') →
  next_kv p' = match o with
               | Ok _ => advance p p.(Processor.ShouldReconcile)
                           (KeyValueRefresh.Interval <$> keyValueRefresh (spec p)) (next_kv p)
               | _ => next_kv p
               end.
Proof.
  unfold processKeyValueRefresh, check_key_values, advance, next_kv. run_step; congruence.
Qed.

Lemma secret_timer ss (p p' : processor) o :
  processSecretReferenceRefresh ss p = (o, p') →
  next_secret p' = match o with
               | Ok _ => advance p false
                           (RefreshSettings.Interval <$> secretRefresh (spec p)) (next_secret p)
               | _ => next_secret p
               end.
Proof.
  unfold processSecretReferenceRefresh, advance, next_secret. run_step; congruence.
Qed.

Ltac split_pairs H :=
  unfold same in H; cbv beta in H;
  repeat match goal with
  | H : (_, _) = (_, _) |- _ => apply pair_equal_spec in H as [??]
  end; repeat split.

Lemma advance_recorded (p p' : processor) b r next :
  recorded p' = recorded p → advance p' b r next = advance p b r next.
Proof. intros Hr. unfold advance. by injection Hr as _ -> _. Qed.

Lemma spec_recorded (p p' : processor) : recorded p' = recorded p → spec p' = spec p.
Proof. intros Hr. by injection Hr as -> _ _. Qed.

Lemma full_step (p p' : processor) o :
  (if Processor.ShouldReconcile p then processFullReconciliation else mret ()) p = (o, p') →
  recorded p' = recorded p ∧ Processor.ShouldReconcile p' = Processor.ShouldReconcile p
  ∧ next_ff p' = next_ff p ∧ next_kv p' = next_kv p ∧ next_secret p' = next_secret p.
Proof.
  case_match; [|by intros [= _ <-]]. intros Hk%(keeps_run _ _ _ _ _ full_keeps).
  split_pairs Hk; congruence.
Qed.

Lemma ff_step cm (p p' : processor) o :
  processFeatureFlagRefresh cm p = (o, p') →
  recorded p' = recorded p ∧ Processor.ShouldReconcile p' = Processor.ShouldReconcile p
  ∧ next_kv p' = next_kv p ∧ next_secret p' = next_secret p.
Proof. intros Hk%(keeps_run _ _ _ _ _ (ff_keeps cm)). split_pairs Hk; congruence. Qed.

Lemma kv_step cm (p p' : processor) o :
  processKeyValueRefresh cm p = (o, p') →
  recorded p' = recorded p ∧ Processor.ShouldReconcile p' = Processor.ShouldReconcile p
  ∧ next_ff p' = next_ff p ∧ next_secret p' = next_secret p.
Proof. intros Hk%(keeps_run _ _ _ _ _ (kv_keeps cm)). split_pairs Hk; congruence. Qed.

Lemma secret_step ss (p p' : processor) o :
  processSecretReferenceRefresh ss p = (o, p') →
  recorded p' = recorded p ∧ next_ff p' = next_ff p ∧ next_kv p' = next_kv p.
Proof. intros Hk%(keeps_run _ _ _ _ _ (secret_keeps ss)). split_pairs Hk; congruence. Qed.

(** What the run does once it is known whether everything is loaded. *)
Definition populate_steps (cm : ConfigMap.t) (ss : gmap string Secret.t) : method () :=
  p ← Prelude.get;
  _ ← (if Processor.ShouldReconcile p then processFullReconciliation else mret ());
  _ ← processFeatureFlagRefresh cm;
  _ ← processKeyValueRefresh cm;
  processSecretReferenceRefresh ss.

Lemma populate_steps_timers cm ss (p p' : processor) o :
  populate_steps cm ss p = (o, p') →
  let reconciled := Processor.ShouldReconcile p in
  let ff := advance p reconciled
              (RefreshSettings.Interval <$> featureFlagRefresh (spec p)) (next_ff p) in
  let kv := advance p reconciled
              (KeyValueRefresh.Interval <$> keyValueRefresh (spec p)) (next_kv p) in
  recorded p' = recorded p
  ∧ match o with
    | Ok _ =>
      next_ff p' = ff ∧ next_kv p' = kv
      ∧ next_secret p' = advance p false
          (RefreshSettings.Interval <$> secretRefresh (spec p)) (next_secret p)
    | _ =>
      next_secret p' = next_secret p ∧ (next_ff p' = next_ff p ∨ next_ff p' = ff)
      ∧ (next_kv p' = next_kv p ∨ next_kv p' = kv)
    end.
Proof.
  intros Hr. cbv zeta.
  apply goM_bind_cases in Hr as [(? & ? & [= <- <-] & Hr)|(_ & ? & [= <- <-] & [=])].
  apply goM_bind_cases in Hr as [(? & p1 & H1 & Hr)|(Ho & o1 & H1 & Ho1)];
    destruct (full_step _ _ _ H1) as (R1 & S1 & F1 & K1 & E1);
    [|destruct o; [done|split_and!; by auto..]].
  rewrite <-R1, <-S1, <-F1, <-K1, <-E1, <-(spec_recorded _ _ R1).
  rewrite <-!(advance_recorded _ _ _ _ _ R1).
  clear dependent p. rename p1 into p.
  apply goM_bind_cases in Hr as [(? & p1 & H1 & Hr)|(Ho & o1 & H1 & Ho1)];
    destruct (ff_step _ _ _ _ H1) as (R1 & S1 & K1 & E1);
    pose proof (ff_timer _ _ _ _ H1) as T1;
    [|destruct o, o1; try done; split_and!; by auto].
  apply goM_bind_cases in Hr as [(? & p2 & H2 & Hr)|(Ho & o2 & H2 & Ho2)];
    destruct (kv_step _ _ _ _ H2) as (R2 & S2 & F2 & E2);
    pose proof (kv_timer _ _ _ _ H2) as T2;
    rewrite S1, K1, (advance_recorded _ _ _ _ _ R1), (spec_recorded _ _ R1) in T2.
  2:{ rewrite F2, T1, R2, E2. destruct o, o2; try done; split_and!; by auto. }
  destruct (secret_step _ _ _ _ Hr) as (R3 & F3 & K3).
  pose proof (secret_timer _ _ _ _ Hr) as T3.
  rewrite E2, E1, (spec_recorded _ _ R2), (spec_recorded _ _ R1),
    (advance_recorded _ _ _ _ _ R2), (advance_recorded _ _ _ _ _ R1) in T3.
  rewrite R3, F3, K3, F2, T1, R2, R1. destruct o; split_and!; by auto.
Qed.

(** On every path. *)
Lemma PopulateSettings_recorded cm ss (p p' : processor) o :
  PopulateSettings cm ss p = (o, p') →
  recorded p' = recorded p ∧ Processor.ShouldReconcile p' = shouldReconcile p cm ss.
Proof.
  intros Hr. unfold PopulateSettings in Hr.
  apply goM_bind_cases in Hr as [(? & p0 & [= <- <-] & Hr)|(_ & ? & [= <- <-] & [=])].
  set (f := λ p : processor, (recorded p, Processor.ShouldReconcile p)).
  change (recorded p) with (recorded (p <| Processor.ShouldReconcile :=
    shouldReconcile p cm ss |>)).
  set (p0 := p <| Processor.ShouldReconcile := _ |>) in *.
  change (shouldReconcile p cm ss) with (Processor.ShouldReconcile p0).
  enough (keeps (same f) (populate_steps cm ss)) as Hk.
  { apply (keeps_run _ _ _ _ _ Hk) in Hr. by apply pair_equal_spec in Hr. }
  clear. unfold populate_steps, f. repeat keeps_step.
  - intros p. pose proof (full_keeps p) as Hk. split_pairs Hk. congruence.
  - intros p. pose proof (ff_keeps cm p) as Hk. split_pairs Hk. congruence.
  - intros p. pose proof (kv_keeps cm p) as Hk. split_pairs Hk. congruence.
  - intros p. pose proof (secret_keeps ss p) as Hk. split_pairs Hk. congruence.
Qed.

(** C6: A run of the processor changes nothing of what earlier runs recorded
    (generation, annotations, resource versions, ETags, secrets): that is
    left to [Finish].  When it succeeds, the timer of each refresh is unset
    if the refresh is off, an interval from now if it ran, and untouched
    otherwise; when it fails or panics, a timer has either moved the same
    way or not at all, and the secret timer, which comes last, never. *)
Theorem PopulateSettings_timers cm ss (p p' : processor) o :
  PopulateSettings cm ss p = (o, p') →
  let reconciled := shouldReconcile p cm ss in
  let ff := advance p reconciled
              (RefreshSettings.Interval <$> featureFlagRefresh (spec p)) (next_ff p) in
  let kv := advance p reconciled
              (KeyValueRefresh.Interval <$> keyValueRefresh (spec p)) (next_kv p) in
  recorded p' = recorded p
  ∧ match o with
    | Ok _ =>
      next_ff p' = ff ∧ next_kv p' = kv
      ∧ next_secret p' = advance p false
          (RefreshSettings.Interval <$> secretRefresh (spec p)) (next_secret p)
    | _ =>
      next_secret p' = next_secret p ∧ (next_ff p' = next_ff p ∨ next_ff p' = ff)
      ∧ (next_kv p' = next_kv p ∨ next_kv p' = kv)
    end.
Proof.
  intros Hr. unfold PopulateSettings in Hr.
  apply goM_bind_cases in Hr as [(? & p0 & [= <- <-] & Hr)|(_ & ? & [= <- <-] & [=])].
  apply (populate_steps_timers _ _ _ _ _ Hr).
Qed.
End timers.

(** ** What a run leaves to be written *)

Section leaves.
Context `{MapOrder} {M L : Type} `{!Retriever L}.
Notation processor := (Processor.t M L).
Notation spec p := (Provider.Spec (Processor.Provider p)).
Notation wrote_cm p := (RefreshOptions.ConfigMapSettingPopulated (Processor.RefreshOptions p)).
Notation wrote_secret p := (RefreshOptions.SecretSettingPopulated (Processor.RefreshOptions p)).

Ltac run_step :=
  repeat first
    [ progress (unfold retrieve, set_options, set_state, set_next_ff, set_next_kv,
        set_next_secret, modify, Prelude.get, lift, mbind, goM_bind, mret, goM_ret; cbn)
    | case_match; simplify_eq/= ];
  intros; simplify_eq/=.

(** Once the data of the ConfigMap are there they stay. *)
Definition cm_monotone : relation processor := λ p p', wrote_cm p = true → wrote_cm p' = true.
#[local] Instance cm_monotone_preorder : PreOrder cm_monotone.
Proof.
  split; [by intros p ?|]. intros p1 p2 p3 H1 H2 Hp. by apply H2, H1.
Qed.

Ltac monotone :=
  repeat first [ keeps_step | apply keeps_retrieve; intros | progress cbv zeta beta
               | unfold set_options, set_state, set_next_ff, set_next_kv, set_next_secret ];
  unfold cm_monotone; try done.

Lemma full_populates (p p' : processor) :
  processFullReconciliation p = (Ok (), p') → wrote_cm p' = true.
Proof. unfold processFullReconciliation. run_step; done. Qed.
Lemma ff_monotone cm : keeps cm_monotone (processFeatureFlagRefresh cm).
Proof. unfold processFeatureFlagRefresh. monotone. Qed.
Lemma kv_monotone cm : keeps cm_monotone (processKeyValueRefresh cm).
Proof. unfold processKeyValueRefresh, check_key_values. monotone. Qed.
Lemma secret_monotone ss : keeps cm_monotone (processSecretReferenceRefresh ss).
Proof. unfold processSecretReferenceRefresh. monotone. Qed.

(** A full load leaves a ConfigMap to write. *)
Lemma PopulateSettings_populates cm ss (p p' : processor) :
  PopulateSettings cm ss p = (Ok (), p') → shouldReconcile p cm ss = true →
  wrote_cm p' = true.
Proof.
  intros Hr Hs. unfold PopulateSettings in Hr.
  apply goM_bind_Ok in Hr as (? & p0 & [= <- <-] & Hr).
  apply goM_bind_Ok in Hr as (? & p1 & [= <- <-] & Hr).
  cbn [Processor.ShouldReconcile] in Hr.
  apply goM_bind_Ok in Hr as ([] & p2 & H2 & Hr). cbn in H2. rewrite Hs in H2.
  apply full_populates in H2.
  apply goM_bind_Ok in Hr as (? & p3 & H3%(keeps_run _ _ _ _ _ (ff_monotone cm)) & Hr).
  apply goM_bind_Ok in Hr as (? & p4 & H4%(keeps_run _ _ _ _ _ (kv_monotone cm)) & Hr).
  apply (keeps_run _ _ _ _ _ (secret_monotone ss)) in Hr. unfold cm_monotone in *. auto.
Qed.

(** Without a target Secret there is no Secret to write. *)
Definition no_secret (p : processor) : Prop :=
  (spec p).(Spec.Secret) = None ∧ wrote_secret p = false.

Lemma full_no_secret (p p' : processor) o :
  processFullReconciliation p = (o, p') → no_secret p → no_secret p'.
Proof. unfold processFullReconciliation, no_secret. run_step; naive_solver. Qed.
Lemma ff_no_secret cm (p p' : processor) o :
  processFeatureFlagRefresh cm p = (o, p') → no_secret p → no_secret p'.
Proof. unfold processFeatureFlagRefresh, no_secret. run_step; naive_solver. Qed.
Lemma kv_no_secret cm (p p' : processor) o :
  processKeyValueRefresh cm p = (o, p') → no_secret p → no_secret p'.
Proof.
  unfold processKeyValueRefresh, check_key_values, no_secret. run_step; naive_solver.
Qed.
Lemma secret_no_secret ss (p p' : processor) o :
  processSecretReferenceRefresh ss p = (o, p') → no_secret p → no_secret p'.
Proof.
  intros Hr [Hs Hw]. revert Hr. unfold processSecretReferenceRefresh, no_secret. go_run.
  assert (secretRefresh (spec p) = None) as -> by (unfold secretRefresh; by rewrite Hs).
  by intros [= _ <-].
Qed.

Lemma PopulateSettings_no_secret cm ss (p p' : processor) :
  PopulateSettings cm ss p = (Ok (), p') → no_secret p → no_secret p'.
Proof.
  intros Hr Hn. unfold PopulateSettings in Hr.
  apply goM_bind_Ok in Hr as (? & p0 & [= <- <-] & Hr).
  apply goM_bind_Ok in Hr as (? & p1 & [= <- <-] & Hr).
  apply goM_bind_Ok in Hr as (? & p2 & H2 & Hr).
  apply goM_bind_Ok in Hr as (? & p3 & H3 & Hr).
  apply goM_bind_Ok in Hr as (? & p4 & H4 & Hr).
  eapply secret_no_secret; [exact Hr|]. eapply kv_no_secret; [exact H4|].
  eapply ff_no_secret; [exact H3|].
  destruct (Processor.ShouldReconcile _); [|by injection H2 as _ <-].
  by eapply full_no_secret.
Qed.
End leaves.

(** ** When something is loaded *)

Section loading.
Context `{MapOrder} {M L : Type} `{!Retriever L}.
Notation processor := (Processor.t M L).
Notation spec p := (Provider.Spec (Processor.Provider p)).

(** A refresh that is off or whose time has not come. *)
Definition not_due {A} (p : processor) (refresh : option A) (next : Time.time) : bool :=
  match refresh with
  | None => true
  | Some _ => negb (Time.After p.(Processor.CurrentTime) next)
  end.

(** All that a run leaves for the writes and for [Finish], the marks of the
    refreshes that are enabled apart. *)
Definition populated (p : processor) :=
  (p.(Processor.Retriever), p.(Processor.Settings), p.(Processor.SharedSecrets),
   p.(Processor.RefreshOptions)
     <| RefreshOptions.keyValueRefreshEnabled := false |>
     <| RefreshOptions.secretReferenceRefreshEnabled := false |>
     <| RefreshOptions.featureFlagRefreshEnabled := false |>).

Lemma ff_idle cm (p : processor) :
  Processor.ShouldReconcile p = false → not_due p (featureFlagRefresh (spec p)) (next_ff p) = true →
  ∃ p', processFeatureFlagRefresh cm p = (Ok (), p') ∧ populated p' = populated p.
Proof.
  unfold not_due, processFeatureFlagRefresh. intros Hs Hd. go_run.
  destruct (featureFlagRefresh (spec p)); [|eexists; by split]. go_run. rewrite Hs.
  change (next_ff p) with (ReconciliationState.NextFeatureFlagRefreshReconcileTime
    (Processor.State p)) in Hd. rewrite Hd. eexists; by split.
Qed.

Lemma kv_idle cm (p : processor) :
  Processor.ShouldReconcile p = false → not_due p (keyValueRefresh (spec p)) (next_kv p) = true →
  ∃ p', processKeyValueRefresh cm p = (Ok (), p') ∧ populated p' = populated p.
Proof.
  unfold not_due, processKeyValueRefresh. intros Hs Hd. go_run.
  destruct (keyValueRefresh (spec p)); [|eexists; by split]. go_run. rewrite Hs.
  change (next_kv p) with (ReconciliationState.NextKeyValueRefreshReconcileTime
    (Processor.State p)) in Hd. rewrite Hd. eexists; by split.
Qed.

Lemma secret_idle ss (p : processor) :
  not_due p (secretRefresh (spec p)) (next_secret p) = true →
  ∃ p', processSecretReferenceRefresh ss p = (Ok (), p') ∧ populated p' = populated p.
Proof.
  unfold not_due, processSecretReferenceRefresh. intros Hd. go_run.
  destruct (secretRefresh (spec p)); [|eexists; by split]. go_run.
  change (next_secret p) with (ReconciliationState.NextSecretReferenceRefreshReconcileTime
    (Processor.State p)) in Hd. rewrite Hd. eexists; by split.
Qed.

Lemma not_due_recorded {A} (p p' : processor) (r : option A) next :
  recorded p' = recorded p → not_due p' r next = not_due p r next.
Proof. intros Hr. unfold not_due. by injection Hr as _ -> _. Qed.

Lemma populate_idle cm ss (p : processor) :
  shouldReconcile p cm ss = false →
  not_due p (featureFlagRefresh (spec p)) (next_ff p) = true →
  not_due p (keyValueRefresh (spec p)) (next_kv p) = true →
  not_due p (secretRefresh (spec p)) (next_secret p) = true →
  ∃ p', PopulateSettings cm ss p = (Ok (), p') ∧ populated p' = populated p.
Proof.
  intros Hs Hf Hk He. set (p0 := p <| Processor.ShouldReconcile := false |>).
  destruct (ff_idle cm p0 eq_refl Hf) as (p1 & H1 & P1).
  destruct (ff_step _ _ _ _ H1) as (R1 & S1 & K1 & E1).
  destruct (kv_idle cm p1 S1) as (p2 & H2 & P2).
  { rewrite K1, (not_due_recorded _ _ _ _ R1), (spec_recorded _ _ R1). exact Hk. }
  destruct (kv_step _ _ _ _ H2) as (R2 & S2 & F2 & E2).
  destruct (secret_idle ss p2) as (p3 & H3 & P3).
  { rewrite E2, E1, (not_due_recorded _ _ _ _ R2), (not_due_recorded _ _ _ _ R1),
      (spec_recorded _ _ R2), (spec_recorded _ _ R1). exact He. }
  exists p3. split; [|by rewrite P3, P2, P1]. unfold PopulateSettings.
  rewrite (goM_bind_run _ _ p tt p0) by (unfold modify; by rewrite Hs).
  go_run. change (Processor.ShouldReconcile p0) with false. cbn iota. go_run.
  by rewrite (goM_bind_run _ _ _ _ _ H1), (goM_bind_run _ _ _ _ _ H2).
Qed.

(** When neither the provider nor the objects it made changed, and no
    refresh is due, a run succeeds without a single call to the store or a
    vault, and leaves nothing to be written to the cluster. *)
Theorem PopulateSettings_idle cm ss (p : processor) :
  shouldReconcile p cm ss = false →
  not_due p (featureFlagRefresh (spec p)) (next_ff p) = true →
  not_due p (keyValueRefresh (spec p)) (next_kv p) = true →
  not_due p (secretRefresh (spec p)) (next_secret p) = true →
  ∃ p', PopulateSettings cm ss p = (Ok (), p') ∧ populated p' = populated p.
Proof. apply populate_idle. Qed.
End loading.

(** ** When everything is loaded again *)

Section reconcile.
Context `{MapOrder} {M L : Type} `{!Retriever L}.
Notation processor := (Processor.t M L).
Notation spec p := (Provider.Spec (Processor.Provider p)).

Lemma annotationChanged_false old new : annotationChanged old new = false ↔ old = new.
Proof.
  unfold annotationChanged. split.
  - case_bool_decide as Hs; [|done]. simpl. intros He. symmetry.
    apply map_subseteq_size_eq; [|lia]. apply map_subseteq_spec. intros k v Hk.
    rewrite existsb_false in He. specialize (He (k, v)). cbn in He.
    rewrite elem_of_range in He. specialize (He Hk).
    destruct (old !! k) as [v'|]; [|done].
    apply negb_false_iff, String.eqb_eq in He. by subst.
  - intros ->. rewrite bool_decide_eq_true_2 by done. simpl. apply existsb_false.
    intros [k v] Hk%elem_of_range. rewrite Hk. by rewrite String.eqb_refl.
Qed.

(** The objects in the cluster are those recorded when they were written. *)
Definition settled (p : processor) (cm : ConfigMap.t) (ss : gmap string Secret.t) : Prop :=
  let state := p.(Processor.State) in
  let existing := state.(ReconciliationState.ExistingK8sSecrets) in
  p.(Processor.Provider).(Provider.Generation) = state.(ReconciliationState.Generation)
  ∧ state.(ReconciliationState.Annotations) = p.(Processor.Provider).(Provider.Annotations)
  ∧ state.(ReconciliationState.ConfigMapResourceVersion)
    = Some cm.(ConfigMap.Meta).(ObjectMeta.ResourceVersion)
  ∧ ((spec p).(Spec.Secret) = None
     ∨ existing ≠ ∅ ∧ size existing = size ss
       ∧ ∀ name md s, existing !! name = Some md → ss !! name = Some s →
           md.(TargetK8sSecretMetadata.SecretResourceVersion)
           = s.(Secret.Meta).(ObjectMeta.ResourceVersion)).

Lemma secrets_unchanged (existing : gmap string TargetK8sSecretMetadata.t)
    (ss : gmap string Secret.t) :
  existsb (λ '(name, secret),
    match existing !! name with
    | Some md => negb (String.eqb md.(TargetK8sSecretMetadata.SecretResourceVersion)
                         secret.(Secret.Meta).(ObjectMeta.ResourceVersion))
    | None => false
    end) (range_map ss) = false
  ↔ ∀ name md s, existing !! name = Some md → ss !! name = Some s →
      md.(TargetK8sSecretMetadata.SecretResourceVersion)
      = s.(Secret.Meta).(ObjectMeta.ResourceVersion).
Proof.
  rewrite existsb_false. split.
  - intros He name md s Hmd Hs. specialize (He (name, s)). cbn in He.
    rewrite elem_of_range, Hmd in He.
    by apply String.eqb_eq, negb_false_iff, He.
  - intros Hv [name s] Hs%elem_of_range. destruct (existing !! name) as [md|] eqn:Hmd; [|done].
    apply negb_false_iff, String.eqb_eq. by eapply Hv.
Qed.

Lemma should_reconcile_settled (p : processor) cm ss :
  shouldReconcile p cm ss = false ↔ settled p cm ss.
Proof.
  unfold shouldReconcile, settled.
  destruct (Z.eqb_spec (Provider.Generation (Processor.Provider p))
              (ReconciliationState.Generation (Processor.State p))) as [Hg|Hg];
    simpl; [|naive_solver].
  rewrite <-annotationChanged_false. destruct (annotationChanged _ _); [naive_solver|].
  case_bool_decide as Hv; simpl; [|naive_solver].
  destruct (Spec.Secret (spec p)); [|naive_solver].
  rewrite <-secrets_unchanged. rewrite <-map_size_empty_iff.
  repeat case_bool_decide; simpl; naive_solver.
Qed.

(** Everything is loaded again exactly when the generation or the
    annotations of the provider changed, or when the ConfigMap or a Secret is
    not the one recorded: the nest of early returns, with its loops over maps
    in any order, decides that predicate. *)
Theorem shouldReconcile_settled (p : processor) cm ss :
  shouldReconcile p cm ss = false ↔ settled p cm ss.
Proof. apply should_reconcile_settled. Qed.
End reconcile.

(** ** The requeue interval *)

Section requeue.
Context `{MapOrder} {M L : Type} `{!Retriever L}.
Notation processor := (Processor.t M L).
Notation spec p := (Provider.Spec (Processor.Provider p)).

(** The timers that are set. *)
Definition timers (state : ReconciliationState.t M) : list Time.time :=
  List.filter (λ t, negb (Time.IsZero t))
    [state.(ReconciliationState.NextKeyValueRefreshReconcileTime);
     state.(ReconciliationState.NextSecretReferenceRefreshReconcileTime);
     state.(ReconciliationState.NextFeatureFlagRefreshReconcileTime)].

Lemma next_requeue_time_first l t0 :
  t0 ≠ Time.zero →
  let t := next_requeue_time l t0 in
  t ∈ t0 :: List.filter (λ t, negb (Time.IsZero t)) l
  ∧ ∀ t', t' ∈ t0 :: List.filter (λ t, negb (Time.IsZero t)) l → (t ≤ t')%Z.
Proof.
  revert t0. induction l as [|t l IH]; intros t0 Ht0.
  { simpl. split; [by left|]. by intros t' ->%list_elem_of_singleton. }
  cbn [next_requeue_time List.filter]. unfold Time.IsZero, Time.Before, Time.zero in *.
  destruct (Z.eqb_spec t 0) as [->|Ht]; cbn [negb andb]; [by apply IH|].
  rewrite (proj2 (Z.eqb_neq t0 0)) by done. cbn [orb].
  destruct (Z.ltb_spec t t0) as [Hlt|Hge].
  - destruct (IH t Ht) as [Hin Hmin]. split; [by right|].
    intros t' [->|Ht']%elem_of_cons; [|by apply Hmin].
    specialize (Hmin t). etransitivity; [apply Hmin; by left|lia].
  - destruct (IH t0 Ht0) as [Hin Hmin]. split; [apply elem_of_cons in Hin as [->|?]; set_solver|].
    intros t' [->|[->|Ht']%elem_of_cons]%elem_of_cons.
    + apply Hmin. by left.
    + etransitivity; [apply Hmin; by left|lia].
    + apply Hmin. by right.
Qed.

Lemma next_requeue_time_zero l :
  next_requeue_time l Time.zero
  = match List.filter (λ t, negb (Time.IsZero t)) l with
    | [] => Time.zero
    | t :: l' => next_requeue_time l' t
    end.
Proof.
  assert (∀ l t, t ≠ Time.zero →
    next_requeue_time (List.filter (λ t, negb (Time.IsZero t)) l) t = next_requeue_time l t)
    as Hf.
  { clear l. induction l as [|t l IH]; intros t0 Ht0; [done|]. cbn [List.filter].
    unfold Time.IsZero, Time.zero in *.
    destruct (Z.eqb_spec t 0) as [->|Ht]; cbn [negb].
    - cbn [next_requeue_time]. apply IH, Ht0.
    - cbn [next_requeue_time]. apply IH. by case_match. }
  induction l as [|t l IH]; [done|]. cbn [next_requeue_time List.filter].
  unfold Time.IsZero, Time.zero in *.
  destruct (Z.eqb_spec t 0) as [->|Ht]; cbn [negb andb]; [apply IH|].
  cbn [orb Z.eqb]. symmetry. by apply Hf.
Qed.

(** C29: The next run is scheduled at the first timer that is set, or in a
    second if that is sooner; never later than a timer that is set, and,
    when none is, in a second. *)
Theorem calculateRequeueAfterInterval_first now (state : ReconciliationState.t M) :
  (0 ≤ now)%Z →
  let requeue := calculateRequeueAfterInterval now state in
  (Time.Second ≤ requeue)%Z
  ∧ (∀ t, t ∈ timers state → (requeue ≤ Time.Second `max` Time.Sub t now)%Z)
  ∧ match timers state with
    | [] => requeue = Time.Second
    | _ => ∃ t, t ∈ timers state ∧ requeue = (Time.Second `max` Time.Sub t now)%Z
    end.
Proof.
  intros Hnow. cbv zeta. unfold calculateRequeueAfterInterval. cbv zeta.
  rewrite next_requeue_time_zero. fold (timers state).
  assert (∀ d, (if (d <? Time.Second)%Z then Time.Second else d) = (Time.Second `max` d)%Z)
    as Hmax by (intros d; destruct (Z.ltb_spec d Time.Second); lia).
  rewrite Hmax. split; [lia|].
  destruct (timers state) as [|t l] eqn:Ht.
  - split; [intros t Hin; by apply not_elem_of_nil in Hin|].
    assert (Time.Sub Time.zero now ≤ 0)%Z; [|unfold Time.Second, Time.Millisecond; lia].
    unfold Time.Sub, Time.zero, sat64, min_int64, max_int64. lia.
  - assert (∀ t', t' ∈ t :: l → t' ≠ 0%Z ∧ t' ∈ t :: l) as Hset.
    { intros t' Hin. split; [|done]. rewrite <-Ht in Hin.
      apply elem_of_filter_bool in Hin as [_ Hz]. by intros ->. }
    assert (List.filter (λ t, negb (Time.IsZero t)) l = l) as Hl.
    { clear -Hset. assert (∀ t', t' ∈ l → t' ≠ 0%Z) as Hl.
      { intros t' Hin. by apply (Hset t'); right. }
      clear Hset. induction l as [|x l IH]; [done|]. cbn [List.filter].
      unfold Time.IsZero. rewrite (proj2 (Z.eqb_neq x 0)) by (apply Hl; by left). cbn [negb].
      f_equal. apply IH. intros. apply Hl. by right. }
    destruct (next_requeue_time_first l t) as [Hin Hmin]; [by apply (Hset t); left|].
    rewrite Hl in Hin, Hmin. split.
    + intros t' Hin'. specialize (Hmin t' Hin'). unfold Time.Sub, sat64. lia.
    + eexists. split; [exact Hin|done].
Qed.
End requeue.

(** ** The secrets that are resolved again *)

Lemma foldl_insert_union `{Countable K} {A} (l : list (K * A)) (m : gmap K A) :
  NoDup l.*1 → foldl (λ m e, <[e.1 := e.2]> m) m l = list_to_map l ∪ m.
Proof.
  revert m. induction l as [|[k a] l IH]; intros m; simpl; [by rewrite (left_id_L ∅ (∪))|].
  intros [Hk Hnd]%NoDup_cons. rewrite IH by done.
  rewrite <-insert_union_l, insert_union_r; [done|]. by apply not_elem_of_list_to_map.
Qed.

Section secrets.
Context `{MapOrder}.

Definition unversioned (e : string * KeyVaultSecretMetadata.t) : Prop :=
  e.2.(KeyVaultSecretMetadata.SecretVersion) = EmptyString.
#[global] Instance unversioned_dec e : Decision (unversioned e).
Proof. unfold unversioned. apply _. Defined.

(** The references of a Secret without a version, if any. *)
Definition to_solve (t : TargetK8sSecretMetadata.t) : option TargetK8sSecretMetadata.t :=
  let refs := filter unversioned t.(TargetK8sSecretMetadata.SecretsKeyVaultMetadata) in
  if decide (refs = ∅) then None
  else Some (TargetK8sSecretMetadata.mk t.(TargetK8sSecretMetadata.Type_) refs EmptyString).

Lemma unversioned_loop_ne name ty refs r n :
  n ≠ name → unversioned_loop name ty refs r !! n = r !! n.
Proof.
  intros Hn. revert r. induction refs as [|[k md] refs IH]; intros r; [done|].
  cbn [unversioned_loop]. rewrite IH. case_match; [by rewrite lookup_insert_ne|done].
Qed.

Lemma unversioned_loop_eq name ty refs r :
  unversioned_loop name ty refs r !! name
  = match filter unversioned refs with
    | [] => r !! name
    | es =>
      let t := default (TargetK8sSecretMetadata.make ty) (r !! name) in
      Some (t <| TargetK8sSecretMetadata.SecretsKeyVaultMetadata :=
              foldl (λ m e, <[e.1 := e.2]> m)
                t.(TargetK8sSecretMetadata.SecretsKeyVaultMetadata) es |>)
    end.
Proof.
  revert r. induction refs as [|[k md] refs IH]; intros r; [done|].
  cbn [unversioned_loop]. rewrite filter_cons, IH. unfold unversioned at 2. cbn [snd].
  destruct (String.eqb_spec (KeyVaultSecretMetadata.SecretVersion md) EmptyString) as [He|He].
  - rewrite decide_True by done. rewrite lookup_insert_eq.
    by destruct (filter unversioned refs).
  - by rewrite decide_False by done.
Qed.

Lemma unversioned_loop_range name t r :
  r !! name = None →
  unversioned_loop name t.(TargetK8sSecretMetadata.Type_)
    (range_map t.(TargetK8sSecretMetadata.SecretsKeyVaultMetadata)) r
  = match to_solve t with Some t' => <[name := t']> r | None => r end.
Proof.
  intros Hr. set (refs := TargetK8sSecretMetadata.SecretsKeyVaultMetadata t).
  assert (list_to_map (filter unversioned (range_map refs)) = filter unversioned refs) as Hf.
  { rewrite map_filter_alt. apply list_to_map_proper; [|by rewrite range_map_perm].
    eapply sublist_NoDup; [apply (range_fst_NoDup refs)|].
    apply fmap_sublist, sublist_filter. }
  apply map_eq. intros n. unfold to_solve. fold refs. rewrite <-Hf.
  destruct (decide (n = name)) as [->|Hn].
  - rewrite unversioned_loop_eq, Hr.
    pose proof (foldl_insert_union (filter unversioned (range_map refs))
      (∅ : gmap string KeyVaultSecretMetadata.t)) as Hu.
    rewrite (right_id_L ∅ (∪)) in Hu.
    destruct (filter unversioned (range_map refs)) as [|e es] eqn:Hes.
    { by rewrite decide_True. }
    rewrite decide_False, lookup_insert_eq by (destruct e; apply insert_non_empty).
    cbn [default]. rewrite <-Hu; [done|]. rewrite <-Hes.
    eapply sublist_NoDup; [apply (range_fst_NoDup refs)|].
    apply fmap_sublist, sublist_filter.
  - rewrite unversioned_loop_ne by done.
    by case_decide; rewrite ?lookup_insert_ne.
Qed.

(** The loops collect the references without a version, whatever the order of
    the maps. *)
Lemma secretReferencesToSolve_omap existing :
  secretReferencesToSolve existing = omap to_solve existing.
Proof.
  unfold secretReferencesToSolve.
  assert (∀ l r, NoDup l.*1 → (∀ n, n ∈ l.*1 → r !! n = None) →
    ∀ n, references_loop l r !! n
         = match list_to_map (M:=gmap string _) l !! n with
           | Some t => to_solve t | None => r !! n end) as Hl.
  { induction l as [|[name t] l IH]; intros r; [by intros _ _ n; cbn; rewrite lookup_empty|].
    cbn [references_loop list_to_map foldr fst snd].
    rewrite fmap_cons. intros [Hn Hnd]%NoDup_cons Hr n.
    rewrite unversioned_loop_range by (apply Hr; by left).
    rewrite IH; [|done|].
    - destruct (decide (n = name)) as [->|Hne].
      + rewrite lookup_insert_eq, (not_elem_of_list_to_map_1 l) by done.
        destruct (to_solve t); [by rewrite lookup_insert_eq|]. apply Hr. by left.
      + rewrite (lookup_insert_ne (list_to_map l)) by done.
        destruct (to_solve t); [by rewrite lookup_insert_ne by done|done].
    - intros n' Hn'. assert (n' ≠ name) by (intros ->; done).
      destruct (to_solve t); [rewrite lookup_insert_ne by done|]; apply Hr; by right. }
  apply map_eq. intros n. rewrite Hl, range_list_to_map, lookup_omap;
    [|apply range_fst_NoDup|intros; apply lookup_empty].
  rewrite lookup_empty. by destruct (existing !! n).
Qed.
End secrets.

Section secret_refresh.
Context `{MapOrder} {M L : Type} `{!Retriever L}.
Notation processor := (Processor.t M L).
Notation spec p := (Provider.Spec (Processor.Provider p)).

(** An existing Secret with the values resolved for it. *)
Definition updated (r : option Secret.t) (s : Secret.t) : Secret.t :=
  match r with
  | Some r =>
    if decide (Secret.data r = ∅) then s
    else s <| Secret.Data := Some (Secret.data r ∪ Secret.data s) |>
  | None => s
  end.

Lemma write_data_Ok data s s' r :
  write_data data s = Ok s' → Secret.data r = data → s' = updated (Some r) s.
Proof.
  unfold write_data, updated. intros Hw <-. case_bool_decide as Hd.
  - rewrite decide_True by done. by injection Hw as <-.
  - rewrite decide_False by done.
    destruct s as [m ty [d|]]; [|done]. by injection Hw as <-.
Qed.

(** A Secret without a data map cannot take a value. *)
Lemma write_data_nil_panics data s :
  data ≠ ∅ → s.(Secret.Data) = None → write_data data s = Panic.
Proof. unfold write_data. intros Hd ->. by rewrite bool_decide_eq_false_2. Qed.

Lemma update_loop_Ok l secrets secrets' :
  NoDup l.*1 → update_loop l secrets = Ok secrets' →
  ∀ n, secrets' !! n = updated (list_to_map (M:=gmap string _) l !! n) <$> secrets !! n.
Proof.
  revert secrets. induction l as [|[name r] l IH]; intros secrets.
  { intros _ [= ->] n. cbn. rewrite lookup_empty. by destruct (secrets' !! n). }
  cbn [update_loop list_to_map foldr fst snd]. rewrite fmap_cons.
  intros [Hn Hnd]%NoDup_cons Hu n.
  assert (∀ secrets, update_loop l secrets = Ok secrets' →
    secrets' !! name = secrets !! name) as Hname.
  { intros secrets0 Hu0. rewrite (IH _ Hnd Hu0), (not_elem_of_list_to_map_1 l) by done.
    by destruct (secrets0 !! name). }
  destruct (secrets !! name) as [s|] eqn:Hs.
  - apply outcome_bind_Ok in Hu as (s' & Hw & Hu).
    apply (write_data_Ok _ _ _ r) in Hw as ->; [|done].
    destruct (decide (n = name)) as [->|Hne].
    + rewrite (Hname _ Hu), !lookup_insert_eq, Hs. done.
    + by rewrite (IH _ Hnd Hu), !lookup_insert_ne by done.
  - destruct (decide (n = name)) as [->|Hne].
    + by rewrite (Hname _ Hu), Hs.
    + by rewrite (IH _ Hnd Hu), lookup_insert_ne by done.
Qed.

(** C12: A due refresh of the secrets asks the vaults exactly for the
    references without a version, whatever the order of the maps, and writes
    the values it gets over those of the Secrets in the cluster: the Secrets
    are the same, with the same metadata and type, and every other value is
    kept.  The references recorded stay. *)
Theorem secret_refresh_unversioned ss (p p' : processor) refresh :
  secretRefresh (spec p) = Some refresh →
  Time.After p.(Processor.CurrentTime) (next_secret p) = true →
  p.(Processor.RefreshOptions).(RefreshOptions.SecretSettingPopulated) = false →
  processSecretReferenceRefresh ss p = (Ok (), p') →
  let existing := p.(Processor.State).(ReconciliationState.ExistingK8sSecrets) in
  let settings := p'.(Processor.Settings) in
  ∃ resolved, (ResolveSecretReferences (omap to_solve existing) p.(Processor.Retriever)).1
              = Ok resolved
    ∧ settings.(TargetKeyValueSettings.K8sSecrets) = existing
    ∧ (∀ n, settings.(TargetKeyValueSettings.SecretSettings) !! n
            = updated (resolved.(TargetKeyValueSettings.SecretSettings) !! n) <$> ss !! n)
    ∧ ∀ n s s' k, ss !! n = Some s →
        settings.(TargetKeyValueSettings.SecretSettings) !! n = Some s' →
        (r ← resolved.(TargetKeyValueSettings.SecretSettings) !! n; Secret.data r !! k) = None →
        Secret.data s' !! k = Secret.data s !! k.
Proof.
  intros Hr Hd Hp Hrun. cbv zeta. unfold processSecretReferenceRefresh in Hrun.
  apply goM_bind_Ok in Hrun as (? & ? & [= <- <-] & Hrun). rewrite Hr in Hrun.
  apply goM_bind_Ok in Hrun as (? & ? & [= <- <-] & Hrun).
  unfold next_secret in Hd. rewrite Hd in Hrun. cbn [negb] in Hrun.
  apply goM_bind_Ok in Hrun as (? & ? & [= <- <-] & Hrun). rewrite Hp in Hrun.
  apply goM_bind_Ok in Hrun as (resolved & p1 & Hres & Hrun).
  apply goM_bind_Ok in Hrun as (secrets & p2 & Hu & Hrun).
  unfold lift in Hu. injection Hu as Hu <-.
  unfold retrieve in Hres. cbn in Hres. rewrite secretReferencesToSolve_omap in Hres.
  exists resolved. destruct (ResolveSecretReferences _ _) as [o l]. simplify_eq/=.
  apply goM_bind_Ok in Hrun as (? & ? & [= _ <-] & Hrun).
  apply goM_bind_Ok in Hrun as (? & ? & [= _ <-] & [= <-]). cbn.
  split; [done|]. split; [done|].
  assert (∀ n, secrets !! n = updated (resolved.(TargetKeyValueSettings.SecretSettings) !! n)
    <$> ss !! n) as Hn.
  { intros n. rewrite (update_loop_Ok _ _ _ (range_fst_NoDup _) Hu n).
    by rewrite range_list_to_map. }
  split; [done|]. intros n s s' k Hs Hs' Hk. rewrite Hn, Hs in Hs'. injection Hs' as <-.
  destruct (TargetKeyValueSettings.SecretSettings resolved !! n) as [r|]; [|done].
  cbn in Hk. unfold updated. case_decide; [done|].
  change (Secret.data (_ <| Secret.Data := Some ?m |>)) with m. cbn.
  by rewrite lookup_union_r.
Qed.
End secret_refresh.

(** ** What [Finish] records *)

Section finish.
Context `{MapOrder} {M L : Type} `{!Retriever L}.
Notation processor := (Processor.t M L).
Notation spec p := (Provider.Spec (Processor.Provider p)).

(** What a status update does not change. *)
Lemma commit_refresh_same (p : processor) :
  let p' := commit_refresh p in
  spec p' = spec p
  ∧ Provider.Generation (Processor.Provider p') = Provider.Generation (Processor.Provider p)
  ∧ Provider.Annotations (Processor.Provider p') = Provider.Annotations (Processor.Provider p)
  ∧ ReconciliationState.Generation (Processor.State p')
    = ReconciliationState.Generation (Processor.State p)
  ∧ ReconciliationState.Annotations (Processor.State p')
    = ReconciliationState.Annotations (Processor.State p)
  ∧ ReconciliationState.ConfigMapResourceVersion (Processor.State p')
    = ReconciliationState.ConfigMapResourceVersion (Processor.State p)
  ∧ ReconciliationState.ExistingK8sSecrets (Processor.State p')
    = ReconciliationState.ExistingK8sSecrets (Processor.State p).
Proof. unfold commit_refresh. repeat case_match; by split_and!. Qed.

Lemma commit_same (p : processor) :
  ReconciliationState.Generation (commit p) = Provider.Generation (Processor.Provider p)
  ∧ ReconciliationState.Annotations (commit p) = Provider.Annotations (Processor.Provider p)
  ∧ ReconciliationState.ConfigMapResourceVersion (commit p)
    = ReconciliationState.ConfigMapResourceVersion (Processor.State p)
  ∧ ReconciliationState.ExistingK8sSecrets (commit p)
    = (if p.(Processor.RefreshOptions).(RefreshOptions.SecretSettingPopulated)
       then p.(Processor.Settings).(TargetKeyValueSettings.K8sSecrets)
       else ReconciliationState.ExistingK8sSecrets (Processor.State p)).
Proof. unfold commit. repeat case_match; by split_and!. Qed.

(** C31: A reconciliation settles: once [Finish] has recorded a run whose
    ConfigMap and Secrets are in the cluster with the versions it noted, the
    next run with the same provider and objects does not load everything
    again. *)
Theorem Finish_settles now (p : processor) cm ss :
  let md := p.(Processor.Settings).(TargetKeyValueSettings.K8sSecrets) in
  p.(Processor.State).(ReconciliationState.ConfigMapResourceVersion)
    = Some cm.(ConfigMap.Meta).(ObjectMeta.ResourceVersion) →
  (spec p).(Spec.Secret) = None
  ∨ p.(Processor.RefreshOptions).(RefreshOptions.SecretSettingPopulated) = true
    ∧ md ≠ ∅ ∧ size md = size ss
    ∧ (∀ name t s, md !! name = Some t → ss !! name = Some s →
         t.(TargetK8sSecretMetadata.SecretResourceVersion)
         = s.(Secret.Meta).(ObjectMeta.ResourceVersion)) →
  shouldReconcile (Finish now p).2 cm ss = false.
Proof.
  cbv zeta. intros Hcm Hss. apply should_reconcile_settled.
  destruct (commit_same p) as (G & A & C & E).
  set (p1 := p <| Processor.State := commit p |>).
  assert (settled p1 cm ss) as Hs.
  { unfold settled. change (Processor.State p1) with (commit p).
    rewrite G, A, C, E. split_and!; [done|done|done|].
    destruct Hss as [?|(-> & ? & ? & ?)]; [by left|right; by split_and!]. }
  unfold Finish. cbv zeta. fold p1. destruct (_ && _); [exact Hs|].
  destruct (commit_refresh_same p1) as (S' & G1 & A1 & G2 & A2 & C2 & E2).
  unfold settled in *. cbn [snd]. by rewrite S', G1, A1, G2, A2, C2, E2.
Qed.
End finish.

(** ** Witnesses *)

Module ProcessorWitness.
#[export] Existing Instance map_to_list_order.

(** A loader that finds every page changed and resolves each reference; it
    counts its calls. *)
Definition resolve_all (refs : gmap string TargetK8sSecretMetadata.t) : gmap string Secret.t :=
  (λ t, Secret.make t.(TargetK8sSecretMetadata.Type_)
     ((λ md : KeyVaultSecretMetadata.t, "new " +:+ md.(KeyVaultSecretMetadata.SecretName))
        <$> t.(TargetK8sSecretMetadata.SecretsKeyVaultMetadata))) <$> refs.
Definition loaded : TargetKeyValueSettings.t :=
  TargetKeyValueSettings.empty
    <| TargetKeyValueSettings.ConfigMapSettings := Some {["k" := "v"]} |>
    <| TargetKeyValueSettings.KeyValueETags := Some ∅ |>.
Definition answer {A} (a : A) : goM nat error A := λ n, (Ok a, S n).
Definition loader : Retriever nat := {|
  CreateTargetSettings := answer loaded;
  CheckPageETags _ := answer true;
  CheckAndRefreshSentinels e := answer (true, e);
  RefreshKeyValueSettings _ := answer loaded;
  RefreshFeatureFlagSettings _ := answer loaded;
  ResolveSecretReferences refs := answer
    (TargetKeyValueSettings.empty <| TargetKeyValueSettings.SecretSettings := resolve_all refs |>);
|}.
#[export] Existing Instance loader.

Definition t0 : Time.time := (1000 * Time.Second)%Z.
Definition provider : Provider.t :=
  Provider.mk "p" "ns" "uid" 3 {["team" := "a"]} ∅
    (Spec.mk (Some "https://store.azconfig.io") true false None (Target.mk "cm" None) None
       (KeyValueOptions.mk [] [] (Some (KeyValueRefresh.mk None "30s" true)))
       (Some (SecretReference.mk (SecretTarget.mk "secret" None) None
          (Some (RefreshSettings.mk "1m" true)))) None)
    (Status.mk 0%Z 0%Z NoPhase EmptyString (RefreshStatus.mk 0%Z 0%Z 0%Z)).
Definition refs : gmap string TargetK8sSecretMetadata.t :=
  {["secret" := TargetK8sSecretMetadata.mk SecretTypeOpaque
      {["x" := KeyVaultSecretMetadata.mk "v" "x" ""; "y" := KeyVaultSecretMetadata.mk "v" "y" "1"]}
      "rs"]}.
Definition state (kv secret : Time.time) : ReconciliationState.t unit :=
  ReconciliationState.mk _ 3 (Some "rc") {["team" := "a"]} ∅ (Some ∅) None refs kv secret 0%Z
    (Some tt).
Definition processor (kv secret : Time.time) : Processor.t unit nat :=
  Processor.mk _ _ 0 provider TargetKeyValueSettings.empty false false (state kv secret) t0
    NewRefreshOptions.
Definition meta (rv : string) : ObjectMeta.t := ObjectMeta.mk "n" "ns" rv ∅ ∅ [].
Definition cm : ConfigMap.t := ConfigMap.mk (meta "rc") (Some {["k" := "v"]}).
Definition ss : gmap string Secret.t :=
  {["secret" := Secret.mk (meta "rs") SecretTypeOpaque (Some {["x" := "old"; "y" := "fixed"]})]}.
Definition later : Time.time := (t0 + Time.Second)%Z.
Definition before : Time.time := (t0 - Time.Second)%Z.
End ProcessorWitness.
Import ProcessorWitness.

(** Only the value without a version is new. *)
Example secrets_refreshed :
  (PopulateSettings cm ss (processor later before)).2.(Processor.Settings)
    .(TargetKeyValueSettings.SecretSettings)
  = {["secret" := Secret.mk (meta "rs") SecretTypeOpaque
        (Some {["x" := "new x"; "y" := "fixed"]})]}.
Proof. vm_compute. reflexivity. Qed.

Lemma PopulateSettings_timers_witness :
  let p := processor before before in
  let p' := (PopulateSettings cm ss p).2 in
  next_kv p' = (t0 + 30 * Time.Second)%Z ∧ next_secret p' = (t0 + Time.Minute)%Z
  ∧ recorded p' = recorded p.
Proof.
  destruct (PopulateSettings_timers cm ss (processor before before)
    (PopulateSettings cm ss (processor before before)).2 (Ok ())) as (Hr & _ & Hk & Hs).
  - vm_compute. reflexivity.
  - cbv zeta. rewrite Hk, Hs. split; [vm_compute; reflexivity|].
    split; [vm_compute; reflexivity|exact Hr].
Defined.

Lemma PopulateSettings_idle_witness :
  ∃ p', PopulateSettings cm ss (processor later later) = (Ok (), p')
    ∧ populated p' = populated (processor later later).
Proof.
  apply (PopulateSettings_idle cm ss (processor later later)); vm_compute; reflexivity.
Defined.

Lemma calculateRequeueAfterInterval_first_witness :
  let requeue := calculateRequeueAfterInterval t0 (state later (t0 + Time.Minute)%Z) in
  (Time.Second ≤ requeue)%Z
  ∧ (∀ t, t ∈ timers (state later (t0 + Time.Minute)%Z) →
       (requeue ≤ Time.Second `max` Time.Sub t t0)%Z)
  ∧ ∃ t, t ∈ timers (state later (t0 + Time.Minute)%Z)
         ∧ requeue = (Time.Second `max` Time.Sub t t0)%Z.
Proof.
  apply (calculateRequeueAfterInterval_first t0 (state later (t0 + Time.Minute)%Z)).
  vm_compute. discriminate.
Defined.

Lemma secret_refresh_unversioned_witness :
  let p' := (processSecretReferenceRefresh ss (processor later before)).2 in
  (Processor.Settings p').(TargetKeyValueSettings.K8sSecrets) = refs
  ∧ ∃ resolved : TargetKeyValueSettings.t,
      ∀ n, (Processor.Settings p').(TargetKeyValueSettings.SecretSettings) !! n
           = updated (resolved.(TargetKeyValueSettings.SecretSettings) !! n) <$> ss !! n.
Proof.
  destruct (secret_refresh_unversioned ss (processor later before)
    (processSecretReferenceRefresh ss (processor later before)).2
    (RefreshSettings.mk "1m" true)) as (r & _ & Hk & Hn & _).
  - reflexivity.
  - vm_compute. reflexivity.
  - reflexivity.
  - vm_compute. reflexivity.
  - cbv zeta. split; [exact Hk|]. by exists r.
Defined.

Lemma Finish_settles_witness :
  shouldReconcile (Finish t0 ((processor later later)
    <| Processor.Settings := loaded <| TargetKeyValueSettings.K8sSecrets := refs |> |>
    <| Processor.RefreshOptions := NewRefreshOptions
         <| RefreshOptions.SecretSettingPopulated := true |> |>)).2 cm ss = false.
Proof.
  apply Finish_settles; [reflexivity|]. right. split; [reflexivity|]. split; [done|].
  split; [reflexivity|]. intros name t s Ht Hs.
  change (refs !! name = Some t) in Ht. unfold refs, ss in Ht, Hs.
  assert (name = "secret") as ->.
  { destruct (decide (name = "secret")); [done|]. by rewrite lookup_singleton_ne in Ht. }
  rewrite lookup_singleton_eq in Ht. rewrite lookup_singleton_eq in Hs. by injection Ht as <-; injection Hs as <-.
Defined.
