(* ===== verification/Validation.v ===== *)
(** The checks of the controller: [internal/controller/utils.go].

    The specification of a provider is verified before anything is loaded, an
    existing object is verified to be owned before it is written, and the data
    in the cluster is compared with the new data to skip a write.

    The main theorems: [verifyObject] accepts exactly the specifications that
    satisfy a declarative predicate, and refuses the others with an argument
    error; the scan of a label filter recognises a grammar; a verified
    authentication never makes the creation of a credential panic; an object is
    accepted exactly when no other object has its name or the provider owns it. *)

From S2P Require Import Prelude GoStrings Duration Errors Api Json Filters Tree Codec Data Url ConnString.
From S2P Require Import Clients Auth KeyVault Processor.
From Stdlib Require Import Ascii.

Definition MinimalSentinelBasedRefreshInterval : Time.duration := Time.Second.
Definition MinimalSecretRefreshInterval : Time.duration := Time.Minute.
Definition MinimalFeatureFlagRefreshInterval : Time.duration := Time.Second.

Definition ProviderName : string := "AzureAppConfigurationProvider".
(** [acpv1.GroupVersion.String()] *)
Definition GroupVersion : string := "azconfig.io/v1".

(** The environment variables of the workload identity; [os.Getenv] gives the
    empty string for one that is not set. *)
Class WorkloadEnv := {
  WorkloadIdentityEnabled : string;
  WorkloadIdentityGlobalServiceAccountEnabled : string;
}.

(** [Duration.String] of the minimal intervals. *)
Definition duration_string (d : Time.duration) : string :=
  if (d =? Time.Minute)%Z then "1m0s" else "1s".

Definition err {A} (field msg : string) : result A :=
  Err (NewArgumentError field (Errorf msg)).

(** [if err != nil { return loader.NewArgumentError(field, err) }] *)
Definition in_field {A} (field : string) (o : result A) : result A :=
  match o with Err e => Err (NewArgumentError field e) | _ => o end.

(** [for i := range l { if err := f(l[i]); err != nil { return err } }] *)
Fixpoint each {A} (f : A → result ()) (l : list A) : result () :=
  match l with
  | [] => Ok ()
  | x :: l' => _ ← f x; each f l'
  end.

Definition optional {A} (f : A → result ()) (o : option A) : result () :=
  match o with Some x => f x | None => Ok () end.

(** ** Label filters *)

Definition backslash : ascii := ascii_of_N 92.
Definition star : ascii := ascii_of_N 42.
Definition comma : ascii := ascii_of_N 44.

(** The loop at index [i]; the length of the label is fuel enough, since the
    index grows in every round. *)
Fixpoint label_loop (fuel : nat) (label : string) (i : nat) : bool :=
  match fuel with
  | O => false
  | S fuel' =>
    match String.get i label with
    | None => false
    | Some c =>
      if Ascii.eqb c backslash then label_loop fuel' label (i + 2)
      else if Ascii.eqb c star || Ascii.eqb c comma then true
      else label_loop fuel' label (i + 1)
    end
  end.

Definition hasNonEscapedValueInLabel (label : string) : bool :=
  label_loop (str_length label) label 0.

(** ** The specification *)

Section verify.
Context `{Unicode} `{IPLiterals} `{UUIDParser} `{WorkloadEnv}.

Definition verifyDataOptions (path : string) (dataOptions : DataOptions.t) : result () :=
  let ty := dataOptions.(DataOptions.Type_) in
  let key := dataOptions.(DataOptions.Key) in
  _ ← (if decide (ty = Default) then
         if String.eqb key EmptyString then Ok ()
         else err (path +:+ ".key") "key field is not allowed when type is default"
       else
         if String.eqb key EmptyString
         then err (path +:+ ".key")
                "key field is required when type is json, yaml or properties"
         else Ok ());
  match dataOptions.(DataOptions.Separator) with
  | Some _ =>
    if decide (ty = Default ∨ ty = Properties)
    then err (path +:+ ".separator")
           ("separator field is not allowed when type is " +:+ DataType_string ty)
    else Ok ()
  | None => Ok ()
  end.

Definition verifySelectorObject (selector : Selector.t) : result () :=
  _ ← match selector.(Selector.KeyFilter), selector.(Selector.SnapshotName) with
      | None, None =>
        Err (Errorf "a selector must specify either 'keyFilter' or 'snapshotName'")
      | _, None => Ok ()
      | Some _, Some _ =>
        Err (Errorf "set both 'keyFilter' and 'snapshotName' in one selector causes ambiguity, only one of them should be set")
      | None, Some _ =>
        match selector.(Selector.LabelFilter), selector.(Selector.TagFilters) with
        | Some _, _ => Err (Errorf "'labelFilter' is not allowed when 'snapshotName' is set")
        | None, Some _ => Err (Errorf "'tagFilters' is not allowed when 'snapshotName' is set")
        | None, None => Ok ()
        end
      end;
  match selector.(Selector.LabelFilter) with
  | Some label =>
    if hasNonEscapedValueInLabel label
    then Err (Errorf "non-escaped reserved wildcard character '*' and multiple labels separator ',' are not supported in label filters")
    else Ok ()
  | None => Ok ()
  end.

Definition verifyRefreshInterval (allowedMinimalRefreshInterval : Time.duration)
    (refreshArgument s : string) : result () :=
  match ParseDuration s with
  | inr refreshInterval =>
    if (refreshInterval <? allowedMinimalRefreshInterval)%Z
    then err refreshArgument (refreshArgument +:+ " can not be shorter than "
                              +:+ duration_string allowedMinimalRefreshInterval)
    else Ok ()
  | inl e => Err (NewArgumentError refreshArgument (ForeignError false e None))
  end.

Definition verifyEndpoint (endpoint : string) : result () :=
  match Parse (Strings.ToLower endpoint) with
  | Err e => Err (NewArgumentError "endpoint" e)
  | Panic => Panic
  | Ok url =>
    if String.eqb url.(URL.Host) EmptyString
    then err "endpoint" (Strconv.Quote endpoint +:+ " is not a valid endpoint. Host must be specified")
    else if negb (String.eqb url.(URL.Scheme) "https")
    then err "endpoint" (Strconv.Quote endpoint
                         +:+ " is not a valid endpoint. Only https scheme is allowed")
    else if negb (String.eqb (Strings.Trim url.(URL.Path) "/") EmptyString)
    then err "endpoint" (Strconv.Quote endpoint
                         +:+ " is not a valid endpoint. Only host name is allowed")
    else Ok ()
  end.

Definition count {A} (o : option A) : nat := match o with Some _ => 1 | None => 0 end.

Definition verifyWorkloadIdentityParameters (wi : WorkloadIdentity.t) : result () :=
  let global_off :=
    Strings.EqualFold WorkloadIdentityGlobalServiceAccountEnabled "false" in
  let check_global {A} (field : string) (o : option A) :=
    match o with
    | Some _ =>
      if global_off
      then err field "using a global service account is no longer permitted with workload identity. See https://aka.ms/appconfig/k8sglobalserviceaccount for more information"
      else Ok ()
    | None => Ok ()
    end in
  if negb (Strings.EqualFold WorkloadIdentityEnabled "true")
  then err "auth.workloadIdentity" "workloadIdentity is not enabled" else
  _ ← check_global "auth.workloadIdentity.managedIdentityClientId"
        wi.(WorkloadIdentity.ManagedIdentityClientId);
  _ ← check_global "auth.workloadIdentity.managedIdentityClientIdReference"
        wi.(WorkloadIdentity.ManagedIdentityClientIdReference);
  let authCount := count wi.(WorkloadIdentity.ManagedIdentityClientId)
                   + count wi.(WorkloadIdentity.ManagedIdentityClientIdReference)
                   + count wi.(WorkloadIdentity.ServiceAccountName) in
  if bool_decide (authCount = 0)
  then err "auth.workloadIdentity" "setting one of 'managedIdentityClientId', 'managedIdentityClientIdReference' or 'serviceAccountName' field is required"
  else if bool_decide (1 < authCount)
  then err "auth.workloadIdentity" "setting only one of 'managedIdentityClientId', 'managedIdentityClientIdReference' or 'serviceAccountName' field is allowed"
  else match wi.(WorkloadIdentity.ManagedIdentityClientId) with
  | Some id =>
    if uuid_valid id then Ok ()
    else err "auth.workloadIdentity.managedIdentityClientId"
           ("managedIdentityClientId " +:+ Strconv.Quote id
            +:+ " in auth.workloadIdentity is not a valid uuid")
  | None => Ok ()
  end.

Definition verifyAuthObject (auth : option Auth.t) : result () :=
  match auth with
  | None => Ok ()
  | Some auth =>
    _ ← match auth.(Auth.ManagedIdentityClientId) with
        | Some id =>
          if uuid_valid id then Ok ()
          else err "auth" ("ManagedIdentityClientId " +:+ Strconv.Quote id
                           +:+ " in auth field is not a valid uuid")
        | None => Ok ()
        end;
    _ ← optional verifyWorkloadIdentityParameters auth.(Auth.WorkloadIdentity);
    let authCount := count auth.(Auth.ServicePrincipalReference)
                     + count auth.(Auth.ManagedIdentityClientId)
                     + count auth.(Auth.WorkloadIdentity) in
    if bool_decide (1 < authCount)
    then err "auth" "more than one authentication methods are specified in 'auth' field"
    else Ok ()
  end.

(** Whether the endpoint, the connection string and the authentication are
    set together as they may be. *)
Definition verify_connection (spec : Spec.t) : result () :=
  match spec.(Spec.Endpoint), spec.(Spec.ConnectionStringReference) with
  | None, None =>
    err "spec" "one of endpoint and connectionStringReference field must be set"
  | Some _, Some _ =>
    err "spec" "both endpoint and connectionStringReference field are set"
  | None, Some _ =>
    match spec.(Spec.Auth) with
    | Some _ =>
      err "spec.auth" "auth field is not allowed when connectionStringReference field is set"
    | None => Ok ()
    end
  | Some _, None => Ok ()
  end.

Definition verify_featureFlag (spec : Spec.t) (featureFlag : FeatureFlagOptions.t)
    : result () :=
  _ ← (if match spec.(Spec.Target).(Target.ConfigMapData) with
          | Some opts => bool_decide (opts.(DataOptions.Type_) = Default)
                         || bool_decide (opts.(DataOptions.Type_) = Properties)
          | None => true
          end
       then err "spec.target.configMapData" "configMap data type must be json or yaml when FeatureFlag is set"
       else Ok ());
  _ ← match featureFlag.(FeatureFlagOptions.Selectors) with
      | [] => err "spec.featureFlag.selectors" "featureFlag.selectors must be specified when FeatureFlag is set"
      | _ => Ok ()
      end;
  _ ← each (λ s, in_field "spec.featureFlag.selectors" (verifySelectorObject s))
        featureFlag.(FeatureFlagOptions.Selectors);
  optional (λ r, verifyRefreshInterval MinimalFeatureFlagRefreshInterval
              "featureFlag.refresh.interval" r.(RefreshSettings.Interval))
    featureFlag.(FeatureFlagOptions.Refresh).

Definition verify_vault (v : VaultAuth.t) : result () :=
  _ ← verifyEndpoint v.(VaultAuth.Uri);
  match v.(VaultAuth.auth) with
  | None =>
    err "secret.auth.keyVaults" ("authentication method must be specified for Key Vault '"
                                 +:+ v.(VaultAuth.Uri) +:+ "'")
  | Some auth => verifyAuthObject (Some auth)
  end.

Definition verify_secret (secret : SecretReference.t) : result () :=
  _ ← optional (λ a,
        _ ← verifyAuthObject a.(KeyVaultAuth.auth);
        each verify_vault a.(KeyVaultAuth.KeyVaults)) secret.(SecretReference.Auth);
  _ ← optional (λ r, verifyRefreshInterval MinimalSecretRefreshInterval
                  "secret.refresh.interval" r.(RefreshSettings.Interval))
        secret.(SecretReference.Refresh);
  optional (verifyDataOptions "spec.secret.target.secretData")
    secret.(SecretReference.Target).(SecretTarget.SecretData).

(** The loop over the sentinels with the map of those seen, whose keys hold
    the address of their label. *)
Fixpoint duplicate_sentinels (sentinels : list Sentinel.t) (sentinelMap : gset Sentinel.t)
    : result () :=
  match sentinels with
  | [] => Ok ()
  | s :: sentinels' =>
    if bool_decide (s ∈ sentinelMap)
    then err "spec.configuration.refresh.monitoring.keyValues"
           ("monitoring duplicated key '" +:+ s.(Sentinel.Key) +:+ "'")
    else duplicate_sentinels sentinels' ({[s]} ∪ sentinelMap)
  end.

Definition verify_refresh (refresh : KeyValueRefresh.t) : result () :=
  _ ← optional (λ ss, duplicate_sentinels ss ∅) refresh.(KeyValueRefresh.Monitoring);
  if String.eqb refresh.(KeyValueRefresh.Interval) EmptyString then Ok ()
  else verifyRefreshInterval MinimalSentinelBasedRefreshInterval
         "configuration.refresh.interval" refresh.(KeyValueRefresh.Interval).

Definition verifyObject (spec : Spec.t) : result () :=
  _ ← verify_connection spec;
  _ ← optional (verifyDataOptions "spec.target.configMapData")
        spec.(Spec.Target).(Target.ConfigMapData);
  _ ← each (λ s, in_field "spec.configuration.selectors" (verifySelectorObject s))
        spec.(Spec.Configuration).(KeyValueOptions.Selectors);
  _ ← optional (verify_featureFlag spec) spec.(Spec.FeatureFlag);
  _ ← optional verifyEndpoint spec.(Spec.Endpoint);
  _ ← verifyAuthObject spec.(Spec.Auth);
  _ ← optional verify_secret spec.(Spec.Secret);
  optional verify_refresh spec.(Spec.Configuration).(KeyValueOptions.Refresh).
End verify.

(** ** Existing objects *)

(** [verifyExistingTargetObject] on the metadata of an object of kind [kind]. *)
Definition verifyExistingTargetObject (kind : string) (targetObj : ObjectMeta.t)
    (targetName : string) (provider : Provider.t) : result () :=
  if negb (String.eqb targetObj.(ObjectMeta.Name) targetName) then Ok ()
  else if existsb (λ ownerRef,
         String.eqb ownerRef.(OwnerReference.APIVersion) GroupVersion
         && String.eqb ownerRef.(OwnerReference.Kind) ProviderName
         && String.eqb ownerRef.(OwnerReference.Name) provider.(Provider.Name)
         && String.eqb ownerRef.(OwnerReference.UID) provider.(Provider.UID))
         targetObj.(ObjectMeta.OwnerReferences)
  then Ok ()
  else Err (Errorf ("a " +:+ kind +:+ " with name '" +:+ targetName
                    +:+ "' already exists in namespace '" +:+ targetObj.(ObjectMeta.Namespace)
                    +:+ "'")).

(** [reflect.DeepEqual] on two decoded values: [SimpleCodec.enc] writes a value
    as a tree whose equality is decidable. *)
#[export] Instance value_eq_dec : EqDecision value.
Proof.
  refine (inj_eq_dec SimpleCodec.enc). intros v w Hvw.
  by rewrite <-(SimpleCodec.dec_enc v), Hvw, SimpleCodec.dec_enc.
Defined.

Fixpoint unsigned_zero (v : value) : value :=
  match v with
  | VNumber n => VNumber (if n =? 2 ^ 63 then 0 else n)%Z
  | VArray l => VArray (unsigned_zero <$> l)
  | VMap m => VMap (unsigned_zero <$> m)
  | _ => v
  end.

(** [gopkg.in/yaml.v2], which the controller uses to compare: what a document
    leaves in a nil [map[string]interface{}], errors ignored. *)
Class Yaml2 := {
  yaml2_map : Type;
  yaml2_eq_dec :: EqDecision yaml2_map;
  yaml2_unmarshal : string → yaml2_map;
}.

Section compare.
Context `{Yaml2}.

(** [_ = json.Unmarshal(text, &m)] into a nil map, and [reflect.DeepEqual], for
    which the two zeros of [float64] are equal. *)
Definition json_or_nil (s : string) : option (gmap string value) := (json_decode_object s).1.
Definition same_document (a b : option (gmap string value)) : bool :=
  bool_decide (fmap (M:=gmap string) unsigned_zero <$> a = fmap (M:=gmap string) unsigned_zero <$> b).

(** The texts in the format of [ty], compared after decoding. *)
Definition texts_differ (ty : DataType) (existing latest : string) : bool :=
  match ty with
  | Yaml => negb (bool_decide (yaml2_unmarshal existing = yaml2_unmarshal latest))
  | Json => negb (same_document (json_or_nil existing) (json_or_nil latest))
  | _ => false
  end.

Definition plain_type (dataOptions : option DataOptions.t) : bool :=
  match dataOptions with
  | None => true
  | Some o => bool_decide (o.(DataOptions.Type_) = Default)
              || bool_decide (o.(DataOptions.Type_) = Properties)
  end.

(** A missing key reads as the empty text. *)
Definition text_of (data : option (gmap string string)) (key : string) : string :=
  default EmptyString (default ∅ data !! key).

Definition shouldCreateOrUpdateConfigMap (existingConfigMap : ConfigMap.t)
    (latestConfigMapSettings : option (gmap string string))
    (dataOptions : option DataOptions.t) : bool :=
  match existingConfigMap.(ConfigMap.Data) with
  | None => true
  | Some data =>
    if plain_type dataOptions then negb (bool_decide (Some data = latestConfigMapSettings))
    else match dataOptions with
    | None => false
    | Some o =>
      match data !! o.(DataOptions.Key) with
      | None => true
      | Some existing =>
        texts_differ o.(DataOptions.Type_) existing
          (text_of latestConfigMapSettings o.(DataOptions.Key))
      end
    end
  end.

(** [target] is [processor.Provider.Spec.Secret.Target]; a name missing from a
    map reads as the zero Secret. *)
Definition shouldCreateOrUpdateSecret (target : SecretTarget.t)
    (SecretSettings : gmap string Secret.t) (secretName : string)
    (existingK8sSecrets : gmap string Secret.t) : bool :=
  match existingK8sSecrets !! secretName with
  | None => true
  | Some existing =>
    let latest := default Secret.zero (SecretSettings !! secretName) in
    let dataOptions := target.(SecretTarget.SecretData) in
    if negb (String.eqb secretName target.(SecretTarget.SecretName)) || plain_type dataOptions
    then negb (bool_decide (latest.(Secret.Data) = existing.(Secret.Data)))
    else match dataOptions with
    | None => false
    | Some o =>
      texts_differ o.(DataOptions.Type_)
        (text_of existing.(Secret.Data) o.(DataOptions.Key))
        (text_of latest.(Secret.Data) o.(DataOptions.Key))
    end
  end.
End compare.

(** ** Label filters: a grammar *)

(** A label in which every reserved character is escaped: a backslash hides the
    character after it, and may end the label. *)
Inductive escaped : string → Prop :=
  | escaped_nil : escaped EmptyString
  | escaped_last : escaped (String backslash EmptyString)
  | escaped_pair c s : escaped s → escaped (String backslash (String c s))
  | escaped_plain c s :
      c ≠ backslash → c ≠ star → c ≠ comma → escaped s → escaped (String c s).

Lemma get_drop i s : String.get i s = String.get 0 (str_drop i s).
Proof.
  revert i. induction s as [|c s IH]; intros [|i]; try done. apply IH.
Qed.

Lemma label_loop_escaped fuel label i :
  str_length label ≤ fuel + i →
  label_loop fuel label i = false ↔ escaped (str_drop i label).
Proof.
  revert i. induction fuel as [|fuel IH]; intros i Hf; cbn [label_loop].
  - assert (str_drop i label = EmptyString) as ->.
    { clear -Hf. revert i Hf. induction label as [|c s IH]; intros [|i] Hf; simpl in *;
        try done; [lia|]. apply IH. lia. }
    split; [constructor|done].
  - rewrite get_drop. destruct (str_drop i label) as [|c s] eqn:Hd; simpl.
    { split; [constructor|done]. }
    assert (∀ n, str_drop (i + n) label = str_drop n (String c s)) as Hn.
    { intros n. by rewrite <-Hd, str_drop_drop. }
    destruct (Ascii.eqb_spec c backslash) as [->|Hb].
    { rewrite IH, Hn by lia. destruct s as [|c' s]; simpl.
      - split; [intros _; apply escaped_last|intros _; apply escaped_nil].
      - split; [by constructor|]. inversion 1; by subst. }
    destruct (Ascii.eqb_spec c star) as [->|Hs]; [split; [done|]; inversion 1; by subst|].
    destruct (Ascii.eqb_spec c comma) as [->|Hc]; [split; [done|]; inversion 1; by subst|].
    simpl. rewrite IH, Hn by lia. simpl. destruct s; simpl;
      (split; [by constructor|by inversion 1; subst]).
Qed.

Lemma hasNonEscaped_grammar label :
  hasNonEscapedValueInLabel label = false ↔ escaped label.
Proof. unfold hasNonEscapedValueInLabel. rewrite label_loop_escaped by lia. by destruct label. Qed.

(** The scan of a label filter, which jumps over the character after a
    backslash and may jump past the end, accepts exactly the labels of the
    grammar: no wildcard and no separator outside an escape. *)
Theorem hasNonEscapedValueInLabel_grammar label :
  hasNonEscapedValueInLabel label = false ↔ escaped label.
Proof. apply hasNonEscaped_grammar. Qed.

(** ** The specifications accepted *)

Section valid.
Context `{Unicode} `{IPLiterals} `{UUIDParser} `{WorkloadEnv}.

Definition valid_options (o : DataOptions.t) : Prop :=
  (o.(DataOptions.Type_) = Default ↔ o.(DataOptions.Key) = EmptyString)
  ∧ (is_Some o.(DataOptions.Separator) →
     o.(DataOptions.Type_) = Json ∨ o.(DataOptions.Type_) = Yaml).

(** A selector by key or by snapshot; a snapshot has no other filter. *)
Definition valid_selector (s : Selector.t) : Prop :=
  (is_Some s.(Selector.KeyFilter) ↔ s.(Selector.SnapshotName) = None)
  ∧ (is_Some s.(Selector.SnapshotName) →
     s.(Selector.LabelFilter) = None ∧ s.(Selector.TagFilters) = None)
  ∧ ∀ label, s.(Selector.LabelFilter) = Some label → escaped label.

Definition valid_interval (minimum : Time.duration) (s : string) : Prop :=
  ∃ d, ParseDuration s = inr d ∧ (minimum ≤ d)%Z.

Definition valid_endpoint (endpoint : string) : Prop :=
  ∃ u, Parse (Strings.ToLower endpoint) = Ok u ∧ u.(URL.Host) ≠ EmptyString
    ∧ u.(URL.Scheme) = "https" ∧ Strings.Trim u.(URL.Path) "/" = EmptyString.

Definition valid_workload (wi : WorkloadIdentity.t) : Prop :=
  Strings.EqualFold WorkloadIdentityEnabled "true" = true
  ∧ (Strings.EqualFold WorkloadIdentityGlobalServiceAccountEnabled "false" = true →
     wi.(WorkloadIdentity.ManagedIdentityClientId) = None
     ∧ wi.(WorkloadIdentity.ManagedIdentityClientIdReference) = None)
  ∧ count wi.(WorkloadIdentity.ManagedIdentityClientId)
    + count wi.(WorkloadIdentity.ManagedIdentityClientIdReference)
    + count wi.(WorkloadIdentity.ServiceAccountName) = 1
  ∧ ∀ id, wi.(WorkloadIdentity.ManagedIdentityClientId) = Some id → uuid_valid id = true.

Definition valid_auth (auth : Auth.t) : Prop :=
  (∀ id, auth.(Auth.ManagedIdentityClientId) = Some id → uuid_valid id = true)
  ∧ (∀ wi, auth.(Auth.WorkloadIdentity) = Some wi → valid_workload wi)
  ∧ count auth.(Auth.ServicePrincipalReference) + count auth.(Auth.ManagedIdentityClientId)
    + count auth.(Auth.WorkloadIdentity) ≤ 1.

Definition valid_connection (spec : Spec.t) : Prop :=
  (is_Some spec.(Spec.Endpoint) ↔ spec.(Spec.ConnectionStringReference) = None)
  ∧ (is_Some spec.(Spec.ConnectionStringReference) → spec.(Spec.Auth) = None).

Definition on_some {A} (P : A → Prop) (o : option A) : Prop := ∀ x, o = Some x → P x.

Definition valid_featureFlag (spec : Spec.t) (ff : FeatureFlagOptions.t) : Prop :=
  (∃ o, spec.(Spec.Target).(Target.ConfigMapData) = Some o
        ∧ (o.(DataOptions.Type_) = Json ∨ o.(DataOptions.Type_) = Yaml))
  ∧ ff.(FeatureFlagOptions.Selectors) ≠ []
  ∧ Forall valid_selector ff.(FeatureFlagOptions.Selectors)
  ∧ on_some (λ r, valid_interval MinimalFeatureFlagRefreshInterval
                    r.(RefreshSettings.Interval)) ff.(FeatureFlagOptions.Refresh).

Definition valid_vault (v : VaultAuth.t) : Prop :=
  valid_endpoint v.(VaultAuth.Uri) ∧ ∃ auth, v.(VaultAuth.auth) = Some auth ∧ valid_auth auth.

Definition valid_secret (s : SecretReference.t) : Prop :=
  on_some (λ a, on_some valid_auth a.(KeyVaultAuth.auth)
                ∧ Forall valid_vault a.(KeyVaultAuth.KeyVaults)) s.(SecretReference.Auth)
  ∧ on_some (λ r, valid_interval MinimalSecretRefreshInterval r.(RefreshSettings.Interval))
      s.(SecretReference.Refresh)
  ∧ on_some valid_options s.(SecretReference.Target).(SecretTarget.SecretData).

Definition valid_refresh (r : KeyValueRefresh.t) : Prop :=
  on_some (λ ss, NoDup ss) r.(KeyValueRefresh.Monitoring)
  ∧ (r.(KeyValueRefresh.Interval) = EmptyString
     ∨ valid_interval MinimalSentinelBasedRefreshInterval r.(KeyValueRefresh.Interval)).

Definition valid_spec (spec : Spec.t) : Prop :=
  valid_connection spec
  ∧ on_some valid_options spec.(Spec.Target).(Target.ConfigMapData)
  ∧ Forall valid_selector spec.(Spec.Configuration).(KeyValueOptions.Selectors)
  ∧ on_some (valid_featureFlag spec) spec.(Spec.FeatureFlag)
  ∧ on_some valid_endpoint spec.(Spec.Endpoint)
  ∧ on_some valid_auth spec.(Spec.Auth)
  ∧ on_some valid_secret spec.(Spec.Secret)
  ∧ on_some valid_refresh spec.(Spec.Configuration).(KeyValueOptions.Refresh).

Lemma bind_unit_Ok (o k : result ()) : (_ ← o; k) = Ok () ↔ o = Ok () ∧ k = Ok ().
Proof. destruct o as [[]| |]; simpl; naive_solver. Qed.

Lemma optional_Ok {A} (f : A → result ()) P o :
  (∀ x, f x = Ok () ↔ P x) → optional f o = Ok () ↔ on_some P o.
Proof. intros Hf. unfold on_some. destruct o; simpl; [rewrite Hf|]; naive_solver. Qed.

Lemma each_Ok {A} (f : A → result ()) P l :
  (∀ x, f x = Ok () ↔ P x) → each f l = Ok () ↔ Forall P l.
Proof.
  intros Hf. induction l as [|x l IH]; simpl; [by split|].
  by rewrite bind_unit_Ok, Forall_cons, Hf, IH.
Qed.

Lemma in_field_Ok {A} field (o : result A) a : in_field field o = Ok a ↔ o = Ok a.
Proof. destruct o; simpl; naive_solver. Qed.

Lemma verifyDataOptions_Ok path o : verifyDataOptions path o = Ok () ↔ valid_options o.
Proof.
  unfold verifyDataOptions, valid_options. rewrite bind_unit_Ok. unfold err.
  destruct o as [ty key sep]. cbn.
  destruct (String.eqb_spec key EmptyString), ty, sep; cbn; naive_solver.
Qed.

Lemma verifySelectorObject_Ok s : verifySelectorObject s = Ok () ↔ valid_selector s.
Proof.
  unfold verifySelectorObject, valid_selector. rewrite bind_unit_Ok.
  destruct s as [k l tags n]. cbn.
  assert (∀ label, (if hasNonEscapedValueInLabel label
      then Err (Errorf "non-escaped reserved wildcard character '*' and multiple labels separator ',' are not supported in label filters")
      else Ok ()) = (Ok () : result ()) ↔ escaped label) as Hl.
  { intros label. rewrite <-hasNonEscaped_grammar.
    by destruct (hasNonEscapedValueInLabel label). }
  destruct l as [label|]; [rewrite Hl|]; destruct k, n, tags; naive_solver.
Qed.

Lemma verifyRefreshInterval_Ok m a s :
  verifyRefreshInterval m a s = Ok () ↔ valid_interval m s.
Proof.
  unfold verifyRefreshInterval, valid_interval, err. destruct (ParseDuration s) as [e|d].
  - naive_solver.
  - destruct (Z.ltb_spec d m); naive_solver lia.
Qed.

Lemma verifyEndpoint_Ok e : verifyEndpoint e = Ok () ↔ valid_endpoint e.
Proof.
  unfold verifyEndpoint, valid_endpoint, err. destruct (Parse _) as [u| |]; [|naive_solver..].
  destruct (String.eqb_spec (URL.Host u) EmptyString); [naive_solver|].
  destruct (String.eqb_spec (URL.Scheme u) "https"); cbn [negb]; [|naive_solver].
  destruct (String.eqb_spec (Strings.Trim (URL.Path u) "/") EmptyString); naive_solver.
Qed.

Lemma verifyWorkload_Ok wi : verifyWorkloadIdentityParameters wi = Ok () ↔ valid_workload wi.
Proof.
  unfold verifyWorkloadIdentityParameters, valid_workload, err. cbv zeta.
  destruct (Strings.EqualFold WorkloadIdentityEnabled "true"); cbn [negb]; [|naive_solver].
  rewrite !bind_unit_Ok. destruct wi as [id ref sa]. cbn.
  destruct (Strings.EqualFold WorkloadIdentityGlobalServiceAccountEnabled "false");
    destruct id as [id|], ref, sa; cbn; try (destruct (uuid_valid id) eqn:?);
    intuition (first [done|congruence|by eauto|by simplify_eq/=|naive_solver]).
Qed.

Lemma verifyAuthObject_Ok auth : verifyAuthObject auth = Ok () ↔ on_some valid_auth auth.
Proof.
  unfold on_some. destruct auth as [auth|]; [|naive_solver]. simpl.
  assert (∀ a, valid_auth a ↔ ∀ x, Some a = Some x → valid_auth x) as <- by naive_solver.
  unfold valid_auth, err.
  rewrite !bind_unit_Ok, (optional_Ok _ valid_workload _ verifyWorkload_Ok).
  unfold on_some. destruct auth as [id sp wi]. cbn.
  destruct (bool_decide_reflect (1 < count sp + count id + count wi));
    (destruct id as [id|]; [destruct (uuid_valid id) eqn:Hid|]); try naive_solver lia.
  split; [by intros [? _]|]. intros [Hu _]. by rewrite (Hu id eq_refl) in Hid.
Qed.

Lemma verify_connection_Ok spec : verify_connection spec = Ok () ↔ valid_connection spec.
Proof.
  unfold verify_connection, valid_connection, err.
  destruct (Spec.Endpoint spec), (Spec.ConnectionStringReference spec), (Spec.Auth spec);
    naive_solver.
Qed.

Lemma verify_featureFlag_Ok spec ff :
  verify_featureFlag spec ff = Ok () ↔ valid_featureFlag spec ff.
Proof.
  unfold verify_featureFlag, valid_featureFlag, err. rewrite !bind_unit_Ok.
  rewrite (each_Ok _ valid_selector)
    by (intros; rewrite in_field_Ok; apply verifySelectorObject_Ok).
  rewrite (optional_Ok _ (λ r, valid_interval MinimalFeatureFlagRefreshInterval
    r.(RefreshSettings.Interval))) by (intros; apply verifyRefreshInterval_Ok).
  set (S1 := Forall _ _). set (S2 := on_some _ _).
  assert (∀ P Q : Prop, (P ↔ Q) → ∀ b : bool, (b = false ↔ P) →
    (if b then Err (NewArgumentError "spec.target.configMapData" (Errorf "configMap data type must be json or yaml when FeatureFlag is set"))
     else Ok ()) = (Ok () : result ()) ↔ Q) as Hb.
  { intros P Q HPQ b Hb. rewrite <-HPQ, <-Hb. by destruct b. }
  rewrite (Hb _ _ (reflexivity (∃ o, Target.ConfigMapData (Spec.Target spec) = Some o
    ∧ (DataOptions.Type_ o = Json ∨ DataOptions.Type_ o = Yaml)))).
  2:{ destruct (Target.ConfigMapData (Spec.Target spec)) as [o|];
        [|by split; [|intros (? & ? & _)]].
      destruct (DataOptions.Type_ o) eqn:Ho; cbn; (split; [try done|]);
        [intros (o' & [= <-] & [?|?]); congruence..|by eauto|done|by eauto|done]. }
  by destruct (FeatureFlagOptions.Selectors ff); split; intros (? & ? & ? & ?).
Qed.

Lemma verify_vault_Ok v : verify_vault v = Ok () ↔ valid_vault v.
Proof.
  unfold verify_vault, valid_vault, err. rewrite bind_unit_Ok, verifyEndpoint_Ok.
  destruct (VaultAuth.auth v) as [a|]; [|naive_solver].
  rewrite verifyAuthObject_Ok. unfold on_some. naive_solver.
Qed.

Lemma verify_secret_Ok s : verify_secret s = Ok () ↔ valid_secret s.
Proof.
  unfold verify_secret, valid_secret. rewrite !bind_unit_Ok.
  rewrite (optional_Ok _ (λ a, on_some valid_auth a.(KeyVaultAuth.auth)
                ∧ Forall valid_vault a.(KeyVaultAuth.KeyVaults))).
  2:{ intros a. rewrite bind_unit_Ok, verifyAuthObject_Ok.
      by rewrite (each_Ok _ _ _ verify_vault_Ok). }
  rewrite (optional_Ok _ (λ r, valid_interval MinimalSecretRefreshInterval
    r.(RefreshSettings.Interval))) by (intros; apply verifyRefreshInterval_Ok).
  by rewrite (optional_Ok _ valid_options) by (intros; apply verifyDataOptions_Ok).
Qed.

Lemma duplicate_sentinels_Ok l seen :
  duplicate_sentinels l seen = Ok () ↔ NoDup l ∧ ∀ s, s ∈ l → s ∉ seen.
Proof.
  revert seen. induction l as [|s l IH]; intros seen; cbn [duplicate_sentinels].
  { split; [|done]. intros _. split; [constructor|]. intros s Hs.
    by apply not_elem_of_nil in Hs. }
  rewrite NoDup_cons. destruct (bool_decide_reflect (s ∈ seen)) as [Hs|Hs].
  - split; [done|]. intros [_ Hn]. by destruct (Hn s (list_elem_of_here _ _)).
  - rewrite IH. setoid_rewrite elem_of_cons. set_solver.
Qed.

Lemma verify_refresh_Ok r : verify_refresh r = Ok () ↔ valid_refresh r.
Proof.
  unfold verify_refresh, valid_refresh. rewrite bind_unit_Ok.
  rewrite (optional_Ok _ (λ ss, NoDup ss)).
  2:{ intros ss. rewrite duplicate_sentinels_Ok. set_solver. }
  destruct (String.eqb_spec (KeyValueRefresh.Interval r) EmptyString);
    [|rewrite verifyRefreshInterval_Ok]; naive_solver.
Qed.

Lemma verifyObject_Ok spec : verifyObject spec = Ok () ↔ valid_spec spec.
Proof.
  unfold verifyObject, valid_spec. rewrite !bind_unit_Ok, verify_connection_Ok.
  rewrite (optional_Ok _ valid_options) by (intros; apply verifyDataOptions_Ok).
  rewrite (each_Ok _ valid_selector)
    by (intros; rewrite in_field_Ok; apply verifySelectorObject_Ok).
  rewrite (optional_Ok _ _ _ (verify_featureFlag_Ok spec)).
  rewrite (optional_Ok _ _ _ verifyEndpoint_Ok), verifyAuthObject_Ok.
  by rewrite (optional_Ok _ _ _ verify_secret_Ok), (optional_Ok _ _ _ verify_refresh_Ok).
Qed.

(** *** Every refusal is an argument error *)

(** The check passes or fails with an argument error. *)
Definition argument_error (o : result ()) : Prop :=
  o = Ok () ∨ ∃ field cause, o = Err (ArgumentError field cause).

Lemma argument_error_bind o k :
  argument_error o → argument_error k → argument_error (_ ← o; k).
Proof. intros [->|(f & c & ->)] Hk; [done|]. right. by exists f, c. Qed.
Lemma argument_error_err f m : argument_error (err f m).
Proof. right. by eexists _, _. Qed.
Lemma argument_error_ok : argument_error (Ok ()).
Proof. by left. Qed.
Lemma argument_error_new f c : argument_error (Err (NewArgumentError f c)).
Proof. right. by eexists _, _. Qed.
Lemma argument_error_each {A} (f : A → result ()) l :
  (∀ x, argument_error (f x)) → argument_error (each f l).
Proof.
  intros Hf. induction l; [apply argument_error_ok|by apply argument_error_bind].
Qed.
Lemma argument_error_optional {A} (f : A → result ()) o :
  (∀ x, argument_error (f x)) → argument_error (optional f o).
Proof. intros Hf. destruct o; [apply Hf|apply argument_error_ok]. Qed.
Lemma argument_error_selector field s :
  argument_error (in_field field (verifySelectorObject s)).
Proof.
  unfold verifySelectorObject. destruct s as [[] [] [] []]; cbn;
    try case_match; cbn; first [apply argument_error_ok|apply argument_error_new].
Qed.

Hint Resolve argument_error_err argument_error_ok argument_error_new
  argument_error_selector : core.
Ltac argument_errors :=
  cbv zeta;
  repeat match goal with
  | |- argument_error (_ ≫= _) => apply argument_error_bind
  | |- argument_error (optional _ _) => apply argument_error_optional; intros
  | |- argument_error (each _ _) => apply argument_error_each; intros
  | |- argument_error (match _ with _ => _ end) => case_match
  | |- _ => progress (cbv beta; auto)
  end.

Lemma verifyObject_argument_error spec : argument_error (verifyObject spec).
Proof.
  assert (∀ p o, argument_error (verifyDataOptions p o)) as Ho
    by (intros; unfold verifyDataOptions; argument_errors).
  assert (∀ m a s, argument_error (verifyRefreshInterval m a s)) as Hi
    by (intros; unfold verifyRefreshInterval; argument_errors).
  assert (∀ e, argument_error (verifyEndpoint e)) as He
    by (intros e; unfold verifyEndpoint; pose proof (Parse_answers (Strings.ToLower e));
        argument_errors; done).
  assert (∀ wi, argument_error (verifyWorkloadIdentityParameters wi)) as Hw
    by (intros; unfold verifyWorkloadIdentityParameters; argument_errors).
  assert (∀ a, argument_error (verifyAuthObject a)) as Ha
    by (intros; unfold verifyAuthObject; argument_errors).
  assert (∀ l s, argument_error (duplicate_sentinels l s)) as Hd
    by (induction l; intros; cbn [duplicate_sentinels]; argument_errors).
  unfold verifyObject, verify_connection, verify_featureFlag, verify_secret, verify_vault,
    verify_refresh. argument_errors.
Qed.

(** C3: The nest of checks on a specification accepts exactly those that
    satisfy the declarative predicate [valid_spec], never panics, and refuses
    every other one with an argument error. *)
Theorem verifyObject_valid spec :
  (verifyObject spec = Ok () ↔ valid_spec spec)
  ∧ (¬ valid_spec spec → ∃ field cause, verifyObject spec = Err (ArgumentError field cause)).
Proof.
  split; [apply verifyObject_Ok|]. intros Hn.
  destruct (verifyObject_argument_error spec) as [Ho|Ho]; [|done].
  by apply verifyObject_Ok in Ho.
Qed.
End valid.

(** ** Credentials of a verified authentication *)

Section credentials.
Context `{Unicode} `{IPLiterals} `{UUIDParser} `{WorkloadEnv}.
Context `{SDK} `{!Identity} `{Cluster} `{TenantEnv}.
(** No constructor and no read of the cluster panics. *)
Hypothesis identity_total :
  (∀ i, NewManagedIdentityCredential i ≠ Panic) ∧ (∀ i, NewWorkloadIdentityCredential i ≠ Panic)
  ∧ (∀ t i s, NewClientSecretCredential t i s ≠ Panic)
  ∧ (∀ t i a, NewClientAssertionCredential t i a ≠ Panic).
Hypothesis cluster_total :
  GetConfig ≠ Panic ∧ (∀ cfg, NewKubeClient cfg ≠ Panic)
  ∧ (∀ c ns n, Get_ConfigMap c ns n ≠ Panic) ∧ (∀ c ns n, Get_Secret c ns n ≠ Panic)
  ∧ (∀ c ns n, Get_ServiceAccount c ns n ≠ Panic).

Lemma no_panic_bind {A B} (o : result A) (f : A → result B) :
  o ≠ Panic → (∀ a, f a ≠ Panic) → (o ≫= f) ≠ Panic.
Proof. intros Ho Hf. by destruct o; simpl. Qed.
Lemma no_panic_fmap {A B} (o : result A) (f : A → B) : o ≠ Panic → (f <$> o) ≠ Panic.
Proof. intros Ho. by destruct o. Qed.
Lemma no_panic_wrap {A} f (o : result A) : o ≠ Panic → wrap_error f o ≠ Panic.
Proof. intros Ho. by destruct o. Qed.

(** A read of the cluster: its configuration, a client, the object. *)
Lemma cluster_read {A} (f : kube_client → result A) :
  (∀ c, f c ≠ Panic) → (cfg ← GetConfig; c ← NewKubeClient cfg; f c) ≠ Panic.
Proof. intros Hf. by repeat (apply no_panic_bind; [apply cluster_total|intros]). Qed.

Lemma getWorkloadIdentityClientId_total wi ns :
  is_Some wi.(WorkloadIdentity.ManagedIdentityClientId)
  ∨ is_Some wi.(WorkloadIdentity.ManagedIdentityClientIdReference) →
  getWorkloadIdentityClientId wi ns ≠ Panic.
Proof.
  intros Hs. unfold getWorkloadIdentityClientId.
  destruct (WorkloadIdentity.ManagedIdentityClientIdReference wi) as [[n k]|].
  - apply no_panic_bind; [apply cluster_read; intros; apply cluster_total|].
    intros cm. by repeat case_match.
  - destruct Hs as [[id ->]|[? [=]]]. done.
Qed.

(** C35: An authentication that passed the verification never makes the
    creation of its credential panic: the field that is dereferenced is the
    one the verification required. *)
Theorem CreateTokenCredential_verified auth ns :
  verifyAuthObject auth = Ok () → CreateTokenCredential auth ns ≠ Panic.
Proof.
  destruct identity_total as (Hm & Hw & Hc & Ha).
  intros Hv%verifyAuthObject_Ok. unfold CreateTokenCredential.
  destruct auth as [auth|]; [|by apply no_panic_fmap].
  destruct (Hv auth eq_refl) as (_ & Hwi & _).
  destruct (Auth.WorkloadIdentity auth) as [wi|].
  - destruct (Hwi wi eq_refl) as (_ & _ & Hcount & _).
    destruct (WorkloadIdentity.ServiceAccountName wi) as [name|].
    + apply no_panic_fmap. unfold newClientAssertionCredential.
      apply cluster_read. intros c. apply no_panic_bind; [apply cluster_total|].
      intros an. case_match; [|done]. apply no_panic_bind; [by repeat case_match|intros; apply Ha].
    + apply no_panic_bind; [|intros; by apply no_panic_fmap].
      apply no_panic_wrap, getWorkloadIdentityClientId_total.
      destruct (WorkloadIdentity.ManagedIdentityClientId wi); [left; by eexists|right].
      destruct (WorkloadIdentity.ManagedIdentityClientIdReference wi); [by eexists|done].
  - destruct (Auth.ServicePrincipalReference auth) as [name|].
    + apply no_panic_bind; [|intros [[? ?] ?]; by apply no_panic_fmap].
      apply no_panic_wrap. unfold getServicePrincipleAuthenticationParameters.
      apply no_panic_bind; [apply cluster_read; intros; apply cluster_total|done].
    + destruct (Auth.ManagedIdentityClientId auth); [by apply no_panic_fmap|done].
Qed.
End credentials.

(** ** Objects of the cluster *)

(** The provider owns the object: by version, kind, name and UID. *)
Definition owned_by (provider : Provider.t) (m : ObjectMeta.t) : Prop :=
  OwnerReference.mk GroupVersion ProviderName provider.(Provider.Name) provider.(Provider.UID)
    ∈ m.(ObjectMeta.OwnerReferences).

Lemma verifyExisting_owned kind obj name provider :
  verifyExistingTargetObject kind obj name provider = Ok ()
  ↔ (obj.(ObjectMeta.Name) = name → owned_by provider obj).
Proof.
  unfold verifyExistingTargetObject, owned_by.
  destruct (String.eqb_spec (ObjectMeta.Name obj) name) as [Hn|Hn]; cbn [negb];
    [|split; [by intros _ ?|done]].
  match goal with |- context [existsb ?f ?l] => destruct (existsb f l) eqn:He end.
  - split; [|done]. intros _ _. apply existsb_true in He as ([v k n u] & Hin & Ho).
    cbn in Ho. rewrite !andb_true_iff, !String.eqb_eq in Ho.
    by destruct Ho as [[[-> ->] ->] ->].
  - split; [done|]. intros Hin. specialize (Hin Hn). rewrite existsb_false in He.
    specialize (He _ Hin). cbn in He. by rewrite !String.eqb_refl in He.
Qed.

(** An existing object is accepted exactly when it is not the one that
    would be written or when one of its owner references is the provider, by
    version, kind, name and UID together. *)
Theorem verifyExistingTargetObject_owned kind obj name provider :
  verifyExistingTargetObject kind obj name provider = Ok ()
  ↔ (obj.(ObjectMeta.Name) = name → owned_by provider obj).
Proof. apply verifyExisting_owned. Qed.

(** What was written is not written again: the comparison finds the data of a
    ConfigMap equal to the settings it was written from. *)
Lemma written_not_rewritten `{Yaml2} cm settings opts :
  (∀ o, opts = Some o → o.(DataOptions.Type_) = Json ∨ o.(DataOptions.Type_) = Yaml →
        is_Some (settings !! o.(DataOptions.Key))) →
  shouldCreateOrUpdateConfigMap (cm <| ConfigMap.Data := Some settings |>) (Some settings) opts
  = false.
Proof.
  intros Hk. unfold shouldCreateOrUpdateConfigMap. cbn.
  destruct opts as [o|]; cbn; [|by rewrite bool_decide_eq_true_2].
  specialize (Hk o eq_refl). unfold text_of, texts_differ. cbn.
  assert (∀ A (x : A) `{!EqDecision A}, negb (bool_decide (x = x)) = false) as Heq
    by (intros; by rewrite bool_decide_eq_true_2).
  destruct (DataOptions.Type_ o); repeat (rewrite bool_decide_eq_true_2 by done);
    repeat (rewrite bool_decide_eq_false_2 by done); cbn; try apply Heq;
    (destruct Hk as [v ->]; [by auto|apply Heq]).
Qed.

(** ** Witnesses *)

Module ValidationWitness.
#[export] Existing Instance ascii_only.
#[export] Existing Instance no_ip_literals.
#[export] Existing Instance AuthWitness.uuids.
Definition env : WorkloadEnv :=
  {| WorkloadIdentityEnabled := "True"; WorkloadIdentityGlobalServiceAccountEnabled := "" |}.
#[export] Existing Instance env.
#[export] Existing Instance ClientsWitness.sdk.
#[export] Existing Instance AuthWitness.identity.
#[export] Existing Instance AuthWitness.cluster.
#[export] Existing Instance AuthWitness.no_tenant.

Definition workload : option Auth.t :=
  Some (Auth.mk None None (Some (WorkloadIdentity.mk None (Some ("ids", "client")) None))).
End ValidationWitness.
Import ValidationWitness.

Example provider_accepted : verifyObject ProcessorWitness.provider.(Provider.Spec) = Ok ().
Proof. vm_compute. reflexivity. Qed.

Lemma CreateTokenCredential_verified_witness :
  verifyAuthObject workload = Ok () ∧ CreateTokenCredential workload "ns" ≠ Panic.
Proof.
  split; [vm_compute; reflexivity|].
  apply CreateTokenCredential_verified; [by split_and!| |vm_compute; reflexivity].
  split_and!; [done..| |done]. intros c ns n. cbn. by case_match.
Defined.
