(* ===== verification/Reconciler.v ===== *)
(** The reconciler:
    [internal/controller/appconfigurationprovider_controller.go].

    [Reconcile] handles one request: it reads the provider and the objects it
    made, runs the processor, writes the ConfigMap and the Secrets, deletes the
    Secrets no longer selected, and patches the status.

    The cluster is an oracle: what each call of the API answers is an arbitrary
    function of the calls made so far, so nothing is assumed of the other
    writers of the cluster.  The calls and their answers are a log, and the
    theorems are about the logs a reconciliation can produce.

    The main theorems: an object is written or deleted only after a read in the
    same reconciliation found that it does not exist or is owned by the
    provider; a provider whose specification is refused is not loaded and not
    requeued; a provider that is running is left alone.  What the final phase of
    a reconciliation says is in [Completion.v]. *)

From S2P Require Import Prelude GoStrings Errors Api Json Filters Tree Codec Data Url ConnString.
From S2P Require Import Clients Auth Processor Validation.

Definition NamespacedName : Type := string * string.

Definition LastReconcileTimeAnnotation : string := "azconfig.io/LastReconcileTime".
Definition RequeueReconcileAfter : Time.duration := (30 * Time.Second)%Z.
Definition RetryAttempt : nat := 3.

(** ** The cluster *)

(** A call of the API with its answer.  A write carries the object as it is
    built; [ctrl.CreateOrUpdate] is one call. *)
Inductive event : Type :=
  | GotProvider (n : NamespacedName) (o : result Provider.t)
  | GotConfigMap (namespace name : string) (o : result ConfigMap.t)
  | GotSecret (namespace name : string) (o : result Secret.t)
  | WroteConfigMap (obj : ConfigMap.t) (o : result ConfigMap.t)
  | WroteSecret (obj : Secret.t) (o : result Secret.t)
  | DeletedSecret (namespace name : string) (o : result ())
  | PatchedStatus (status : Status.t) (o : result ()).

(** The answers, given the calls made before; the clock moves with the log. *)
Class Kube := {
  get_provider : list event → NamespacedName → result Provider.t;
  get_configmap : list event → string → string → result ConfigMap.t;
  get_secret : list event → string → string → result Secret.t;
  write_configmap : list event → ConfigMap.t → result ConfigMap.t;
  write_secret : list event → Secret.t → result Secret.t;
  delete_secret : list event → string → string → result ();
  patch_status : list event → Status.t → result ();
  Now : list event → Time.time;
  utc_string : Time.time → string;
  (** [controllerutil.SetControllerReference] on the metadata of an object *)
  SetControllerReference : Provider.t → ObjectMeta.t → result ObjectMeta.t;
}.

(** It adds an owner reference and leaves the name and the namespace. *)
Class KubeOk `{Kube} : Prop := SetControllerReference_name p m m' :
  SetControllerReference p m = Ok m' →
  m'.(ObjectMeta.Name) = m.(ObjectMeta.Name)
  ∧ m'.(ObjectMeta.Namespace) = m.(ObjectMeta.Namespace).

(** The loader of a provider: [NewConfigurationClientManager],
    [NewConfigurationSettingLoader], and the manager inside a loader, which the
    reconciliation state shares. *)
Class LoaderOf (M L : Type) := {
  new_manager : Provider.t → result M;
  new_loader : Provider.t → M → L;
  manager_of : L → M;
  retriever :: Retriever L;
}.

Module World.
Record t {M : Type} := mk {
  log : list event;
  ProvidersReconcileState : gmap NamespacedName (ReconciliationState.t M);
  provider : Provider.t;
}.
Arguments t M : clear implicits.
#[global] Instance eta_world {M} : Eta (t M) := λ w,
  mk M (log w) (ProvidersReconcileState w) (provider w).
End World.

Definition name_of (p : Provider.t) : NamespacedName :=
  (p.(Provider.Namespace), p.(Provider.Name)).

(** [retryAfter, err := strconv.Atoi(...)] *)
Definition retry_after (err : error) : option Z :=
  match as_ResponseError err with
  | Some (code, header) => if (code =? 429)%Z then Strconv.Atoi header else None
  | None => None
  end.

Section reconciler.
Context `{Unicode} `{IPLiterals} `{UUIDParser} `{WorkloadEnv}
  `{Yaml2} `{MapOrder} `{Kube} {M L : Type} `{!LoaderOf M L}.
Notation world := (World.t M).
(** A step of [Reconcile]; an error is an early return with a nil error. *)
Notation step A := (goM world Result.t A).

(** A call of the API. *)
Definition call {A} (ev : result A → event) (ask : list event → result A)
    : step (result A) := λ w,
  let o := ask w.(World.log) in
  (match o with Panic => Panic | _ => Ok o end, w <| World.log := w.(World.log) ++ [ev o] |>).

Definition provider_ : step Provider.t := λ w, (Ok w.(World.provider), w).
Definition set_status (s : Status.t) : step () :=
  modify (λ w, w <| World.provider := w.(World.provider) <| Provider.Status := s |> |>).
Definition get_state (n : NamespacedName) : step (option (ReconciliationState.t M)) :=
  λ w, (Ok (w.(World.ProvidersReconcileState) !! n), w).
Definition put_state (n : NamespacedName) (s : ReconciliationState.t M) : step () :=
  modify (λ w, w <| World.ProvidersReconcileState :=
                     <[n := s]> w.(World.ProvidersReconcileState) |>).
Definition now : step Time.time := λ w, (Ok (Now w.(World.log)), w).

(** A state that is there since the start of the reconciliation. *)
Definition the_state (n : NamespacedName) : step (ReconciliationState.t M) := λ w,
  (match w.(World.ProvidersReconcileState) !! n with Some s => Ok s | None => Panic end, w).

Definition newProviderStatus (phase : SyncPhase) (message : string) (syncTime : Time.time)
    (refreshStatus : RefreshStatus.t) : step Status.t :=
  t ← now;
  mret (Status.mk t syncTime phase message refreshStatus).

(** Whether the failure leaves a target that was made before. *)
Definition show_as_warning (provider : Provider.t) (state : option (ReconciliationState.t M))
    (err : error) : bool :=
  if is_ArgumentError err then false
  else match state with
  | Some s =>
    bool_decide (is_Some s.(ReconciliationState.ConfigMapResourceVersion))
    && (match provider.(Provider.Spec).(Spec.Secret) with None => true | Some _ => false end
        || bool_decide (size s.(ReconciliationState.ExistingK8sSecrets) = 0))
  | None => false
  end.

Definition logAndSetFailStatus (err : error) : step () :=
  provider ← provider_;
  state ← get_state (name_of provider);
  let status := provider.(Provider.Status) in
  s ← (if show_as_warning provider state err
       then newProviderStatus PhaseUpdateFailed UpdateFailMessage
              status.(Status.LastSyncTime) status.(Status.RefreshStatus)
       else newProviderStatus PhaseFailed CreateFailMessage
              status.(Status.LastSyncTime) status.(Status.RefreshStatus));
  set_status s.

Definition requeue_later : Result.t := Result.mk true RequeueReconcileAfter.

(** [reconciler.logAndSetFailStatus(provider, err); return ... requeue] *)
Definition fail {A} (err : error) : step A :=
  _ ← logAndSetFailStatus err; throw requeue_later.

(** [errors.Is(err, &loader.ArgumentError{})] compares the address of a new
    value, so it is false. *)
Definition errors_Is_ArgumentError (err : error) : bool := false.

(** The log of a parsed [Retry-After] dereferences the endpoint. *)
Definition requeueWhenGetSettingsFailed {A} (err : error) : step A :=
  _ ← logAndSetFailStatus err;
  if errors_Is_ArgumentError err then throw Result.zero else
  match retry_after err with
  | Some retryAfter =>
    provider ← provider_;
    _ ← lift (deref provider.(Provider.Spec).(Spec.Endpoint));
    throw (Result.mk true (wrap64 (retryAfter * Time.Second)))
  | None => throw requeue_later
  end.

(** ** Existing objects *)

(** [verifyTargetObjectExistence] for a ConfigMap and for a Secret: whether
    the object exists, and the object; the zero one when it does not.  A
    typed client leaves the kind of an object empty. *)
Definition found {A} (meta : A → ObjectMeta.t) (zero : A) (targetName : string)
    (provider : Provider.t) (o : result A) : result (bool * A) :=
  match o with
  | Ok obj =>
    _ ← verifyExistingTargetObject EmptyString (meta obj) targetName provider;
    Ok (true, obj)
  | Err err => if IsNotFound err then Ok (false, zero) else Err err
  | Panic => Panic
  end.

Definition verify_configmap (provider : Provider.t) : step (result (bool * ConfigMap.t)) :=
  let ns := provider.(Provider.Namespace) in
  let name := provider.(Provider.Spec).(Spec.Target).(Target.ConfigMapName) in
  o ← call (GotConfigMap ns name) (λ log, get_configmap log ns name);
  mret (found ConfigMap.Meta ConfigMap.zero name provider o).

Definition verify_secret_object (provider : Provider.t) (name : string)
    : step (result (bool * Secret.t)) :=
  let ns := provider.(Provider.Namespace) in
  o ← call (GotSecret ns name) (λ log, get_secret log ns name);
  mret (found Secret.Meta Secret.zero name provider o).

(** [collectExistingSecret]; its callers return on an error. *)
Definition collectExistingSecret (provider : Provider.t) (name : string)
    (existingSecrets : gmap string Secret.t) : step (gmap string Secret.t) :=
  o ← verify_secret_object provider name;
  match o with
  | Ok (true, existingSecret) => mret (<[name := existingSecret]> existingSecrets)
  | Ok (false, _) => mret existingSecrets
  | Err err => fail err
  | Panic => lift Panic
  end.

(** The loops over names that collect the Secrets not collected yet. *)
Fixpoint collect_secrets (provider : Provider.t) (names : list string)
    (existingSecrets : gmap string Secret.t) : step (gmap string Secret.t) :=
  match names with
  | [] => mret existingSecrets
  | name :: names' =>
    match existingSecrets !! name with
    | Some _ => collect_secrets provider names' existingSecrets
    | None =>
      existingSecrets' ← collectExistingSecret provider name existingSecrets;
      collect_secrets provider names' existingSecrets'
    end
  end.

(** ** Writes *)

Definition annotations_at (provider : Provider.t) (t : Time.time) : gmap string string :=
  <[LastReconcileTimeAnnotation := utc_string t]> provider.(Provider.Annotations).

(** The metadata of a target object, owned, with the labels and annotations of
    the provider; [None] after the failure is recorded. *)
Definition target_meta (provider : Provider.t) (name : string) : step ObjectMeta.t :=
  match SetControllerReference provider
          (ObjectMeta.mk name provider.(Provider.Namespace) EmptyString ∅ ∅ []) with
  | Err err => fail err
  | Panic => lift Panic
  | Ok meta =>
    t ← now;
    mret (meta <| ObjectMeta.Labels := provider.(Provider.Labels) |>
               <| ObjectMeta.Annotations := annotations_at provider t |>)
  end.

Definition set_configmap_version (n : NamespacedName) (rv : string) : step () :=
  state ← the_state n;
  put_state n (state <| ReconciliationState.ConfigMapResourceVersion := Some rv |>).

Definition createOrUpdateConfigMap (existingConfigMap : ConfigMap.t) (provider : Provider.t)
    (settings : TargetKeyValueSettings.t) : step () :=
  let target := provider.(Provider.Spec).(Spec.Target) in
  if negb (shouldCreateOrUpdateConfigMap existingConfigMap
             settings.(TargetKeyValueSettings.ConfigMapSettings) target.(Target.ConfigMapData))
  then set_configmap_version (name_of provider)
         existingConfigMap.(ConfigMap.Meta).(ObjectMeta.ResourceVersion)
  else
    meta ← target_meta provider target.(Target.ConfigMapName);
    let obj := ConfigMap.mk meta settings.(TargetKeyValueSettings.ConfigMapSettings) in
    o ← call (WroteConfigMap obj) (λ log, write_configmap log obj);
    match o with
    | Err err => fail err
    | Panic => lift Panic
    | Ok written =>
      set_configmap_version (name_of provider)
        written.(ConfigMap.Meta).(ObjectMeta.ResourceVersion)
    end.

(** [processor.Settings.K8sSecrets[name].SecretResourceVersion = rv], on the
    map of the state too when it is the same one. *)
Definition set_secret_version (n : NamespacedName) (shared : bool) (name rv : string)
    (k8s : gmap string TargetK8sSecretMetadata.t)
    : step (gmap string TargetK8sSecretMetadata.t) :=
  md ← lift (deref (k8s !! name));
  let k8s' := <[name := md <| TargetK8sSecretMetadata.SecretResourceVersion := rv |>]> k8s in
  if shared then
    state ← the_state n;
    _ ← put_state n (state <| ReconciliationState.ExistingK8sSecrets := k8s' |>);
    mret k8s'
  else mret k8s'.

Definition should_write_secret (provider : Provider.t) (settings : gmap string Secret.t)
    (name : string) (existingSecrets : gmap string Secret.t) : outcome Result.t bool :=
  match existingSecrets !! name with
  | None => Ok true
  | Some _ =>
    secret ← deref provider.(Provider.Spec).(Spec.Secret);
    Ok (shouldCreateOrUpdateSecret secret.(SecretReference.Target) settings name
          existingSecrets)
  end.

(** The loop over the Secrets of the settings; the metadata are threaded. *)
Fixpoint secrets_loop (provider : Provider.t) (shared : bool) (settings : gmap string Secret.t)
    (existingSecrets : gmap string Secret.t) (entries : list (string * Secret.t))
    (k8s : gmap string TargetK8sSecretMetadata.t)
    : step (gmap string TargetK8sSecretMetadata.t) :=
  match entries with
  | [] => mret k8s
  | (secretName, secret) :: entries' =>
    write ← lift (should_write_secret provider settings secretName existingSecrets);
    rv ← (if negb write then
            mret (default Secret.zero (existingSecrets !! secretName))
                   .(Secret.Meta).(ObjectMeta.ResourceVersion)
          else
            meta ← target_meta provider secretName;
            let obj := Secret.mk meta secret.(Secret.Type_) secret.(Secret.Data) in
            o ← call (WroteSecret obj) (λ log, write_secret log obj);
            match o with
            | Err err => fail err
            | Panic => lift Panic
            | Ok written => mret written.(Secret.Meta).(ObjectMeta.ResourceVersion)
            end);
    k8s' ← set_secret_version (name_of provider) shared secretName rv k8s;
    secrets_loop provider shared settings existingSecrets entries' k8s'
  end.

Definition createOrUpdateSecrets (provider : Provider.t) (p : Processor.t M L)
    (existingSecrets : gmap string Secret.t)
    : step (gmap string TargetK8sSecretMetadata.t) :=
  let settings := p.(Processor.Settings).(TargetKeyValueSettings.SecretSettings) in
  secrets_loop provider p.(Processor.SharedSecrets) settings existingSecrets
    (range_map settings) p.(Processor.Settings).(TargetKeyValueSettings.K8sSecrets).

Fixpoint expel_loop (provider : Provider.t) (names : list string)
    (secretReferences : gmap string TargetK8sSecretMetadata.t) : step () :=
  match names with
  | [] => mret ()
  | name :: names' =>
    match secretReferences !! name with
    | Some _ => expel_loop provider names' secretReferences
    | None =>
      let ns := provider.(Provider.Namespace) in
      o ← call (DeletedSecret ns name) (λ log, delete_secret log ns name);
      match o with
      | Err err => fail err
      | Panic => lift Panic
      | Ok _ => expel_loop provider names' secretReferences
      end
    end
  end.

Definition expelRemovedSecrets (provider : Provider.t) (existingSecrets : gmap string Secret.t)
    (secretReferences : gmap string TargetK8sSecretMetadata.t) : step () :=
  expel_loop provider (range_map existingSecrets).*1 secretReferences.

(** ** The reconciliation *)

Definition initial_state : ReconciliationState.t M :=
  ReconciliationState.mk M (-1) None ∅ ∅ (Some ∅) (Some ∅) ∅ Time.zero Time.zero Time.zero None.

(** The phase of the status at the start; a running provider is left alone. *)
Definition start : step () :=
  provider ← provider_;
  let status := provider.(Provider.Status) in
  _ ← (if decide (status.(Status.Phase) = NoPhase)
       then set_status (Status.mk status.(Status.LastReconcileTime) status.(Status.LastSyncTime)
              PhasePending status.(Status.Message) status.(Status.RefreshStatus))
       else mret ());
  if decide (status.(Status.Phase) = PhaseRunning) then throw Result.zero else
  s ← newProviderStatus PhaseRunning SyncRunningMessage status.(Status.LastSyncTime)
        status.(Status.RefreshStatus);
  set_status s.

Definition check_spec : step () :=
  provider ← provider_;
  match verifyObject provider.(Provider.Spec) with
  | Ok _ => mret ()
  | Err err => _ ← logAndSetFailStatus err; throw Result.zero
  | Panic => lift Panic
  end.

Definition existing_configmap : step ConfigMap.t :=
  provider ← provider_;
  o ← verify_configmap provider;
  match o with
  | Ok (_, existingConfigMap) => mret existingConfigMap
  | Err err => fail err
  | Panic => lift Panic
  end.

Definition ensure_state (n : NamespacedName) : step () :=
  state ← get_state n;
  match state with Some _ => mret () | None => put_state n initial_state end.

(** The target Secret and those recorded, when they exist. *)
Definition existing_secrets (n : NamespacedName) : step (gmap string Secret.t) :=
  provider ← provider_;
  match provider.(Provider.Spec).(Spec.Secret) with
  | None => mret ∅
  | Some secret =>
    state ← the_state n;
    collect_secrets provider
      (secret.(SecretReference.Target).(SecretTarget.SecretName)
       :: (range_map state.(ReconciliationState.ExistingK8sSecrets)).*1) ∅
  end.

(** The recorded version of an object that no longer exists is forgotten. *)
Definition forget_versions (n : NamespacedName) (existingConfigMap : ConfigMap.t)
    (existingSecrets : gmap string Secret.t) : step () :=
  provider ← provider_;
  state ← the_state n;
  let state :=
    if String.eqb existingConfigMap.(ConfigMap.Meta).(ObjectMeta.Name) EmptyString
    then state <| ReconciliationState.ConfigMapResourceVersion := None |> else state in
  put_state n (state <| ReconciliationState.ExistingK8sSecrets :=
    match provider.(Provider.Spec).(Spec.Secret) with
    | None => ∅
    | Some _ =>
      map_imap (λ name md,
        Some (if decide (is_Some (existingSecrets !! name)) then md
              else md <| TargetK8sSecretMetadata.SecretResourceVersion := EmptyString |>))
        state.(ReconciliationState.ExistingK8sSecrets)
    end |>).

(** The client manager of the state, built when there is none or the provider
    changed. *)
Definition client_manager (n : NamespacedName) : step M :=
  provider ← provider_;
  state ← the_state n;
  let fresh :=
    match new_manager provider with
    | Err err => fail err
    | Panic => lift Panic
    | Ok m =>
      _ ← put_state n (state <| ReconciliationState.ClientManager := Some m |>); mret m
    end in
  match state.(ReconciliationState.ClientManager) with
  | None => fresh
  | Some m =>
    if (state.(ReconciliationState.Generation) =? provider.(Provider.Generation))%Z
    then mret m else fresh
  end.

(** The processor of a reconciliation, with nothing loaded yet. *)
Definition new_processor (provider : Provider.t) (m : M) (state : ReconciliationState.t M)
    (t : Time.time) : Processor.t M L :=
  Processor.mk M L (new_loader provider m) provider TargetKeyValueSettings.empty false false
    state t NewRefreshOptions.

(** The processor runs on the state; the manager in it is the loader's. *)
Definition populate (n : NamespacedName) (m : M) (existingConfigMap : ConfigMap.t)
    (existingSecrets : gmap string Secret.t) : step (Processor.t M L) :=
  provider ← provider_;
  state ← the_state n;
  t ← now;
  let '(o, p) := PopulateSettings existingConfigMap existingSecrets
    (new_processor provider m state t) in
  _ ← put_state n (p.(Processor.State)
        <| ReconciliationState.ClientManager := Some (manager_of p.(Processor.Retriever)) |>);
  match o with
  | Ok _ => mret p
  | Err err => requeueWhenGetSettingsFailed err
  | Panic => lift Panic
  end.

(** The writes, in order; the metadata of the Secrets after them. *)
Definition write_targets (p : Processor.t M L) (existingConfigMap : ConfigMap.t)
    (existingSecrets : gmap string Secret.t)
    : step (gmap string TargetK8sSecretMetadata.t) :=
  provider ← provider_;
  let options := p.(Processor.RefreshOptions) in
  let settings := p.(Processor.Settings) in
  _ ← (if options.(RefreshOptions.ConfigMapSettingPopulated)
       then createOrUpdateConfigMap existingConfigMap provider settings else mret ());
  '(existingSecrets, k8s) ←
    (if options.(RefreshOptions.SecretSettingPopulated) then
       existingSecrets ← collect_secrets provider
         (range_map settings.(TargetKeyValueSettings.SecretSettings)).*1 existingSecrets;
       k8s ← createOrUpdateSecrets provider p existingSecrets;
       mret (existingSecrets, k8s)
     else mret (existingSecrets, settings.(TargetKeyValueSettings.K8sSecrets)));
  _ ← (match provider.(Provider.Spec).(Spec.Secret), options.(RefreshOptions.SecretSettingPopulated) with
       | None, _ | _, true => expelRemovedSecrets provider existingSecrets k8s
       | _, _ => mret ()
       end);
  mret k8s.

Definition finish (n : NamespacedName) (p : Processor.t M L)
    (k8s : gmap string TargetK8sSecretMetadata.t) : step Result.t :=
  provider ← provider_;
  t ← now;
  s ← newProviderStatus PhaseComplete SyncCompleteMessage t
        provider.(Provider.Status).(Status.RefreshStatus);
  _ ← set_status s;
  provider ← provider_;
  state ← the_state n;
  t ← now;
  let '(r, p) := Finish t
    (p <| Processor.Provider := provider |> <| Processor.State := state |>
       <| Processor.Settings := p.(Processor.Settings)
            <| TargetKeyValueSettings.K8sSecrets := k8s |> |>) in
  _ ← put_state n p.(Processor.State);
  _ ← set_status p.(Processor.Provider).(Provider.Status);
  mret r.

(** [Reconcile] once the provider is read, the deferred patch apart. *)
Definition reconcile_body (n : NamespacedName) : step Result.t :=
  _ ← start;
  _ ← check_spec;
  existingConfigMap ← existing_configmap;
  _ ← ensure_state n;
  existingSecrets ← existing_secrets n;
  _ ← forget_versions n existingConfigMap existingSecrets;
  m ← client_manager n;
  p ← populate n m existingConfigMap existingSecrets;
  k8s ← write_targets p existingConfigMap existingSecrets;
  finish n p k8s.

(** The deferred patch of the status, [retry] times at most. *)
Fixpoint patch_loop (retry : nat) (w : world) : world :=
  match retry with
  | O => w
  | S retry' =>
    let status := w.(World.provider).(Provider.Status) in
    let o := patch_status w.(World.log) status in
    let w' := w <| World.log := w.(World.log) ++ [PatchedStatus status o] |> in
    match o with Ok _ => w' | _ => patch_loop retry' w' end
  end.

(** A Go map, which [Reconcile] shares between requests, and the log. *)
Definition Reconcile (n : NamespacedName) (w : world) : result Result.t * world :=
  let o := get_provider w.(World.log) n in
  let w := w <| World.log := w.(World.log) ++ [GotProvider n o] |> in
  match o with
  | Err err =>
    if IsNotFound err
    then (Ok Result.zero,
          w <| World.ProvidersReconcileState := delete n w.(World.ProvidersReconcileState) |>)
    else (Err err, w)
  | Panic => (Panic, w)
  | Ok provider =>
    let '(o, w) := reconcile_body n (w <| World.provider := provider |>) in
    let w := patch_loop RetryAttempt w in
    match o with
    | Ok r | Err r => (Ok r, w)
    | Panic => (Panic, w)
    end
  end.
End reconciler.

(** ** Only objects that are free or owned are written *)

(** The provider without its status, which is all [Reconcile] changes of it. *)
Definition bare (p : Provider.t) : Provider.t :=
  p <| Provider.Status :=
    Status.mk Time.zero Time.zero NoPhase EmptyString
      (RefreshStatus.mk Time.zero Time.zero Time.zero) |>.

Section safety.
(** The provider as it was read. *)
Context (p0 : Provider.t).

Definition accepted (name : string) (m : ObjectMeta.t) : Prop :=
  m.(ObjectMeta.Name) = name → owned_by p0 m.

(** A read found that the name is free or taken by an object of the provider. *)
Definition checked_configmap (l : list event) (ns name : string) : Prop :=
  (∃ cm, GotConfigMap ns name (Ok cm) ∈ l ∧ accepted name cm.(ConfigMap.Meta))
  ∨ ∃ err, GotConfigMap ns name (Err err) ∈ l ∧ IsNotFound err = true.
Definition found_secret (l : list event) (ns name : string) : Prop :=
  ∃ s, GotSecret ns name (Ok s) ∈ l ∧ accepted name s.(Secret.Meta).
Definition checked_secret (l : list event) (ns name : string) : Prop :=
  found_secret l ns name ∨ ∃ err, GotSecret ns name (Err err) ∈ l ∧ IsNotFound err = true.

(** What must have been read before a call. *)
Definition safe_event (before : list event) (e : event) : Prop :=
  match e with
  | WroteConfigMap obj _ =>
    let m := obj.(ConfigMap.Meta) in
    checked_configmap before m.(ObjectMeta.Namespace) m.(ObjectMeta.Name)
  | WroteSecret obj _ =>
    let m := obj.(Secret.Meta) in
    checked_secret before m.(ObjectMeta.Namespace) m.(ObjectMeta.Name)
  | DeletedSecret ns name _ => found_secret before ns name
  | _ => True
  end.

Definition safe (l : list event) : Prop :=
  ∀ before e after, l = before ++ e :: after → safe_event before e.

Lemma safe_nil : safe [].
Proof. intros before e after Hl. by destruct before. Qed.

Lemma safe_snoc l e : safe l → safe_event l e → safe (l ++ [e]).
Proof.
  intros Hl He before e' after Heq.
  destruct after as [|e'' after _] using rev_ind.
  - apply app_inj_tail in Heq as [-> ->]. done.
  - rewrite app_comm_cons, app_assoc in Heq. apply app_inj_tail in Heq as [-> _].
    by eapply Hl.
Qed.
End safety.

Section safe.
Context `{Unicode} `{IPLiterals} `{UUIDParser} `{WorkloadEnv}
  `{Yaml2} `{MapOrder} `{KubeOk} {M L : Type} `{!LoaderOf M L}.
Notation world := (World.t M).
Notation step A := (goM world Result.t A).
(** The log and the provider at the start. *)
Context (l0 : list event) (p0 : Provider.t).
Let ns : string := p0.(Provider.Namespace).

(** A fact about the calls of this reconciliation that later calls keep. *)
Definition Stable (F : list event → Prop) : Prop := ∀ l e, F l → F (l ++ [e]).

(** The provider is the one read, the calls so far are safe, and [F] holds of
    them. *)
Definition holds (F : list event → Prop) (w : world) : Prop :=
  bare w.(World.provider) = bare p0 ∧ ∃ l, w.(World.log) = l0 ++ l ∧ safe p0 l ∧ F l.
Definition always : list event → Prop := λ _, True.

Definition safely {A} (F : list event → Prop) (m : step A) (Q : A → list event → Prop) : Prop :=
  triple (holds F) m (λ a, holds (Q a)) (λ _, holds always) (holds always).

(** A step without a call of the API. *)
Definition quiet {A} (m : step A) : Prop :=
  keeps (same (λ w : world, (w.(World.log), bare w.(World.provider)))) m.

Lemma holds_mono (F G : list event → Prop) w : (∀ l, F l → G l) → holds F w → holds G w.
Proof. intros HF (Hp & l & Hl & Hs & ?). split; [done|]. exists l. by auto. Qed.
Lemma holds_always F w : holds F w → holds always w.
Proof. by apply holds_mono. Qed.

Lemma quiet_safely {A} F (m : step A) : quiet m → safely F m (λ _, F).
Proof.
  intros Hq w (Hp & l & Hl & Hs & HF). specialize (Hq w).
  destruct (m w) as [o w']. apply pair_equal_spec in Hq as [Hlog Hb]. cbn in Hlog, Hb.
  assert (holds F w') as HF' by (split; [congruence|]; exists l; split; [congruence|done]).
  destruct o; [done|by eapply holds_always..].
Qed.

Lemma safely_bind {A B} F (m : step A) (f : A → step B) R Q :
  safely F m R → (∀ a, safely (R a) (f a) Q) → safely F (m ≫= f) Q.
Proof. intros Hm Hf. by eapply triple_bind. Qed.

Lemma safely_ret {A} (F : list event → Prop) (a : A) (Q : A → list event → Prop) :
  (∀ l, F l → Q a l) → safely F (mret a) Q.
Proof.
  intros HQ. apply triple_ret. intros w. by apply holds_mono.
Qed.

Lemma safely_weaken {A} (F F' : list event → Prop) (m : step A)
    (Q Q' : A → list event → Prop) :
  safely F' m Q' → (∀ l, F l → F' l) → (∀ a l, Q' a l → Q a l) → safely F m Q.
Proof.
  intros Hm HF HQ. eapply triple_conseq; [exact Hm| | |done|done]; cbv beta.
  - intros w. by apply holds_mono.
  - intros a w. apply holds_mono. auto.
Qed.

Lemma quiet_then {A} F (m : step A) (Q : A → list event → Prop) :
  quiet m → (∀ a l, F l → Q a l) → safely F m Q.
Proof. intros Hq HQ. eapply safely_weaken; [by apply (quiet_safely F)|done|]. apply HQ. Qed.

Lemma safely_stop {A} F (m : step A) (Q : A → list event → Prop) :
  quiet m → (∀ w, (m w).1 = Panic ∨ ∃ r, (m w).1 = Err r) → safely F m Q.
Proof.
  intros Hq Hs w HF. pose proof (quiet_safely F m Hq w HF) as Ht. specialize (Hs w).
  destruct (m w) as [[a|e|] w']; [|done|done]. by destruct Hs as [|[? ?]].
Qed.

(** A call: it must be safe, and its answer is known afterwards. *)
Lemma call_safely {A} F (ev : result A → event) (ask : list event → result A)
:
  Stable F → (∀ l o, F l → safe_event p0 l (ev o)) →
  safely F (call ev ask) (λ o l, F l ∧ ev o ∈ l).
Proof.
  intros HS He w (Hp & l & Hl & Hs & HF). unfold call. set (o := ask _).
  assert (holds (λ l, F l ∧ ev o ∈ l) (w <| World.log := w.(World.log) ++ [ev o] |>)) as Hh.
  { split; [done|]. exists (l ++ [ev o]). split; [|split; [|split]].
    - cbn. by rewrite Hl, app_assoc.
    - apply safe_snoc; [done|]. by apply He.
    - by apply HS.
    - apply elem_of_app. right. by left. }
  clearbody o. destruct o; [done|done|by eapply holds_always].
Qed.

Lemma stable_always : Stable always.
Proof. by intros l e _. Qed.
Lemma stable_and F G : Stable F → Stable G → Stable (λ l, F l ∧ G l).
Proof. intros HF HG l e [? ?]. split; [by apply HF|by apply HG]. Qed.
Lemma stable_all {A} (F : A → list event → Prop) :
  (∀ a, Stable (F a)) → Stable (λ l, ∀ a, F a l).
Proof. intros HF l e Ha a. by apply HF. Qed.
Lemma stable_imp (P : Prop) F : (P → Stable F) → Stable (λ l, P → F l).
Proof. intros HF l e Hp Hx. apply HF; auto. Qed.
Lemma stable_checked_configmap n name : Stable (λ l, checked_configmap p0 l n name).
Proof.
  intros l e. unfold checked_configmap. repeat setoid_rewrite elem_of_app. naive_solver.
Qed.
Lemma stable_found_secret n name : Stable (λ l, found_secret p0 l n name).
Proof. intros l e. unfold found_secret. setoid_rewrite elem_of_app. naive_solver. Qed.
Lemma stable_checked_secret n name : Stable (λ l, checked_secret p0 l n name).
Proof.
  intros l e. unfold checked_secret. intros [Hf|(err & Hin & He)].
  - left. by apply stable_found_secret.
  - right. exists err. split; [|done]. apply elem_of_app. by left.
Qed.
Hint Resolve stable_always stable_and stable_all stable_imp stable_checked_configmap
  stable_found_secret stable_checked_secret : core.

(** *** The steps without calls *)

Ltac quiet_all :=
  repeat first [ keeps_step | progress cbv zeta beta
               | progress unfold fail, set_status, put_state, newProviderStatus ];
  try reflexivity.

Lemma quiet_provider : quiet provider_.
Proof. by intros w. Qed.
Lemma quiet_state n : quiet (get_state n).
Proof. by intros w. Qed.
Lemma quiet_the_state n : quiet (the_state n).
Proof. by intros w. Qed.
Lemma quiet_now : quiet now.
Proof. by intros w. Qed.
Hint Resolve quiet_provider quiet_state quiet_the_state quiet_now : core.

Ltac quiet_steps :=
  unfold quiet; quiet_all;
  first [ apply quiet_provider | apply quiet_state | apply quiet_the_state
        | apply quiet_now | idtac ].

Lemma quiet_log err : quiet (logAndSetFailStatus err).
Proof. unfold logAndSetFailStatus. quiet_steps. Qed.
Lemma quiet_fail {A} err : quiet (A:=A) (fail err).
Proof. unfold fail. quiet_steps. apply quiet_log. Qed.
Lemma quiet_requeue {A} err : quiet (A:=A) (requeueWhenGetSettingsFailed err).
Proof. unfold requeueWhenGetSettingsFailed. quiet_steps; apply quiet_log. Qed.
Lemma quiet_set_configmap_version n rv : quiet (set_configmap_version n rv).
Proof. unfold set_configmap_version. quiet_steps. Qed.
Lemma quiet_set_secret_version n b name rv k8s : quiet (set_secret_version n b name rv k8s).
Proof. unfold set_secret_version. quiet_steps. Qed.
Lemma quiet_target_meta provider name : quiet (target_meta provider name).
Proof. unfold target_meta. quiet_steps. apply quiet_log. Qed.
Lemma quiet_start : quiet start.
Proof. unfold start. quiet_steps. Qed.
Lemma quiet_check_spec : quiet check_spec.
Proof. unfold check_spec. quiet_steps. apply quiet_log. Qed.
Lemma quiet_ensure_state n : quiet (ensure_state n).
Proof. unfold ensure_state. quiet_steps. Qed.
Lemma quiet_forget n cm ss : quiet (forget_versions n cm ss).
Proof. unfold forget_versions. quiet_steps. Qed.
Lemma quiet_client_manager n : quiet (client_manager n).
Proof. unfold client_manager. quiet_steps; apply quiet_log. Qed.

(** A failure is recorded without a phase or a call more. *)
Lemma log_runs err (w : world) :
  ∃ t ph msg, logAndSetFailStatus err w
    = (Ok (), w <| World.provider := w.(World.provider) <| Provider.Status :=
                    let s := w.(World.provider).(Provider.Status) in
                    Status.mk t s.(Status.LastSyncTime) ph msg s.(Status.RefreshStatus) |> |>)
    ∧ (ph = PhaseUpdateFailed ∨ ph = PhaseFailed).
Proof.
  unfold logAndSetFailStatus. go_run. go_run.
  destruct (show_as_warning _ _ _); go_run; eexists _, _, _; (split; [reflexivity|by auto]).
Qed.

Lemma fail_runs {A} err (w : world) :
  ∃ w', fail (A:=A) err w = (Err requeue_later, w').
Proof.
  unfold fail. destruct (log_runs err w) as (t & ph & msg & Hl & _).
  rewrite (goM_bind_run _ _ _ _ _ Hl). by eexists.
Qed.

Lemma requeue_stops {A} err (w : world) :
  (∃ r w', requeueWhenGetSettingsFailed (A:=A) err w = (Err r, w'))
  ∨ ∃ w', requeueWhenGetSettingsFailed (A:=A) err w = (Panic, w').
Proof.
  unfold requeueWhenGetSettingsFailed. destruct (log_runs err w) as (t & ph & msg & Hl & _).
  rewrite (goM_bind_run _ _ _ _ _ Hl). cbn.
  destruct (retry_after err); [|left; by eexists _, _].
  go_run. cbn. destruct (Spec.Endpoint _); [left; by eexists _, _|right; by eexists].
Qed.

Lemma fail_safely {A} F err (Q : A → list event → Prop) : safely F (fail err) Q.
Proof.
  apply safely_stop; [apply quiet_fail|]. intros w. right.
  destruct (fail_runs (A:=A) err w) as [w' ->]. by eexists.
Qed.
Lemma panic_safely {A} F (Q : A → list event → Prop) : safely F (lift Panic) Q.
Proof. apply safely_stop; [unfold quiet; quiet_all|]. by left. Qed.

(** *** The steps with calls *)

Lemma bare_eq (p : Provider.t) :
  bare p = bare p0 →
  p.(Provider.Namespace) = ns ∧ p.(Provider.Spec) = p0.(Provider.Spec)
  ∧ ∀ m, owned_by p m → owned_by p0 m.
Proof.
  unfold owned_by. intros Hb.
  pose proof (f_equal Provider.Name Hb) as Hn. pose proof (f_equal Provider.UID Hb) as Hu.
  pose proof (f_equal Provider.Namespace Hb) as Hns. pose proof (f_equal Provider.Spec Hb) as Hs.
  cbn in *. split_and!; [done|done|]. intros m. by rewrite Hn, Hu.
Qed.

Lemma provider_safely F : safely F provider_ (λ p l, F l ∧ bare p = bare p0).
Proof.
  intros w (Hp & l & Hl & Hs & HF). cbn. split; [done|]. exists l. by split_and!.
Qed.

(** What [found] accepted was free or owned. *)
Lemma found_accepts {A} (meta : A → ObjectMeta.t) zero name provider o b (obj : A) :
  bare provider = bare p0 → found meta zero name provider o = Ok (b, obj) →
  if b then o = Ok obj ∧ accepted p0 name (meta obj)
  else ∃ err, o = Err err ∧ IsNotFound err = true.
Proof.
  intros (_ & _ & Ho)%bare_eq. destruct o as [obj'|err|]; cbn; [| |done].
  - intros (? & Hv & [= <- <-])%outcome_bind_Ok. split; [done|].
    destruct x. intros Hn. apply Ho. by apply (verifyExisting_owned EmptyString _ name).
  - destruct (IsNotFound err) eqn:He; [|done]. intros [= <- _]. by exists err.
Qed.

Definition target_name : string := p0.(Provider.Spec).(Spec.Target).(Target.ConfigMapName).

Lemma existing_configmap_safely F :
  Stable F →
  safely F existing_configmap (λ _ l, F l ∧ checked_configmap p0 l ns target_name).
Proof.
  intros HF. unfold existing_configmap.
  eapply safely_bind; [apply provider_safely|]. intros provider.
  eapply (safely_bind _ _ _ (λ o l, (F l ∧ bare provider = bare p0)
    ∧ ∀ b cm, o = Ok (b, cm) → checked_configmap p0 l ns target_name)).
  - unfold verify_configmap.
    intros w Hw. assert (bare provider = bare p0) as Hb by (by destruct Hw as (_ & l & _ & _ & _ & ?)).
    destruct (bare_eq _ Hb) as (Hns & Hsp & _). revert w Hw.
    eapply safely_bind.
    { apply call_safely; [|done]. apply stable_and; [done|by intros l e]. }
    intros o. apply safely_ret. intros l [[Hl _] Hin]. split; [done|].
    intros b cm Hf. apply found_accepts in Hf; [|done]. rewrite Hns, Hsp in Hin.
    rewrite Hsp in Hf. destruct b.
    + destruct Hf as [-> Ha]. left. by exists cm.
    + destruct Hf as (err & -> & He). right. by exists err.
  - intros [[b cm]|err|].
    + apply safely_ret. intros l ((Hl & _) & Hc). split; [done|]. by eapply Hc.
    + apply fail_safely.
    + apply panic_safely.
Qed.

(** The Secrets collected were found. *)
Definition collected (existing : gmap string Secret.t) (l : list event) : Prop :=
  ∀ name, is_Some (existing !! name) → found_secret p0 l ns name.
Lemma stable_collected existing : Stable (collected existing).
Proof. unfold collected. auto. Qed.
Hint Resolve stable_collected : core.

Lemma collectExistingSecret_safely F provider name existing :
  Stable F → bare provider = bare p0 →
  safely (λ l, F l ∧ collected existing l) (collectExistingSecret provider name existing)
    (λ existing' l, (F l ∧ collected existing' l) ∧ checked_secret p0 l ns name).
Proof.
  intros HF Hb. destruct (bare_eq _ Hb) as (Hns & Hsp & _).
  unfold collectExistingSecret, verify_secret_object.
  eapply safely_bind.
  - eapply safely_bind; [apply call_safely; [by apply stable_and|done]|].
    intros o. apply (safely_ret _ _ (λ (o' : result (bool * Secret.t)) l, (F l ∧ collected existing l)
      ∧ ∀ b s, o' = Ok (b, s) → if b then found_secret p0 l ns name
                                else checked_secret p0 l ns name)).
    intros l [Hl Hin]. split; [done|]. intros b s Hf. apply found_accepts in Hf; [|done].
    rewrite Hns in Hin. destruct b.
    + destruct Hf as [-> Ha]. by exists s.
    + destruct Hf as (err & -> & He). right. by exists err.
  - intros [[[|] s]|err|].
    + apply safely_ret. intros l [[Hl Hc] Hf]. specialize (Hf true s eq_refl).
      split; [|by left]. split; [done|]. intros name'.
      destruct (decide (name' = name)) as [->|Hn]; [done|].
      rewrite lookup_insert_ne by done. apply Hc.
    + apply safely_ret. intros l [[Hl Hc] Hf]. by specialize (Hf false s eq_refl).
    + apply fail_safely.
    + apply panic_safely.
Qed.

Lemma collect_secrets_safely F provider names existing :
  Stable F → bare provider = bare p0 →
  safely (λ l, F l ∧ collected existing l) (collect_secrets provider names existing)
    (λ existing' l, (F l ∧ collected existing' l)
      ∧ ∀ name, name ∈ names → checked_secret p0 l ns name).
Proof.
  intros HF Hb. revert F HF existing. induction names as [|name names IH]; intros F HF existing.
  { apply safely_ret. intros l Hl. split; [done|]. intros name Hn. by apply not_elem_of_nil in Hn. }
  cbn [collect_secrets]. destruct (existing !! name) as [s|] eqn:Hs.
  - eapply safely_weaken; [apply (IH (λ l, F l ∧ found_secret p0 l ns name))| |]; auto.
    + cbv beta. intros l [Hl Hc]. split; [|done]. split; [done|]. apply Hc. by eexists.
    + cbv beta. intros ex l [[[Hl Hf] Hc] Hn]. split; [done|].
      intros name' [->|?]%elem_of_cons; [by left|auto].
  - eapply safely_bind; [by apply (collectExistingSecret_safely F)|]. intros existing'.
    eapply safely_weaken; [apply (IH (λ l, F l ∧ checked_secret p0 l ns name) ltac:(auto) existing')
      | |]; cbv beta.
    + intros l [[Hl Hc] Hn]. by split_and!.
    + intros ex l [[[Hl Hf] Hc] Hn]. split; [done|].
      intros name' [->|?]%elem_of_cons; auto.
Qed.

Lemma target_meta_safely F provider name :
  bare provider = bare p0 →
  safely F (target_meta provider name)
    (λ m l, F l ∧ m.(ObjectMeta.Name) = name ∧ m.(ObjectMeta.Namespace) = ns).
Proof.
  intros Hb. destruct (bare_eq _ Hb) as (Hns & _ & _). unfold target_meta.
  destruct (SetControllerReference _ _) as [m|err|] eqn:Hm;
    [|apply fail_safely|apply panic_safely].
  apply SetControllerReference_name in Hm as [Hname Hnamespace]. cbn in Hname, Hnamespace.
  eapply safely_bind; [apply quiet_safely, quiet_now|]. intros t. apply safely_ret.
  intros l Hl. cbn. split_and!; [done|done|congruence].
Qed.

Lemma createOrUpdateConfigMap_safely F cm provider settings :
  Stable F → bare provider = bare p0 →
  safely (λ l, F l ∧ checked_configmap p0 l ns target_name)
    (createOrUpdateConfigMap cm provider settings) (λ _ l, F l).
Proof.
  intros HF Hb. destruct (bare_eq _ Hb) as (_ & Hsp & _). unfold createOrUpdateConfigMap.
  cbv zeta. rewrite Hsp. fold target_name.
  assert (∀ n rv, safely (λ l, F l ∧ checked_configmap p0 l ns target_name)
    (set_configmap_version n rv) (λ _ l, F l)) as Hv.
  { intros n rv. apply quiet_then; [apply quiet_set_configmap_version|].
    by intros _ l [? _]. }
  destruct (negb _); [apply Hv|].
  eapply safely_bind; [by apply target_meta_safely|]. intros m.
  eapply safely_bind.
  - apply call_safely.
    { intros l e [[? ?] ?]. split; [|done].
      split; [by apply HF|by apply stable_checked_configmap]. }
    intros l o ((Hl & Hc) & Hn & Hns). cbn. by rewrite Hn, Hns.
  - intros [written|err|]; [|apply fail_safely|apply panic_safely].
    eapply safely_weaken; [apply Hv| |done]. by intros l [[? _] _].
Qed.

Lemma secrets_loop_safely F provider shared settings existing entries k8s :
  Stable F → bare provider = bare p0 →
  (∀ l, F l → ∀ name, name ∈ entries.*1 → checked_secret p0 l ns name) →
  safely F (secrets_loop provider shared settings existing entries k8s) (λ _, F).
Proof.
  intros HF Hb. revert k8s. induction entries as [|[name s] entries IH]; intros k8s Hc.
  { by apply safely_ret. }
  cbn [secrets_loop].
  eapply safely_bind; [apply quiet_safely; unfold quiet; quiet_all|]. intros write.
  apply (safely_bind _ _ _ (λ _, F)).
  - destruct (negb write); [by apply safely_ret|].
    eapply safely_bind; [by apply target_meta_safely|]. intros m. eapply safely_bind.
    + apply call_safely; [intros l e [? ?]; split; [by apply HF|done]|].
      intros l o (Hl & Hn & Hns). cbn. rewrite Hn, Hns. apply Hc; [done|by left].
    + intros [written|err|]; [|apply fail_safely|apply panic_safely].
      apply safely_ret. by intros l [[? _] _].
  - intros rv. eapply safely_bind; [apply quiet_safely, quiet_set_secret_version|].
    intros k8s'. apply IH. intros l Hl n Hn. apply Hc; [done|by right].
Qed.

Lemma expel_loop_safely F provider names refs :
  Stable F → bare provider = bare p0 →
  (∀ l, F l → ∀ name, name ∈ names → found_secret p0 l ns name) →
  safely F (expel_loop provider names refs) (λ _, F).
Proof.
  intros HF Hb. destruct (bare_eq _ Hb) as (Hns & _ & _).
  induction names as [|name names IH]; intros Hc; [by apply safely_ret|].
  cbn [expel_loop].
  assert (safely F (expel_loop provider names refs) (λ _, F)) as Hrest.
  { apply IH. intros l Hl n Hn. apply Hc; [done|by right]. }
  destruct (refs !! name); [done|]. rewrite Hns.
  eapply safely_bind.
  - apply call_safely; [done|]. intros l o Hl. cbn. apply Hc; [done|by left].
  - intros [?|err|]; [|apply fail_safely|apply panic_safely].
    eapply safely_weaken; [exact Hrest| |done]. by intros l [? _].
Qed.

Lemma quiet_populate n m cm ss : quiet (populate n m cm ss).
Proof. unfold populate. quiet_steps. apply quiet_requeue. Qed.

Lemma quiet_finish n (p : Processor.t M L) k8s : quiet (finish n p k8s).
Proof. unfold finish. quiet_steps. Qed.

Lemma safely_pure {A} (P : Prop) F (m : step A) (Q : A → list event → Prop) :
  (P → safely F m Q) → safely (λ l, F l ∧ P) m Q.
Proof.
  intros Hm w (Hp & l & Hl & Hs & HF & HP). apply (Hm HP). split; [done|]. by exists l.
Qed.

Lemma write_targets_safely F (p : Processor.t M L) cm ss :
  Stable F →
  safely (λ l, (F l ∧ collected ss l) ∧ checked_configmap p0 l ns target_name)
    (write_targets p cm ss) (λ _ _, True).
Proof.
  intros HF. unfold write_targets.
  eapply safely_bind; [apply provider_safely|]. intros provider. apply safely_pure. intros Hb.
  apply (safely_bind _ _ _ (λ _ l, F l ∧ collected ss l)).
  { destruct (RefreshOptions.ConfigMapSettingPopulated _).
    - apply (createOrUpdateConfigMap_safely (λ l, F l ∧ collected ss l)); auto.
    - apply safely_ret. by intros l [? _]. }
  intros _. apply (safely_bind _ _ _ (λ e l, F l ∧ collected e.1 l)).
  - destruct (RefreshOptions.SecretSettingPopulated _); [|by apply safely_ret].
    eapply safely_bind; [by apply (collect_secrets_safely F)|]. intros ss'.
    eapply safely_bind.
    + unfold createOrUpdateSecrets. apply (secrets_loop_safely (λ l, (F l ∧ collected ss' l)
        ∧ ∀ name, name ∈ (range_map (TargetKeyValueSettings.SecretSettings
                                       (Processor.Settings p))).*1 →
                  checked_secret p0 l ns name)); [|done|].
      * auto 10.
      * intros l [_ Hn]. exact Hn.
    + intros k8s. apply safely_ret. by intros l [? _].
  - intros [ss' k8s]. cbn [fst]. apply (safely_bind _ _ _ (λ _ _, True)).
    + assert (safely (λ l, F l ∧ collected ss' l) (expelRemovedSecrets provider ss' k8s)
        (λ _ _, True)) as He.
      { unfold expelRemovedSecrets.
        eapply safely_weaken; [apply (expel_loop_safely (λ l, F l ∧ collected ss' l));
          [auto|exact Hb|]|done|done].
        intros l [_ Hc] name ([name' s] & -> & Hin)%list_elem_of_fmap.
        apply Hc. apply elem_of_range in Hin. by eexists. }
      destruct (Spec.Secret (Provider.Spec provider));
        [destruct (RefreshOptions.SecretSettingPopulated (Processor.RefreshOptions p))|];
        (exact He || by apply safely_ret).
    + intros _. by apply safely_ret.
Qed.

Lemma reconcile_body_safely n : safely always (reconcile_body n) (λ _ _, True).
Proof.
  unfold reconcile_body.
  eapply safely_bind; [apply quiet_safely, quiet_start|]. intros [].
  eapply safely_bind; [apply quiet_safely, quiet_check_spec|]. intros [].
  eapply safely_bind; [by apply existing_configmap_safely|]. intros cm.
  eapply safely_bind; [apply quiet_safely, quiet_ensure_state|]. intros [].
  apply (safely_bind _ _ _ (λ ss l, (always l ∧ collected ss l)
    ∧ checked_configmap p0 l ns target_name)).
  { unfold existing_secrets. eapply safely_bind; [apply provider_safely|]. intros provider.
    apply safely_pure. intros Hb. assert (∀ l, collected ∅ l) as Hnil.
    { intros l name [s Hs]. by rewrite lookup_empty in Hs. }
    destruct (Spec.Secret _) as [secret|].
    - eapply safely_bind; [apply quiet_safely, quiet_the_state|]. intros state.
      eapply safely_weaken; [apply (collect_secrets_safely
        (λ l, always l ∧ checked_configmap p0 l ns target_name)); auto| |]; cbv beta.
      + intros l ?. by split.
      + intros ss l [[[_ Hc] Hs] _]. by split_and!.
    - apply safely_ret. intros l [_ Hc]. by split_and!. }
  intros ss.
  eapply safely_bind; [apply quiet_safely, quiet_forget|]. intros [].
  eapply safely_bind; [apply quiet_safely, quiet_client_manager|]. intros m.
  eapply safely_bind; [apply quiet_safely, quiet_populate|]. intros p.
  eapply safely_bind; [by apply write_targets_safely|]. intros k8s.
  apply quiet_then; [apply quiet_finish|done].
Qed.

Lemma patch_loop_holds retry F w : Stable F → holds F w → holds F (patch_loop retry w).
Proof.
  intros HF. revert w. induction retry as [|retry IH]; intros w Hw; [done|].
  cbn [patch_loop]. cbv zeta. set (w' := w <| World.log := _ |>).
  assert (holds F w') as Hw'.
  { destruct Hw as (Hp & l & Hl & Hs & HFl). split; [done|]. eexists (l ++ [_]).
    split; [cbn; by rewrite Hl, app_assoc|]. split; [by apply safe_snoc|by apply HF]. }
  destruct (patch_status _ _); auto.
Qed.
End safe.

Lemma Reconcile_safe_log `{Unicode} `{IPLiterals} `{UUIDParser}
    `{WorkloadEnv} `{Yaml2} `{MapOrder} `{KubeOk} {M L} `{!LoaderOf M L}
    n (w : World.t M) provider :
  get_provider w.(World.log) n = Ok provider →
  ∃ l, (Reconcile (L:=L) n w).2.(World.log)
       = w.(World.log) ++ GotProvider n (Ok provider) :: l ∧ safe provider l.
Proof.
  intros Hget. unfold Reconcile. cbv zeta. rewrite Hget.
  set (w0 := _ <| World.provider := provider |>).
  pose proof (reconcile_body_safely (L:=L) w0.(World.log) provider n w0) as Hb.
  assert (holds (M:=M) (World.log w0) provider always w0) as Hw0.
  { split; [done|]. exists []. rewrite app_nil_r. split_and!; [done|apply safe_nil|done]. }
  specialize (Hb Hw0). destruct (reconcile_body n w0) as [o1 w1].
  assert (holds (World.log w0) provider always w1) as Hw1
    by (destruct o1; by eapply holds_always).
  apply (patch_loop_holds _ _ RetryAttempt) in Hw1; [|done].
  destruct Hw1 as (_ & l & Hl & Hs & _). exists l. split; [|done].
  transitivity (World.log (patch_loop RetryAttempt w1)); [by destruct o1|].
  rewrite Hl. cbn. by rewrite <-app_assoc.
Qed.

(** C1: Whatever the cluster answers and whoever else writes to it, a
    reconciliation creates, updates or deletes a ConfigMap or a Secret only
    after reading, in the same reconciliation, that no object has its name or
    that the provider owns the one that has; it deletes only Secrets it read
    and owns.  It may fail or panic at any point. *)
Theorem Reconcile_writes_owned `{Unicode} `{IPLiterals} `{UUIDParser}
    `{WorkloadEnv} `{Yaml2} `{MapOrder} `{KubeOk} {M L} `{!LoaderOf M L}
    n (w w' : World.t M) o :
  Reconcile (L:=L) n w = (o, w') →
  let answer := get_provider w.(World.log) n in
  ∃ l, w'.(World.log) = w.(World.log) ++ GotProvider n answer :: l
    ∧ match answer with Ok provider => safe provider l | _ => l = [] end.
Proof.
  intros Hr. cbv zeta. destruct (get_provider _ n) as [provider|err|] eqn:Hget.
  - destruct (Reconcile_safe_log (L:=L) n w provider Hget) as (l & Hl & Hs).
    exists l. by rewrite Hr in Hl.
  - exists []. unfold Reconcile in Hr. cbv zeta in Hr. rewrite Hget in Hr.
    split; [|done]. destruct (IsNotFound err); by injection Hr as _ <-.
  - exists []. unfold Reconcile in Hr. cbv zeta in Hr. rewrite Hget in Hr.
    by injection Hr as _ <-.
Qed.

(** ** What a reconciliation reports *)

Section reports.
Context `{Unicode} `{IPLiterals} `{UUIDParser} `{WorkloadEnv}
  `{Yaml2} `{MapOrder} `{Kube} {M L : Type} `{!LoaderOf M L}.
Notation world := (World.t M).
Notation step A := (goM world Result.t A).

Definition phase (w : world) : SyncPhase :=
  w.(World.provider).(Provider.Status).(Status.Phase).
Definition failed (ph : SyncPhase) : Prop := ph = PhaseFailed ∨ ph = PhaseUpdateFailed.

(** When to come back after a failure: in 30 seconds, or when the store said,
    if the load failed with an answer that says it. *)
Definition comes_back (r : Result.t) : Prop :=
  r = requeue_later
  ∨ ∃ cm ss provider m state t err seconds,
      (PopulateSettings (L:=L) cm ss (new_processor provider m state t)).1 = Err err
      ∧ retry_after err = Some seconds
      ∧ r = Result.mk true (wrap64 (seconds * Time.Second)).

(** An early return has recorded a failure, and comes back. *)
Definition stops (r : Result.t) (w : world) : Prop := failed (phase w) ∧ comes_back r.

Definition reports {A} (m : step A) : Prop :=
  triple (λ _, True) m (λ _ _, True) stops (λ _, True).

Lemma reports_bind {A B} (m : step A) (f : A → step B) :
  reports m → (∀ a, reports (f a)) → reports (m ≫= f).
Proof. intros Hm Hf. eapply triple_bind; [exact Hm|]. cbv beta. exact Hf. Qed.

(** A step that never returns early. *)
Definition goes_on {A} (m : step A) : Prop := ∀ w r, (m w).1 ≠ Err r.
Lemma goes_on_reports {A} (m : step A) : goes_on m → reports m.
Proof.
  intros Hm w _. specialize (Hm w). destruct (m w) as [[a|e|] w']; [done| |done].
  by destruct (Hm e).
Qed.
Lemma goes_on_ret {A} (a : A) : goes_on (mret a).
Proof. done. Qed.
Lemma goes_on_modify f : goes_on (modify f).
Proof. done. Qed.
Lemma goes_on_provider : goes_on provider_.
Proof. done. Qed.
Lemma goes_on_state n : goes_on (get_state n).
Proof. done. Qed.
Lemma goes_on_now : goes_on now.
Proof. done. Qed.
Lemma goes_on_the_state n : goes_on (the_state n).
Proof. intros w r. unfold the_state. by case_match. Qed.
Lemma goes_on_deref {A} (o : option A) : goes_on (lift (deref o)).
Proof. intros w r. by destruct o. Qed.
Lemma goes_on_panic {A} : goes_on (A:=A) (lift Panic).
Proof. done. Qed.
Lemma goes_on_call {A} (ev : result A → event) ask : goes_on (call ev ask).
Proof. intros w r. unfold call. cbv zeta. by destruct (ask _). Qed.
Lemma goes_on_should p ss name ex : goes_on (lift (should_write_secret p ss name ex)).
Proof.
  intros w r. unfold should_write_secret. destruct (ex !! name); [|done].
  by destruct (Spec.Secret _).
Qed.
#[local] Hint Resolve goes_on_ret goes_on_modify goes_on_provider goes_on_state goes_on_now
  goes_on_the_state @goes_on_deref @goes_on_panic @goes_on_call goes_on_should : core.

Lemma log_reports err : reports (logAndSetFailStatus err).
Proof.
  intros w _. destruct (log_runs err w) as (t & ph & msg & -> & _). done.
Qed.

Lemma reports_fail {A} err : reports (A:=A) (fail err).
Proof.
  intros w _. unfold fail. destruct (log_runs err w) as (t & ph & msg & Hl & Hph).
  rewrite (goM_bind_run _ _ _ _ _ Hl). cbn. split; [|by left].
  unfold failed. by destruct Hph; auto.
Qed.

Lemma reports_requeue {A} cm ss provider m state t err :
  (PopulateSettings (L:=L) cm ss (new_processor provider m state t)).1 = Err err →
  reports (A:=A) (requeueWhenGetSettingsFailed err).
Proof.
  intros Herr w _. unfold requeueWhenGetSettingsFailed.
  destruct (log_runs err w) as (t' & ph & msg & Hl & Hph).
  rewrite (goM_bind_run _ _ _ _ _ Hl). cbn.
  assert (failed ph) as Hf by (unfold failed; by destruct Hph; auto).
  destruct (retry_after err) as [seconds|] eqn:Hr; [|by split; [|left]].
  go_run. cbn. destruct (Spec.Endpoint _); [|done]. split; [done|]. right.
  by exists cm, ss, provider, m, state, t, err, seconds.
Qed.

(** A specification that is accepted goes on; one that is refused stops for
    good. *)
Definition checked (spec : Spec.t) (w : world) : Prop :=
  w.(World.provider).(Provider.Spec) = spec.
Lemma check_spec_phase spec :
  triple (checked spec) check_spec (λ _ _, valid_spec spec)
    (λ r w, failed (phase w) ∧ r = Result.zero ∧ ¬ valid_spec spec) (λ _, True).
Proof.
  intros w Hw. unfold check_spec. go_run. rewrite Hw.
  destruct (verifyObject spec) as [[]|err|] eqn:Hv; [by apply verifyObject_Ok| |done].
  destruct (log_runs err w) as (t & ph & msg & Hl & Hph).
  rewrite (goM_bind_run _ _ _ _ _ Hl). cbn.
  split; [unfold failed; by destruct Hph; auto|]. split; [done|].
  intros Hok. apply verifyObject_Ok in Hok. congruence.
Qed.

Ltac reports_all :=
  cbv zeta;
  repeat match goal with
  | |- reports (_ ≫= _) => apply reports_bind; [|intros; cbv beta]
  | |- reports (fail _) => apply reports_fail
  | |- reports (match _ with _ => _ end) => case_match
  | |- reports _ => solve [apply goes_on_reports; auto]
  end.

Lemma collect_reports p names ex : reports (collect_secrets p names ex).
Proof.
  revert ex. induction names as [|name names IH]; intros ex; cbn [collect_secrets];
    [reports_all|].
  unfold collectExistingSecret, verify_secret_object. reports_all; apply IH.
Qed.

Lemma target_meta_reports p name : reports (target_meta p name).
Proof. unfold target_meta. reports_all. Qed.

Lemma secrets_loop_reports p b ss ex entries k8s :
  reports (secrets_loop p b ss ex entries k8s).
Proof.
  revert k8s. induction entries as [|[name s] entries IH]; intros k8s; cbn [secrets_loop];
    [reports_all|].
  unfold set_secret_version, put_state. reports_all; [apply target_meta_reports|apply IH..].
Qed.

Lemma expel_reports p names refs : reports (expel_loop p names refs).
Proof.
  induction names as [|name names IH]; cbn [expel_loop]; reports_all; apply IH.
Qed.

Lemma write_targets_reports (p : Processor.t M L) cm ss : reports (write_targets p cm ss).
Proof.
  unfold write_targets, createOrUpdateConfigMap, createOrUpdateSecrets, expelRemovedSecrets,
    set_configmap_version, put_state.
  reports_all; first [apply target_meta_reports|apply collect_reports
                     |apply secrets_loop_reports|apply expel_reports].
Qed.

Lemma populate_reports n m cm ss : reports (populate n m cm ss).
Proof.
  unfold populate, put_state. reports_all.
  match goal with H : PopulateSettings cm ss (new_processor ?p ?m ?s ?t) = _ |- _ =>
    apply (reports_requeue cm ss p m s t); by rewrite H end.
Qed.

Lemma Finish_phase t (p : Processor.t M L) :
  (Provider.Status (Processor.Provider (Finish t p).2)).(Status.Phase)
  = (Provider.Status (Processor.Provider p)).(Status.Phase).
Proof.
  unfold Finish, commit_refresh. cbv zeta. case_match; [done|]. cbn [snd].
  repeat case_match; done.
Qed.

Lemma finish_phase n (p : Processor.t M L) k8s :
  triple (λ _, True) (finish n p k8s) (λ _ w, phase w = PhaseComplete) stops (λ _, True).
Proof.
  intros w _. unfold finish. do 5 go_run.
  match goal with |- context [(the_state n ≫= _) ?w1] => set (w' := w1) end.
  destruct (w'.(World.ProvidersReconcileState) !! n) as [s|] eqn:Hs.
  - rewrite (goM_bind_run (the_state n) _ w' s w') by (unfold the_state; by rewrite Hs).
    go_run.
    match goal with |- context [Finish ?t ?q] =>
      pose proof (Finish_phase t q) as Hph; destruct (Finish t q) as [r q'] end.
    cbn. exact Hph.
  - unfold the_state at 1, mbind at 1, goM_bind. by rewrite Hs.
Qed.

(** [Reconcile] after [start]. *)
Definition after_start (n : NamespacedName) : step Result.t :=
  _ ← check_spec;
  existingConfigMap ← existing_configmap;
  _ ← ensure_state n;
  existingSecrets ← existing_secrets n;
  _ ← forget_versions n existingConfigMap existingSecrets;
  m ← client_manager n;
  p ← populate n m existingConfigMap existingSecrets;
  k8s ← write_targets p existingConfigMap existingSecrets;
  finish n p k8s.

Lemma after_start_phase spec n :
  triple (checked spec) (after_start n)
    (λ _ w, phase w = PhaseComplete ∧ valid_spec spec)
    (λ r w, failed (phase w) ∧ (valid_spec spec ∧ comes_back r
                                ∨ ¬ valid_spec spec ∧ r = Result.zero)) (λ _, True).
Proof.
  unfold after_start.
  eapply triple_bind; [eapply triple_conseq;
    [apply (check_spec_phase spec)|done|intros a w Hv; exact Hv|naive_solver|done]|].
  intros u0. cbv beta. apply triple_pure. intros Hv.
  apply (triple_conseq _ (λ _, True) _ _ (λ _ w, phase w = PhaseComplete) _ stops _ (λ _, True));
    [|done|done|intros r w [Hf Hc]; auto|done].
  eapply triple_bind; [|intros cm].
  { instantiate (1 := λ _ _, True). change (reports existing_configmap).
    unfold existing_configmap, verify_configmap. reports_all. }
  eapply triple_bind; [|intros u].
  { instantiate (1 := λ _ _, True). change (reports (ensure_state n)).
    unfold ensure_state, put_state. reports_all. }
  eapply triple_bind; [|intros ss].
  { instantiate (1 := λ _ _, True). change (reports (existing_secrets n)).
    unfold existing_secrets. reports_all. apply collect_reports. }
  eapply triple_bind; [|intros u'].
  { instantiate (1 := λ _ _, True). change (reports (forget_versions n cm ss)).
    unfold forget_versions, put_state. reports_all. }
  eapply triple_bind; [|intros m].
  { instantiate (1 := λ _ _, True). change (reports (client_manager n)).
    unfold client_manager, put_state. reports_all. }
  eapply triple_bind; [apply populate_reports|]. intros p.
  eapply triple_bind; [apply write_targets_reports|]. intros k8s. apply finish_phase.
Qed.

(** The patches of the status and what they leave. *)
Lemma patch_loop_log retry (w : world) :
  let w' := patch_loop retry w in
  w'.(World.provider) = w.(World.provider)
  ∧ w'.(World.ProvidersReconcileState) = w.(World.ProvidersReconcileState)
  ∧ ∃ l, w'.(World.log) = w.(World.log) ++ l
    ∧ Forall (λ e, ∃ o, e = PatchedStatus w.(World.provider).(Provider.Status) o) l
    ∧ length l ≤ retry ∧ (retry ≠ 0 → l ≠ []).
Proof.
  revert w. induction retry as [|retry IH]; intros w; cbv zeta.
  { split_and!; [done|done|]. exists []. rewrite app_nil_r. by split_and!. }
  cbn [patch_loop]. cbv zeta. set (o := patch_status _ _).
  set (w1 := w <| World.log := _ |>). destruct (IH w1) as (Hp & Hs & l & Hl & Hf & Hn & _).
  assert (∃ l, World.log (match o with Ok _ => w1 | _ => patch_loop retry w1 end)
    = World.log w ++ PatchedStatus w.(World.provider).(Provider.Status) o :: l
    ∧ Forall (λ e, ∃ o, e = PatchedStatus w.(World.provider).(Provider.Status) o) l
    ∧ length l ≤ retry) as (l' & Hl' & Hf' & Hn').
  { destruct o; [exists []; split_and!; [done|done|simpl; lia]|
      exists l; rewrite Hl; cbn; by rewrite <-app_assoc..]. }
  split_and!; [by destruct o|by destruct o|]. eexists. split; [exact Hl'|].
  split_and!; [constructor; [by eexists|done]|simpl; lia|done].
Qed.

Lemma check_spec_refuses (w : world) err :
  verifyObject w.(World.provider).(Provider.Spec) = Err err →
  ∃ w', check_spec w = (Err Result.zero, w') ∧ failed (phase w')
    ∧ w'.(World.log) = w.(World.log)
    ∧ w'.(World.ProvidersReconcileState) = w.(World.ProvidersReconcileState).
Proof.
  intros Herr. destruct (log_runs err w) as (t & ph & msg & Hlog & Hf).
  eexists. split; [|split].
  - unfold check_spec. go_run. rewrite Herr. by rewrite (goM_bind_run _ _ _ _ _ Hlog).
  - unfold failed. cbn. by destruct Hf; auto.
  - done.
Qed.

(** C34: A provider whose specification is refused is not looked at further:
    no call but the read of the provider and the patch of the status, no
    state, no requeue. *)
Theorem Reconcile_invalid_spec n (w : world) provider :
  get_provider w.(World.log) n = Ok provider →
  provider.(Provider.Status).(Status.Phase) ≠ PhaseRunning →
  ¬ valid_spec provider.(Provider.Spec) →
  let '(o, w') := Reconcile (L:=L) n w in
  o = Ok Result.zero ∧ failed (phase w')
  ∧ w'.(World.ProvidersReconcileState) = w.(World.ProvidersReconcileState)
  ∧ ∃ l, w'.(World.log) = w.(World.log) ++ GotProvider n (Ok provider) :: l
    ∧ Forall (λ e, ∃ o, e = PatchedStatus w'.(World.provider).(Provider.Status) o) l.
Proof.
  intros Hget Hph Hv. unfold Reconcile. cbv zeta. rewrite Hget.
  set (w0 := _ <| World.provider := provider |>).
  assert (∃ s, start w0 = (Ok (), w0 <| World.provider := provider <| Provider.Status := s |> |>))
    as [s Hstart].
  { unfold start. go_run. destruct (decide (_ = NoPhase)); go_run;
      rewrite decide_False by done; go_run; by eexists. }
  set (w1 := w0 <| World.provider := _ |>) in Hstart.
  assert (∃ err, verifyObject provider.(Provider.Spec) = Err err) as [err Herr].
  { destruct (verifyObject_argument_error (Provider.Spec provider)) as [Ho|(f & c & ->)];
      [by apply verifyObject_Ok in Ho|by eexists]. }
  destruct (check_spec_refuses w1 err Herr) as (w2 & Hc & Hph2 & Hl2 & Hs2).
  assert (reconcile_body n w0 = (Err Result.zero, w2)) as Hb.
  { unfold reconcile_body. rewrite (goM_bind_run _ _ _ _ _ Hstart).
    unfold mbind at 1, goM_bind. by rewrite Hc. }
  rewrite Hb. destruct (patch_loop_log RetryAttempt w2) as (Hp & Hst & l & Hl & Hfo & _ & _).
  split_and!; [done|unfold phase; by rewrite Hp|by rewrite Hst, Hs2|].
  exists l. rewrite Hl, Hl2, Hp.
  change (World.log w1) with (World.log w ++ [GotProvider n (Ok provider)]).
  split; [by rewrite <-app_assoc|done].
Qed.

Lemma start_running (w : world) : phase w = PhaseRunning → start w = (Err Result.zero, w).
Proof.
  unfold phase. intros Hph. unfold start. go_run.
  destruct (decide (_ = NoPhase)) as [Hn|_]; [congruence|]. go_run. by rewrite decide_True.
Qed.

(** A provider whose status says it is running is left alone: nothing is
    read or written for it and its status stays, so a status left behind by
    a run that died is never left. *)
Theorem Reconcile_running_left_alone n (w : world) provider :
  get_provider w.(World.log) n = Ok provider →
  provider.(Provider.Status).(Status.Phase) = PhaseRunning →
  let '(o, w') := Reconcile (L:=L) n w in
  o = Ok Result.zero
  ∧ w'.(World.ProvidersReconcileState) = w.(World.ProvidersReconcileState)
  ∧ ∃ l, w'.(World.log) = w.(World.log) ++ GotProvider n (Ok provider) :: l
    ∧ Forall (λ e, ∃ o, e = PatchedStatus provider.(Provider.Status) o) l.
Proof.
  intros Hget Hph. unfold Reconcile. cbv zeta. rewrite Hget.
  set (w0 := _ <| World.provider := provider |>).
  assert (reconcile_body n w0 = (Err Result.zero, w0)) as Hb.
  { unfold reconcile_body. unfold mbind at 1, goM_bind. by rewrite start_running. }
  rewrite Hb. destruct (patch_loop_log RetryAttempt w0) as (_ & Hst & l & Hl & Hf & _ & _).
  split_and!; [done|by rewrite Hst|]. exists l. rewrite Hl.
  change (World.log w0) with (World.log w ++ [GotProvider n (Ok provider)]).
  split; [by rewrite <-app_assoc|done].
Qed.
End reports.

(** ** Witnesses *)

Module ReconcilerWitness.
Import ValidationWitness.
#[export] Existing Instance SimpleCodec.instance.
#[export] Existing Instance map_to_list_order.
Definition yaml2 : Yaml2 := {| yaml2_map := string; yaml2_unmarshal := id |}.
#[export] Existing Instance yaml2.

Definition loader_of : LoaderOf unit nat := {|
  new_manager _ := Ok tt;
  new_loader _ _ := 0;
  manager_of _ := tt;
  retriever := ProcessorWitness.loader;
|}.
#[export] Existing Instance loader_of.

Definition owner : OwnerReference.t := OwnerReference.mk GroupVersion ProviderName "p" "uid".
Definition at_phase (ph : SyncPhase) : Provider.t :=
  let p := ProcessorWitness.provider in
  p <| Provider.Status := Status.mk 0%Z 0%Z ph EmptyString
         (RefreshStatus.mk 0%Z 0%Z 0%Z) |>
    <| Provider.Spec := p.(Provider.Spec) <| Spec.Secret := None |> |>.
Definition no_endpoint : Provider.t :=
  (at_phase PhaseComplete) <| Provider.Spec :=
    (at_phase PhaseComplete).(Provider.Spec) <| Spec.Endpoint := None |> |>.
Definition not_found {A} : result A := Err (StatusError true "not found").

(** A cluster that stores nothing: the provider exists, its ConfigMap does
    not, and writes succeed. *)
Definition kube (p : Provider.t) : Kube := {|
  get_provider _ _ := Ok p;
  get_configmap _ _ _ := not_found;
  get_secret _ _ _ := not_found;
  write_configmap _ obj := Ok (obj <| ConfigMap.Meta := obj.(ConfigMap.Meta)
                                      <| ObjectMeta.ResourceVersion := "1" |> |>);
  write_secret _ obj := Ok obj;
  delete_secret _ _ _ := Ok tt;
  patch_status _ _ := Ok tt;
  Now log := (ProcessorWitness.t0 + Z.of_nat (length log))%Z;
  utc_string _ := "now";
  SetControllerReference _ m := Ok (m <| ObjectMeta.OwnerReferences := [owner] |>);
|}.
Lemma kube_ok p : @KubeOk (kube p).
Proof. by intros q m m' [= <-]. Qed.

Definition key : NamespacedName := ("ns", "p").
Definition world : World.t unit := World.mk _ [] ∅ (at_phase NoPhase).
Definition run (p : Provider.t) := @Reconcile _ _ _ _ _ _ (kube p) _ _ loader_of key world.
End ReconcilerWitness.
Import ValidationWitness ReconcilerWitness.

(** The ConfigMap is read, found missing, and written. *)
Example first_reconciliation :
  (λ e, match e with GotProvider _ _ => 0 | GotConfigMap _ _ _ => 1 | WroteConfigMap _ _ => 2
                | PatchedStatus _ _ => 3 | _ => 4 end) <$> (run (at_phase NoPhase)).2.(World.log)
  = [0; 1; 2; 3].
Proof. vm_compute. reflexivity. Qed.

Lemma Reconcile_writes_owned_witness :
  ∃ l, (run (at_phase NoPhase)).2.(World.log) = GotProvider key (Ok (at_phase NoPhase)) :: l
    ∧ safe (at_phase NoPhase) l.
Proof.
  apply (@Reconcile_writes_owned _ _ _ _ _ _ _ (kube_ok (at_phase NoPhase)) _ _ loader_of
    key world (run (at_phase NoPhase)).2 (run (at_phase NoPhase)).1).
  apply surjective_pairing.
Defined.

Lemma Reconcile_invalid_spec_witness :
  (run no_endpoint).1 = Ok Result.zero ∧ failed (phase (run no_endpoint).2).
Proof.
  pose proof (@Reconcile_invalid_spec _ _ _ _ _ _ (kube no_endpoint) _ _ loader_of
    key world no_endpoint eq_refl ltac:(done)) as Hi.
  unfold run. destruct (Reconcile key world) as [o w']. destruct Hi as (Ho & Hf & _ & _).
  - intros ([Hc _] & _). destruct Hc as [_ Hc]. destruct (Hc eq_refl) as [? [=]].
  - split; [exact Ho|exact Hf].
Defined.

Lemma Reconcile_running_left_alone_witness :
  (run (at_phase PhaseRunning)).1 = Ok Result.zero.
Proof.
  pose proof (@Reconcile_running_left_alone _ _ _ _ _ _ (kube (at_phase PhaseRunning)) _ _
    loader_of key world (at_phase PhaseRunning) eq_refl eq_refl) as Hi.
  unfold run. destruct (Reconcile key world) as [o w']. destruct Hi as (Ho & _). exact Ho.
Defined.
