(* ===== verification/Completion.v ===== *)
(** What a final phase means: the end of a reconciliation of
    [internal/controller/appconfigurationprovider_controller.go].

    [Reconciler.v] follows what a reconciliation may write.  Here its calls are
    followed to the end: when the status says complete, what the processor
    loaded is in the cluster, every write was accepted, and the result is that
    of the processor; when it says failed, the result says to come back, unless
    the specification was refused. *)

From S2P Require Import Prelude GoStrings Errors Api Json Filters Tree Codec Data Url ConnString.
From S2P Require Import Clients Auth Processor Validation Reconciler.

Section completion.
Context `{Unicode} `{IPLiterals} `{UUIDParser} `{WorkloadEnv}
  `{Yaml2} `{MapOrder} `{KubeOk} {M L : Type} `{!LoaderOf M L}.
Notation world := (World.t M).
Notation step A := (goM world Result.t A).
(** The provider as it was read. *)
Context (p0 : Provider.t).
Let ns : string := p0.(Provider.Namespace).
Let spec : Spec.t := p0.(Provider.Spec).

(** ** What is in the cluster *)

(** A write, or a deletion, that was accepted. *)
Definition accepted_write (e : event) : Prop :=
  match e with
  | WroteConfigMap _ o => ∃ cm, o = Ok cm
  | WroteSecret _ o => ∃ s, o = Ok s
  | DeletedSecret _ _ o => o = Ok ()
  | _ => True
  end.

Definition named (m : ObjectMeta.t) (name : string) : Prop :=
  m.(ObjectMeta.Name) = name ∧ m.(ObjectMeta.Namespace) = ns.

(** The ConfigMap was written with the data, or was read and needed no write. *)
Definition configmap_current (data : option (gmap string string)) (l : list event) : Prop :=
  (∃ obj cm, WroteConfigMap obj (Ok cm) ∈ l ∧ named obj.(ConfigMap.Meta) (target_name p0)
     ∧ obj.(ConfigMap.Data) = data)
  ∨ ∃ cm, GotConfigMap ns (target_name p0) (Ok cm) ∈ l
      ∧ shouldCreateOrUpdateConfigMap cm data spec.(Spec.Target).(Target.ConfigMapData) = false.

(** The same of a Secret. *)
Definition secret_current (settings : gmap string Secret.t) (name : string) (s : Secret.t)
    (l : list event) : Prop :=
  (∃ obj written, WroteSecret obj (Ok written) ∈ l ∧ named obj.(Secret.Meta) name
     ∧ obj.(Secret.Type_) = s.(Secret.Type_) ∧ obj.(Secret.Data) = s.(Secret.Data))
  ∨ ∃ cur ref, GotSecret ns name (Ok cur) ∈ l ∧ spec.(Spec.Secret) = Some ref
      ∧ shouldCreateOrUpdateSecret ref.(SecretReference.Target) settings name {[name := cur]}
        = false.

(** What the processor has loaded is in the cluster, and the Secrets that were
    found and are not among those loaded are deleted. *)
Definition all_written (p : Processor.t M L) (l : list event) : Prop :=
  let settings := p.(Processor.Settings) in
  let options := p.(Processor.RefreshOptions) in
  Forall accepted_write l
  ∧ (options.(RefreshOptions.ConfigMapSettingPopulated) = true →
     configmap_current settings.(TargetKeyValueSettings.ConfigMapSettings) l)
  ∧ (options.(RefreshOptions.SecretSettingPopulated) = true →
     (∀ name s, settings.(TargetKeyValueSettings.SecretSettings) !! name = Some s →
        secret_current settings.(TargetKeyValueSettings.SecretSettings) name s l)
     ∧ ∀ name cur, GotSecret ns name (Ok cur) ∈ l →
         is_Some (settings.(TargetKeyValueSettings.K8sSecrets) !! name)
         ∨ DeletedSecret ns name (Ok ()) ∈ l).

(** The result is what [Finish] says of the processor [p]. *)
Definition finished (p : Processor.t M L) (r : Result.t) : Prop :=
  ∃ t provider state k8s,
    r = (Finish t (p <| Processor.Provider := provider |> <| Processor.State := state |>
           <| Processor.Settings := p.(Processor.Settings)
                <| TargetKeyValueSettings.K8sSecrets := k8s |> |>)).1.

(** The calls [l] of a reconciliation that is complete: the run of a new
    processor, for this provider and on the objects that were read, loaded
    without an error, and everything it loaded is written. *)
Definition completed (l : list event) (r : Result.t) : Prop :=
  ∃ cm ss provider m state t p, (cm = ConfigMap.zero ∨ GotConfigMap ns (target_name p0) (Ok cm) ∈ l)
    ∧ (∀ name cur, ss !! name = Some cur → GotSecret ns name (Ok cur) ∈ l)
    ∧ bare provider = bare p0
    ∧ PopulateSettings (L:=L) cm ss (new_processor provider m state t) = (Ok (), p)
    ∧ all_written p l ∧ finished p r.

(** ** Following the calls *)

(** The log at the start. *)
Context (l0 : list event).

Definition on (F : list event → Prop) (w : world) : Prop :=
  bare w.(World.provider) = bare p0 ∧ ∃ l, w.(World.log) = l0 ++ l ∧ F l.

(** What is known of the calls when the step goes on. *)
Definition does {A} (F : list event → Prop) (m : step A) (Q : A → list event → Prop) : Prop :=
  triple (on F) m (λ a, on (Q a)) (λ _ _, True) (λ _, True).

Lemma on_mono (F G : list event → Prop) w : (∀ l, F l → G l) → on F w → on G w.
Proof. intros HF (Hp & l & Hl & ?). split; [done|]. exists l. auto. Qed.

Lemma does_bind {A B} F (m : step A) (f : A → step B) R Q :
  does F m R → (∀ a, does (R a) (f a) Q) → does F (m ≫= f) Q.
Proof. intros Hm Hf. by eapply triple_bind. Qed.
Lemma does_ret {A} (F : list event → Prop) (a : A) (Q : A → list event → Prop) :
  (∀ l, F l → Q a l) → does F (mret a) Q.
Proof. intros HQ. apply triple_ret. intros w. by apply on_mono. Qed.
Lemma does_weaken {A} (F F' : list event → Prop) (m : step A) (Q Q' : A → list event → Prop) :
  does F' m Q' → (∀ l, F l → F' l) → (∀ a l, Q' a l → Q a l) → does F m Q.
Proof.
  intros Hm HF HQ. eapply triple_conseq; [exact Hm| | |done|done]; cbv beta.
  - intros w. by apply on_mono.
  - intros a w. apply on_mono. auto.
Qed.
Lemma does_pure {A} (P : Prop) F (m : step A) (Q : A → list event → Prop) :
  (P → does F m Q) → does (λ l, F l ∧ P) m Q.
Proof. intros Hm w (Hp & l & Hl & HF & HP). apply (Hm HP). split; [done|]. by exists l. Qed.
Lemma does_quiet {A} F (m : step A) : quiet m → does F m (λ _, F).
Proof.
  intros Hq w (Hp & l & Hl & HF). specialize (Hq w). destruct (m w) as [o w'].
  apply pair_equal_spec in Hq as [Hlog Hb]. cbn in Hlog, Hb. destruct o; [|done|done].
  split; [congruence|]. exists l. split; [congruence|done].
Qed.
Lemma does_quiet_then {A} (F G : list event → Prop) (m : step A) :
  quiet m → (∀ l, F l → G l) → does F m (λ _, G).
Proof. intros Hq HG. eapply does_weaken; [by apply (does_quiet G)|done|done]. Qed.
Lemma does_lift {A} (F : list event → Prop) (o : outcome Result.t A) :
  does F (lift o) (λ a l, F l ∧ o = Ok a).
Proof.
  intros w Hw. unfold lift. destruct o as [a|r|]; [|done|done].
  eapply on_mono; [|exact Hw]. by intros l Hl.
Qed.
Lemma does_fail {A} F err (Q : A → list event → Prop) : does F (fail err) Q.
Proof. intros w _. by destruct (fail_runs (A:=A) err w) as [w' ->]. Qed.
Lemma does_panic {A} F (Q : A → list event → Prop) : does F (lift Panic) Q.
Proof. by intros w _. Qed.
Lemma does_provider F : does F provider_ (λ p l, F l ∧ bare p = bare p0).
Proof. intros w (Hp & l & Hl & HF). cbn. split; [done|]. by exists l. Qed.
Lemma does_call {A} F (ev : result A → event) (ask : list event → result A) :
  does F (call ev ask) (λ o l, ∃ l', l = l' ++ [ev o] ∧ F l').
Proof.
  intros w (Hp & l & Hl & HF). unfold call. set (o := ask _). clearbody o.
  assert (on (λ l, ∃ l', l = l' ++ [ev o] ∧ F l')
    (w <| World.log := w.(World.log) ++ [ev o] |>)) as Hw.
  { split; [done|]. exists (l ++ [ev o]). split; [by cbn; rewrite Hl, app_assoc|by exists l]. }
  by destruct o.
Qed.

(** *** Facts about the calls so far *)

(** The Secrets collected are those found. *)
Definition reads (ex : gmap string Secret.t) (l : list event) : Prop :=
  ∀ name s, GotSecret ns name (Ok s) ∈ l ↔ ex !! name = Some s.
(** [G] is any fact that later calls keep. *)
Definition stage (G : list event → Prop) (ex : gmap string Secret.t) (l : list event) : Prop :=
  G l ∧ reads ex l ∧ Forall accepted_write l.

Lemma stage_snoc G ex l e :
  Stable G → accepted_write e → (∀ name s, e ≠ GotSecret ns name (Ok s)) →
  stage G ex l → stage G ex (l ++ [e]).
Proof.
  intros HG He Hn (Hl & Hr & Hf). split; [by apply HG|]. split.
  - intros name s. pose proof (Hr name s) as Hs. rewrite elem_of_app, list_elem_of_singleton.
    split; [intros [?|Heq]; [by apply Hs|by destruct (Hn name s)]|left; by apply Hs].
  - apply Forall_app. by repeat constructor.
Qed.
Lemma stage_read G ex l name s :
  Stable G → ex !! name = None → stage G ex l →
  stage G (<[name := s]> ex) (l ++ [GotSecret ns name (Ok s)]).
Proof.
  intros HG Hn (Hl & Hr & Hf). split; [by apply HG|]. split.
  - intros name' s'. pose proof (Hr name' s') as Hs.
    rewrite elem_of_app, list_elem_of_singleton, lookup_insert_Some, Hs. split.
    + intros [Hex|[= -> ->]]; [|by left]. right. split; [|done]. intros ->. congruence.
    + intros [[-> ->]|[_ ?]]; [by right|by left].
  - apply Forall_app. by repeat constructor.
Qed.
Lemma stage_and (G G' : list event → Prop) ex l :
  stage G ex l → G' l → stage (λ l, G l ∧ G' l) ex l.
Proof. intros (? & ? & ?) ?. by split_and!. Qed.

Lemma stable_elem (P : event → Prop) : Stable (λ l, ∃ e, P e ∧ e ∈ l).
Proof. intros l e (e' & HP & Hin). exists e'. split; [done|]. apply elem_of_app. by left. Qed.
Lemma stable_configmap data : Stable (configmap_current data).
Proof.
  intros l e. unfold configmap_current. repeat setoid_rewrite elem_of_app. naive_solver.
Qed.
Lemma stable_secret settings name s : Stable (secret_current settings name s).
Proof.
  intros l e. unfold secret_current. repeat setoid_rewrite elem_of_app. naive_solver.
Qed.
Lemma stable_configmap_read cm :
  Stable (λ l, cm = ConfigMap.zero ∨ GotConfigMap ns (target_name p0) (Ok cm) ∈ l).
Proof. intros l e [?|?]; [by left|right]. apply elem_of_app. by left. Qed.
Lemma stable_ands (F G : list event → Prop) : Stable F → Stable G → Stable (λ l, F l ∧ G l).
Proof. intros HF HG l e [? ?]. split; [by apply HF|by apply HG]. Qed.
Hint Resolve stable_configmap stable_secret stable_configmap_read stable_ands : core.
(** *** The steps *)

Lemma found_ConfigMap name provider o b cm :
  found ConfigMap.Meta ConfigMap.zero name provider o = Ok (b, cm) →
  cm = ConfigMap.zero ∨ o = Ok cm.
Proof.
  destruct o as [cm'|err|]; cbn; [| |done].
  - intros (? & _ & [= _ <-])%outcome_bind_Ok. by right.
  - destruct (IsNotFound err); [|done]. intros [= _ <-]. by left.
Qed.

Lemma existing_configmap_does G ex :
  Stable G →
  does (stage G ex) existing_configmap (λ cm l, stage G ex l
    ∧ (cm = ConfigMap.zero ∨ GotConfigMap ns (target_name p0) (Ok cm) ∈ l)).
Proof.
  intros HG. unfold existing_configmap, verify_configmap.
  eapply does_bind; [apply does_provider|]. intros provider. apply does_pure. intros Hb.
  destruct (bare_eq p0 provider Hb) as (Hns & Hsp & _). rewrite Hns, Hsp. fold ns.
  eapply does_bind.
  { eapply does_bind; [apply does_call|]. intros o.
    apply (does_ret _ _ (λ r l, stage G ex l ∧ ∀ b cm, r = Ok (b, cm) →
      cm = ConfigMap.zero ∨ GotConfigMap ns (target_name p0) (Ok cm) ∈ l)).
    intros l (l' & -> & Hl). split; [by apply stage_snoc|].
    intros b cm [->| ->]%found_ConfigMap; [by left|right]. apply elem_of_app. right. by left. }
  intros [[b cm]|err|]; [|apply does_fail|apply does_panic].
  apply does_ret. intros l [Hl Hc]. split; [done|]. by eapply Hc.
Qed.

Lemma collectExistingSecret_does G ex provider name :
  Stable G → bare provider = bare p0 → ex !! name = None →
  does (stage G ex) (collectExistingSecret provider name ex) (λ ex', stage G ex').
Proof.
  intros HG Hb Hn. destruct (bare_eq p0 provider Hb) as (Hns & _ & _).
  unfold collectExistingSecret, verify_secret_object. rewrite Hns. fold ns.
  eapply does_bind.
  { eapply does_bind; [apply does_call|]. intros o.
    apply (does_ret _ _ (λ r l, ∀ b s, r = Ok (b, s) →
      stage G (if b : bool then <[name := s]> ex else ex) l)).
    intros l (l' & -> & Hl) b s Hf. apply (found_accepts p0) in Hf; [|done]. destruct b.
    - destruct Hf as [-> _]. by apply stage_read.
    - destruct Hf as (err & -> & _). by apply stage_snoc. }
  intros [[[|] s]|err|]; [| |apply does_fail|apply does_panic];
    apply does_ret; intros l Hl; by eapply (Hl _ _ eq_refl).
Qed.

Lemma collect_secrets_does G ex provider names :
  Stable G → bare provider = bare p0 →
  does (stage G ex) (collect_secrets provider names ex) (λ ex', stage G ex').
Proof.
  intros HG Hb. revert ex. induction names as [|name names IH]; intros ex;
    cbn [collect_secrets]; [by apply does_ret|].
  destruct (ex !! name) eqn:Hn; [apply IH|].
  eapply does_bind; [by apply collectExistingSecret_does|]. intros ex'. apply IH.
Qed.

Lemma existing_secrets_does G n :
  Stable G → does (stage G ∅) (existing_secrets n) (λ ex, stage G ex).
Proof.
  intros HG. unfold existing_secrets.
  eapply does_bind; [apply does_provider|]. intros provider. apply does_pure. intros Hb.
  destruct (Spec.Secret _); [|by apply does_ret].
  eapply does_bind; [apply does_quiet, quiet_the_state|]. intros state.
  by apply collect_secrets_does.
Qed.

Lemma target_meta_does F provider name :
  bare provider = bare p0 →
  does F (target_meta provider name) (λ m l, F l ∧ named m name).
Proof.
  intros Hb. destruct (bare_eq p0 provider Hb) as (Hns & _ & _). unfold target_meta.
  destruct (SetControllerReference _ _) as [m|err|] eqn:Hm; [|apply does_fail|apply does_panic].
  apply SetControllerReference_name in Hm as [Hname Hnamespace]. cbn in Hname, Hnamespace.
  eapply does_bind; [apply does_quiet, quiet_now|]. intros t. apply does_ret.
  intros l Hl. split; [done|]. split; [done|]. cbn. unfold ns. congruence.
Qed.

Lemma createOrUpdateConfigMap_does G ex cm provider settings :
  Stable G → bare provider = bare p0 →
  does (λ l, stage G ex l ∧ (cm = ConfigMap.zero ∨ GotConfigMap ns (target_name p0) (Ok cm) ∈ l))
    (createOrUpdateConfigMap cm provider settings)
    (λ _, stage (λ l, G l
       ∧ configmap_current settings.(TargetKeyValueSettings.ConfigMapSettings) l) ex).
Proof.
  intros HG Hb. destruct (bare_eq p0 provider Hb) as (_ & Hsp & _).
  unfold createOrUpdateConfigMap. cbv zeta. rewrite Hsp. fold spec.
  destruct (shouldCreateOrUpdateConfigMap _ _ _) eqn:Hw; cbn [negb].
  - eapply does_bind; [by apply target_meta_does|]. intros m.
    eapply does_bind; [apply does_call|]. intros [cm'|err|]; [|apply does_fail|apply does_panic].
    apply does_quiet_then; [apply quiet_set_configmap_version|].
    intros l (l' & -> & (Hl & _) & Hn). apply stage_and; [apply stage_snoc; [done|by eexists|done..]|].
    left. eexists _, cm'. split; [apply elem_of_app; right; by left|]. done.
  - apply does_quiet_then; [apply quiet_set_configmap_version|].
    intros l (Hl & [->|Hc]); [done|]. apply stage_and; [done|]. right. by exists cm.
Qed.

Lemma shouldCreateOrUpdateSecret_alone target settings name ex cur :
  ex !! name = Some cur →
  shouldCreateOrUpdateSecret target settings name ex
  = shouldCreateOrUpdateSecret target settings name {[name := cur]}.
Proof. intros He. unfold shouldCreateOrUpdateSecret. by rewrite He, lookup_singleton_eq. Qed.

Lemma set_secret_version_does F n shared name rv k8s :
  does F (set_secret_version n shared name rv k8s) (λ k8s' l, F l ∧ dom k8s' = dom k8s).
Proof.
  intros w Hw. pose proof (does_quiet F _ (quiet_set_secret_version n shared name rv k8s) w Hw) as Hq.
  destruct (set_secret_version _ _ _ _ _ w) as [[k8s'|r|] w'] eqn:Hr; [|done|done].
  assert (dom k8s' = dom k8s) as Hd.
  { unfold set_secret_version in Hr. apply goM_bind_Ok in Hr as (md & w1 & Hmd & Hr).
    assert (is_Some (k8s !! name)) as Hs.
    { unfold lift, deref in Hmd. by destruct (k8s !! name). }
    assert (dom (<[name := md <| TargetK8sSecretMetadata.SecretResourceVersion := rv |>]> k8s)
            = dom k8s) as Hdom by (by apply dom_insert_lookup_L).
    destruct shared; [|by injection Hr as <- _].
    apply goM_bind_Ok in Hr as (st & w2 & _ & Hr).
    apply goM_bind_Ok in Hr as (u & w3 & _ & Hr). by injection Hr as <- _. }
  eapply on_mono; [|exact Hq]. intros l Hl. by split.
Qed.

Lemma should_write_secret_false provider settings name ex l s :
  provider.(Provider.Spec) = spec → reads ex l →
  should_write_secret provider settings name ex = Ok false →
  secret_current settings name s l.
Proof.
  intros Hsp Hr. unfold should_write_secret. destruct (ex !! name) as [cur|] eqn:Hex; [|done].
  intros (ref & Href & [= Hs])%outcome_bind_Ok. right. exists cur, ref.
  split; [by apply Hr|]. split.
  - rewrite Hsp in Href. by destruct (Spec.Secret spec); simplify_eq/=.
  - by rewrite <-(shouldCreateOrUpdateSecret_alone _ _ _ ex).
Qed.

Lemma secrets_loop_does G ex provider shared settings entries k8s :
  Stable G → bare provider = bare p0 →
  does (stage G ex) (secrets_loop provider shared settings ex entries k8s)
    (λ k8s' l, stage (λ l, G l
         ∧ ∀ name s, (name, s) ∈ entries → secret_current settings name s l) ex l
       ∧ dom k8s' = dom k8s).
Proof.
  intros HG Hb. destruct (bare_eq p0 provider Hb) as (_ & Hsp & _).
  revert G HG k8s. induction entries as [|[name s] entries IH]; intros G HG k8s.
  { apply does_ret. intros l Hl. split; [|done]. apply stage_and; [done|].
    intros name s Hin. by apply not_elem_of_nil in Hin. }
  cbn [secrets_loop]. eapply does_bind; [apply does_lift|]. intros write.
  eapply (does_bind _ _ _ (λ _, stage (λ l, G l ∧ secret_current settings name s l) ex)).
  - apply does_pure. intros Hw. destruct write; cbn [negb].
    + eapply does_bind; [by apply target_meta_does|]. intros m.
      eapply does_bind; [apply does_call|]. intros [written|err|]; [|apply does_fail|apply does_panic].
      apply does_ret. intros l (l' & -> & Hl & Hn).
      apply stage_and; [apply stage_snoc; [done|by eexists|done..]|].
      left. eexists _, written. by split; [apply elem_of_app; right; by left|].
    + apply does_ret. intros l Hl. apply stage_and; [done|].
      eapply should_write_secret_false; [done|apply Hl|done].
  - intros rv. eapply does_bind; [apply set_secret_version_does|]. intros k8s'.
    apply does_pure. intros Hd.
    eapply does_weaken; [apply (IH (λ l, G l ∧ secret_current settings name s l)); auto|done|].
    intros k l [([Hl Hs] & Hr & Hf) Hk]. split; [|congruence]. split_and!; [apply Hl| |done..].
    intros name' s' [[= -> ->]|Hin]%elem_of_cons; [apply Hl|by apply Hs].
Qed.

Lemma expel_loop_does G ex provider names refs :
  Stable G → bare provider = bare p0 →
  does (stage G ex) (expel_loop provider names refs)
    (λ _, stage (λ l, G l ∧ ∀ name, name ∈ names →
       is_Some (refs !! name) ∨ DeletedSecret ns name (Ok ()) ∈ l) ex).
Proof.
  intros HG Hb. destruct (bare_eq p0 provider Hb) as (Hns & _ & _).
  revert G HG. induction names as [|name names IH]; intros G HG.
  { apply does_ret. intros l Hl. apply stage_and; [done|].
    intros name Hin. by apply not_elem_of_nil in Hin. }
  cbn [expel_loop]. set (gone := λ l : list event, is_Some (refs !! name) ∨ DeletedSecret ns name (Ok ()) ∈ l).
  assert (Stable gone) as Hgone.
  { intros l e [?|?]; [by left|right]. apply elem_of_app. by left. }
  assert (does (stage (λ l, G l ∧ gone l) ex) (expel_loop provider names refs)
    (λ _, stage (λ l, G l ∧ ∀ name', name' ∈ name :: names →
       is_Some (refs !! name') ∨ DeletedSecret ns name' (Ok ()) ∈ l) ex)) as Hrest.
  { eapply does_weaken; [apply (IH (λ l, G l ∧ gone l)); auto|done|].
    intros _ l ([[Hl Hg] Hn] & Hr & Hf). split_and!; [done| |done..].
    intros name' [->|Hin]%elem_of_cons; [done|by apply Hn]. }
  destruct (refs !! name) eqn:Href.
  - eapply does_weaken; [exact Hrest| |done]. intros l Hl. apply stage_and; [done|].
    left. by eexists.
  - rewrite Hns. fold ns. eapply does_bind; [apply does_call|].
    intros [[]|err|]; [|apply does_fail|apply does_panic].
    eapply does_weaken; [exact Hrest| |done]. intros l (l' & -> & Hl).
    apply stage_and; [by apply stage_snoc|]. right. apply elem_of_app. right. by left.
Qed.

(** The two parts of [write_targets] before the deletions. *)
Lemma write_configmap_does G ss (p : Processor.t M L) cm provider :
  Stable G → bare provider = bare p0 →
  let settings := p.(Processor.Settings) in
  let populated := p.(Processor.RefreshOptions).(RefreshOptions.ConfigMapSettingPopulated) in
  does (λ l, stage G ss l ∧ (cm = ConfigMap.zero ∨ GotConfigMap ns (target_name p0) (Ok cm) ∈ l))
    (if populated then createOrUpdateConfigMap cm provider settings else mret ())
    (λ _, stage (λ l, G l ∧ (populated = true →
       configmap_current settings.(TargetKeyValueSettings.ConfigMapSettings) l)) ss).
Proof.
  intros HG Hb settings populated. destruct populated.
  - eapply does_weaken; [by apply (createOrUpdateConfigMap_does G ss)|done|].
    intros _ l ((Hl & Hc) & Hr & Hf). by split_and!.
  - apply does_ret. intros l [Hl _]. by apply stage_and.
Qed.

Lemma write_secrets_does G ss (p : Processor.t M L) provider :
  Stable G → bare provider = bare p0 →
  let settings := p.(Processor.Settings) in
  let populated := p.(Processor.RefreshOptions).(RefreshOptions.SecretSettingPopulated) in
  does (stage G ss)
    (if populated then
       ex ← collect_secrets provider
         (range_map settings.(TargetKeyValueSettings.SecretSettings)).*1 ss;
       k8s ← createOrUpdateSecrets provider p ex;
       mret (ex, k8s)
     else mret (ss, settings.(TargetKeyValueSettings.K8sSecrets)))
    (λ r l, stage (λ l, G l ∧ (populated = true → ∀ name s,
         settings.(TargetKeyValueSettings.SecretSettings) !! name = Some s →
         secret_current settings.(TargetKeyValueSettings.SecretSettings) name s l)) r.1 l
       ∧ dom r.2 = dom settings.(TargetKeyValueSettings.K8sSecrets)).
Proof.
  intros HG Hb settings populated. destruct populated.
  - eapply does_bind; [by apply collect_secrets_does|]. intros ex.
    eapply does_bind; [by apply secrets_loop_does|]. intros k8s. apply does_ret.
    intros l (((Hl & Hs) & Hr & Hf) & Hd). split; [|done]. split_and!; [done| |done..].
    intros _ name s Hin. apply Hs. by apply elem_of_range.
  - apply does_ret. intros l Hl. split; [|done]. by apply stage_and.
Qed.

Lemma write_targets_does G ss (p : Processor.t M L) cm :
  Stable G →
  does (λ l, stage G ss l ∧ (cm = ConfigMap.zero ∨ GotConfigMap ns (target_name p0) (Ok cm) ∈ l))
    (write_targets p cm ss) (λ _ l, G l ∧ all_written p l).
Proof.
  intros HG. unfold write_targets. eapply does_bind; [apply does_provider|].
  intros provider. apply does_pure. intros Hb.
  eapply does_bind; [by apply (write_configmap_does G ss p cm)|]. intros [].
  eapply does_bind; [apply write_secrets_does; [by auto using stable_imp|done]|].
  intros [ex k8s]. cbn [fst snd]. apply does_pure. intros Hd.
  set (populated := RefreshOptions.SecretSettingPopulated _).
  match goal with |- does (stage ?G1 _) _ _ => set (F := G1) end.
  assert (Stable F) as HF by (unfold F; auto 10 using stable_imp, stable_all).
  eapply (does_bind _ _ _ (λ _ l, stage F ex l ∧ (populated = true →
    ∀ name cur, GotSecret ns name (Ok cur) ∈ l →
      is_Some (k8s !! name) ∨ DeletedSecret ns name (Ok ()) ∈ l))).
  - assert (does (stage F ex) (expelRemovedSecrets provider ex k8s)
      (λ _ l, stage F ex l ∧ (populated = true → ∀ name cur, GotSecret ns name (Ok cur) ∈ l →
        is_Some (k8s !! name) ∨ DeletedSecret ns name (Ok ()) ∈ l))) as He.
    { eapply does_weaken; [by apply (expel_loop_does F)|done|].
      intros _ l ((Hl & Hn) & Hr & Hf). split; [by split_and!|]. intros _ name cur Hg.
      apply Hn, list_elem_of_fmap. exists (name, cur). split; [done|].
      by apply elem_of_range, Hr. }
    destruct (Spec.Secret _), populated; first [exact He|by apply does_ret].
  - intros _. apply does_ret. intros l [(((Hl & Hc) & Hs) & Hr & Hf) Hg].
    split; [done|]. split_and!; [done|done|]. intros Hp. split; [by apply Hs|].
    intros name cur Hin. rewrite <-elem_of_dom, <-Hd, elem_of_dom. by eapply Hg.
Qed.

(** *** The whole *)

Lemma populate_does F n m cm ss :
  does F (populate n m cm ss) (λ p l, F l ∧ ∃ provider state t,
    bare provider = bare p0
    ∧ PopulateSettings (L:=L) cm ss (new_processor provider m state t) = (Ok (), p)).
Proof.
  unfold populate. eapply does_bind; [apply does_provider|]. intros provider.
  apply does_pure. intros Hb.
  eapply does_bind; [apply does_quiet, quiet_the_state|]. intros state.
  eapply does_bind; [apply does_quiet, quiet_now|]. intros t.
  match goal with |- context [PopulateSettings cm ss ?q] =>
    destruct (PopulateSettings cm ss q) as [o p] eqn:Hp end.
  eapply does_bind; [apply does_quiet; unfold put_state; by intros w|]. intros [].
  destruct o as [[]|err|]; [|intros w _|apply does_panic].
  - apply does_ret. intros l Hl. split; [done|]. by exists provider, state, t.
  - by destruct (requeue_stops (A:=Processor.t M L) err w) as [(r & w' & ->)|[w' ->]].
Qed.

Lemma finish_result n (p : Processor.t M L) k8s w r w' :
  finish n p k8s w = (Ok r, w') → finished p r.
Proof.
  unfold finish. intros (provider & w1 & _ & Hr)%goM_bind_Ok.
  apply goM_bind_Ok in Hr as (t & w2 & _ & Hr). apply goM_bind_Ok in Hr as (s & w3 & _ & Hr).
  apply goM_bind_Ok in Hr as (u & w4 & _ & Hr).
  apply goM_bind_Ok in Hr as (provider' & w5 & _ & Hr).
  apply goM_bind_Ok in Hr as (state & w6 & _ & Hr). apply goM_bind_Ok in Hr as (t' & w7 & _ & Hr).
  destruct (Finish t' _) as [r' q] eqn:Hf.
  apply goM_bind_Ok in Hr as (u' & w8 & _ & Hr). apply goM_bind_Ok in Hr as (u2 & w9 & _ & Hr).
  injection Hr as <- _. exists t', provider', state, k8s. by rewrite Hf.
Qed.

Lemma after_start_does n :
  does (λ l, l = []) (after_start n) (λ r l, completed l r).
Proof.
  unfold after_start.
  eapply does_bind; [apply does_quiet_then; [apply quiet_check_spec|]|intros []].
  { intros l ->. instantiate (1 := stage always ∅). split; [done|]. split; [|done].
    intros name s. by rewrite elem_of_nil, lookup_empty. }
  eapply does_bind; [by apply existing_configmap_does|]. intros cm.
  set (C := λ l : list event, cm = ConfigMap.zero ∨ GotConfigMap ns (target_name p0) (Ok cm) ∈ l).
  assert (Stable C) as HC by apply stable_configmap_read.
  eapply does_bind; [apply does_quiet_then; [apply quiet_ensure_state|]|intros []].
  { intros l [Hl Hc]. exact (stage_and always C ∅ l Hl Hc). }
  eapply does_bind; [apply (existing_secrets_does (λ l, always l ∧ C l)); by auto using stable_always|].
  intros ss.
  eapply does_bind; [apply does_quiet, quiet_forget|]. intros [].
  eapply does_bind; [apply does_quiet, quiet_client_manager|]. intros m.
  eapply does_bind; [apply populate_does|]. intros p. apply does_pure. intros (provider & state & t & Hq & Hp).
  set (S := λ l : list event, ∀ name cur, ss !! name = Some cur → GotSecret ns name (Ok cur) ∈ l).
  assert (Stable S) as HS by (intros l e Hs name cur Hin; apply elem_of_app; left; by apply Hs).
  eapply does_bind.
  { eapply does_weaken; [apply (write_targets_does (λ l, C l ∧ S l) ss p cm)| |].
    - auto.
    - intros l ((Ha & Hc) & Hr & Hf). split; [|done]. split_and!; [done| |done..].
      intros name cur Hin. by apply Hr.
    - intros k8s l Hl. exact Hl. }
  intros k8s w Hw. pose proof (does_quiet _ _ (quiet_finish n p k8s) w Hw) as Hf.
  destruct (finish n p k8s w) as [[r|r|] w'] eqn:Hr; [|done|done].
  eapply on_mono; [|exact Hf]. intros l ((Hc & Hs) & Ha). exists cm, ss, provider, m, state, t, p.
  split_and!; [done..|]. by eapply finish_result.
Qed.
End completion.

Section final_phase.
Context `{Unicode} `{IPLiterals} `{UUIDParser} `{WorkloadEnv}
  `{Yaml2} `{MapOrder} `{KubeOk} {M L : Type} `{!LoaderOf M L}.
Notation world := (World.t M).

(** What a run promises when it leaves [ph] in the status, having made
    [calls] and returned [r]. *)
Definition outcome_of (provider : Provider.t) (ph : SyncPhase) (calls : list event)
    (r : Result.t) : Prop :=
  let spec := provider.(Provider.Spec) in
  if decide (ph = PhaseComplete)
  then valid_spec spec ∧ completed (M:=M) (L:=L) provider calls r
  else failed ph ∧ (valid_spec spec ∧ comes_back (M:=M) (L:=L) r
                    ∨ ¬ valid_spec spec ∧ r = Result.zero).

End final_phase.

(** ** Witness *)

Import ValidationWitness ReconcilerWitness.

