(* ===== verification/Events.v ===== *)
(** The events of the watched objects: [internal/controller/event_handler.go].

    The reconciler watches the ConfigMaps and Secrets of the cluster.  A change
    or a deletion of one that a provider owns queues a request for the provider,
    unless the reconciler itself made the change.

    The theorem: a change queues exactly the request of the first provider among
    the owners when the annotation the reconciler renews with every write is
    the same on both sides. *)

From S2P Require Import Prelude GoStrings Errors Api Data Validation Reconciler.

(** The loop over the owner references, up to the first provider. *)
Fixpoint owner_provider (ownerRefs : list OwnerReference.t) : option string :=
  match ownerRefs with
  | [] => None
  | owner :: ownerRefs' =>
    if String.eqb owner.(OwnerReference.Kind) ProviderName
    then Some owner.(OwnerReference.Name) else owner_provider ownerRefs'
  end.

(** [WatchedObjectPredicate] *)
Inductive watch_event : Type :=
  | CreateEvent (object : ObjectMeta.t)
  | UpdateEvent (objectOld objectNew : ObjectMeta.t)
  | DeleteEvent (object : ObjectMeta.t)
  | GenericEvent (object : ObjectMeta.t).

Definition WatchedObjectPredicate (e : watch_event) : bool :=
  match e with
  | DeleteEvent _ | UpdateEvent _ _ => true
  | CreateEvent _ | GenericEvent _ => false
  end.

(** A missing annotation reads as the empty string. *)
Definition last_reconcile (m : ObjectMeta.t) : string :=
  default EmptyString (m.(ObjectMeta.Annotations) !! LastReconcileTimeAnnotation).

Definition handler_Update (objectOld objectNew : ObjectMeta.t) (q : list NamespacedName)
    : list NamespacedName :=
  match owner_provider objectNew.(ObjectMeta.OwnerReferences) with
  | None => q
  | Some ownerProvider =>
    if negb (String.eqb (last_reconcile objectNew) (last_reconcile objectOld)) then q
    else q ++ [(objectNew.(ObjectMeta.Namespace), ownerProvider)]
  end.

Definition handler_Delete (object : ObjectMeta.t) (q : list NamespacedName)
    : list NamespacedName :=
  match owner_provider object.(ObjectMeta.OwnerReferences) with
  | None => q
  | Some ownerProvider => q ++ [(object.(ObjectMeta.Namespace), ownerProvider)]
  end.

(** An event that passes the predicate is handed to its handler. *)
Definition handle (e : watch_event) (q : list NamespacedName) : list NamespacedName :=
  if WatchedObjectPredicate e then
    match e with
    | UpdateEvent o n => handler_Update o n q
    | DeleteEvent o => handler_Delete o q
    | CreateEvent _ | GenericEvent _ => q
    end
  else q.

(** [newEventFilter] on an update of a provider; the other events pass.  A nil
    map and an empty one are not told apart. *)
Definition newEventFilter (objectOld objectNew : Provider.t) : bool :=
  negb (objectOld.(Provider.Generation) =? objectNew.(Provider.Generation))%Z
  || negb (bool_decide (objectOld.(Provider.Annotations) = objectNew.(Provider.Annotations)))
  || negb (bool_decide (objectOld.(Provider.Labels) = objectNew.(Provider.Labels))).

Inductive provider_event : Type :=
  | ProviderCreated (object : Provider.t)
  | ProviderUpdated (objectOld objectNew : Provider.t)
  | ProviderDeleted (object : Provider.t)
  | ProviderGeneric (object : Provider.t).

(** The events of the three kinds of objects the controller is set up for. *)
Inductive cluster_event : Type :=
  | OnProvider (e : provider_event)
  | OnConfigMap (e : watch_event)
  | OnSecret (e : watch_event).

(** [SetupWithManager]: the events of providers that pass the filter go to the
    handler of [builder.For] (of the library), those of ConfigMaps and Secrets
    to the handler of the watched objects. *)
Definition SetupWithManager
    (EnqueueRequestForObject : provider_event → list NamespacedName → list NamespacedName)
    (e : cluster_event) (q : list NamespacedName) : list NamespacedName :=
  match e with
  | OnProvider (ProviderUpdated objectOld objectNew as e) =>
    if newEventFilter objectOld objectNew then EnqueueRequestForObject e q else q
  | OnProvider e => EnqueueRequestForObject e q
  | OnConfigMap e | OnSecret e => handle e q
  end.

Lemma owner_provider_Some refs name :
  owner_provider refs = Some name ↔
  ∃ l1 o l2, refs = l1 ++ o :: l2 ∧ o.(OwnerReference.Kind) = ProviderName
    ∧ o.(OwnerReference.Name) = name
    ∧ Forall (λ o', o'.(OwnerReference.Kind) ≠ ProviderName) l1.
Proof.
  induction refs as [|o refs IH]; cbn [owner_provider].
  { split; [done|]. by intros ([] & ? & ? & ? & _). }
  destruct (String.eqb_spec (OwnerReference.Kind o) ProviderName) as [Hk|Hk].
  - split.
    + intros [= <-]. exists [], o, refs. by split_and!.
    + intros ([|o1 l1] & o2 & l2 & Heq & Hk2 & Hn & Hf); [by simplify_eq/=|].
      simplify_eq/=. by apply Forall_cons in Hf as [? _].
  - rewrite IH. split.
    + intros (l1 & o1 & l2 & -> & Hk1 & Hn & Hf). exists (o :: l1), o1, l2.
      split_and!; [done|done|done|by constructor].
    + intros ([|o1 l1] & o2 & l2 & Heq & Hk2 & Hn & Hf); [by simplify_eq/=|].
      simplify_eq/=. apply Forall_cons in Hf as [_ Hf]. by exists l1, o2, l2.
Qed.

(** The object that [createOrUpdateConfigMap] and [createOrUpdateSecrets] write
    carries the time of the write. *)
Lemma annotations_at_last `{Kube} p t m :
  last_reconcile (m <| ObjectMeta.Annotations := annotations_at p t |>) = utc_string t.
Proof. unfold last_reconcile. cbn. unfold annotations_at. by rewrite lookup_insert_eq. Qed.

Lemma handler_Update_request old new q :
  handler_Update old new q
  = match owner_provider new.(ObjectMeta.OwnerReferences) with
    | Some name => if String.eqb (last_reconcile new) (last_reconcile old)
                   then q ++ [(new.(ObjectMeta.Namespace), name)] else q
    | None => q
    end.
Proof. unfold handler_Update. destruct (owner_provider _); [|done]. by destruct (String.eqb _ _). Qed.

Lemma newEventFilter_bare p p' : bare p' = bare p → newEventFilter p p' = false.
Proof.
  intros Hb. pose proof (f_equal Provider.Generation Hb) as Hg.
  pose proof (f_equal Provider.Annotations Hb) as Ha.
  pose proof (f_equal Provider.Labels Hb) as Hl. cbn in Hg, Ha, Hl.
  unfold newEventFilter. by rewrite Hg, Ha, Hl, Z.eqb_refl, !bool_decide_eq_true_2.
Qed.

(** The provider among the owners of an object, the first one when there are
    several. *)
Definition first_provider (m : ObjectMeta.t) (name : string) : Prop :=
  ∃ l1 o l2, m.(ObjectMeta.OwnerReferences) = l1 ++ o :: l2
    ∧ o.(OwnerReference.Kind) = ProviderName ∧ o.(OwnerReference.Name) = name
    ∧ Forall (λ o', o'.(OwnerReference.Kind) ≠ ProviderName) l1.

(** C36: The controller does not wake itself up, and misses nobody else's
    change: a patch of the status, the creation of an object, and the write of
    an object at another time than the last one queue nothing; a change of an
    owned ConfigMap or Secret that keeps its reconcile time, and its deletion,
    queue exactly the request of the first provider among its owners. *)
Theorem SetupWithManager_requests `{Kube} enqueue q :
  (∀ p p', bare p' = bare p →
     SetupWithManager enqueue (OnProvider (ProviderUpdated p p')) q = q)
  ∧ ∀ kind, kind = OnConfigMap ∨ kind = OnSecret →
    (∀ m, SetupWithManager enqueue (kind (CreateEvent m)) q = q)
    ∧ (∀ old new p t, last_reconcile old ≠ utc_string t →
         SetupWithManager enqueue
           (kind (UpdateEvent old (new <| ObjectMeta.Annotations := annotations_at p t |>))) q = q)
    ∧ (∀ old new name, first_provider new name → last_reconcile new = last_reconcile old →
         SetupWithManager enqueue (kind (UpdateEvent old new)) q
         = q ++ [(new.(ObjectMeta.Namespace), name)])
    ∧ (∀ m name, first_provider m name →
         SetupWithManager enqueue (kind (DeleteEvent m)) q = q ++ [(m.(ObjectMeta.Namespace), name)])
    ∧ (∀ m, (∀ name, ¬ first_provider m name) → ∀ old,
         SetupWithManager enqueue (kind (UpdateEvent old m)) q = q
         ∧ SetupWithManager enqueue (kind (DeleteEvent m)) q = q).
Proof.
  split; [intros p p' Hb; cbn; by rewrite newEventFilter_bare|].
  intros kind Hk.
  assert (∀ e, SetupWithManager enqueue (kind e) q = handle e q) as Hkind
    by (by destruct Hk as [->| ->]).
  setoid_rewrite Hkind. unfold handle, handler_Delete. cbn [WatchedObjectPredicate].
  setoid_rewrite handler_Update_request. split_and!; [done|..].
  - intros old new p t Ht. rewrite annotations_at_last. cbn.
    destruct (owner_provider _); [|done].
    destruct (String.eqb_spec (utc_string t) (last_reconcile old)); [congruence|done].
  - intros old new name ->%owner_provider_Some ->. by rewrite String.eqb_refl.
  - by intros m name ->%owner_provider_Some.
  - intros m Hn old. destruct (owner_provider _) as [name|] eqn:Ho; [|done].
    apply owner_provider_Some in Ho. by destruct (Hn name).
Qed.
