(* ===== verification/Program.v ===== *)
(** The program put together: the loader of [SettingLoader.v], with the client
    manager of [Clients.v] and [Auth.v], as the loader the reconciler of
    [Reconciler.v] runs.

    [CSL] methods are the six methods of [ConfigurationSettingsRetriever], so
    every theorem about the processor and the reconciler, proved against the
    interfaces, holds of the program; an end-to-end run is evaluated. *)

From S2P Require Import Prelude GoStrings Regex Errors Api Json Filters Tree Codec Data.
From S2P Require Import TypedSettings Url ConnString Backoff Tracing Clients Failover.
From S2P Require Import SettingsClients Auth KeyVault SettingLoader Processor Validation.
From S2P Require Import Reconciler.

(** A loader with the copy of the provider it was built for. *)
Definition program_loader `{SDK} : Type := Provider.t * CSL.t.

Section program.
Context `{Unicode} `{IPLiterals} `{Codec} `{MapOrder} `{Crypto}
  `{SDK} `{!Store} `{Resolver} `{!Identity} `{Cluster}
  `{UUIDParser} `{TenantEnv}.
Context {R : Type} `{!SecretResolver R}.
(** What the loader of one request finds: the environment of each run of the
    failover policy, the time and the lookup when snapshots are loaded, and the
    address of the label of [normalizeSentinels].  [System.v] gives each request
    others. *)
Context (env : nat → PolicyEnv.t) (now : Time.time) (lk : Lookup.t) (null : N).

Definition run_method {A} (m : Provider.t → goM CSL.t error A)
    : goM program_loader error A := λ '(provider, s),
  let '(o, s') := m provider s in (o, (provider, s')).

(** The methods, with the nil resolver the processor passes. *)
Definition loader_retriever : Retriever program_loader := {|
  Processor.CreateTargetSettings :=
    run_method (λ p, SettingLoader.CreateTargetSettings (R:=R) p env now lk null None);
  Processor.CheckPageETags etags := run_method (λ p, SettingLoader.CheckPageETags p env etags);
  Processor.CheckAndRefreshSentinels etags :=
    run_method (λ p, SettingLoader.CheckAndRefreshSentinels p env etags);
  Processor.RefreshKeyValueSettings existing :=
    run_method (λ p, SettingLoader.RefreshKeyValueSettings (R:=R) p env now lk existing None);
  Processor.RefreshFeatureFlagSettings existing :=
    run_method (λ p, SettingLoader.RefreshFeatureFlagSettings p env existing);
  Processor.ResolveSecretReferences refs :=
    run_method (λ p, lift (SettingLoader.ResolveSecretReferences (R:=R) p refs None));
|}.

(** [NewConfigurationSettingLoader]: no tracing feature set yet. *)
Definition NewConfigurationSettingLoader (provider : Provider.t) (m : Clients.t)
    : program_loader :=
  (provider, CSL.mk _ (Loader.mk _ TracingFeatures.zero m) 0).

Definition program : LoaderOf Clients.t program_loader := {|
  new_manager := NewConfigurationClientManager;
  new_loader := NewConfigurationSettingLoader;
  manager_of l := l.2.(CSL.loader).(Loader.ClientManager);
  retriever := loader_retriever;
|}.
End program.

(** ** A run of the whole program *)

Module ProgramWitness.
Import ClientsWitness FailoverWitness ValidationWitness ReconcilerWitness.
#[export] Existing Instance no_ip_literals.
#[export] Existing Instance SettingLoaderWitness.vault.
#[export] Existing Instance SettingLoaderWitness.crypto.
#[export] Existing Instance dns.

(** The store has one page of settings, two of which have the same key once
    their prefix is trimmed. *)
Definition store : @Store sdk := {|
  ListSettings _ _ _ :=
    [Ok (Page.mk (Some [SettingLoaderWitness.plain "app:color" "red";
                        SettingLoaderWitness.plain "color" "green";
                        SettingLoaderWitness.plain "app:size" "3"]) (Some "e1"))];
  GetSetting _ _ _ _ := Err (ResponseError 404 EmptyString "not found");
  GetSnapshot _ _ := Err (ResponseError 404 EmptyString "not found");
  ListSettingsForSnapshot _ _ := [];
|}.
#[export] Existing Instance store.

Definition provider : Provider.t :=
  let p := at_phase NoPhase in
  p <| Provider.Spec := p.(Provider.Spec)
       <| Spec.Configuration := KeyValueOptions.mk [] ["app:"]
            p.(Provider.Spec).(Spec.Configuration).(KeyValueOptions.Refresh) |> |>.
Definition world : World.t Clients.t := World.mk _ [] ∅ provider.
Definition run :=
  @Reconcile _ _ _ _ _ _ (kube provider) _ _
    (program (R:=unit) (λ _, FailoverWitness.env) t0 lk 0) key world.

(** The data of the ConfigMaps written. *)
Definition written (w : World.t Clients.t) : list (gmap string string) :=
  omap (λ e, match e with WroteConfigMap obj (Ok _) => obj.(ConfigMap.Data) | _ => None end)
    w.(World.log).
End ProgramWitness.
Import ProgramWitness.

(** The reconciliation loads the settings, the last one of a key winning, and
    writes them to the ConfigMap it owns. *)
Example program_run :
  run.1 = Ok (Result.mk true (30 * Time.Second - 1)%Z)
  ∧ written run.2 = [{["color" := "green"; "size" := "3"]}]
  ∧ phase run.2 = PhaseComplete.
Proof. vm_compute. split_and!; reflexivity. Qed.
