(* ===== verification/Main.v ===== *)
(** The entry point: [cmd/main.go].

    [main] parses the flags, builds a manager, sets the controller and the two
    checks up, and starts the manager; any error ends the process with status
    1.  The manager is the library's: an interface of the calls [main] makes.

    The theorem: the calls made are a prefix of the sequence of setup, up to
    the first that fails; the manager starts only when everything is set up;
    the process returns normally only when the manager has run and stopped
    without an error. *)

From S2P Require Import Prelude GoStrings Errors.

Module Flags.
Record t := mk {
  metricsAddr : string;
  probeAddr : string;
  enableLeaderElection : bool;
}.
(** The defaults of [flag.StringVar] and [flag.BoolVar]. *)
Definition default : t := mk ":8080" ":8081" false.
End Flags.

(** [ctrl.Options], less the scheme. *)
Module Options.
Record t := mk {
  BindAddress : string;
  HealthProbeBindAddress : string;
  LeaderElection : bool;
  LeaderElectionID : string;
}.
End Options.

Definition LeaderElectionID : string := "leader.elect.locker.azappconfig.io".

(** The library as [main] calls it; [GetConfigOrDie] ends the process itself,
    so [None] is no return. *)
Class Runtime := {
  config : Type;
  mgr : Type;
  AddClientGoScheme : result ();
  AddProviderScheme : result ();
  GetConfigOrDie : option config;
  NewManager : config → Options.t → result mgr;
  Complete : mgr → result ();
  AddHealthzCheck : mgr → string → result ();
  AddReadyzCheck : mgr → string → result ();
  Start : mgr → result ();
}.

Inductive setup_step : Type :=
  | MadeManager (o : Options.t)
  | SetController
  | AddedHealthz
  | AddedReadyz
  | Started.

Section main.
Context `{Runtime}.
(** The calls made; an [Err] is the status of [os.Exit]. *)
Notation setup A := (goM (list setup_step) Z A).

(** [utilruntime.Must] panics on an error. *)
Definition Must (o : result ()) : result () := match o with Ok _ => Ok () | _ => Panic end.
Definition init : result () := _ ← Must AddClientGoScheme; Must AddProviderScheme.

(** A call; [if err != nil { setupLog.Error(...); os.Exit(1) }]. *)
Definition or_exit {A} (s : setup_step) (o : result A) : setup A := λ l,
  (match o with Ok a => Ok a | Err _ => Err 1%Z | Panic => Panic end, l ++ [s]).

Definition options (f : Flags.t) : Options.t := {|
  Options.BindAddress := f.(Flags.metricsAddr);
  Options.HealthProbeBindAddress := f.(Flags.probeAddr);
  Options.LeaderElection := f.(Flags.enableLeaderElection);
  Options.LeaderElectionID := LeaderElectionID;
|}.

Definition main (f : Flags.t) : setup () :=
  cfg ← (match GetConfigOrDie with Some cfg => mret cfg | None => throw 1%Z end);
  m ← or_exit (MadeManager (options f)) (NewManager cfg (options f));
  _ ← or_exit SetController (Complete m);
  _ ← or_exit AddedHealthz (AddHealthzCheck m "healthz");
  _ ← or_exit AddedReadyz (AddReadyzCheck m "readyz");
  or_exit Started (Start m).

(** The setup in order. *)
Definition setup_sequence (f : Flags.t) : list setup_step :=
  [MadeManager (options f); SetController; AddedHealthz; AddedReadyz; Started].

(** Everything that must succeed before [Start]. *)
Definition ready_to_start (f : Flags.t) (m : mgr) : Prop :=
  ∃ cfg, GetConfigOrDie = Some cfg ∧ NewManager cfg (options f) = Ok m
    ∧ Complete m = Ok () ∧ AddHealthzCheck m "healthz" = Ok ()
    ∧ AddReadyzCheck m "readyz" = Ok ().

(** What the library answers to a step of the setup, its value apart: a call
    that needs the configuration or the manager is answered once they are
    there. *)
Definition forget {A} (o : result A) : result () := (λ _, ()) <$> o.
Definition answered (f : Flags.t) (s : setup_step) (o : result ()) : Prop :=
  ∃ cfg, GetConfigOrDie = Some cfg ∧
    match s with
    | MadeManager opts => o = forget (NewManager cfg opts)
    | _ => ∃ m, NewManager cfg (options f) = Ok m ∧
        o = match s with
            | SetController => Complete m
            | AddedHealthz => AddHealthzCheck m "healthz"
            | AddedReadyz => AddReadyzCheck m "readyz"
            | _ => Start m
            end
    end.

(** The process after [calls]: how it ends is what the last call says.  With no
    call, the configuration could not be read. *)
Definition ends_with (f : Flags.t) (calls : list setup_step) (o : outcome Z ()) : Prop :=
  match last calls with
  | None => GetConfigOrDie = None ∧ o = Err 1%Z
  | Some s => ∃ answer, answered f s answer
      ∧ match answer with
        | Ok _ => s = Started ∧ o = Ok ()
        | Err _ => o = Err 1%Z
        | Panic => o = Panic
        end
  end.

Lemma answered_unique f s o o' : answered f s o → answered f s o' → o = o'.
Proof.
  intros (cfg & Hc & Ho) (cfg' & Hc' & Ho'). simplify_eq.
  destruct s; [by subst| |..]; destruct Ho as (m & Hm & ->), Ho' as (m' & Hm' & ->); congruence.
Qed.

(** What follows of an end. *)
Lemma ends_with_panic f calls o :
  ends_with f calls o → o = Panic ↔ ∃ s, last calls = Some s ∧ answered f s Panic.
Proof.
  unfold ends_with. destruct (last calls) as [s|]; [|naive_solver].
  intros (a & Ha & He). split.
  - intros ->. exists s. split; [done|]. destruct a; naive_solver.
  - intros (s' & [= <-] & Hp). by rewrite (answered_unique _ _ _ _ Ha Hp) in He.
Qed.
Lemma ends_with_exit f calls o status :
  ends_with f calls o → (calls = [] ↔ GetConfigOrDie = None) →
  o = Err status ↔ status = 1%Z ∧ (GetConfigOrDie = None
                     ∨ ∃ s err, last calls = Some s ∧ answered f s (Err err)).
Proof.
  unfold ends_with. intros He Hn. destruct (last calls) as [s|] eqn:Hl.
  - destruct He as (a & Ha & He). split.
    + intros ->. destruct a as [?|err|]; [naive_solver| |naive_solver].
      injection He as ->. split; [done|]. right. by exists s, err.
    + intros (-> & [Hc|(s' & err & [= <-] & Hp)]).
      * apply Hn in Hc as ->. done.
      * by rewrite (answered_unique _ _ _ _ Ha Hp) in He.
  - destruct He as [Hc ->]. naive_solver.
Qed.

(** Closes what is known of a run whose answers are known. *)
Ltac answer_all :=
  repeat match goal with
  | H : ∃ _, _ |- _ => destruct H | H : _ ∧ _ |- _ => destruct H
  | H : _ ∈ _ :: _ |- _ => apply elem_of_cons in H as [H|H]
  | H : _ ∈ [] |- _ => by apply not_elem_of_nil in H
  end;
  simplify_eq/=; try congruence; eauto 10.

(** The answer of a call that a hypothesis gives. *)
Ltac find_answer :=
  eexists; split; [reflexivity|];
  first [ eexists; split; [eassumption|symmetry; eassumption]
        | match goal with H : NewManager _ _ = _ |- _ => by rewrite H end ].

(** The calls, and how the process ends, in each case. *)
Lemma main_run (f : Flags.t) :
  let '(o, calls) := main f [] in
  calls `prefix_of` setup_sequence f
  ∧ (calls = [] ↔ GetConfigOrDie = None)
  ∧ Forall (λ s, answered f s (Ok ())) (removelast calls)
  ∧ ends_with f calls o
  ∧ (Started ∈ calls ↔ ∃ m, ready_to_start f m)
  ∧ (o = Ok () ↔ ∃ m, ready_to_start f m ∧ Start m = Ok ()).
Proof.
  unfold main, ready_to_start, setup_sequence, or_exit, ends_with, answered, forget.
  unfold mbind, goM_bind, mret, goM_ret, throw. cbn -[options].
  destruct GetConfigOrDie as [cfg|] eqn:Hg; cbn -[options];
    [destruct (NewManager cfg (options f)) as [m|e|] eqn:Hm; cbn -[options]|];
    [destruct (Complete m) as [[]|e|] eqn:Hc; cbn -[options]|..];
    [destruct (AddHealthzCheck m "healthz") as [[]|e|] eqn:Hh; cbn -[options]|..];
    [destruct (AddReadyzCheck m "readyz") as [[]|e|] eqn:Hr; cbn -[options]|..];
    [destruct (Start m) as [[]|e|] eqn:Hs; cbn -[options]|..];
    (split; [by eexists|]; split_and!;
     lazymatch goal with
     | |- Forall _ _ => repeat constructor; find_answer
     | |- _ ↔ _ => rewrite ?elem_of_cons, ?elem_of_nil; split; intros; destruct_or?; answer_all
     | _ => first [by split | eexists; split; [find_answer|done]]
     end).
Qed.

(** C37: The program sets everything up before it starts: the calls [main] makes
    are a prefix of the sequence of setup in which every call but the last
    succeeded; the manager is started exactly when every call before did; and
    the end of the process is decided by the last call alone: it exits with
    status 1 exactly when that call returned an error (or the configuration
    could not be read), panics exactly when that call panics, and returns
    normally exactly when the started manager returned without an error. *)
Theorem main_starts_when_ready (f : Flags.t) :
  let '(o, calls) := main f [] in
  calls `prefix_of` setup_sequence f
  ∧ Forall (λ s, answered f s (Ok ())) (removelast calls)
  ∧ ends_with f calls o
  ∧ (Started ∈ calls ↔ ∃ m, ready_to_start f m)
  ∧ (o = Ok () ↔ ∃ m, ready_to_start f m ∧ Start m = Ok ())
  ∧ (o = Panic ↔ ∃ s, last calls = Some s ∧ answered f s Panic)
  ∧ (∀ status, o = Err status ↔
       status = 1%Z ∧ (GetConfigOrDie = None
                       ∨ ∃ s err, last calls = Some s ∧ answered f s (Err err))).
Proof.
  pose proof (main_run f) as Hr. destruct (main f []) as [o calls].
  destruct Hr as (Hp & Hn & Hf & He & Hs & Ho). split_and!; [done..| |].
  - by apply ends_with_panic.
  - intros status. by apply ends_with_exit.
Qed.
End main.
