(* ===== verification/System.v ===== *)
(** The controller over time: requests handled one after the other.

    [Reconciler.v] proves properties of one reconciliation.  Here a run of the
    controller is a sequence of them over one table of reconciliation states
    and one log, each request in an [Environment] of its own (time, DNS, store,
    cluster, vaults, credentials), with restarts in between: [reachable] is the
    closure of the step relation, and the theorem holds of every world it
    reaches.

    The loader is the interface [LoaderOf]; [LoaderInv] adds what it promises
    of its client managers (a new manager satisfies the invariant, and every
    method keeps it), and [Program.v]'s loader is shown to keep the promise. *)

From S2P Require Import Prelude GoStrings Errors Api Json Filters Tree Codec Data Url ConnString.
From S2P Require Import Backoff Clients Auth KeyVault Failover SettingsClients SettingLoader.
From S2P Require Import ManagerInvariant Processor Validation Reconciler Program.

(** ** What a loader promises of its managers *)

Class LoaderInv {M L : Type} `{!LoaderOf M L} (I : M → Prop) : Prop := {
  new_manager_inv p m : new_manager p = Ok m → I m;
  manager_of_new p m : manager_of (new_loader p m) = m;
  CreateTargetSettings_inv : keeps (preserves (I ∘ manager_of)) CreateTargetSettings;
  CheckPageETags_inv e : keeps (preserves (I ∘ manager_of)) (CheckPageETags e);
  CheckAndRefreshSentinels_inv e :
    keeps (preserves (I ∘ manager_of)) (CheckAndRefreshSentinels e);
  RefreshKeyValueSettings_inv e :
    keeps (preserves (I ∘ manager_of)) (RefreshKeyValueSettings e);
  RefreshFeatureFlagSettings_inv e :
    keeps (preserves (I ∘ manager_of)) (RefreshFeatureFlagSettings e);
  ResolveSecretReferences_inv r :
    keeps (preserves (I ∘ manager_of)) (ResolveSecretReferences r);
}.

(** ** The processor keeps the manager of its loader *)

Section processor.
Context `{MapOrder} {M L : Type} `{!LoaderOf M L}.
Context (I : M → Prop) `{!LoaderInv I}.
Notation processor := (Processor.t M L).
Notation method A := (goM processor error A).

Definition processor_inv (p : processor) : Prop := I (manager_of p.(Processor.Retriever)).
Notation kept m := (keeps (preserves processor_inv) m).

Lemma retrieve_kept {A} (m : goM L error A) :
  keeps (preserves (I ∘ manager_of)) m → kept (retrieve m).
Proof.
  intros Hm p Hp. specialize (Hm p.(Processor.Retriever) Hp). unfold retrieve.
  destruct (m _). exact Hm.
Qed.

Ltac kept_all :=
  repeat first
    [ keeps_step
    | progress unfold set_options, set_state, set_next_ff, set_next_kv, set_next_secret
    | progress cbv zeta beta ];
  try keeps_state; try apply retrieve_kept.

Lemma PopulateSettings_kept cm ss : kept (PopulateSettings cm ss).
Proof.
  unfold PopulateSettings, processFullReconciliation, processFeatureFlagRefresh,
    processKeyValueRefresh, check_key_values, processSecretReferenceRefresh.
  kept_all; first
    [ apply CreateTargetSettings_inv | apply CheckPageETags_inv
    | apply CheckAndRefreshSentinels_inv | apply RefreshKeyValueSettings_inv
    | apply RefreshFeatureFlagSettings_inv | apply ResolveSecretReferences_inv ].
Qed.

Lemma commit_manager (p : processor) :
  (commit p).(ReconciliationState.ClientManager)
  = p.(Processor.State).(ReconciliationState.ClientManager).
Proof. unfold commit. by repeat case_match. Qed.
Lemma commit_refresh_manager (p : processor) :
  (commit_refresh p).(Processor.State).(ReconciliationState.ClientManager)
  = p.(Processor.State).(ReconciliationState.ClientManager).
Proof. unfold commit_refresh. by repeat case_match. Qed.

(** [Finish] does not touch the manager of the state. *)
Lemma Finish_manager t (p : processor) :
  (Finish t p).2.(Processor.State).(ReconciliationState.ClientManager)
  = p.(Processor.State).(ReconciliationState.ClientManager).
Proof.
  unfold Finish. cbv zeta. destruct (_ && _); cbn [snd];
    [|rewrite commit_refresh_manager]; apply commit_manager.
Qed.
End processor.

(** ** A reconciliation keeps the managers of the table *)

Section reconcile.
Context `{Unicode} `{IPLiterals} `{UUIDParser} `{WorkloadEnv}
  `{Yaml2} `{MapOrder} `{Kube} {M L : Type} `{!LoaderOf M L}.
Context (I : M → Prop) `{!LoaderInv I}.
Notation world := (World.t M).
Notation step A := (goM world Result.t A).

Definition state_inv (s : ReconciliationState.t M) : Prop :=
  ∀ m, s.(ReconciliationState.ClientManager) = Some m → I m.
Definition world_inv (w : world) : Prop :=
  map_Forall (λ _ s, state_inv s) w.(World.ProvidersReconcileState).

(** On every path; [Q] is what is known of the value returned. *)
Definition yields {A} (m : step A) (Q : A → Prop) : Prop :=
  triple world_inv m (λ a w, world_inv w ∧ Q a) (λ _, world_inv) world_inv.
Notation kept m := (yields m (λ _, True)).

Lemma yields_bind {A B} (m : step A) (f : A → step B) P Q :
  yields m P → (∀ a, P a → yields (f a) Q) → yields (m ≫= f) Q.
Proof.
  intros Hm Hf. eapply triple_bind; [exact Hm|]. cbv beta. intros a w [Hw Ha]. by apply Hf.
Qed.
Lemma yields_ret {A} (a : A) (Q : A → Prop) : Q a → yields (mret a) Q.
Proof. intros Ha. by apply triple_ret. Qed.
Lemma yields_weaken {A} (m : step A) (P Q : A → Prop) :
  yields m P → (∀ a, P a → Q a) → yields m Q.
Proof. intros Hm HPQ. eapply triple_conseq; [exact Hm|..]; naive_solver. Qed.

(** A step that leaves the table alone. *)
Lemma yields_same {A} (m : step A) :
  keeps (same World.ProvidersReconcileState) m → kept m.
Proof.
  intros Hm w Hw. specialize (Hm w). unfold same, world_inv in *.
  destruct (m w) as [[a|e|] w']; cbn in Hm; by rewrite Hm.
Qed.
Lemma the_state_yields n : yields (the_state n) state_inv.
Proof.
  intros w Hw. unfold the_state. destruct (_ !! n) as [s|] eqn:Hs; [|done].
  split; [done|]. by apply (Hw n).
Qed.
Lemma put_state_kept n s : state_inv s → kept (put_state n s).
Proof.
  intros Hs w Hw. cbn. split; [|done]. unfold world_inv. cbn. by apply map_Forall_insert_2.
Qed.

Notation table := World.ProvidersReconcileState.

Lemma call_same {A} (ev : result A → event) ask : keeps (same (table (M:=M))) (call ev ask).
Proof. by intros w. Qed.
Lemma provider_same : keeps (same (table (M:=M))) provider_.
Proof. by intros w. Qed.
Lemma get_state_same n : keeps (same (table (M:=M))) (get_state n).
Proof. by intros w. Qed.
Lemma the_state_same n : keeps (same (table (M:=M))) (the_state n).
Proof. by intros w. Qed.
Lemma now_same : keeps (same (table (M:=M))) now.
Proof. by intros w. Qed.

Ltac same_all :=
  repeat first [ keeps_step | progress cbv zeta beta
               | progress unfold fail, set_status, newProviderStatus, logAndSetFailStatus ];
  first [ apply provider_same | apply get_state_same | apply the_state_same
        | apply now_same | apply call_same | reflexivity | idtac ].

Lemma log_kept err : kept (logAndSetFailStatus err).
Proof. apply yields_same. unfold logAndSetFailStatus. same_all. Qed.
Lemma fail_kept {A} err (Q : A → Prop) : yields (fail (A:=A) err) Q.
Proof.
  unfold fail. eapply yields_bind; [apply log_kept|]. intros _ _. by apply triple_throw.
Qed.
Lemma panic_kept {A} (Q : A → Prop) : yields (lift (Panic : outcome Result.t A)) Q.
Proof. by intros w Hw. Qed.
Lemma throw_kept {A} r (Q : A → Prop) : yields (throw (A:=A) r) Q.
Proof. by apply triple_throw. Qed.

Lemma requeue_kept {A} err (Q : A → Prop) : yields (requeueWhenGetSettingsFailed (A:=A) err) Q.
Proof.
  unfold requeueWhenGetSettingsFailed. eapply yields_bind; [apply log_kept|]. intros _ _.
  cbn [errors_Is_ArgumentError]. case_match; [|apply throw_kept].
  eapply (yields_bind _ _ (λ _, True)); [apply yields_same, provider_same|]. intros p _.
  eapply (yields_bind _ _ (λ _, True)); [|intros; apply throw_kept].
  apply yields_same. same_all.
Qed.

Ltac kept_all :=
  cbv zeta;
  repeat first
    [ apply fail_kept | apply panic_kept | apply throw_kept | apply requeue_kept
    | (apply yields_ret; exact Logic.I)
    | (match goal with |- yields (the_state _ ≫= _) _ => idtac end;
       eapply yields_bind; [apply the_state_yields|intros ? ?]; cbv beta)
    | (match goal with |- yields (_ ≫= _) _ => idtac end;
       eapply (yields_bind _ _ (λ _, True)); [|intros ? _]; cbv beta)
    | (match goal with |- yields (match _ with _ => _ end) _ => idtac end; case_match)
    | (apply yields_same; first [ apply provider_same | apply get_state_same
         | apply the_state_same | apply now_same | apply call_same
         | (unfold set_status, newProviderStatus; same_all; fail) ]) ].

Lemma start_kept : kept start.
Proof. apply yields_same. unfold start. same_all. Qed.
Lemma check_spec_kept : kept check_spec.
Proof. unfold check_spec. kept_all. Qed.
Lemma existing_configmap_kept : kept existing_configmap.
Proof. unfold existing_configmap, verify_configmap. kept_all. Qed.
Lemma collect_kept p names ex : kept (collect_secrets p names ex).
Proof.
  revert ex. induction names as [|name names IH]; intros ex; cbn [collect_secrets]; [kept_all|].
  unfold collectExistingSecret, verify_secret_object. kept_all; apply IH.
Qed.
Lemma ensure_state_kept n : kept (ensure_state n).
Proof. unfold ensure_state. kept_all. by apply put_state_kept. Qed.
Lemma existing_secrets_kept n : kept (existing_secrets n).
Proof. unfold existing_secrets. kept_all. apply collect_kept. Qed.
Lemma forget_kept n cm ss : kept (forget_versions n cm ss).
Proof.
  unfold forget_versions. kept_all. apply put_state_kept. destruct (String.eqb _ _); assumption.
Qed.
Lemma fresh_manager_yields n p s :
  state_inv s →
  yields (match new_manager p with
          | Err err => fail err
          | Panic => lift Panic
          | Ok m => _ ← put_state n (s <| ReconciliationState.ClientManager := Some m |>); mret m
          end : step M) I.
Proof.
  intros Hs. destruct (new_manager p) as [m|err|] eqn:Hm; [|apply fail_kept|apply panic_kept].
  eapply yields_bind; [apply put_state_kept|].
  - intros m' [= <-]. by eapply new_manager_inv.
  - intros _ _. apply yields_ret. by eapply new_manager_inv.
Qed.
Lemma client_manager_yields n : yields (client_manager n) I.
Proof.
  unfold client_manager.
  eapply (yields_bind _ _ (λ _, True)); [apply yields_same, provider_same|]. intros p _.
  eapply yields_bind; [apply the_state_yields|]. intros s Hs. cbv zeta.
  pose proof (fresh_manager_yields n p s Hs) as Hfresh.
  destruct (ReconciliationState.ClientManager s) as [m|] eqn:Hm; [|exact Hfresh].
  destruct (_ =? _)%Z; [|exact Hfresh]. apply yields_ret. by apply Hs.
Qed.

Lemma populate_kept n m cm ss : I m → kept (populate n m cm ss).
Proof.
  intros Hm. unfold populate.
  eapply (yields_bind _ _ (λ _, True)); [apply yields_same, provider_same|]. intros p _.
  eapply yields_bind; [apply the_state_yields|]. intros s Hs.
  eapply (yields_bind _ _ (λ _, True)); [apply yields_same, now_same|]. intros t _.
  match goal with |- context [PopulateSettings cm ss ?q] =>
    pose proof (PopulateSettings_kept I cm ss q) as Hp end.
  assert (I (manager_of (new_loader p m))) as Hl by (by rewrite manager_of_new).
  specialize (Hp Hl). destruct (PopulateSettings cm ss _) as [o q].
  eapply yields_bind; [apply put_state_kept|].
  - intros m' [= <-]. exact Hp.
  - intros _ _. destruct o; [by apply yields_ret|apply requeue_kept|apply panic_kept].
Qed.

Lemma set_configmap_version_kept n rv : kept (set_configmap_version n rv).
Proof. unfold set_configmap_version. kept_all. by apply put_state_kept. Qed.
Lemma target_meta_kept p name : kept (target_meta p name).
Proof. unfold target_meta. kept_all. Qed.
Lemma set_secret_version_kept n b name rv k8s : kept (set_secret_version n b name rv k8s).
Proof.
  unfold set_secret_version. eapply (yields_bind _ _ (λ _, True)).
  { apply yields_same. same_all. }
  intros md _. kept_all. by apply put_state_kept.
Qed.
Lemma secrets_loop_kept p b ss ex entries k8s : kept (secrets_loop p b ss ex entries k8s).
Proof.
  revert k8s. induction entries as [|[name s] entries IH]; intros k8s; cbn [secrets_loop];
    [kept_all|].
  eapply (yields_bind _ _ (λ _, True)); [apply yields_same; same_all|]. intros write _.
  eapply (yields_bind _ _ (λ _, True)).
  { kept_all. apply target_meta_kept. }
  intros rv _. eapply (yields_bind _ _ (λ _, True)); [apply set_secret_version_kept|].
  intros k8s' _. apply IH.
Qed.
Lemma expel_kept p names refs : kept (expel_loop p names refs).
Proof. induction names as [|name names IH]; cbn [expel_loop]; kept_all; apply IH. Qed.

Lemma write_targets_kept (p : Processor.t M L) cm ss : kept (write_targets p cm ss).
Proof.
  unfold write_targets, createOrUpdateConfigMap, createOrUpdateSecrets, expelRemovedSecrets.
  kept_all; first [apply set_configmap_version_kept|apply target_meta_kept|apply collect_kept
                  |apply secrets_loop_kept|apply expel_kept].
Qed.

Lemma finish_kept n (p : Processor.t M L) k8s : kept (finish n p k8s).
Proof.
  unfold finish.
  eapply (yields_bind _ _ (λ _, True)); [apply yields_same, provider_same|]. intros pr _.
  eapply (yields_bind _ _ (λ _, True)); [apply yields_same, now_same|]. intros t _.
  eapply (yields_bind _ _ (λ _, True)); [apply yields_same; same_all|]. intros st _.
  eapply (yields_bind _ _ (λ _, True)); [apply yields_same; same_all|]. intros _ _.
  eapply (yields_bind _ _ (λ _, True)); [apply yields_same, provider_same|]. intros pr' _.
  eapply yields_bind; [apply the_state_yields|]. intros s Hs.
  eapply (yields_bind _ _ (λ _, True)); [apply yields_same, now_same|]. intros t' _.
  match goal with |- context [Finish t' ?q] => pose proof (Finish_manager t' q) as Hf end.
  destruct (Finish t' _) as [r q]. cbn in Hf.
  eapply yields_bind; [apply put_state_kept|].
  - intros m Hm. rewrite Hf in Hm. by apply Hs.
  - intros _ _. kept_all.
Qed.

Lemma reconcile_body_kept n : kept (reconcile_body n).
Proof.
  unfold reconcile_body.
  eapply yields_bind; [apply start_kept|]. intros _ _.
  eapply yields_bind; [apply check_spec_kept|]. intros _ _.
  eapply yields_bind; [apply existing_configmap_kept|]. intros cm _.
  eapply yields_bind; [apply ensure_state_kept|]. intros _ _.
  eapply yields_bind; [apply existing_secrets_kept|]. intros ss _.
  eapply yields_bind; [apply forget_kept|]. intros _ _.
  eapply yields_bind; [apply client_manager_yields|]. intros m Hm.
  eapply yields_bind; [by apply populate_kept|]. intros p _.
  eapply yields_bind; [apply write_targets_kept|]. intros k8s _. apply finish_kept.
Qed.

Lemma Reconcile_inv n (w : world) : world_inv w → world_inv (Reconcile (L:=L) n w).2.
Proof.
  intros Hw. unfold Reconcile. cbv zeta. destruct (get_provider _ n) as [p|err|]; [|..|done].
  - match goal with |- context [reconcile_body n ?w0] =>
      pose proof (reconcile_body_kept n w0 Hw) as Hb;
      destruct (reconcile_body n w0) as [o w1] end.
    assert (world_inv w1) as Hw1 by (by destruct o; [destruct Hb|..]).
    destruct (patch_loop_log RetryAttempt w1) as (_ & Hs & _).
    unfold world_inv in *. destruct o; cbn [snd]; by rewrite Hs.
  - destruct (IsNotFound err); [|done]. cbn. by apply map_Forall_delete.
Qed.
End reconcile.

(** ** The log of a run *)

(** A log made of the calls of reconciliations, each of which writes only what
    it found free or owned. *)
Inductive owned_log : list event → Prop :=
  | owned_nil : owned_log []
  | owned_session l n answer calls :
    owned_log l →
    match answer with Ok provider => safe provider calls | _ => calls = [] end →
    owned_log (l ++ GotProvider n answer :: calls).

Lemma Reconcile_owned_log `{Unicode} `{IPLiterals} `{UUIDParser} `{WorkloadEnv}
    `{Yaml2} `{MapOrder} `{KubeOk} {M L : Type} `{!LoaderOf M L} n (w : World.t M) :
  owned_log w.(World.log) → owned_log (Reconcile (L:=L) n w).2.(World.log).
Proof.
  intros Hw. destruct (get_provider w.(World.log) n) as [provider|err|] eqn:Hget.
  - destruct (Reconcile_safe_log (L:=L) n w provider Hget) as (l & -> & Hs).
    by apply owned_session.
  - unfold Reconcile. cbv zeta. rewrite Hget.
    by destruct (IsNotFound err); apply (owned_session _ n (Err err) []).
  - unfold Reconcile. cbv zeta. rewrite Hget. by apply (owned_session _ n Panic []).
Qed.

(** ** The program keeps its promise *)

Section program.
Context `{Unicode} `{IPLiterals} `{Codec} `{MapOrder} `{Crypto}
  `{SDKOk} `{!Store} `{Resolver} `{!Identity} `{Cluster}
  `{UUIDParser} `{TenantEnv}.
Context {R : Type} `{!SecretResolver R}.
Context (env : nat → PolicyEnv.t) (now : Time.time) (lk : Lookup.t) (null : N).
Notation the_program := (program (R:=R) env now lk null).

Lemma run_method_inv {A} (m : Provider.t → goM CSL.t error A) :
  (∀ p, keeps (preserves (csl_inv good)) (m p)) →
  keeps (preserves (good ∘ manager_of (LoaderOf:=the_program))) (run_method m).
Proof.
  intros Hm [p s] Hs. specialize (Hm p s Hs). unfold run_method. destruct (m p s). exact Hm.
Qed.

#[export] Instance program_inv : LoaderInv (LoaderOf0:=the_program) good.
Proof.
  constructor; try done.
  - intros p m. apply new_manager_good.
  - apply run_method_inv. intros p. apply CreateTargetSettings_keeps, good_inv.
  - intros e. apply run_method_inv. intros p. apply CheckPageETags_keeps, good_inv.
  - intros e. apply run_method_inv. intros p. apply CheckAndRefreshSentinels_keeps, good_inv.
  - intros e. apply run_method_inv. intros p. apply RefreshKeyValueSettings_keeps, good_inv.
  - intros e. apply run_method_inv. intros p. apply RefreshFeatureFlagSettings_keeps, good_inv.
  - intros r. apply run_method_inv. intros p s Hs. exact Hs.
Qed.
End program.

(** ** Runs of the controller *)

(** What a request finds around the controller, and no two requests alike: the
    cluster and its clock, the store, the DNS, the credentials, the vaults, the
    times and the lookups of each run of the failover policy and of the loading
    of snapshots, and the order of the maps. *)
Module Environment.
Record t `{SDK} := mk {
  kube : Kube;
  kube_ok : @KubeOk kube;
  order : MapOrder;
  store : Store;
  dns : Resolver;
  identity : Identity;
  cluster : Cluster;
  resolver : Type;
  vault : SecretResolver resolver;
  policies : nat → PolicyEnv.t;
  now : Time.time;
  lookup : Lookup.t;
  label : N;
}.
End Environment.

Section runs.
Context `{Unicode} `{IPLiterals} `{UUIDParser} `{WorkloadEnv} `{Codec} `{Yaml2} `{Crypto}
  `{SDKOk} `{TenantEnv}.
Notation world := (World.t Clients.t).

(** The program in an environment, and a request it handles there. *)
Definition program_in (e : Environment.t) : LoaderOf Clients.t program_loader :=
  @program _ _ _ e.(Environment.order) _ _ e.(Environment.store) e.(Environment.dns)
    e.(Environment.identity) e.(Environment.cluster) _ _ _ e.(Environment.vault)
    e.(Environment.policies) e.(Environment.now) e.(Environment.lookup)
    e.(Environment.label).
Definition handle (e : Environment.t) (n : NamespacedName) (w : world) : world :=
  (@Reconcile _ _ _ _ _ e.(Environment.order) e.(Environment.kube) _ _ (program_in e) n w).2.

(** A world after requests, each handled after the other, each in an
    environment of its own; what other writers do in between is in the answers
    of the cluster.  A controller that is started again has an empty table. *)
Inductive reachable (w0 : world) : world → Prop :=
  | reach_start : reachable w0 w0
  | reach_request w e n : reachable w0 w → reachable w0 (handle e n w)
  | reach_restart w :
      reachable w0 w → reachable w0 (w <| World.ProvidersReconcileState := ∅ |>).

Lemma handle_good e n w : world_inv good w → world_inv good (handle e n w).
Proof. intros Hw. unfold handle, program_in. apply Reconcile_inv; [apply program_inv|done]. Qed.
Lemma handle_owned e n w :
  owned_log w.(World.log) → owned_log (handle e n w).(World.log).
Proof. apply (@Reconcile_owned_log _ _ _ _ _ _ _ e.(Environment.kube_ok)). Qed.

Lemma reachable_good w0 w : reachable w0 w → world_inv good w0 → world_inv good w.
Proof.
  induction 1 as [|w e n _ IH|w _ IH]; intros Hw0; [done|by apply handle_good, IH|].
  apply map_Forall_empty.
Qed.
Lemma reachable_owned w0 w :
  reachable w0 w → owned_log w0.(World.log) → owned_log w.(World.log).
Proof.
  induction 1 as [|w e n _ IH|w _ IH]; intros Hw0; [done|by apply handle_owned, IH|by apply IH].
Qed.
End runs.

(** C8: However the program runs from the empty table of states, each request
    meeting its own time, DNS, store, vaults and cluster, and the controller
    being restarted at any moment: every client manager it holds between two
    requests has trusted hosts for replicas, and listing its clients neither
    fails nor panics, whatever the time and the DNS; and its log of calls is a
    sequence of reconciliations each of which wrote only what it found free or
    owned. *)
Theorem program_reachable `{Unicode} `{IPLiterals} `{UUIDParser} `{WorkloadEnv}
    `{Codec} `{Yaml2} `{Crypto} `{SDKOk} `{TenantEnv} (w0 w : World.t Clients.t) :
  w0.(World.ProvidersReconcileState) = ∅ → w0.(World.log) = [] →
  reachable w0 w →
  (∀ n s m, w.(World.ProvidersReconcileState) !! n = Some s →
     s.(ReconciliationState.ClientManager) = Some m →
     replicas_ok m
     ∧ ∀ (dns : Resolver) t lk, ∃ clients m', GetClients t lk m = (Ok clients, m'))
  ∧ owned_log w.(World.log).
Proof.
  intros Ht Hl Hr. split.
  - intros n s m Hs Hm.
    assert (good m) as Hg.
    2:{ split; [apply Hg|]. intros dns t lk.
        destruct (GetClients_run t lk m Hg) as (cs & m' & Hc & _). by exists cs, m'. }
    refine (reachable_good w0 w Hr _ n s Hs m Hm).
    unfold world_inv. rewrite Ht. apply map_Forall_empty.
  - apply (reachable_owned w0 w Hr). rewrite Hl. constructor.
Qed.

(** ** Witness *)

Import ClientsWitness FailoverWitness AuthWitness ValidationWitness ReconcilerWitness.
Import ProgramWitness.

(** The program of [Program.v] after a request, and another one an hour later,
    when the DNS knows no replica any more. *)
Definition first : Environment.t :=
  Environment.mk _ (kube provider) (kube_ok provider) _ _ dns _ _ unit _
    (λ _, FailoverWitness.env) t0 lk 0.
Definition no_replica : Resolver := λ _ _, DNSNotFound.
Definition second : Environment.t :=
  let later := (t0 + 60 * Time.Minute)%Z in
  Environment.mk _ (kube provider) (kube_ok provider) _ _ no_replica _ _ unit _
    (λ _, PolicyEnv.mk later lk (Some "true") false (Some false)
            (λ i, (later + Z.of_nat i)%Z)
            FailoverWitness.env.(PolicyEnv.attempt_rand) later lk) later lk 0.

Lemma program_reachable_witness :
  ∃ w : World.t Clients.t,
    length w.(World.log) = 8 ∧ owned_log w.(World.log)
    ∧ ∃ s m, w.(World.ProvidersReconcileState) !! key = Some s
        ∧ s.(ReconciliationState.ClientManager) = Some m ∧ replicas_ok m.
Proof.
  pose (again := handle second key (handle first key world)).
  destruct (program_reachable world again) as [Hm Ho].
  - reflexivity.
  - reflexivity.
  - apply reach_request, reach_request, reach_start.
  - exists again. split; [vm_compute; reflexivity|]. split; [exact Ho|].
    assert (match again.(World.ProvidersReconcileState) !! key with
            | Some s => match s.(ReconciliationState.ClientManager) with
                        | Some _ => true | None => false end
            | None => false end = true) as Hsome by (vm_compute; reflexivity).
    destruct (World.ProvidersReconcileState again !! key) as [s|] eqn:Hs; [|done].
    destruct (ReconciliationState.ClientManager s) as [m|] eqn:Hmgr; [|done].
    exists s, m. split; [done|]. split; [done|]. by apply (Hm key s m).
Defined.
