(* ===== verification/Convergence.v ===== *)
(** Convergence: a provider that is in step with the cluster is left alone.

    [Processor.v] says when the processor loads nothing; here the whole
    reconciliation is followed.  When the objects in the cluster are those that
    were recorded and no refresh is due, [Reconcile] reads them, patches the
    status and does nothing else: the store is not asked, nothing is written
    or deleted, and what was recorded stays.  A reconciliation that completes
    records the objects it leaves, so the next one finds itself in that case. *)

From S2P Require Import Prelude GoStrings Errors Api Json Filters Tree Codec Data Url ConnString.
From S2P Require Import Clients Auth Processor Validation Reconciler System.

(** A call that changes nothing but the status of the provider. *)
Definition reading (e : event) : Prop :=
  match e with
  | WroteConfigMap _ _ | WroteSecret _ _ | DeletedSecret _ _ _ => False
  | _ => True
  end.

Section idle.
Context `{Unicode} `{IPLiterals} `{UUIDParser} `{WorkloadEnv}
  `{Yaml2} `{MapOrder} `{Kube} {M L : Type} `{!LoaderOf M L}.
Notation world := (World.t M).
Notation step A := (goM world Result.t A).

(** The world with more calls in its log. *)
Definition add_calls (l : list event) (w : world) : world :=
  w <| World.log := w.(World.log) ++ l |>.

Lemma start_runs (w : world) :
  phase w ≠ PhaseRunning →
  ∃ s, start w = (Ok (), w <| World.provider :=
                    w.(World.provider) <| Provider.Status := s |> |>)
    ∧ s.(Status.Phase) = PhaseRunning.
Proof.
  unfold phase. intros Hph. unfold start. go_run.
  destruct (decide (_ = NoPhase)); go_run; rewrite decide_False by done; go_run;
    eexists; (split; [reflexivity|done]).
Qed.

(** ** Reading what is there *)

(** What the cluster holds for the provider, as long as nobody writes. *)
Record holds_objects (log : list event) (p : Provider.t) (cm : ConfigMap.t)
    (ss : gmap string Secret.t) : Prop := {
  configmap_there l : Forall reading l →
    get_configmap (log ++ l) p.(Provider.Namespace)
      p.(Provider.Spec).(Spec.Target).(Target.ConfigMapName) = Ok cm;
  configmap_owned : accepted p p.(Provider.Spec).(Spec.Target).(Target.ConfigMapName)
                      cm.(ConfigMap.Meta);
  configmap_named : cm.(ConfigMap.Meta).(ObjectMeta.Name) ≠ EmptyString;
  secret_there l name s : Forall reading l → ss !! name = Some s →
    get_secret (log ++ l) p.(Provider.Namespace) name = Ok s;
  secret_owned name s : ss !! name = Some s → accepted p name s.(Secret.Meta);
}.

Lemma holds_objects_app log l p cm ss :
  Forall reading l → holds_objects log p cm ss → holds_objects (log ++ l) p cm ss.
Proof.
  intros Hl [Hcm Hown Hname Hsec Hsown]. constructor; try done.
  - intros l'. rewrite <-app_assoc. intros ?. apply Hcm. by apply Forall_app.
  - intros l' name s. rewrite <-app_assoc. intros ??. apply Hsec; [by apply Forall_app|done].
Qed.

(** The status does not matter to who owns what. *)
Lemma holds_objects_status log p st cm ss :
  holds_objects log p cm ss → holds_objects log (p <| Provider.Status := st |>) cm ss.
Proof. intros [Hcm Hown Hname Hsec Hsown]. by constructor. Qed.

Lemma found_accepted {A} (meta : A → ObjectMeta.t) zero name p (x : A) :
  accepted p name (meta x) → found meta zero name p (Ok x) = Ok (true, x).
Proof. intros Ha. unfold found. by rewrite (proj2 (verifyExisting_owned _ _ _ _) Ha). Qed.

Lemma existing_configmap_runs (w : world) cm ss :
  holds_objects w.(World.log) w.(World.provider) cm ss →
  existing_configmap w
  = (Ok cm, add_calls [GotConfigMap w.(World.provider).(Provider.Namespace)
              w.(World.provider).(Provider.Spec).(Spec.Target).(Target.ConfigMapName) (Ok cm)] w).
Proof.
  intros Hh. unfold existing_configmap, verify_configmap. go_run.
  pose proof (configmap_there _ _ _ _ Hh [] (Forall_nil_2 _)) as Hg. rewrite app_nil_r in Hg.
  unfold call, mbind, goM_bind. cbv zeta. rewrite Hg. cbn -[found].
  by rewrite found_accepted by apply (configmap_owned _ _ _ _ Hh).
Qed.

Lemma collect_runs names ex (w : world) cm ss :
  holds_objects w.(World.log) w.(World.provider) cm ss →
  (∀ name, name ∈ names → is_Some (ss !! name)) →
  ex ⊆ ss →
  ∃ l ex', collect_secrets w.(World.provider) names ex w = (Ok ex', add_calls l w)
    ∧ Forall reading l ∧ ex' ⊆ ss ∧ dom ex' = dom ex ∪ list_to_set names.
Proof.
  revert ex w. induction names as [|name names IH]; intros ex w Hh Hin Hex.
  { exists [], ex. split; [|split_and!; [constructor|done|set_solver]].
    destruct w. unfold add_calls. cbn. by rewrite app_nil_r. }
  cbn [collect_secrets list_to_set]. destruct (ex !! name) as [s|] eqn:He.
  - destruct (IH ex w Hh) as (l & ex' & -> & Hl & Hs & Hd); [set_solver|done|].
    exists l, ex'. split_and!; [done..|]. apply elem_of_dom_2 in He. set_solver.
  - destruct (Hin name) as [s Hs]; [by left|].
    pose proof (secret_there _ _ _ _ Hh [] name s (Forall_nil_2 _) Hs) as Hg.
    rewrite app_nil_r in Hg. set (e := GotSecret (Provider.Namespace (World.provider w)) name (Ok s)).
    assert (collectExistingSecret w.(World.provider) name ex w
      = (Ok (<[name := s]> ex), add_calls [e] w)) as Hc.
    { unfold collectExistingSecret, verify_secret_object, call, mbind, goM_bind. cbv zeta.
      rewrite Hg. cbn -[found]. by rewrite found_accepted by (by apply (secret_owned _ _ _ _ Hh)). }
    rewrite (goM_bind_run _ _ _ _ _ Hc).
    destruct (IH (<[name := s]> ex) (add_calls [e] w)) as (l & ex' & Hr & Hl & Hss & Hd).
    + apply holds_objects_app; [by repeat constructor|done].
    + set_solver.
    + by apply insert_subseteq_l.
    + exists (e :: l), ex'. split; [|split_and!; [by constructor|done|]].
      * etransitivity; [exact Hr|]. unfold add_calls. cbn. by rewrite <-app_assoc.
      * rewrite Hd, dom_insert_L. set_solver.
Qed.

(** ** The provider is in step *)

Notation state_t := (ReconciliationState.t M).

(** What is recorded is what the cluster holds. *)
Record in_step (p : Provider.t) (state : state_t) (cm : ConfigMap.t)
    (ss : gmap string Secret.t) : Prop := {
  same_generation : state.(ReconciliationState.Generation) = p.(Provider.Generation);
  same_annotations : state.(ReconciliationState.Annotations) = p.(Provider.Annotations);
  same_configmap : state.(ReconciliationState.ConfigMapResourceVersion)
                   = Some cm.(ConfigMap.Meta).(ObjectMeta.ResourceVersion);
  same_secrets :
    dom ss = dom state.(ReconciliationState.ExistingK8sSecrets)
    ∧ match p.(Provider.Spec).(Spec.Secret) with
      | None => ss = ∅
      | Some s => is_Some (ss !! s.(SecretReference.Target).(SecretTarget.SecretName))
      end;
  same_versions name md s :
    state.(ReconciliationState.ExistingK8sSecrets) !! name = Some md → ss !! name = Some s →
    md.(TargetK8sSecretMetadata.SecretResourceVersion)
    = s.(Secret.Meta).(ObjectMeta.ResourceVersion);
}.

Lemma in_step_status p st state cm ss :
  in_step p state cm ss → in_step (p <| Provider.Status := st |>) state cm ss.
Proof. intros [Hg Ha Hc Hsec Hv]. by constructor. Qed.

(** No refresh is due at [t]. *)
Definition none_due (t : Time.time) (spec : Spec.t) (state : state_t) : Prop :=
  (is_Some (featureFlagRefresh spec) →
     Time.After t state.(ReconciliationState.NextFeatureFlagRefreshReconcileTime) = false)
  ∧ (is_Some (keyValueRefresh spec) →
     Time.After t state.(ReconciliationState.NextKeyValueRefreshReconcileTime) = false)
  ∧ (is_Some (secretRefresh spec) →
     Time.After t state.(ReconciliationState.NextSecretReferenceRefreshReconcileTime) = false).

Lemma existing_secrets_runs n (w : world) state cm ss :
  holds_objects w.(World.log) w.(World.provider) cm ss →
  w.(World.ProvidersReconcileState) !! n = Some state →
  in_step w.(World.provider) state cm ss →
  ∃ l, existing_secrets n w = (Ok ss, add_calls l w) ∧ Forall reading l.
Proof.
  intros Hh Hn [_ _ _ [Hdom Hsec] _]. unfold existing_secrets. go_run.
  destruct (Spec.Secret _) as [secret|].
  - rewrite (goM_bind_run (the_state n) _ w state w) by (unfold the_state; by rewrite Hn).
    edestruct (collect_runs (secret.(SecretReference.Target).(SecretTarget.SecretName)
      :: (range_map state.(ReconciliationState.ExistingK8sSecrets)).*1) ∅ w cm ss)
      as (l & ex & Hr & Hl & Hsub & Hd); [done| |apply map_empty_subseteq|].
    { intros name [->|([? md] & -> & Hin)%list_elem_of_fmap]%elem_of_cons; [done|].
      apply elem_of_dom. rewrite Hdom. apply elem_of_dom. exists md. by apply elem_of_range. }
    exists l. split; [|done]. rewrite Hr. do 2 f_equal.
    apply (subseteq_dom_eq _ _ Hsub). rewrite Hd, Hdom. intros name [md Hmd]%elem_of_dom.
    apply elem_of_union_r, elem_of_list_to_set. right. apply list_elem_of_fmap.
    exists (name, md). split; [done|]. by apply elem_of_range.
  - subst. exists []. split; [|constructor]. destruct w. unfold add_calls. cbn.
    by rewrite app_nil_r.
Qed.

(** Nothing that is there is forgotten. *)
Lemma forget_runs n (w : world) state cm ss :
  cm.(ConfigMap.Meta).(ObjectMeta.Name) ≠ EmptyString →
  w.(World.ProvidersReconcileState) !! n = Some state →
  in_step w.(World.provider) state cm ss →
  forget_versions n cm ss w = (Ok (), w).
Proof.
  intros Hname Hn [_ _ _ [Hdom Hsec] _]. unfold forget_versions. go_run.
  rewrite (goM_bind_run (the_state n) _ w state w) by (unfold the_state; by rewrite Hn).
  rewrite (proj2 (String.eqb_neq _ _) Hname). cbv zeta.
  match goal with |- context [put_state n ?s] => assert (s = state) as -> end.
  { assert (∀ m, m = state.(ReconciliationState.ExistingK8sSecrets) →
      state <| ReconciliationState.ExistingK8sSecrets := m |> = state) as Hset
      by (intros m ->; destruct state; reflexivity).
    apply Hset. destruct (Spec.Secret _).
    - apply map_eq. intros name. rewrite map_lookup_imap.
      destruct (ReconciliationState.ExistingK8sSecrets state !! name) as [md|] eqn:Hmd;
        [|done]. cbn. rewrite decide_True; [done|]. apply elem_of_dom. rewrite Hdom. by eapply elem_of_dom_2.
    - subst. rewrite dom_empty_L in Hdom. symmetry in Hdom. symmetry.
      by apply dom_empty_inv_L in Hdom. }
  unfold put_state, modify. f_equal.
  destruct w as [log table p].
  change (World.mk M log (<[n:=state]> table) p = World.mk M log table p).
  f_equal. by apply insert_id.
Qed.

Lemma client_manager_runs n (w : world) state m :
  w.(World.ProvidersReconcileState) !! n = Some state →
  state.(ReconciliationState.ClientManager) = Some m →
  state.(ReconciliationState.Generation) = w.(World.provider).(Provider.Generation) →
  client_manager n w = (Ok m, w).
Proof.
  intros Hn Hm Hg. unfold client_manager. go_run.
  rewrite (goM_bind_run (the_state n) _ w state w) by (unfold the_state; by rewrite Hn).
  cbv zeta. by rewrite Hm, Hg, Z.eqb_refl.
Qed.

(** ** Nothing to load, nothing to write *)

Lemma in_step_settled (p : Processor.t M L) cm ss :
  in_step p.(Processor.Provider) p.(Processor.State) cm ss → shouldReconcile p cm ss = false.
Proof.
  intros [Hg Ha Hc [Hdom Hsec] Hv]. apply should_reconcile_settled.
  split_and!; [done|done|done|].
  destruct (Spec.Secret _) as [secret|]; [right|by left].
  split_and!; [|by rewrite <-!size_dom, Hdom|by apply Hv].
  intros He. rewrite He, dom_empty_L in Hdom. apply dom_empty_inv_L in Hdom as ->.
  rewrite lookup_empty in Hsec. by destruct Hsec.
Qed.

Lemma none_due_not_due {A} (p : Processor.t M L) (r : option A) next :
  (is_Some r → Time.After p.(Processor.CurrentTime) next = false) → not_due p r next = true.
Proof. unfold not_due. destruct r; [|done]. intros ->; [done|by eexists]. Qed.

Lemma populate_runs (manager_of_new : ∀ p m, manager_of (new_loader (L:=L) p m) = m)
    n (w : world) state m cm ss :
  w.(World.ProvidersReconcileState) !! n = Some state →
  in_step w.(World.provider) state cm ss →
  none_due (Now w.(World.log)) w.(World.provider).(Provider.Spec) state →
  ∃ p, populate n m cm ss w
       = (Ok p, w <| World.ProvidersReconcileState :=
            <[n := p.(Processor.State) <| ReconciliationState.ClientManager := Some m |>]>
              w.(World.ProvidersReconcileState) |>)
    ∧ populated p = populated (new_processor (L:=L) w.(World.provider) m state (Now w.(World.log)))
    ∧ recorded p = recorded (new_processor (L:=L) w.(World.provider) m state (Now w.(World.log)))
    ∧ p.(Processor.ShouldReconcile) = false.
Proof.
  intros Hn Hs (Df & Dk & Ds). unfold populate. go_run.
  rewrite (goM_bind_run (the_state n) _ w state w) by (unfold the_state; by rewrite Hn).
  go_run.
  set (p0 := new_processor _ _ _ _).
  pose proof (in_step_settled p0 cm ss Hs) as Hsr.
  destruct (populate_idle cm ss p0 Hsr) as (p & Hp & Hpop);
    [by apply none_due_not_due..|].
  destruct (PopulateSettings_recorded _ _ _ _ _ Hp) as [Hrec Hr]. rewrite Hsr in Hr.
  exists p. split_and!; [|done..]. rewrite Hp.
  assert (p.(Processor.Retriever) = new_loader w.(World.provider) m) as ->
    by (by apply (f_equal (fst ∘ fst ∘ fst)) in Hpop).
  rewrite manager_of_new. done.
Qed.

(** The state apart from the timers. *)
Definition untimed (s : state_t) : state_t :=
  s <| ReconciliationState.NextKeyValueRefreshReconcileTime := Time.zero |>
    <| ReconciliationState.NextSecretReferenceRefreshReconcileTime := Time.zero |>
    <| ReconciliationState.NextFeatureFlagRefreshReconcileTime := Time.zero |>.

(** The options a run leaves when it loads nothing. *)
Definition idle_options (r : RefreshOptions.t) : Prop :=
  r.(RefreshOptions.ConfigMapSettingPopulated) = false
  ∧ r.(RefreshOptions.SecretSettingPopulated) = false
  ∧ r.(RefreshOptions.sentinelChanged) = false
  ∧ r.(RefreshOptions.keyValuePageETagsChanged) = false
  ∧ r.(RefreshOptions.updatedKeyValueETags) = None
  ∧ r.(RefreshOptions.updatedFeatureFlagETags) = None.

Lemma populated_options (p p' : Processor.t M L) :
  populated p' = populated p → idle_options p.(Processor.RefreshOptions) →
  idle_options p'.(Processor.RefreshOptions).
Proof.
  intros Hp. apply (f_equal snd) in Hp. cbn in Hp.
  destruct (Processor.RefreshOptions p), (Processor.RefreshOptions p'). cbn in Hp.
  unfold idle_options. cbn. by simplify_eq.
Qed.

(** [Finish] after such a run. *)
Lemma Finish_idle t (p : Processor.t M L) :
  idle_options p.(Processor.RefreshOptions) →
  p.(Processor.ShouldReconcile) = false →
  p.(Processor.State).(ReconciliationState.Generation)
    = p.(Processor.Provider).(Provider.Generation) →
  p.(Processor.State).(ReconciliationState.Annotations)
    = p.(Processor.Provider).(Provider.Annotations) →
  (Finish t p).2.(Processor.State) = p.(Processor.State).
Proof.
  intros (_ & Os & Oc & Op & Ok & Of) Hr Hg Ha.
  assert (commit p = p.(Processor.State)) as Hc.
  { unfold commit. rewrite Os, Ok, Of, Hr, <-Hg, <-Ha. by destruct (Processor.State p). }
  unfold Finish. cbv zeta. rewrite Hc.
  assert (p <| Processor.State := Processor.State p |> = p) as -> by (by destruct p).
  destruct (_ && _); [done|]. cbn [snd]. unfold commit_refresh. rewrite Oc, Op.
  by repeat case_match.
Qed.

Lemma write_targets_idle (p : Processor.t M L) (w : world) cm ss :
  idle_options p.(Processor.RefreshOptions) →
  (w.(World.provider).(Provider.Spec).(Spec.Secret) = None → ss = ∅) →
  ∃ k8s, write_targets p cm ss w = (Ok k8s, w).
Proof.
  intros (Oc & Os & _) Hss. unfold write_targets. go_run. cbv zeta. rewrite Oc, Os.
  go_run. go_run. destruct (Spec.Secret _); [by eexists|]. rewrite Hss by done.
  unfold expelRemovedSecrets. rewrite (proj2 (range_map_nil _) eq_refl). cbn. by eexists.
Qed.

Lemma finish_runs n (p : Processor.t M L) k8s (w : world) s :
  w.(World.ProvidersReconcileState) !! n = Some s →
  idle_options p.(Processor.RefreshOptions) → p.(Processor.ShouldReconcile) = false →
  s.(ReconciliationState.Generation) = w.(World.provider).(Provider.Generation) →
  s.(ReconciliationState.Annotations) = w.(World.provider).(Provider.Annotations) →
  ∃ r w', finish n p k8s w = (Ok r, w') ∧ phase w' = PhaseComplete
    ∧ w'.(World.ProvidersReconcileState) = w.(World.ProvidersReconcileState)
    ∧ w'.(World.log) = w.(World.log).
Proof.
  intros Hn Ho Hr Hg Ha. unfold finish. do 5 go_run.
  match goal with |- context [(the_state n ≫= _) ?w1] => set (w1' := w1) end.
  rewrite (goM_bind_run (the_state n) _ w1' s w1') by
    (unfold the_state; change (World.ProvidersReconcileState w1') with
       (World.ProvidersReconcileState w); by rewrite Hn).
  go_run.
  match goal with |- context [Finish ?t ?q] =>
    pose proof (Finish_idle t q Ho Hr Hg Ha) as Hf; pose proof (Finish_phase t q) as Hph;
    destruct (Finish t q) as [r q'] end.
  cbn in Hf, Hph. go_run. go_run. eexists _, _. split; [reflexivity|].
  split; [exact Hph|]. split; [|done]. cbn. rewrite Hf. by apply insert_id.
Qed.
End idle.

Section theorem.
Context `{Unicode} `{IPLiterals} `{UUIDParser} `{WorkloadEnv}
  `{Yaml2} `{MapOrder} `{Kube} {M L : Type} `{!LoaderOf M L}.
Hypothesis manager_of_new : ∀ p m, manager_of (new_loader (L:=L) p m) = m.
Notation world := (World.t M).

Lemma Reconcile_idle_runs n (w : world) provider state m cm ss :
  get_provider w.(World.log) n = Ok provider →
  provider.(Provider.Status).(Status.Phase) ≠ PhaseRunning →
  valid_spec provider.(Provider.Spec) →
  w.(World.ProvidersReconcileState) !! n = Some state →
  state.(ReconciliationState.ClientManager) = Some m →
  holds_objects (w.(World.log) ++ [GotProvider n (Ok provider)]) provider cm ss →
  in_step provider state cm ss →
  (∀ l, Forall reading l →
     none_due (Now (w.(World.log) ++ l)) provider.(Provider.Spec) state) →
  ∃ r w' state' l, Reconcile (L:=L) n w = (Ok r, w') ∧ phase w' = PhaseComplete
    ∧ w'.(World.ProvidersReconcileState) = <[n := state']> w.(World.ProvidersReconcileState)
    ∧ untimed state' = untimed state
    ∧ w'.(World.log) = w.(World.log) ++ l ∧ Forall reading l.
Proof.
  intros Hget Hph Hspec Hn Hm Hh Hs Hd. unfold Reconcile. cbv zeta. rewrite Hget.
  set (w0 := _ <| World.provider := provider |>).
  destruct (start_runs w0 Hph) as (st & Hstart & _).
  set (w1 := w0 <| World.provider := _ |>) in Hstart.
  apply (holds_objects_status _ _ st) in Hh. apply (in_step_status _ st) in Hs.
  pose proof (existing_configmap_runs w1 cm ss Hh) as Hcm.
  match type of Hcm with _ = (_, ?w) => set (w2 := w) in Hcm end.
  assert (holds_objects (World.log w2) (World.provider w2) cm ss) as Hh2
    by (apply holds_objects_app; [by repeat constructor|exact Hh]).
  destruct (existing_secrets_runs n w2 state cm ss Hh2 Hn Hs) as (l & Hsec & Hl).
  set (w3 := add_calls l w2) in Hsec.
  pose proof (forget_runs n w3 state cm ss (configmap_named _ _ _ _ Hh) Hn Hs) as Hforget.
  pose proof (client_manager_runs n w3 state m Hn Hm (same_generation _ _ _ _ Hs)) as Hman.
  set (l' := GotProvider n (Ok provider)
             :: GotConfigMap (Provider.Namespace provider)
                  (Target.ConfigMapName (Spec.Target (Provider.Spec provider))) (Ok cm) :: l).
  assert (World.log w3 = World.log w ++ l') as Hlog
    by (unfold w3, add_calls, w2, w1, w0, l'; cbn; by rewrite <-!app_assoc).
  assert (Forall reading l') as Hl' by (by repeat constructor).
  destruct (populate_runs manager_of_new n w3 state m cm ss Hn Hs) as (p & Hp & Hpop & Hrec & Hsr).
  { rewrite Hlog. by apply Hd. }
  set (w4 := w3 <| World.ProvidersReconcileState := _ |>) in Hp.
  assert (idle_options p.(Processor.RefreshOptions)) as Ho
    by (eapply populated_options; [exact Hpop|by split_and!]).
  destruct (write_targets_idle p w4 cm ss Ho) as (k8s & Hw).
  { intros Hnone. pose proof (proj2 (same_secrets _ _ _ _ Hs)) as Hss.
    change (Spec.Secret (Provider.Spec (provider <| Provider.Status := st |>)) = None) in Hnone.
    by rewrite Hnone in Hss. }
  set (s4 := p.(Processor.State) <| ReconciliationState.ClientManager := Some m |>).
  assert (untimed s4 = untimed state) as Hun.
  { apply (f_equal snd) in Hrec. cbn in Hrec.
    transitivity ((untimed p.(Processor.State)) <| ReconciliationState.ClientManager := Some m |>);
      [done|]. unfold untimed at 1. rewrite Hrec. cbn. rewrite <-Hm. by destruct state. }
  destruct (finish_runs n p k8s w4 s4) as (r & w5 & Hf & Hph5 & Ht5 & Hlog5);
    [apply lookup_insert_eq|done|done| | |].
  { transitivity (ReconciliationState.Generation (untimed s4)); [done|]. rewrite Hun.
    apply (same_generation _ _ _ _ Hs). }
  { transitivity (ReconciliationState.Annotations (untimed s4)); [done|]. rewrite Hun.
    apply (same_annotations _ _ _ _ Hs). }
  assert (reconcile_body n w0 = (Ok r, w5)) as Hbody.
  { unfold reconcile_body. rewrite (goM_bind_run _ _ _ _ _ Hstart).
    assert (check_spec w1 = (Ok (), w1)) as Hcs.
    { unfold check_spec. go_run.
      change (Provider.Spec (World.provider w1)) with (Provider.Spec provider).
      by rewrite (proj2 (verifyObject_Ok _) Hspec). }
    rewrite (goM_bind_run _ _ _ _ _ Hcs), (goM_bind_run _ _ _ _ _ Hcm).
    assert (ensure_state n w2 = (Ok (), w2)) as He.
    { unfold ensure_state. go_run. change (World.ProvidersReconcileState w2)
        with (World.ProvidersReconcileState w). by rewrite Hn. }
    by rewrite (goM_bind_run _ _ _ _ _ He), (goM_bind_run _ _ _ _ _ Hsec),
      (goM_bind_run _ _ _ _ _ Hforget), (goM_bind_run _ _ _ _ _ Hman),
      (goM_bind_run _ _ _ _ _ Hp), (goM_bind_run _ _ _ _ _ Hw). }
  rewrite Hbody. destruct (patch_loop_log RetryAttempt w5) as (Hp6 & Ht6 & l6 & Hl6 & Hf6 & _).
  exists r, (patch_loop RetryAttempt w5), s4, (l' ++ l6). split; [done|].
  split; [unfold phase; by rewrite Hp6|]. split; [by rewrite Ht6, Ht5|]. split; [done|].
  split.
  - rewrite Hl6, Hlog5. change (World.log w4) with (World.log w3). by rewrite Hlog, <-app_assoc.
  - apply Forall_app. split; [done|]. eapply Forall_impl; [exact Hf6|]. by intros e [o ->].
Qed.
End theorem.

(** ** A reconciliation records what it leaves *)

(** A cluster in which nobody else writes: a read does not change the next one,
    and a ConfigMap that was written is read back.  [ctrl.CreateOrUpdate] reads
    the object first, so the owners of an object that exists are kept. *)
Class KubeQuiet `{Kube} : Prop := {
  quiet_reads log e ns name : reading e →
    get_configmap (log ++ [e]) ns name = get_configmap log ns name;
  quiet_write log obj cm :
    let m := obj.(ConfigMap.Meta) in
    let ns := m.(ObjectMeta.Namespace) in
    let name := m.(ObjectMeta.Name) in
    write_configmap log obj = Ok cm →
    get_configmap (log ++ [WroteConfigMap obj (Ok cm)]) ns name = Ok cm
    ∧ cm.(ConfigMap.Meta).(ObjectMeta.OwnerReferences)
      = match get_configmap log ns name with
        | Ok old => old.(ConfigMap.Meta).(ObjectMeta.OwnerReferences)
        | _ => m.(ObjectMeta.OwnerReferences)
        end;
  quiet_named log ns name cm :
    get_configmap log ns name = Ok cm → cm.(ConfigMap.Meta).(ObjectMeta.Name) = name;
  quiet_owner p m m' : SetControllerReference p m = Ok m' →
    owned_by p m' ∧ m'.(ObjectMeta.Name) = m.(ObjectMeta.Name)
    ∧ m'.(ObjectMeta.Namespace) = m.(ObjectMeta.Namespace);
}.

Section recording.
Context `{Unicode} `{IPLiterals} `{UUIDParser} `{WorkloadEnv}
  `{Yaml2} `{MapOrder} `{!Kube} `{!KubeQuiet} {M L : Type} `{!LoaderOf M L}.
Hypothesis manager_of_new : ∀ p m, manager_of (new_loader (L:=L) p m) = m.
Notation world := (World.t M).
Notation state_t := (ReconciliationState.t M).
Notation ns_of p := p.(Provider.Namespace).
Notation target p := p.(Provider.Spec).(Spec.Target).(Target.ConfigMapName).

Lemma reads_same log l ns name :
  Forall reading l → get_configmap (log ++ l) ns name = get_configmap log ns name.
Proof.
  revert log. induction l as [|e l IH]; intros log; [by rewrite app_nil_r|].
  intros [He Hl]%Forall_cons. rewrite cons_middle, app_assoc.
  by rewrite IH, quiet_reads.
Qed.

(** The ConfigMap of the provider that the cluster holds. *)
Definition current (p : Provider.t) (log : list event) (cm : ConfigMap.t) : Prop :=
  get_configmap log (ns_of p) (target p) = Ok cm
  ∧ accepted p (target p) cm.(ConfigMap.Meta).
(** [existing] is what a read gave for it: the zero one when it does not exist. *)
Definition read_as (p : Provider.t) (log : list event) (existing : ConfigMap.t) : Prop :=
  current p log existing
  ∨ existing = ConfigMap.zero
    ∧ ∃ err, get_configmap log (ns_of p) (target p) = Err err ∧ IsNotFound err = true.

Lemma current_reads p log l cm :
  Forall reading l → current p log cm → current p (log ++ l) cm.
Proof. intros Hl [Hg Ha]. split; [by rewrite reads_same|done]. Qed.

Lemma current_holds p log cm :
  target p ≠ EmptyString → current p log cm → holds_objects log p cm ∅.
Proof.
  intros Hne [Hg Ha]. constructor;
    [|done| |by intros l name s _ Hs%lookup_empty_Some|by intros name s Hs%lookup_empty_Some].
  - intros l Hl. by rewrite reads_same.
  - by rewrite (quiet_named _ _ _ _ Hg).
Qed.

(** *** The stages *)

Lemma fail_stops {A} err (a : A) (w w' : world) : fail err w ≠ (Ok a, w').
Proof. by destruct (fail_runs (A:=A) err w) as [w'' ->]. Qed.

Lemma check_spec_done (w w' : world) u :
  check_spec w = (Ok u, w') → w' = w ∧ valid_spec w.(World.provider).(Provider.Spec).
Proof.
  unfold check_spec. go_run. destruct (verifyObject _) as [[]|err|] eqn:Hv; [| |done].
  - intros [= <-]. split; [done|]. by apply verifyObject_Ok.
  - destruct (log_runs err w) as (t & ph & msg & Hl & _).
    by rewrite (goM_bind_run _ _ _ _ _ Hl).
Qed.

Lemma existing_configmap_done (w w' : world) existing :
  existing_configmap w = (Ok existing, w') →
  read_as w.(World.provider) w.(World.log) existing
  ∧ ∃ e, w' = add_calls [e] w ∧ reading e.
Proof.
  unfold existing_configmap, verify_configmap. go_run.
  unfold call, mbind, goM_bind. cbv zeta.
  destruct (get_configmap _ _ _) as [cm|err|] eqn:Hg; cbn -[found]; [| |done].
  - destruct (found _ _ _ _ (Ok cm)) as [[b cm']|err|] eqn:Hf; cbn; [| |done].
    + intros [= <- <-]. cbn in Hf.
      apply outcome_bind_Ok in Hf as ([] & Hv & [= _ <-]).
      split; [left; split; [exact Hg|exact (proj1 (verifyExisting_owned _ _ _ _) Hv)]|].
      by eexists.
    + by intros Hr%fail_stops.
  - destruct (IsNotFound err) eqn:He; cbn; rewrite He.
    + intros [= <- <-]. split; [right; split; [done|by eexists]|by eexists].
    + by intros Hr%fail_stops.
Qed.

Lemma ensure_done n (w w' : world) u :
  ensure_state n w = (Ok u, w') →
  w'.(World.provider) = w.(World.provider) ∧ w'.(World.log) = w.(World.log).
Proof. unfold ensure_state. go_run. by destruct (_ !! n); intros [= _ <-]. Qed.

(** What is known of the state of the request between the stages. *)
Definition state_of (n : NamespacedName) (P : state_t → Prop) (w : world) : Prop :=
  ∃ s, w.(World.ProvidersReconcileState) !! n = Some s ∧ P s.
Lemma state_of_mono n (P Q : state_t → Prop) w :
  (∀ s, P s → Q s) → state_of n P w → state_of n Q w.
Proof. intros HPQ (s & Hs & HP). exists s. auto. Qed.

Lemma the_state_bind {A} n (f : state_t → goM world Result.t A) (w w' : world) a :
  (the_state n ≫= f) w = (Ok a, w') →
  ∃ s, w.(World.ProvidersReconcileState) !! n = Some s ∧ f s w = (Ok a, w').
Proof.
  intros (s & w1 & Hs & Hf)%goM_bind_Ok. exists s. unfold the_state in Hs.
  by destruct (_ !! n); simplify_eq.
Qed.

(** The recorded version of a ConfigMap that was not found is forgotten. *)
Definition forgotten (existing : ConfigMap.t) (s : state_t) : Prop :=
  s.(ReconciliationState.ExistingK8sSecrets) = ∅
  ∧ (existing.(ConfigMap.Meta).(ObjectMeta.Name) = EmptyString →
     s.(ReconciliationState.ConfigMapResourceVersion) = None).

Lemma forget_done n cm ss (w w' : world) u :
  w.(World.provider).(Provider.Spec).(Spec.Secret) = None →
  forget_versions n cm ss w = (Ok u, w') →
  state_of n (forgotten cm) w' ∧ w'.(World.provider) = w.(World.provider)
  ∧ w'.(World.log) = w.(World.log).
Proof.
  intros Hsec. unfold forget_versions. go_run. rewrite Hsec.
  intros (s & Hs & Hr)%the_state_bind. unfold put_state, modify in Hr. cbv zeta in Hr.
  injection Hr as _ <-. split; [|done]. eexists. split; [apply lookup_insert_eq|].
  split; [done|]. intros ->. done.
Qed.

Lemma manager_done n cm (w w' : world) m :
  state_of n (forgotten cm) w → client_manager n w = (Ok m, w') →
  state_of n (forgotten cm) w' ∧ w'.(World.provider) = w.(World.provider)
  ∧ w'.(World.log) = w.(World.log).
Proof.
  intros (s0 & Hs0 & Hf). unfold client_manager. go_run.
  intros (s & Hs & Hr)%the_state_bind. assert (s0 = s) as -> by congruence. cbv zeta in Hr.
  assert (∀ o, match o with
     | Ok m => _ ← put_state n (s <| ReconciliationState.ClientManager := Some m |>); mret m
     | Err err => fail err
     | Panic => lift Panic
     end w = (Ok m, w') →
     state_of n (forgotten cm) w' ∧ w'.(World.provider) = w.(World.provider)
     ∧ w'.(World.log) = w.(World.log)) as Hfresh.
  { intros [m'|err|]; [go_run|by intros Hr'%fail_stops|done]. intros [= _ <-].
    split; [|done]. eexists. split; [apply lookup_insert_eq|exact Hf]. }
  destruct (ReconciliationState.ClientManager s); [|by eapply Hfresh].
  destruct (_ =? _)%Z; [|by eapply Hfresh]. injection Hr as _ <-.
  split; [|done]. by exists s.
Qed.

(** What the run of the processor leaves: a ConfigMap to write, or the version
    of the one that is there. *)
Definition to_write (existing : ConfigMap.t) (p : Processor.t M L) : Prop :=
  p.(Processor.RefreshOptions).(RefreshOptions.SecretSettingPopulated) = false
  ∧ (p.(Processor.RefreshOptions).(RefreshOptions.ConfigMapSettingPopulated) = true
     ∨ existing.(ConfigMap.Meta).(ObjectMeta.Name) ≠ EmptyString
       ∧ p.(Processor.State).(ReconciliationState.ConfigMapResourceVersion)
         = Some existing.(ConfigMap.Meta).(ObjectMeta.ResourceVersion)).

(** The parts of the state that only the writes and [Finish] change. *)
Definition loaded (rv : option string) (s : state_t) : Prop :=
  s.(ReconciliationState.ExistingK8sSecrets) = ∅
  ∧ is_Some s.(ReconciliationState.ClientManager)
  ∧ s.(ReconciliationState.ConfigMapResourceVersion) = rv.

Lemma populate_done n m cm (w w' : world) p :
  w.(World.provider).(Provider.Spec).(Spec.Secret) = None →
  state_of n (forgotten cm) w → populate n m cm ∅ w = (Ok p, w') →
  to_write cm p
  ∧ state_of n (loaded p.(Processor.State).(ReconciliationState.ConfigMapResourceVersion)) w'
  ∧ w'.(World.provider) = w.(World.provider) ∧ w'.(World.log) = w.(World.log).
Proof.
  intros Hsec (s0 & Hs0 & Hek & Hrv). unfold populate. go_run.
  intros (s & Hs & Hr)%the_state_bind. assert (s0 = s) as -> by congruence. revert Hr. go_run.
  set (p0 := new_processor _ _ _ _).
  destruct (PopulateSettings cm ∅ p0) as [o p'] eqn:Hp. go_run.
  destruct o as [[]|err|]; [|intros Hr|done].
  2:{ exfalso. revert Hr. unfold requeueWhenGetSettingsFailed.
      match goal with |- context [(logAndSetFailStatus err ≫= _) ?w1] =>
        destruct (log_runs err w1) as (t & ph & msg & Hl & _) end.
      rewrite (goM_bind_run _ _ _ _ _ Hl). cbn. destruct (retry_after err); [|done].
      go_run. by destruct (Spec.Endpoint _). }
  intros [= -> <-].
  destruct (PopulateSettings_recorded _ _ _ _ _ Hp) as [Hrec _].
  apply (f_equal snd) in Hrec as Hst. cbn in Hst.
  pose proof (f_equal ReconciliationState.ExistingK8sSecrets Hst) as Hst1.
  pose proof (f_equal ReconciliationState.ConfigMapResourceVersion Hst) as Hst2. cbn in Hst1, Hst2.
  split_and!; [split|eexists; split; [apply lookup_insert_eq|]|done..].
  - by eapply PopulateSettings_no_secret.
  - destruct (shouldReconcile p0 cm ∅) eqn:Hsr; [left; by eapply PopulateSettings_populates|].
    right. apply should_reconcile_settled in Hsr as (_ & _ & Hv & _). cbn in Hv.
    rewrite Hst2. split; [|done]. intros Hn. by rewrite (Hrv Hn) in Hv.
  - split_and!; [cbn; congruence|by eexists|done].
Qed.

Lemma configmap_written n cm rv (p : Provider.t) settings (w w' : world) u :
  w.(World.provider) = p → n = name_of p →
  read_as p w.(World.log) cm → state_of n (loaded rv) w →
  createOrUpdateConfigMap cm p settings w = (Ok u, w') →
  ∃ cm', current p w'.(World.log) cm'
    ∧ state_of n (loaded (Some cm'.(ConfigMap.Meta).(ObjectMeta.ResourceVersion))) w'
    ∧ w'.(World.provider) = p.
Proof.
  intros Hp -> Hcm (s0 & Hs0 & Hek & Hm & _). unfold createOrUpdateConfigMap. cbv zeta.
  assert (∀ v (w1 w2 : world), World.ProvidersReconcileState w1 = World.ProvidersReconcileState w →
    set_configmap_version (name_of p) v w1 = (Ok u, w2) →
    state_of (name_of p) (loaded (Some v)) w2 ∧ World.log w2 = World.log w1
    ∧ World.provider w2 = World.provider w1) as Hset.
  { intros v w1 w2 Ht (s & Hs & [= _ <-])%the_state_bind. rewrite Ht in Hs.
    assert (s0 = s) as -> by congruence. split; [|done].
    eexists. split; [apply lookup_insert_eq|done]. }
  destruct (shouldCreateOrUpdateConfigMap _ _ _) eqn:Hw; cbn [negb].
  - unfold target_meta. destruct (SetControllerReference _ _) as [m'|err|] eqn:Ho.
    2:{ intros (? & ? & Hr%fail_stops & _)%goM_bind_Ok. done. }
    2:{ done. }
    destruct (quiet_owner _ _ _ Ho) as (Hown & Hname & Hns).
    go_run. unfold call, mbind, goM_bind. cbv zeta.
    set (obj := ConfigMap.mk _ _).
    destruct (write_configmap (World.log w) obj) as [cm'|err|] eqn:Hwr; cbn;
      [|by intros Hr%fail_stops|done].
    intros (Hst & Hlog & Hpr)%Hset; [|done]. exists cm'.
    split_and!; [|done|by rewrite Hpr].
    destruct (quiet_write _ _ _ Hwr) as [Hg Hrefs].
    change (ObjectMeta.Namespace (ConfigMap.Meta obj)) with (ObjectMeta.Namespace m') in Hg, Hrefs.
    change (ObjectMeta.Name (ConfigMap.Meta obj)) with (ObjectMeta.Name m') in Hg, Hrefs.
    rewrite Hns, Hname in Hg, Hrefs. cbn in Hg, Hrefs.
    split; [by rewrite Hlog|]. intros _. unfold owned_by. rewrite Hrefs.
    destruct Hcm as [[Hcur Ha]|(_ & err & -> & _)]; [|exact Hown].
    rewrite Hcur. apply Ha. by eapply quiet_named.
  - intros (Hst & Hlog & Hpr)%Hset; [|done]. exists cm. rewrite Hlog, Hpr.
    split_and!; [|done..].
    destruct Hcm as [Hcm|[-> _]]; [exact Hcm|done].
Qed.

Lemma write_done n cm (p : Processor.t M L) (w w' : world) k8s :
  w.(World.provider).(Provider.Spec).(Spec.Secret) = None →
  n = name_of w.(World.provider) → read_as w.(World.provider) w.(World.log) cm →
  to_write cm p → target w.(World.provider) ≠ EmptyString →
  state_of n (loaded p.(Processor.State).(ReconciliationState.ConfigMapResourceVersion)) w →
  write_targets p cm ∅ w = (Ok k8s, w') →
  w'.(World.provider) = w.(World.provider)
  ∧ ∃ cm', current w.(World.provider) w'.(World.log) cm'
    ∧ state_of n (loaded (Some cm'.(ConfigMap.Meta).(ObjectMeta.ResourceVersion))) w'.
Proof.
  intros Hsec Hn Hcm [Hs Hw] Htn Hst. unfold write_targets. go_run. cbv zeta. rewrite Hs, Hsec.
  intros (u & w1 & Hcreate & Hr)%goM_bind_Ok.
  assert (w' = w1) as -> by (revert Hr; go_run; unfold expelRemovedSecrets;
    rewrite (proj2 (range_map_nil _) eq_refl); by intros [= _ <-]).
  destruct (RefreshOptions.ConfigMapSettingPopulated _).
  - destruct (configmap_written n cm _ _ _ _ _ u eq_refl Hn Hcm Hst Hcreate)
      as (cm' & Hc & Hst' & Hp). eauto.
  - injection Hcreate as _ <-. split; [done|]. destruct Hw as [?|[Hne Hrv]]; [done|].
    rewrite Hrv in Hst. exists cm. split; [|exact Hst].
    destruct Hcm as [Hcm|[-> _]]; [exact Hcm|done].
Qed.

(** *** What [Finish] records *)

(** The parts of the state that the results of a refresh do not touch. *)
Definition kept_parts (s : state_t) :=
  (s.(ReconciliationState.Generation), s.(ReconciliationState.Annotations),
   s.(ReconciliationState.ExistingK8sSecrets), s.(ReconciliationState.ClientManager),
   s.(ReconciliationState.ConfigMapResourceVersion)).

Lemma commit_parts (p : Processor.t M L) :
  p.(Processor.RefreshOptions).(RefreshOptions.SecretSettingPopulated) = false →
  let s := p.(Processor.State) in
  kept_parts (commit p)
  = (p.(Processor.Provider).(Provider.Generation), p.(Processor.Provider).(Provider.Annotations),
     s.(ReconciliationState.ExistingK8sSecrets), s.(ReconciliationState.ClientManager),
     s.(ReconciliationState.ConfigMapResourceVersion)).
Proof. intros Hs. unfold commit. cbv zeta. rewrite Hs. by repeat case_match. Qed.

Lemma commit_refresh_parts (p : Processor.t M L) :
  kept_parts (commit_refresh p).(Processor.State) = kept_parts p.(Processor.State).
Proof. unfold commit_refresh. by repeat case_match. Qed.

Lemma Finish_parts t (p : Processor.t M L) :
  kept_parts (Finish t p).2.(Processor.State) = kept_parts (commit p).
Proof.
  unfold Finish. cbv zeta. destruct (_ && _); cbn [snd]; [done|apply commit_refresh_parts].
Qed.

Lemma finish_done n (p : Processor.t M L) k8s rv (w w' : world) r :
  p.(Processor.RefreshOptions).(RefreshOptions.SecretSettingPopulated) = false →
  state_of n (loaded rv) w → finish n p k8s w = (Ok r, w') →
  state_of n (λ s, loaded rv s
    ∧ s.(ReconciliationState.Generation) = w.(World.provider).(Provider.Generation)
    ∧ s.(ReconciliationState.Annotations) = w.(World.provider).(Provider.Annotations)) w'
  ∧ w'.(World.log) = w.(World.log).
Proof.
  intros Hs (s0 & Hs0 & Hl). unfold finish. do 5 go_run.
  intros (s & Hn & Hr)%the_state_bind. assert (s0 = s) as -> by (cbn in Hn; congruence).
  revert Hr. go_run.
  match goal with |- context [Finish ?t ?q] =>
    pose proof (Finish_parts t q) as Hf; rewrite (commit_parts q Hs) in Hf;
    destruct (Finish t q) as [r' q'] end.
  cbn in Hf. injection Hf as Hg Ha He Hm Hv. do 2 go_run. intros [= _ <-]. split; [|done].
  eexists. split; [apply lookup_insert_eq|]. unfold loaded in *. cbn. rewrite He, Hm, Hv.
  by destruct Hl as (? & ? & ?).
Qed.

(** The stages after the start, together. *)
Lemma after_start_records n (w w' : world) r :
  n = name_of w.(World.provider) →
  w.(World.provider).(Provider.Spec).(Spec.Secret) = None →
  target w.(World.provider) ≠ EmptyString →
  after_start (L:=L) n w = (Ok r, w') →
  valid_spec w.(World.provider).(Provider.Spec)
  ∧ ∃ cm, current w.(World.provider) w'.(World.log) cm
    ∧ state_of n (λ s, is_Some s.(ReconciliationState.ClientManager)
                       ∧ in_step w.(World.provider) s cm ∅) w'.
Proof.
  intros Hn Hsec Htn. unfold after_start.
  intros (u1 & w1 & [-> Hv]%check_spec_done & Hr)%goM_bind_Ok. split; [exact Hv|].
  apply goM_bind_Ok in Hr as (cm & w2 & (Hcm & e & -> & He)%existing_configmap_done & Hr).
  apply goM_bind_Ok in Hr as (u2 & w3 & [Hp3 Hl3]%ensure_done & Hr).
  apply goM_bind_Ok in Hr as (ss & w4 & Hr4 & Hr).
  assert (ss = ∅ ∧ w4 = w3) as [-> ->].
  { revert Hr4. unfold existing_secrets. go_run. rewrite Hp3. cbn. rewrite Hsec.
    by intros [= <- <-]. }
  cbn in Hp3, Hl3.
  apply goM_bind_Ok in Hr as (u3 & w5 & (Hs5 & Hp5 & Hl5)%forget_done & Hr); [|by rewrite Hp3].
  apply goM_bind_Ok in Hr as (m & w6 & Hr6 & Hr).
  destruct (manager_done _ _ _ _ _ Hs5 Hr6) as (Hs6 & Hp6 & Hl6).
  apply goM_bind_Ok in Hr as (p & w7 & Hr7 & Hr).
  destruct (populate_done n m cm w6 w7 p) as (Hw & Hs7 & Hp7 & Hl7); [congruence|done..|].
  apply goM_bind_Ok in Hr as (k8s & w8 & Hr8 & Hr).
  assert (World.provider w7 = World.provider w) as Hp by congruence.
  assert (read_as (World.provider w) (World.log w7) cm) as Hcm7.
  { rewrite Hl7, Hl6, Hl5, Hl3. unfold read_as.
    destruct Hcm as [Hcm|(-> & err & Hg & Hnf)]; [left; apply current_reads; [by repeat constructor|done]|right].
    split; [done|]. exists err. split; [|done]. by rewrite quiet_reads. }
  destruct (write_done n cm p w7 w8 k8s) as (Hp8 & cm' & Hc & Hs8); rewrite ?Hp; [done..|].
  destruct (finish_done _ _ _ _ _ _ _ (proj1 Hw) Hs8 Hr) as [(s & Hn9 & Hl9 & Hg & Ha) Hlog].
  rewrite Hp in Hc. rewrite Hp8, Hp in Hg, Ha. exists cm'. split; [by rewrite Hlog|].
  exists s. split; [done|]. destruct Hl9 as (Hek & Hman & Hrv). split; [done|].
  constructor; [done..| |].
  - rewrite Hek, Hsec. split; [set_solver|done].
  - intros name md s'. rewrite Hek. by intros ?%lookup_empty_Some.
Qed.
(** Only the status of the provider may differ. *)
Lemma current_bare p p' log cm : bare p' = bare p → current p log cm → current p' log cm.
Proof.
  intros Hb [Hg Ha]. pose proof (f_equal Provider.UID Hb) as Hu.
  pose proof (f_equal Provider.Name Hb) as Hn. pose proof (f_equal Provider.Spec Hb) as Hs.
  pose proof (f_equal Provider.Namespace Hb) as Hns. cbn in Hu, Hn, Hs, Hns.
  unfold current, accepted, owned_by. rewrite Hu, Hn, Hs, Hns. by split.
Qed.
Lemma in_step_bare p p' (s : state_t) cm ss :
  bare p' = bare p → in_step p s cm ss → in_step p' s cm ss.
Proof.
  intros Hb [Hg Ha Hc Hsec Hv]. pose proof (f_equal Provider.Generation Hb) as Hg'.
  pose proof (f_equal Provider.Annotations Hb) as Ha'.
  pose proof (f_equal Provider.Spec Hb) as Hs'. cbn in Hg', Ha', Hs'.
  constructor; [by rewrite Hg'|by rewrite Ha'|done|by rewrite Hs'|done].
Qed.

Lemma Reconcile_records n (w w' : world) provider r :
  get_provider w.(World.log) n = Ok provider → n = name_of provider →
  provider.(Provider.Spec).(Spec.Secret) = None → target provider ≠ EmptyString →
  Reconcile (L:=L) n w = (Ok r, w') → phase w' = PhaseComplete →
  valid_spec provider.(Provider.Spec)
  ∧ ∃ cm s, current provider w'.(World.log) cm
    ∧ w'.(World.ProvidersReconcileState) !! n = Some s
    ∧ is_Some s.(ReconciliationState.ClientManager) ∧ in_step provider s cm ∅.
Proof.
  intros Hget Hn Hsec Htn. unfold Reconcile. cbv zeta. rewrite Hget.
  set (w0 := _ <| World.provider := provider |>). intros Hr Hph.
  destruct (decide (phase w0 = PhaseRunning)) as [Hrun|Hrun].
  { unfold reconcile_body, mbind at 1, goM_bind at 1 in Hr. rewrite (start_running _ Hrun) in Hr.
    assert (w' = patch_loop RetryAttempt w0) as -> by (by injection Hr as _ <-).
    revert Hph. unfold phase.
    rewrite (proj1 (patch_loop_log RetryAttempt w0)). unfold phase in Hrun. by rewrite Hrun. }
  destruct (start_runs w0 Hrun) as (st & Hstart & _).
  set (w1 := w0 <| World.provider := _ |>) in Hstart.
  assert (reconcile_body n w0 = after_start n w1) as Hb
    by (unfold reconcile_body, after_start; by rewrite (goM_bind_run _ _ _ _ _ Hstart)).
  rewrite Hb in Hr. pose proof (after_start_phase _ n w1 eq_refl) as Ha.
  destruct (after_start n w1) as [o w2] eqn:Hafter.
  destruct (patch_loop_log RetryAttempt w2) as (Hp & Ht & l & Hl & Hf & _).
  assert (w' = patch_loop RetryAttempt w2) as -> by (destruct o; congruence).
  unfold phase in Hph. rewrite Hp in Hph. destruct o as [r'|r'|]; [|exfalso|done].
  2:{ destruct Ha as [[Hfail|Hfail] _]; unfold phase in Hfail; congruence. }
  destruct (after_start_records n w1 w2 r') as (Hv & cm & Hc & s & Hs & Hm & Hi); [done..|].
  split; [exact Hv|]. exists cm, s. rewrite Hl, Ht. split_and!; [|done..|].
  - apply current_reads; [|by eapply current_bare; [|exact Hc]].
    eapply Forall_impl; [exact Hf|]. by intros e [o ->].
  - by eapply in_step_bare; [|exact Hi].
Qed.

Lemma Reconcile_twice n (w w' : world) provider provider' r :
  get_provider w.(World.log) n = Ok provider → n = name_of provider →
  provider.(Provider.Spec).(Spec.Secret) = None → target provider ≠ EmptyString →
  Reconcile (L:=L) n w = (Ok r, w') → phase w' = PhaseComplete →
  get_provider w'.(World.log) n = Ok provider' → bare provider' = bare provider →
  provider'.(Provider.Status).(Status.Phase) ≠ PhaseRunning →
  (∀ s l, w'.(World.ProvidersReconcileState) !! n = Some s → Forall reading l →
     none_due (Now (w'.(World.log) ++ l)) provider.(Provider.Spec) s) →
  ∃ r2 w2 l, Reconcile (L:=L) n w' = (Ok r2, w2) ∧ phase w2 = PhaseComplete
    ∧ w2.(World.log) = w'.(World.log) ++ l ∧ Forall reading l
    ∧ ∃ s s', w'.(World.ProvidersReconcileState) !! n = Some s
      ∧ w2.(World.ProvidersReconcileState) = <[n := s']> w'.(World.ProvidersReconcileState)
      ∧ untimed s' = untimed s.
Proof.
  intros Hget Hn Hsec Htn Hr Hph Hget' Hb Hph' Hdue.
  destruct (Reconcile_records n w w' provider r) as (Hv & cm & s & Hc & Hs & [m Hm] & Hi);
    [done..|].
  pose proof (f_equal Provider.Spec Hb) as Hspec. cbn in Hspec.
  destruct (Reconcile_idle_runs manager_of_new n w' provider' s m cm ∅)
    as (r2 & w2 & s' & l & Hr2 & Hph2 & Ht2 & Hu2 & Hl2 & Hf2); [done|done|by rewrite Hspec|done..| | | |].
  - apply current_holds; [by rewrite Hspec|]. apply current_reads; [by repeat constructor|].
    by eapply current_bare.
  - by eapply in_step_bare.
  - intros l Hl. rewrite Hspec. by apply Hdue.
  - exists r2, w2, l. split_and!; [done..|]. by exists s, s'.
Qed.
End recording.

(** ** The theorems *)

(** C16: A provider in step with the cluster is left alone: when the generation,
    the annotations, the ConfigMap and the Secrets are those recorded and no
    refresh is due, [Reconcile] completes, and the only calls it makes are
    reads and the patch of the status; of the table of states at most the
    timers of the provider change. *)
Theorem Reconcile_idle `{Unicode} `{IPLiterals} `{UUIDParser}
    `{WorkloadEnv} `{Yaml2} `{MapOrder} `{Kube} {M L} `{!LoaderOf M L}
    n (w : World.t M) provider state m cm ss :
  (∀ p m, manager_of (new_loader (L:=L) p m) = m) →
  get_provider w.(World.log) n = Ok provider →
  provider.(Provider.Status).(Status.Phase) ≠ PhaseRunning →
  valid_spec provider.(Provider.Spec) →
  w.(World.ProvidersReconcileState) !! n = Some state →
  state.(ReconciliationState.ClientManager) = Some m →
  holds_objects (w.(World.log) ++ [GotProvider n (Ok provider)]) provider cm ss →
  in_step provider state cm ss →
  (∀ l, Forall reading l →
     none_due (Now (w.(World.log) ++ l)) provider.(Provider.Spec) state) →
  ∃ r w' state' l, Reconcile (L:=L) n w = (Ok r, w') ∧ phase w' = PhaseComplete
    ∧ w'.(World.ProvidersReconcileState) = <[n := state']> w.(World.ProvidersReconcileState)
    ∧ untimed state' = untimed state
    ∧ w'.(World.log) = w.(World.log) ++ l ∧ Forall reading l.
Proof. intros Hm. by apply Reconcile_idle_runs. Qed.

(** C2: Reconciling converges: in a cluster where nobody else writes, after a
    reconciliation of a provider without a target Secret that completed, the
    next one of the same provider, when no refresh is due before it, finds
    everything recorded: it completes with reads and a patch of the status
    only, and at most the timers of the state change. *)
Theorem Reconcile_converges `{Unicode} `{IPLiterals} `{UUIDParser}
    `{WorkloadEnv} `{Yaml2} `{MapOrder} `{KubeQuiet} {M L} `{!LoaderOf M L}
    n (w w' : World.t M) provider provider' r :
  (∀ p m, manager_of (new_loader (L:=L) p m) = m) →
  get_provider w.(World.log) n = Ok provider → n = name_of provider →
  provider.(Provider.Spec).(Spec.Secret) = None →
  provider.(Provider.Spec).(Spec.Target).(Target.ConfigMapName) ≠ EmptyString →
  Reconcile (L:=L) n w = (Ok r, w') → phase w' = PhaseComplete →
  get_provider w'.(World.log) n = Ok provider' → bare provider' = bare provider →
  provider'.(Provider.Status).(Status.Phase) ≠ PhaseRunning →
  (∀ s l, w'.(World.ProvidersReconcileState) !! n = Some s → Forall reading l →
     none_due (Now (w'.(World.log) ++ l)) provider.(Provider.Spec) s) →
  ∃ r2 w2 l, Reconcile (L:=L) n w' = (Ok r2, w2) ∧ phase w2 = PhaseComplete
    ∧ w2.(World.log) = w'.(World.log) ++ l ∧ Forall reading l
    ∧ ∃ s s', w'.(World.ProvidersReconcileState) !! n = Some s
      ∧ w2.(World.ProvidersReconcileState) = <[n := s']> w'.(World.ProvidersReconcileState)
      ∧ untimed s' = untimed s.
Proof. intros Hm. by apply Reconcile_twice. Qed.

(** ** Concrete inputs *)

Module ConvergenceWitness.
Import ValidationWitness ReconcilerWitness.

(** A cluster whose ConfigMaps are those written, and whose clock stands. *)
Definition store_configmap (ns name : string) (o : result ConfigMap.t) (e : event)
    : result ConfigMap.t :=
  match e with
  | WroteConfigMap _ (Ok cm) =>
    if decide (cm.(ConfigMap.Meta).(ObjectMeta.Namespace) = ns
               ∧ cm.(ConfigMap.Meta).(ObjectMeta.Name) = name) then Ok cm else o
  | _ => o
  end.
Definition stored (log : list event) (ns name : string) : result ConfigMap.t :=
  foldl (store_configmap ns name) not_found log.
Definition owners (o : result ConfigMap.t) (obj : ObjectMeta.t) : list OwnerReference.t :=
  match o with
  | Ok old => old.(ConfigMap.Meta).(ObjectMeta.OwnerReferences)
  | _ => obj.(ObjectMeta.OwnerReferences)
  end.
Definition own (p : Provider.t) : OwnerReference.t :=
  OwnerReference.mk GroupVersion ProviderName p.(Provider.Name) p.(Provider.UID).
Definition cluster (p : Provider.t) : Kube := {|
  get_provider _ _ := Ok p;
  get_configmap := stored;
  get_secret _ _ _ := not_found;
  write_configmap log obj :=
    let m := obj.(ConfigMap.Meta) in
    Ok (obj <| ConfigMap.Meta := m
      <| ObjectMeta.ResourceVersion := pretty (length log) |>
      <| ObjectMeta.OwnerReferences :=
           owners (stored log m.(ObjectMeta.Namespace) m.(ObjectMeta.Name)) m |> |>);
  write_secret _ obj := Ok obj;
  delete_secret _ _ _ := Ok tt;
  patch_status _ _ := Ok tt;
  Now _ := ProcessorWitness.t0;
  utc_string _ := "now";
  SetControllerReference p m := Ok (m <| ObjectMeta.OwnerReferences := [own p] |>);
|}.

Lemma cluster_quiet p : @KubeQuiet (cluster p).
Proof.
  constructor; cbn.
  - intros log e ns name He. unfold stored. rewrite foldl_app. cbn. by destruct e.
  - intros log obj cm [= <-]. unfold stored. rewrite foldl_app. cbn.
    split; [by rewrite decide_True|done].
  - intros log ns name cm. unfold stored. induction log as [|e log IH] using rev_ind; [done|].
    rewrite foldl_app. cbn. destruct e as [| | |obj [cm'| |]| | |]; cbn; try exact IH.
    case_decide as Hd; [|exact IH]. intros [= ->]. apply Hd.
  - intros q m m' [= <-]. split; [|done]. unfold owned_by. cbn. by left.
Qed.

Definition p0 : Provider.t := at_phase NoPhase.
Definition once := @Reconcile _ _ _ _ _ _ (cluster p0) _ _ loader_of key world.
End ConvergenceWitness.
Import ValidationWitness ReconcilerWitness ConvergenceWitness.

Lemma Reconcile_converges_witness :
  ∃ r2 w2 l, @Reconcile _ _ _ _ _ _ (cluster p0) _ _ loader_of key once.2 = (Ok r2, w2)
    ∧ phase w2 = PhaseComplete ∧ w2.(World.log) = once.2.(World.log) ++ l ∧ Forall reading l.
Proof.
  edestruct (@Reconcile_converges _ _ _ _ _ _ (cluster p0) (cluster_quiet p0) _ _ loader_of
    key world once.2 p0 p0 (Result.mk true (30 * Time.Second)%Z))
    as (r2 & w2 & l & Hr & Hp & Hl & Hf & _);
    [by intros p []|reflexivity|reflexivity|reflexivity|done|vm_compute; reflexivity
    |vm_compute; reflexivity|reflexivity|reflexivity|done|
    |exists r2, w2, l; exact (conj Hr (conj Hp (conj Hl Hf)))].
  intros s l Hs _. symmetry in Hs. vm_compute in Hs. injection Hs as Hs. rewrite Hs.
  split_and!; intros Hd; first [vm_compute; reflexivity|by destruct Hd].
Defined.

Module IdleWitness.
Import ProcessorWitness.
(** The ConfigMap and the Secret recorded in [ProcessorWitness.state] are
    there, owned by the provider. *)
Definition owned (name rv : string) : ObjectMeta.t :=
  ObjectMeta.mk name "ns" rv ∅ ∅ [own provider].
Definition cm : ConfigMap.t := ConfigMap.mk (owned "cm" "rc") (Some {["k" := "v"]}).
Definition secret : Secret.t := Secret.mk (owned "secret" "rs") SecretTypeOpaque None.
Definition frozen : Kube := {|
  get_provider _ _ := Ok provider;
  get_configmap _ _ _ := Ok cm;
  get_secret _ _ _ := Ok secret;
  write_configmap _ _ := not_found;
  write_secret _ _ := not_found;
  delete_secret _ _ _ := not_found;
  patch_status _ _ := Ok tt;
  Now _ := t0;
  utc_string _ := "now";
  SetControllerReference _ m := Ok m;
|}.
Definition recorded_world : World.t unit :=
  World.mk _ [] {[key := state later later]} provider.
End IdleWitness.

Lemma Reconcile_idle_witness :
  ∃ r w' l, @Reconcile _ _ _ _ _ _ IdleWitness.frozen _ _ loader_of key
              IdleWitness.recorded_world = (Ok r, w')
    ∧ phase w' = PhaseComplete ∧ w'.(World.log) = l ∧ Forall reading l.
Proof.
  edestruct (@Reconcile_idle _ _ _ _ _ _ IdleWitness.frozen _ _ loader_of key
    IdleWitness.recorded_world ProcessorWitness.provider
    (ProcessorWitness.state ProcessorWitness.later ProcessorWitness.later) tt
    IdleWitness.cm {["secret" := IdleWitness.secret]})
    as (r & w' & s & l & Hr & Hp & _ & _ & Hl & Hf);
    [by intros p []|reflexivity|done|by apply verifyObject_Ok|reflexivity|reflexivity| | | |].
  - constructor; [done|intros _; by left|done| |].
    + intros l name s _ [<- <-]%lookup_singleton_Some. done.
    + intros name s [<- <-]%lookup_singleton_Some _. by left.
  - constructor; [done..| |].
    + split; [by rewrite dom_singleton_L; vm_compute|by eexists].
    + intros name md s Hmd [<- <-]%lookup_singleton_Some.
      by injection Hmd as <-.
  - intros l _. split_and!; intros Hd; first [vm_compute; reflexivity|by destruct Hd].
  - exists r, w', l. exact (conj Hr (conj Hp (conj Hl Hf))).
Defined.
